(* ===== verification/_CoqProject ===== *)
-Q . S2P
Prelude.v
Net.v
Checksum.v
Packet.v
PacketFacts.v
PacketRewrite.v
PacketProps.v
PacketTheorems.v
NatTable.v
NatProps.v
Session.v
SessionProps.v
SessionTheorems.v
QuicFlow.v
QuicFlowProps.v
Dns.v
Text.v
Dispatch.v
Inner.v
InnerProps.v
Auth.v
AuthProps.v
AuthClaims.v
Engine.v
EngineProps.v
EngineSteady.v
Routing.v
DnsProps.v
Worker.v
WorkerProps.v
WorkerDns.v
WorkerTheorems.v
WorkerRun.v
WorkerClaims.v
Frame.v
FrameFacts.v
FrameProps.v
PublicPrefixes.v
FrameClaims.v
Encap.v
EncapProps.v
EncapPackets.v
EncapClaims.v
FlowLoop.v
FlowLoopFacts.v
FlowLoopProps.v
FlowLoopInv.v
FlowLoopClaims.v
FlowLoopQueues.v
Config.v
ConfigSample.v
ConfigProps.v
ConfigSafety.v
ConfigClaims.v
Setup.v
SetupProps.v
SetupClaims.v
Xsk.v
XskProps.v
XskClaims.v
Stats.v
StatsClaims.v
IoLoop.v
IoLoopProps.v
IoLoopClaims.v
PortReservation.v
BpfMaps.v
BpfProps.v
BpfClaims.v
Loader.v
LoaderClaims.v
