(* ===== verification/Prelude.v ===== *)
(** * A verification of new_proxy's datapath

    new_proxy is a transparent proxy built on AF_XDP.  I/O threads take packets from network
    queues and hand them to flow workers; each flow worker owns a session table with a
    source-NAT, answers or forwards DNS queries, and exchanges inner packets with its peer
    over one authenticated QUIC connection.  The development models that program from the
    text of its configuration to the bytes of its frames and the rings of its sockets: the
    configuration parser, the set-up, the policy tables and the attachment of the filter in
    the kernel, the I/O threads with their sockets and wake-ups, the flow loop, the tables
    of a flow worker, the QUIC engine and the statistics.  It is a shallow embedding, and every
    definition named below is executable.

    ** How the code is modelled

    - A Rust function that may fail or panic returns an [outcome]: [Ok], [Err] or [Panic]
      (an index or slice out of range, a failed [expect], a subtraction below zero, and a
      loop that runs out of the fuel the model gives it).  "Never panics" is therefore a
      theorem, and includes the termination of the loops.
    - A method on [&mut self] is a computation [ST] on the state, which keeps the state after
      an error.  Methods that cannot fail return the new state.
    - A [w]-bit integer is a [Z] with [wrap] where the code wraps; [usize] lengths and offsets
      are [nat].  Bytes are [Z]s below 256, byte strings are lists.  [HashMap] and [HashSet]
      are [gmap] and [gset]; no theorem depends on their iteration order (where the order is
      visible, in the configuration parser, it is the parameter [WalkOrder]).  A Rust string
      is a list of code points, with its length and its slices counted in UTF-8 bytes
      ([Text]).
    - [Instant::now()] is an argument.  Instants and durations count nanoseconds.
    - Code outside the repository is a parameter: the QUIC library is the type classes
      [Transport] (one connection) and [EndpointOps] (the endpoint), HMAC-SHA256 is a function
      argument, the [ipnet] crate is [IpNetOps], the file system [FileSystem], the maker of
      AF_XDP sockets [XskFactory], the hash of a DNS transaction key and the output of
      [bpftool net show] are functions.  What the theorems need of them is named
      ([transport_laws], [datagram_laws], [WalkOrderLaws], [ipnet_rebuilds], [files_return],
      [prefix_laws], [shows_attached]) and has an instance in the samples.
    - The operating system is the other side of step relations and fallible operations: the
      kernel's end of the AF_XDP rings ([kernel_step]), the eventfd, the disk, the BPF maps
      and the attachment of a program behave as they are documented and fail where a fault
      argument says so.
    - The flow loop calls its engine through the class [EngineOps]; the engine of [Engine] is
      an instance, and so is a list of scripted events, on which the examples run.  Its
      theorems hold for every engine.

    ** The files

    - [Prelude]: outcomes, state computations, machine integers, byte strings, hint databases.
    - [Net] ([flow_plane/packet.rs], [mod.rs], [io_registry.rs]): addresses, flow keys,
      identifiers.
    - [Checksum], [Packet] ([flow_plane/packet.rs]): the Internet checksum; parsing,
      fragmentation test, MSS clamp, UDP payloads, hop limit, checksum validation and NAT
      rewriting of IPv4 and IPv6 packets.  [PacketFacts], [PacketRewrite], [PacketProps] and
      [PacketTheorems] prove it.
    - [NatTable] ([nat.rs]): the NAT table with its reuse quarantine and the reverse directory
      the workers share; proved in [NatProps].
    - [Session] ([session.rs]): sessions, TCP state, deadlines; proved in [SessionProps] and
      [SessionTheorems], where [session_table_refines] relates it to one abstract map.
    - [QuicFlow] ([quic_flow.rs], [io_registry.rs]): placement by hash, the index of connection
      identifiers, the I/O registry; proved in [QuicFlowProps].
    - [Dns] ([dns.rs]): the message walker, domain rules, EDNS clamp, response matching and
      transaction table; proved in [DnsProps].
    - [Dispatch] ([worker.rs], [FlowDispatcher]): the bounded channels to the workers, as
      interleaved steps on shared queues.
    - [Worker] ([worker.rs], [FlowWorkerState]): interception, the reverse path and DNS
      transactions of one worker; proved in [WorkerProps], [WorkerDns], [WorkerTheorems],
      [WorkerRun] and [WorkerClaims].
    - [Inner] ([quic_engine.rs]): inner packets over QUIC datagrams, whole or in fragments,
      and their reassembly; proved in [InnerProps].
    - [Auth] ([quic_engine.rs]): one managed connection, the HMAC handshake on its stream and
      [drive_connection]; proved in [AuthProps] and [AuthClaims].
    - [Engine] ([quic_engine.rs], [QuicEngine]): the active connection and its candidate,
      promotion and replacement, connection-identifier events, [drive], [handle_outer],
      [send_inner], [poll], [close]; proved in [EngineProps] and [EngineSteady].
    - [Routing] ([xdp_datapath/runtime.rs], [drain_engine]): the server's flow loop as the
      consumer of its engine's identifier events, composed with the index of [QuicFlow].
    - [Frame] ([xdp_datapath/io_worker.rs]): the classifier of the I/O threads, from the
      Ethernet frame to the message for a flow worker; facts in [FrameFacts] and [FrameProps],
      theorems in [FrameClaims], the reserved address blocks in [PublicPrefixes].
    - [Encap] ([runtime.rs], [fill_ethernet_frame], [split_outer_transmit]): the frames the I/O
      threads write; proved in [EncapProps], [EncapPackets] and [EncapClaims], which joins the
      sender's encapsulation to the receiver's classifier.
    - [FlowLoop] ([runtime.rs], [flow_loop], [handle_flow_message], [drain_engine]): one
      iteration of a flow worker and its shutdown, over [Worker], [NatTable], [QuicFlow] and an
      engine; proved in [FlowLoopFacts], [FlowLoopProps] and [FlowLoopInv].  [FlowLoopClaims]
      lets any number of loops run interleaved on the shared directory; [FlowLoopQueues] is
      about the queues.
    - [Text] (the standard library): strings, lines, numbers and socket addresses.
    - [Config] ([v1_config.rs]): the INI reader and the validation of every section; proved in
      [ConfigProps], [ConfigSafety] and [ConfigClaims]; [ConfigSample] has concrete files.
    - [Setup] ([runtime.rs], [PreparedRuntime]): merging of interfaces, sockets, ports, and the
      configurations of the threads; proved in [SetupProps] and [SetupClaims].
    - [Xsk] ([xdp_datapath/xsk.rs]): the four rings of a socket and the memory they share with
      the kernel; rings as lists in [XskProps], theorems in [XskClaims].
    - [Stats] ([stats.rs]): the counters, the published state of the workers and the snapshot
      file; proved in [StatsClaims].
    - [IoLoop] ([runtime.rs], [io_loop], and [io_wakeup.rs]): an I/O thread among its senders
      and the kernel, over [Frame], [Encap], [Xsk] and [Stats]; proved in [IoLoopProps] and
      [IoLoopClaims].
    - [PortReservation] ([port_reservation.rs]): the check of the kernel's reserved ports, with
      its theorem.
    - [BpfMaps] ([runtime.rs], [configure_bpf_maps] and the switching of the filters, and the
      policy part of [xdp_filter.c]); proved in [BpfProps] and [BpfClaims].
    - [Loader] ([loader.rs], [BpfLinkManager]): attaching the filter, the owner record and the
      clean-up; proved in [LoaderClaims].

    ** What the theorems show

    - Packets: no operation panics on any bytes; a rewrite gives exactly the translated flow,
      valid checksums and nothing else changed, and is undone by the reverse rewrite; the
      checksum routine is the one's-complement sum.
    - NAT and sessions: the tables stay consistent under any sequence of calls; a port is
      reused only after its quarantine; a reply is attributed to a session exactly when it
      answers its translated flow; expiry is exact; the TCP state is a function of the flags
      seen.
    - DNS: the walker ends on every payload; names round trip; the hashed rules are suffix
      matching; a response is accepted only for the query it answers.
    - Worker: any sequence of handler calls keeps the invariant and does not panic; what
      becomes of an intercepted packet, a query, a response, a timeout; a reply to a
      translated packet comes back on the client's own flow.
    - Dispatch: each live worker receives, in order, exactly the accepted messages.
    - Inner packets: reassembly is bounded and never panics; a sent packet arrives unchanged
      exactly once, whatever the order of its fragments.
    - Handshake: a connection is authenticated only on the peer's proof over this connection's
      exporter and a nonce of this side; two honest sides authenticate each other; nothing is
      lost on partial writes; the MAC's inputs are separated.
    - Engine and routing: an unauthenticated candidate cannot disturb a healthy connection; the
      shared index routes to a worker only identifiers its engine holds.
    - I/O threads: a frame is passed, dropped, or becomes one message for one worker; the two
      packet parsers and the two connection-identifier parsers agree; new flows go where the
      policy and the flow say; the public addresses are those outside the reserved blocks; an
      encapsulated datagram reaches the peer's worker unchanged.
    - Flow loop: in every state that interleaved workers can reach, the shared directory holds
      exactly the sessions' entries, so that a reply to any live session is dispatched to its
      worker; queues are bounded; packets that wait for the tunnel keep their order.
    - Configuration and set-up: an accepted configuration satisfies every constraint; no ASCII
      text makes the parser panic; keys, addresses and domains take effect as written; the
      ports are partitioned; every queue has one owner; and an accepted configuration starts in
      an initial state of the flow loops, where the theorems above begin.
    - Sockets: through any interleaving with the kernel the rings are two queues of frames,
      every chunk of the memory is in one place, and no access is out of range.
    - I/O loop: no wake-up is lost; frames leave in the order of the messages; the counters
      account for every frame and message; no step panics.
    - Kernel policy: the tables make the filter decide as the classifier does, down to the two
      tests for public addresses; the filters are switched on together or not at all.
      [policy_reload_stops_redirection] shows that a policy reload switches them off.
    - Attachment: a program of others is never disturbed, whatever fails; a crashed owner is
      taken over.
    - Statistics and ports: the snapshot file is replaced atomically; the NAT range is accepted
      exactly when all its ports are reserved.

    ** Fuel and bounds

    Header and name walks get fuel from the length of their input, the checksum fold two
    rounds, the expiry loops the number of entries; that these are enough is part of the
    never-panics theorems.  [flush_loop] gets the number of queued bytes, [drain_frames] the
    number of received ones.  [drive_connection] takes the number of events it may poll as an
    argument: the theorems about it hold for every value.  [drain_engine] takes the number of
    engine events it may handle before it stops: the theorems hold for every number, so for
    every prefix of what the engine yields.  A step of the system asks that the identifiers
    of its worker stay below [2 ^ 62], from where 64-bit session identifiers could meet the
    range of the DNS tokens; an iteration uses at most [8 + 2 * fuel] of them.

    [enqueue_frames], [receive_loop] and the like run as often as the batch is long, and a
    step of the I/O thread is one pass of its innermost loop, so that no fuel is needed there.

    ** Not modelled

    The client side of engine construction ([client_for_worker], [reconnect_client]), which
    draws random identifiers, and the TLS and transport configuration, which are calls of the
    QUIC library; the packet parser of the filter in C ([xdp_filter.c] beyond its policy);
    the system calls that create sockets, maps and threads, install signal handlers and hold
    the interface lock; the rendering of snapshots as JSON; the tests.  The thread that
    supervises the others ([XdpRuntime::run]) is modelled through the operations it calls:
    reloading the maps, reading the counters, writing the snapshot. *)
From Stdlib Require Export ZArith Lia.
From stdpp Require Export base numbers list list_numbers gmap strings sorting.

#[export] Set Default Proof Using "Type".
#[global] Open Scope Z_scope.

(** ** Outcomes

    A Rust function that returns [Result<A, E>] may also panic (an index out of
    range, a slice whose bounds are out of order, a failed [expect]).  [outcome]
    keeps the three endings apart, so "never panics" is a statement about the
    model and not a convention. *)

Inductive outcome (E A : Type) : Type :=
| Ok (a : A)
| Err (e : E)
| Panic.
Arguments Ok {E A} a.
Arguments Err {E A} e.
Arguments Panic {E A}.

Definition obind {E A B : Type} (c : outcome E A) (k : A → outcome E B) : outcome E B :=
  match c with
  | Ok a => k a
  | Err e => Err e
  | Panic => Panic
  end.

(** [Option::ok_or]. *)
Definition ok_or {E A : Type} (o : option A) (e : E) : outcome E A :=
  match o with Some a => Ok a | None => Err e end.

(** [Option::expect]. *)
Definition expect {E A : Type} (o : option A) : outcome E A :=
  match o with Some a => Ok a | None => Panic end.

(** [Result::map_err]. *)
Definition map_err {E E' A : Type} (f : E → E') (c : outcome E A) : outcome E' A :=
  match c with Ok a => Ok a | Err e => Err (f e) | Panic => Panic end.

(** [Result::ok], for a computation whose panics are kept. *)
Definition is_ok {E A : Type} (c : outcome E A) : bool :=
  match c with Ok _ => true | _ => false end.

Definition no_panic {E A : Type} (c : outcome E A) : Prop := c ≠ Panic.

Declare Scope rust_scope.
Delimit Scope rust_scope with rust.
Open Scope rust_scope.

Notation "'let?' x ':=' c 'in' k" := (obind c (λ x, k))
  (at level 10, x binder, c at level 100, k at level 200,
   format "'let?'  x  ':='  c  'in' '//' k") : rust_scope.

(** ** Computations on a mutable value

    [&mut S] methods: the state survives an error or a panic, so an early
    return after a partial update is visible in the model. *)

Definition ST (S E A : Type) : Type := S → outcome E A * S.

Definition sret {S E A : Type} (a : A) : ST S E A := λ s, (Ok a, s).
Definition serr {S E A : Type} (e : E) : ST S E A := λ s, (Err e, s).
Definition sget {S E : Type} : ST S E S := λ s, (Ok s, s).
Definition sput {S E : Type} (s : S) : ST S E unit := λ _, (Ok tt, s).
Definition slift {S E A : Type} (c : outcome E A) : ST S E A := λ s, (c, s).
Definition sreads {S E A : Type} (f : S → outcome E A) : ST S E A := λ s, (f s, s).
Definition sbind {S E A B : Type} (c : ST S E A) (k : A → ST S E B) : ST S E B :=
  λ s, match c s with
       | (Ok a, s') => k a s'
       | (Err e, s') => (Err e, s')
       | (Panic, s') => (Panic, s')
       end.
Definition smap_err {S E E' A : Type} (f : E → E') (c : ST S E A) : ST S E' A :=
  λ s, let '(o, s') := c s in (map_err f o, s').

(** A method of a field of the state. *)
Definition szoom {S T E A : Type} (get : S → T) (set : T → S → S) (c : ST T E A) : ST S E A :=
  λ s, let '(o, t) := c (get s) in (o, set t s).

Notation "'let!' x ':=' c 'in' k" := (sbind c (λ x, k))
  (at level 10, x binder, c at level 100, k at level 200,
   format "'let!'  x  ':='  c  'in' '//' k") : rust_scope.
Notation "c ';;;' k" := (sbind c (λ _, k))
  (at level 199, right associativity, format "c  ';;;' '//' k") : rust_scope.

(** ** Machine integers

    A [w]-bit unsigned integer is a [Z] in [[0, 2^w)]; arithmetic that can wrap
    is written with [wrap]. *)

Definition wrap (w x : Z) : Z := x mod 2 ^ w.
Definition fits (w x : Z) : Prop := 0 ≤ x < 2 ^ w.
#[global] Instance fits_dec w x : Decision (fits w x).
Proof. unfold fits. apply _. Defined.

(** [u64::saturating_add] and friends at width [w]. *)
Definition saturating_add (w x y : Z) : Z := Z.min (x + y) (2 ^ w - 1).

(** [Duration::from_secs]: an instant or a duration is a number of nanoseconds. *)
Definition from_secs (n : Z) : Z := n * 1000000000.

(** [usize] subtraction: below zero the debug build panics. *)
Definition usub {E : Type} (a b : nat) : outcome E nat :=
  if decide (b ≤ a)%nat then Ok (a - b)%nat else Panic.

(** ** Byte strings *)

Abbreviation bytes := (list Z).

Definition is_byte (b : Z) : Prop := 0 ≤ b < 256.
#[global] Instance is_byte_dec b : Decision (is_byte b).
Proof. unfold is_byte. apply _. Defined.

Definition bytes_ok (l : bytes) : Prop := Forall is_byte l.
#[global] Instance bytes_ok_dec l : Decision (bytes_ok l).
Proof. unfold bytes_ok. apply _. Defined.

(** Big-endian words: [uN::from_be_bytes] and [uN::to_be_bytes]. *)
Definition be_val (bs : bytes) : Z := fold_left (λ acc b, acc * 256 + b) bs 0.

Fixpoint be_bytes (n : nat) (x : Z) : bytes :=
  match n with
  | O => []
  | S n => be_bytes n (x / 256) ++ [x mod 256]
  end.

Definition be16 (hi lo : Z) : Z := hi * 256 + lo.

(** Reading: [l[i]], [&l[lo..hi]] and [l.get(lo..hi)]. *)
Definition byte_at (l : bytes) (i : nat) : Z := default 0 (l !! i).
Definition sub (l : bytes) (lo hi : nat) : bytes := take (hi - lo) (drop lo l).

Definition idx {E : Type} (l : bytes) (i : nat) : outcome E Z := expect (l !! i).

Definition get_range (l : bytes) (lo hi : nat) : option bytes :=
  if decide (lo ≤ hi ∧ hi ≤ length l)%nat then Some (sub l lo hi) else None.

Definition slice {E : Type} (l : bytes) (lo hi : nat) : outcome E bytes :=
  expect (get_range l lo hi).

(** [u16::from_be_bytes([l[i], l[i + 1]])]. *)
Definition rd16 {E : Type} (l : bytes) (i : nat) : outcome E Z :=
  let? hi := idx l i in
  let? lo := idx l (i + 1) in
  Ok (be16 hi lo).

(** Writing: [l[lo..lo + bs.len()].copy_from_slice(bs)] and [l[i] = b]. *)
Definition patch (lo : nat) (bs l : bytes) : bytes :=
  take lo l ++ bs ++ drop (lo + length bs) l.

Definition write_at {E : Type} (lo : nat) (bs : bytes) : ST bytes E unit := λ l,
  if decide (lo + length bs ≤ length l)%nat then (Ok tt, patch lo bs l) else (Panic, l).

(** A call on the mutable subslice [&mut l[lo..hi]]. *)
Definition on_slice {E A : Type} (lo hi : nat) (c : ST bytes E A) : ST bytes E A := λ l,
  match get_range l lo hi with
  | Some s => let '(o, s') := c s in (o, patch lo s' l)
  | None => (Panic, l)
  end.

(** ** Lemmas on outcomes *)

Lemma obind_Ok {E A B} (c : outcome E A) (k : A → outcome E B) b :
  obind c k = Ok b ↔ ∃ a, c = Ok a ∧ k a = Ok b.
Proof. destruct c; simpl; naive_solver. Qed.

Lemma no_panic_obind {E A B} (c : outcome E A) (k : A → outcome E B) :
  no_panic c → (∀ a, c = Ok a → no_panic (k a)) → no_panic (obind c k).
Proof. unfold no_panic. destruct c; simpl; naive_solver. Qed.

Lemma ok_or_Ok {E A} (o : option A) (e : E) a : ok_or o e = Ok a ↔ o = Some a.
Proof. destruct o; simpl; naive_solver. Qed.

Lemma expect_Ok {E A} (o : option A) a : expect (E := E) o = Ok a ↔ o = Some a.
Proof. destruct o; simpl; naive_solver. Qed.

Lemma usub_ok {E} a b : (b ≤ a)%nat → usub (E := E) a b = Ok (a - b)%nat.
Proof. intros. unfold usub. by rewrite decide_True. Qed.

Lemma no_panic_Ok {E A} (a : A) : no_panic (E := E) (Ok a).
Proof. done. Qed.

Lemma no_panic_Err {E A} (e : E) : no_panic (A := A) (Err e).
Proof. done. Qed.

Lemma no_panic_ok_or {E A} (o : option A) (e : E) : no_panic (ok_or o e).
Proof. by destruct o. Qed.

(** ** Lemmas on reading *)

Lemma lookup_byte_at (l : bytes) i : (i < length l)%nat → l !! i = Some (byte_at l i).
Proof. intros [b Hb]%lookup_lt_is_Some. unfold byte_at. by rewrite Hb. Qed.

Lemma idx_ok {E} (l : bytes) i : (i < length l)%nat → idx (E := E) l i = Ok (byte_at l i).
Proof. intros H. unfold idx. by rewrite lookup_byte_at. Qed.

Lemma rd16_ok {E} (l : bytes) i : (i + 1 < length l)%nat →
  rd16 (E := E) l i = Ok (be16 (byte_at l i) (byte_at l (S i))).
Proof. intros H. unfold rd16. rewrite Nat.add_1_r, !idx_ok by lia. done. Qed.

Lemma get_range_ok (l : bytes) lo hi : (lo ≤ hi)%nat → (hi ≤ length l)%nat →
  get_range l lo hi = Some (sub l lo hi).
Proof. intros. unfold get_range. by rewrite decide_True by done. Qed.

Lemma get_range_Some (l : bytes) lo hi s : get_range l lo hi = Some s →
  (lo ≤ hi)%nat ∧ (hi ≤ length l)%nat ∧ s = sub l lo hi.
Proof. unfold get_range. case_decide; naive_solver. Qed.

Lemma get_range_None (l : bytes) lo hi : get_range l lo hi = None →
  (hi < lo ∨ length l < hi)%nat.
Proof. unfold get_range. case_decide; [done|]. lia. Qed.

Lemma slice_ok {E} (l : bytes) lo hi : (lo ≤ hi)%nat → (hi ≤ length l)%nat →
  slice (E := E) l lo hi = Ok (sub l lo hi).
Proof. intros. unfold slice. by rewrite get_range_ok. Qed.

Lemma length_sub (l : bytes) lo hi : (hi ≤ length l)%nat → length (sub l lo hi) = (hi - lo)%nat.
Proof. intros. unfold sub. rewrite length_take, length_drop. lia. Qed.

Lemma lookup_sub (l : bytes) lo hi i : (i < hi - lo)%nat → sub l lo hi !! i = l !! (lo + i)%nat.
Proof. intros. unfold sub. by rewrite lookup_take_lt, lookup_drop. Qed.

Lemma byte_at_sub (l : bytes) lo hi i : (i < hi - lo)%nat →
  byte_at (sub l lo hi) i = byte_at l (lo + i).
Proof. intros. unfold byte_at. by rewrite lookup_sub. Qed.

Lemma sub_sub (l : bytes) a b c d : (d ≤ b - a)%nat → sub (sub l a b) c d = sub l (a + c) (a + d).
Proof.
  intros. unfold sub. rewrite skipn_firstn_comm, drop_drop, take_take. f_equal; lia.
Qed.

Lemma sub_split (l : bytes) a b c : (a ≤ b)%nat → (b ≤ c)%nat → sub l a c = sub l a b ++ sub l b c.
Proof.
  intros. unfold sub. replace (c - a)%nat with ((b - a) + (c - b))%nat by lia.
  rewrite <- (take_take_drop _ (b - a)), drop_drop. by replace (a + (b - a))%nat with b by lia.
Qed.

Lemma sub_full (l : bytes) : sub l 0 (length l) = l.
Proof. unfold sub. rewrite drop_0. apply take_ge. lia. Qed.

(** ** Lemmas on writing *)

Lemma length_patch lo bs (l : bytes) : (lo + length bs ≤ length l)%nat →
  length (patch lo bs l) = length l.
Proof. intros. unfold patch. rewrite !length_app, length_take, length_drop. lia. Qed.

Lemma lookup_patch_in lo bs (l : bytes) i : (lo + length bs ≤ length l)%nat →
  (lo ≤ i < lo + length bs)%nat → patch lo bs l !! i = bs !! (i - lo)%nat.
Proof.
  intros. unfold patch. rewrite lookup_app_r by (rewrite length_take; lia).
  rewrite length_take, lookup_app_l by lia. f_equal; lia.
Qed.

Lemma lookup_patch_out lo bs (l : bytes) i : (lo + length bs ≤ length l)%nat →
  (i < lo ∨ lo + length bs ≤ i)%nat → patch lo bs l !! i = l !! i.
Proof.
  intros ? [?|?]; unfold patch.
  - rewrite lookup_app_l by (rewrite length_take; lia). by rewrite lookup_take_lt.
  - rewrite lookup_app_r by (rewrite length_take; lia).
    rewrite length_take, lookup_app_r, lookup_drop by lia. f_equal; lia.
Qed.

Lemma byte_at_patch_in lo bs (l : bytes) i : (lo + length bs ≤ length l)%nat →
  (lo ≤ i < lo + length bs)%nat → byte_at (patch lo bs l) i = byte_at bs (i - lo).
Proof. intros. unfold byte_at. by rewrite lookup_patch_in. Qed.

Lemma byte_at_patch_out lo bs (l : bytes) i : (lo + length bs ≤ length l)%nat →
  (i < lo ∨ lo + length bs ≤ i)%nat → byte_at (patch lo bs l) i = byte_at l i.
Proof. intros. unfold byte_at. by rewrite lookup_patch_out. Qed.

(** Two byte strings of the same length that agree on every index are equal. *)
Lemma bytes_ext (l k : bytes) : length l = length k →
  (∀ i, (i < length l)%nat → byte_at l i = byte_at k i) → l = k.
Proof.
  intros Hlen H. apply list_eq. intros i. destruct (decide (i < length l)%nat).
  - rewrite !lookup_byte_at by lia. f_equal. auto.
  - rewrite !lookup_ge_None_2 by lia. done.
Qed.

Lemma sub_patch_out lo bs (l : bytes) a b : (lo + length bs ≤ length l)%nat →
  (b ≤ length l)%nat → (b ≤ lo ∨ lo + length bs ≤ a)%nat → sub (patch lo bs l) a b = sub l a b.
Proof.
  intros. pose proof (length_patch lo bs l). apply bytes_ext.
  - rewrite !length_sub by lia. done.
  - intros i Hi. rewrite length_sub in Hi by lia. rewrite !byte_at_sub by lia.
    apply byte_at_patch_out; lia.
Qed.

Lemma sub_patch_in lo bs (l : bytes) a b : (lo + length bs ≤ length l)%nat →
  (a ≤ lo)%nat → (lo + length bs ≤ b)%nat → (b ≤ length l)%nat →
  sub (patch lo bs l) a b = patch (lo - a) bs (sub l a b).
Proof.
  intros. pose proof (length_patch lo bs l). pose proof (length_sub l a b).
  pose proof (length_patch (lo - a) bs (sub l a b)). apply bytes_ext.
  - rewrite length_sub; lia.
  - intros i Hi. rewrite length_sub in Hi by lia. rewrite byte_at_sub by lia.
    destruct (decide (lo ≤ a + i < lo + length bs)%nat).
    + rewrite !byte_at_patch_in by lia. f_equal; lia.
    + rewrite !byte_at_patch_out by lia. by rewrite byte_at_sub by lia.
Qed.

Lemma sub_patch_same lo bs (l : bytes) : (lo + length bs ≤ length l)%nat →
  sub (patch lo bs l) lo (lo + length bs) = bs.
Proof.
  intros. pose proof (length_patch lo bs l). apply bytes_ext; [rewrite length_sub; lia|].
  intros i Hi. rewrite length_sub in Hi by lia. rewrite byte_at_sub, byte_at_patch_in by lia.
  f_equal; lia.
Qed.

Lemma patch_sub_self lo hi (l : bytes) : (lo ≤ hi)%nat → (hi ≤ length l)%nat →
  patch lo (sub l lo hi) l = l.
Proof.
  intros. pose proof (length_sub l lo hi). pose proof (length_patch lo (sub l lo hi) l).
  apply bytes_ext; [lia|]. intros i Hi. destruct (decide (lo ≤ i < hi)%nat).
  - rewrite byte_at_patch_in, byte_at_sub by lia. f_equal; lia.
  - rewrite byte_at_patch_out by lia. done.
Qed.

(** Writing a subslice back after a write inside it. *)
Lemma patch_patch_sub lo hi o bs (l : bytes) : (lo ≤ hi)%nat → (hi ≤ length l)%nat →
  (o + length bs ≤ hi - lo)%nat →
  patch lo (patch o bs (sub l lo hi)) l = patch (lo + o) bs l.
Proof.
  intros. pose proof (length_sub l lo hi). pose proof (length_patch o bs (sub l lo hi)).
  pose proof (length_patch (lo + o) bs l).
  pose proof (length_patch lo (patch o bs (sub l lo hi)) l).
  apply bytes_ext; [lia|]. intros i Hi.
  destruct (decide (lo + o ≤ i < lo + o + length bs)%nat).
  - rewrite !byte_at_patch_in by lia. f_equal; lia.
  - rewrite (byte_at_patch_out (lo + o)) by lia. destruct (decide (lo ≤ i < hi)%nat).
    + rewrite byte_at_patch_in, byte_at_patch_out, byte_at_sub by lia. f_equal; lia.
    + by rewrite byte_at_patch_out by lia.
Qed.

(** Reading back a part of a concatenation. *)
Lemma get_range_app pre mid rest :
  get_range (pre ++ mid ++ rest) (length pre) (length pre + length mid) = Some mid.
Proof.
  rewrite get_range_ok by (rewrite ?length_app; lia). f_equal. unfold sub.
  rewrite drop_app_length. replace (length pre + length mid - length pre)%nat with (length mid) by lia.
  apply take_app_length.
Qed.

Lemma slice_app {E} (pre mid rest : bytes) a b : a = length pre → b = (a + length mid)%nat →
  slice (E := E) (pre ++ mid ++ rest) a b = Ok mid.
Proof. intros -> ->. unfold slice. by rewrite get_range_app. Qed.

(** ** Byte ranges *)

Lemma byte_at_range l i : bytes_ok l → is_byte (byte_at l i).
Proof.
  intros H. unfold byte_at. destruct (l !! i) eqn:E; simpl.
  - eapply Forall_lookup_1; eauto.
  - unfold is_byte; lia.
Qed.

Lemma bytes_ok_sub l lo hi : bytes_ok l → bytes_ok (sub l lo hi).
Proof. intros. by apply Forall_take, Forall_drop. Qed.

Lemma bytes_ok_patch lo bs l : bytes_ok l → bytes_ok bs → bytes_ok (patch lo bs l).
Proof. intros. apply Forall_app; split; [by apply Forall_take|].
  apply Forall_app; split; [done|by apply Forall_drop]. Qed.

Lemma length_be_bytes n x : length (be_bytes n x) = n.
Proof. revert x; induction n; intros; simpl; [done|]. rewrite length_app, IHn. simpl; lia. Qed.

Lemma bytes_ok_be_bytes n x : bytes_ok (be_bytes n x).
Proof.
  revert x; induction n; intros; simpl; [constructor|]. apply Forall_app; split; [apply IHn|].
  repeat constructor; apply Z.mod_pos_bound; lia.
Qed.

Lemma be_val_app a b : be_val (a ++ b) = fold_left (λ acc c, acc * 256 + c) b (be_val a).
Proof. unfold be_val. by rewrite fold_left_app. Qed.

(** [uN::from_be_bytes (x.to_be_bytes ()) = x]. *)
Lemma be_val_be_bytes n x : fits (8 * Z.of_nat n) x → be_val (be_bytes n x) = x.
Proof.
  unfold fits. revert x; induction n as [|n IH]; intros x Hx; simpl be_bytes.
  - unfold be_val; simpl. lia.
  - rewrite be_val_app. simpl. rewrite IH.
    + pose proof (Z.div_mod x 256). lia.
    + replace (8 * Z.of_nat (S n)) with (8 * Z.of_nat n + 8) in Hx by lia.
      rewrite Z.pow_add_r in Hx by lia. change (2 ^ 8) with 256 in Hx.
      split; [apply Z.div_pos; lia|]. apply Z.div_lt_upper_bound; lia.
Qed.

Lemma be_val_range l : bytes_ok l → fits (8 * Z.of_nat (length l)) (be_val l).
Proof.
  unfold fits. induction l as [|b l IH] using rev_ind; intros H; [done|].
  apply Forall_app in H as [H1 H2]. inversion_clear H2 as [|? ? Hb _]. red in Hb.
  rewrite be_val_app, length_app. simpl length. specialize (IH H1).
  replace (8 * Z.of_nat (length l + 1)) with (8 * Z.of_nat (length l) + 8) by lia.
  rewrite Z.pow_add_r by lia. change (2 ^ 8) with 256. simpl. lia.
Qed.

(** [(uN::from_be_bytes bs).to_be_bytes () = bs]. *)
Lemma be_bytes_be_val l : bytes_ok l → be_bytes (length l) (be_val l) = l.
Proof.
  induction l as [|b l IH] using rev_ind; intros H; [done|].
  apply Forall_app in H as [H1 H2]. inversion_clear H2 as [|? ? Hb _]. red in Hb.
  rewrite length_app, be_val_app. cbn [length fold_left]. rewrite Nat.add_1_r. simpl be_bytes.
  rewrite Z.div_add_l, (Z.div_small b), Z.add_0_r, IH by (done || lia).
  rewrite Z.add_comm, Z_mod_plus_full, Z.mod_small by lia. done.
Qed.

Lemma be_val_inj a b : bytes_ok a → bytes_ok b → length a = length b → be_val a = be_val b → a = b.
Proof.
  intros Ha Hb Hl Hv. rewrite <- (be_bytes_be_val a), <- (be_bytes_be_val b) by done. by rewrite Hl, Hv.
Qed.

Lemma be16_inj a b c d : is_byte a → is_byte b → is_byte c → is_byte d →
  be16 a b = be16 c d → a = c ∧ b = d.
Proof. unfold is_byte, be16. lia. Qed.

Lemma be16_be_bytes x : fits 16 x → be16 (byte_at (be_bytes 2 x) 0) (byte_at (be_bytes 2 x) 1) = x.
Proof. intros H. exact (be_val_be_bytes 2 x H). Qed.

Lemma be16_range hi lo : is_byte hi → is_byte lo → fits 16 (be16 hi lo).
Proof. unfold is_byte, fits, be16. lia. Qed.

Lemma be16_zero hi lo : is_byte hi → is_byte lo → be16 hi lo = 0 → hi = 0 ∧ lo = 0.
Proof. unfold is_byte, be16. lia. Qed.

(** ** Lists *)

Lemma list_filter_all {A} (P : A → Prop) `{∀ a, Decision (P a)} (l : list A) :
  (∀ a, a ∈ l → P a) → filter P l = l.
Proof.
  induction l as [|a l IH]; intros Hl; [done|]. rewrite filter_cons_True by (apply Hl, list_elem_of_here).
  f_equal. apply IH. intros b Hb. by apply Hl, list_elem_of_further.
Qed.

(** Removing a key does not make a map larger. *)
Lemma delete_size_le {A} `{Countable K} (m : gmap K A) k : (size (delete k m) ≤ size m)%nat.
Proof. rewrite map_size_delete. destruct (m !! k); simpl; lia. Qed.

(** ** Automation

    [obinv] opens an outcome known to be [Ok]; [rust_np] walks a computation and
    leaves the index obligations to [lia]; the database [rust] holds the facts
    on byte strings that side conditions ask for. *)

Ltac obinv :=
  repeat match goal with
  | H : obind ?c _ = Ok _ |- _ => destruct c eqn:?; simpl in H; [|discriminate H..]
  | H : ok_or ?o _ = Ok _ |- _ => destruct o eqn:?; simpl in H; [|discriminate H]
  | H : Ok _ = Ok _ |- _ => injection H as H; subst
  | H : Err _ = Ok _ |- _ => discriminate H
  | H : Panic = Ok _ |- _ => discriminate H
  | H : (if decide _ then _ else _) = Ok _ |- _ => case_decide
  | H : get_range _ _ _ = Some _ |- _ => apply get_range_Some in H as (? & ? & ?); subst
  end.

(** A decidable closed goal, decided by computation. *)
Ltac vmdec := apply (bool_decide_unpack _); vm_compute; exact I.

Create HintDb rust.
Create Rewrite HintDb rust.
#[export] Hint Resolve bytes_ok_sub bytes_ok_patch bytes_ok_be_bytes byte_at_range : rust.
#[export] Hint Resolve no_panic_Ok no_panic_Err no_panic_ok_or : rust.
#[export] Hint Rewrite length_be_bytes : rust.

#[global] Arguments patch : simpl never.
#[global] Arguments sub : simpl never.
#[global] Arguments be_bytes : simpl never.
#[global] Arguments byte_at : simpl never.
