(* ===== verification/Net.v ===== *)
(** The value types shared by the flow plane: addresses, flow keys, owners and
    identifiers ([src/src/flow_plane/packet.rs], [mod.rs], [io_registry.rs]).

    An address is the big-endian integer of its octets, so [octets] and
    [Ipv4Addr::new] are [be_bytes] and [be_val].  Every key type of a [HashMap]
    gets [EqDecision] and [Countable]. *)
From S2P Require Import Prelude.

Inductive IpAddr : Type :=
| V4 (a : Z)
| V6 (a : Z).

Inductive TransportProtocol : Type := Tcp | Udp | Icmp | Icmpv6.

Record FlowKey : Type := mkFlowKey {
  fk_source : IpAddr;
  fk_destination : IpAddr;
  fk_source_port : Z;
  fk_destination_port : Z;
  fk_protocol : TransportProtocol;
}.

Definition reverse (f : FlowKey) : FlowKey :=
  {| fk_source := fk_destination f;
     fk_destination := fk_source f;
     fk_source_port := fk_destination_port f;
     fk_destination_port := fk_source_port f;
     fk_protocol := fk_protocol f |}.

(** [SocketAddr]: an address and a port. *)
Record SocketAddr : Type := mkSocketAddr { sa_ip : IpAddr; sa_port : Z }.

Record IoOwnerKey : Type := mkIoOwnerKey { ifindex : Z; queue_id : Z }.

Record SessionId : Type := mkSessionId { session_raw : Z }.
Record QuicFlowId : Type := mkQuicFlowId { quic_flow_raw : Z }.

#[global] Instance IpAddr_eq_dec : EqDecision IpAddr.
Proof. solve_decision. Defined.
#[global] Instance TransportProtocol_eq_dec : EqDecision TransportProtocol.
Proof. solve_decision. Defined.
#[global] Instance FlowKey_eq_dec : EqDecision FlowKey.
Proof. solve_decision. Defined.
#[global] Instance SocketAddr_eq_dec : EqDecision SocketAddr.
Proof. solve_decision. Defined.
#[global] Instance IoOwnerKey_eq_dec : EqDecision IoOwnerKey.
Proof. solve_decision. Defined.
#[global] Instance SessionId_eq_dec : EqDecision SessionId.
Proof. solve_decision. Defined.
#[global] Instance QuicFlowId_eq_dec : EqDecision QuicFlowId.
Proof. solve_decision. Defined.

#[global] Instance IpAddr_countable : Countable IpAddr.
Proof.
  refine (inj_countable' (λ a, match a with V4 x => inl x | V6 x => inr x end)
    (λ s, match s with inl x => V4 x | inr x => V6 x end) _).
  by intros [].
Defined.
#[global] Instance TransportProtocol_countable : Countable TransportProtocol.
Proof.
  refine (inj_countable' (λ p, match p with Tcp => 0 | Udp => 1 | Icmp => 2 | Icmpv6 => 3 end)
    (λ n, if decide (n = 0) then Tcp else if decide (n = 1) then Udp
          else if decide (n = 2) then Icmp else Icmpv6) _).
  by intros [].
Defined.
#[global] Instance FlowKey_countable : Countable FlowKey.
Proof.
  refine (inj_countable'
    (λ f, (fk_source f, fk_destination f, fk_source_port f, fk_destination_port f, fk_protocol f))
    (λ '(s, d, sp, dp, p), mkFlowKey s d sp dp p) _).
  by intros [].
Defined.
#[global] Instance SocketAddr_countable : Countable SocketAddr.
Proof.
  refine (inj_countable' (λ s, (sa_ip s, sa_port s)) (λ '(i, p), mkSocketAddr i p) _).
  by intros [].
Defined.
#[global] Instance IoOwnerKey_countable : Countable IoOwnerKey.
Proof.
  refine (inj_countable' (λ s, (ifindex s, queue_id s)) (λ '(i, p), mkIoOwnerKey i p) _).
  by intros [].
Defined.
#[global] Instance SessionId_countable : Countable SessionId.
Proof. refine (inj_countable' session_raw mkSessionId _). by intros []. Defined.
#[global] Instance QuicFlowId_countable : Countable QuicFlowId.
Proof. refine (inj_countable' quic_flow_raw mkQuicFlowId _). by intros []. Defined.

(** The value ranges of the Rust types. *)
Definition ip_ok (a : IpAddr) : Prop :=
  match a with V4 x => fits 32 x | V6 x => fits 128 x end.
Definition flow_ok (f : FlowKey) : Prop :=
  ip_ok (fk_source f) ∧ ip_ok (fk_destination f) ∧
  fits 16 (fk_source_port f) ∧ fits 16 (fk_destination_port f).

#[global] Instance ip_ok_dec a : Decision (ip_ok a).
Proof. destruct a; apply _. Defined.
#[global] Instance flow_ok_dec f : Decision (flow_ok f).
Proof. unfold flow_ok. apply _. Defined.

(** [IpAddr::is_ipv4]. *)
Definition is_ipv4 (a : IpAddr) : bool := match a with V4 _ => true | V6 _ => false end.

(** Two addresses of the same family. *)
Definition same_family (a b : IpAddr) : bool := Bool.eqb (is_ipv4 a) (is_ipv4 b).

Lemma reverse_involutive f : reverse (reverse f) = f.
Proof. by destruct f. Qed.

Lemma reverse_inj f g : reverse f = reverse g → f = g.
Proof. intros H. rewrite <- (reverse_involutive f), H. apply reverse_involutive. Qed.

Lemma flow_ok_reverse f : flow_ok f → flow_ok (reverse f).
Proof. unfold flow_ok. simpl. tauto. Qed.
