(* ===== verification/Checksum.v ===== *)
(** The Internet checksum of [src/src/flow_plane/packet.rs] ([checksum_add],
    [checksum_finish], [internet_checksum]): the 32-bit accumulator with its
    wrap-around, the carry-folding loop, and the ones'-complement facts that
    make a written checksum verify. *)
From S2P Require Import Prelude Net.

(** The accumulator is a [u32]. *)
Fixpoint checksum_add (sum : Z) (bs : bytes) : Z :=
  match bs with
  | hi :: lo :: rest => checksum_add (wrap 32 (sum + be16 hi lo)) rest
  | [b] => wrap 32 (sum + Z.shiftl b 8)
  | [] => sum
  end.

(** [while sum >> 16 != 0 { sum = (sum & 0xffff) + (sum >> 16) }], run for at
    most [fuel] iterations.  Two are enough for every [u32]
    ([checksum_fold_spec]). *)
Fixpoint checksum_fold (fuel : nat) (sum : Z) : Z :=
  match fuel with
  | O => sum
  | S fuel =>
      if decide (Z.shiftr sum 16 = 0) then sum
      else checksum_fold fuel (Z.land sum 0xffff + Z.shiftr sum 16)
  end.

Definition checksum_finish (sum : Z) : Z :=
  Z.lxor 0xffff (wrap 16 (checksum_fold 2 sum)).

Definition internet_checksum (bs : bytes) : Z := checksum_finish (checksum_add 0 bs).

(** The unbounded sum of the big-endian 16-bit words of a byte string. *)
Fixpoint word_sum (bs : bytes) : Z :=
  match bs with
  | hi :: lo :: rest => be16 hi lo + word_sum rest
  | [b] => b * 256
  | [] => 0
  end.

(** Ones'-complement value of a sum, the reference for [checksum_finish]. *)
Definition ones_complement_sum (s : Z) : Z := if decide (s = 0) then 0 else (s - 1) mod 65535 + 1.

(** Induction on a byte string two bytes at a time. *)
Lemma bytes_pair_ind (P : bytes → Prop) :
  P [] → (∀ b, P [b]) → (∀ a b l, P l → P (a :: b :: l)) → ∀ l, P l.
Proof.
  intros H0 H1 H2. fix IH 1. intros [|a [|b l]]; [done|done|]. apply H2, IH.
Qed.

Lemma word_sum_bound l : bytes_ok l → 0 ≤ 2 * word_sum l ≤ 65535 * Z.of_nat (length l + 1).
Proof.
  induction l as [|b|a b l IH] using bytes_pair_ind; intros H; simpl word_sum.
  - simpl; lia.
  - inversion_clear H as [|? ? Hb _]. unfold is_byte in Hb. simpl; lia.
  - inversion_clear H as [|? ? Ha H']. inversion_clear H' as [|? ? Hb H]. specialize (IH H).
    unfold is_byte, be16 in *. simpl length. lia.
Qed.

(** No wrap-around happens while the total stays below [2^32]. *)
Lemma checksum_add_word_sum l : bytes_ok l → ∀ s, 0 ≤ s → s + word_sum l < 2 ^ 32 →
  checksum_add s l = s + word_sum l.
Proof.
  induction l as [|b|a b l IH] using bytes_pair_ind; intros H s Hs Hb; simpl in *.
  - lia.
  - inversion_clear H as [|? ? Hr _]. unfold is_byte in Hr.
    rewrite Z.shiftl_mul_pow2 by lia. unfold wrap. rewrite Z.mod_small; lia.
  - inversion_clear H as [|? ? Ha H']. inversion_clear H' as [|? ? Hb' H].
    pose proof (word_sum_bound l H). unfold is_byte, be16, wrap in *.
    rewrite Z.mod_small by lia. rewrite IH by (done || lia). lia.
Qed.

Lemma word_sum_app a b : Nat.even (length a) = true → word_sum (a ++ b) = word_sum a + word_sum b.
Proof.
  induction a as [|x|x y a IH] using bytes_pair_ind; simpl; intros H; [lia|done|].
  rewrite IH by done. lia.
Qed.

Lemma word_sum_patch o bs l : Nat.even o = true → Nat.even (length bs) = true →
  (o + length bs ≤ length l)%nat →
  word_sum (patch o bs l) = word_sum (take o l) + word_sum bs + word_sum (drop (o + length bs) l).
Proof.
  intros Ho Hbs Hl. unfold patch. rewrite !word_sum_app; [lia|done|].
  rewrite length_take. by replace (o `min` length l)%nat with o by lia.
Qed.

(** Writing a 16-bit word [c] over a zeroed, even-aligned field adds [c]. *)
Lemma word_sum_patch_field o c l : Nat.even o = true → (o + 2 ≤ length l)%nat → fits 16 c →
  word_sum (patch o (be_bytes 2 c) l) = word_sum (patch o [0; 0] l) + c.
Proof.
  intros Ho Hl Hc. rewrite !word_sum_patch by (rewrite ?length_be_bytes; done || simpl; lia).
  assert (word_sum (be_bytes 2 c) = c) as ->.
  { pose proof (be16_be_bytes c Hc) as Hv. unfold byte_at in Hv. simpl in Hv |- *. lia. }
  rewrite length_be_bytes. simpl. unfold be16. lia.
Qed.

Lemma fold_step s : 0 ≤ s → Z.land s 0xffff + Z.shiftr s 16 = s mod 65536 + s / 65536.
Proof.
  intros. change 0xffff with (Z.ones 16). rewrite Z.land_ones, Z.shiftr_div_pow2 by lia. done.
Qed.

Lemma shiftr16_zero s : 0 ≤ s → Z.shiftr s 16 = 0 ↔ s < 65536.
Proof.
  intros. rewrite Z.shiftr_div_pow2 by lia. change (2 ^ 16) with 65536.
  rewrite Z.div_small_iff by lia. lia.
Qed.

Lemma checksum_fold_spec fuel s : fits 32 s → (2 ≤ fuel)%nat →
  checksum_fold fuel s = ones_complement_sum s.
Proof.
  unfold fits. intros Hs Hf. destruct fuel as [|[|fuel]]; [lia..|].
  assert (∀ f t, 0 ≤ t < 65536 → checksum_fold f t = t) as Hid.
  { intros f t Ht. destruct f; simpl; [done|]. rewrite decide_True; [done|].
    apply shiftr16_zero; lia. }
  unfold ones_complement_sum. simpl. case_decide as Hd1.
  { apply shiftr16_zero in Hd1; [|lia]. case_decide; [done|]. rewrite Z.mod_small; lia. }
  rewrite shiftr16_zero in Hd1 by lia. rewrite fold_step by lia.
  pose proof (Z.div_mod s 65536). pose proof (Z.mod_pos_bound s 65536).
  assert (1 ≤ s / 65536 < 65536) by (split;
    [apply Z.div_le_lower_bound; lia | apply Z.div_lt_upper_bound; lia]).
  set (q := s / 65536) in *. set (r := s mod 65536) in *. rewrite (decide_False (P := s = 0)) by lia.
  replace (s - 1) with ((r + q - 1) + q * 65535) by lia. rewrite Z_mod_plus_full.
  case_decide as Hd2.
  - apply shiftr16_zero in Hd2; [|lia]. rewrite Z.mod_small; lia.
  - rewrite shiftr16_zero in Hd2 by lia. rewrite fold_step by lia.
    replace ((r + q) / 65536) with 1
      by (apply Z.div_unique with (r + q - 65536); lia).
    replace ((r + q) mod 65536) with (r + q - 65536)
      by (apply Z.mod_unique with 1; lia).
    rewrite Hid by lia. replace (r + q - 1) with ((r + q - 65536) + 1 * 65535) by lia.
    rewrite Z_mod_plus_full, Z.mod_small; lia.
Qed.

Lemma ones_complement_range s : 0 ≤ s → 0 ≤ ones_complement_sum s ≤ 65535.
Proof.
  unfold ones_complement_sum. intros. case_decide; [lia|].
  pose proof (Z.mod_pos_bound (s - 1) 65535). lia.
Qed.

Lemma lxor_ffff x : 0 ≤ x < 65536 → Z.lxor 0xffff x = 65535 - x.
Proof.
  intros Hx. change 0xffff with (Z.ones 16). rewrite Z.lxor_comm.
  rewrite <- (Z.mod_small x (2 ^ 16)) at 1 by lia. rewrite <- Z.land_ones by lia.
  assert (Z.lxor (Z.land x (Z.ones 16)) (Z.ones 16) = Z.land (Z.lnot x) (Z.ones 16)) as ->.
  { apply Z.bits_inj'. intros n Hn.
    rewrite Z.lxor_spec, !Z.land_spec, Z.lnot_spec by lia.
    destruct (Z.testbit x n), (Z.testbit (Z.ones 16) n); done. }
  rewrite Z.land_ones by lia. unfold Z.lnot. change (2 ^ 16) with 65536.
  change (Z.ones 16) with 65535. replace (Z.pred (- x)) with ((65535 - x) + (-1) * 65536) by lia.
  rewrite Z_mod_plus_full. apply Z.mod_small; lia.
Qed.

Lemma checksum_finish_closed s : fits 32 s → checksum_finish s = 65535 - ones_complement_sum s.
Proof.
  intros Hs. unfold checksum_finish. rewrite checksum_fold_spec by (done || lia).
  pose proof (ones_complement_range s (proj1 Hs)). unfold wrap.
  rewrite Z.mod_small, lxor_ffff by lia. done.
Qed.

Lemma checksum_finish_range s : fits 32 s → fits 16 (checksum_finish s).
Proof.
  intros Hs. rewrite checksum_finish_closed by done.
  pose proof (ones_complement_range s (proj1 Hs)). unfold fits. lia.
Qed.

Lemma checksum_finish_zero s : fits 32 s → 0 < s → checksum_finish s = 0 ↔ s mod 65535 = 0.
Proof.
  intros Hs Hp. rewrite checksum_finish_closed by done. unfold ones_complement_sum.
  rewrite decide_False by lia. pose proof (Z.mod_pos_bound (s - 1) 65535).
  pose proof (Z.mod_pos_bound s 65535). pose proof (Z.div_mod (s - 1) 65535).
  pose proof (Z.div_mod s 65535). nia.
Qed.

(** The value written for a sum [s] makes the sum verify, whether it is written
    as it is or, when it is zero, as [0xffff] (the UDP encoding). *)
Lemma checksum_seal s c : 0 ≤ s → s + 65535 < 2 ^ 32 →
  c = checksum_finish s ∨ (checksum_finish s = 0 ∧ c = 65535) →
  checksum_finish (s + c) = 0.
Proof.
  intros Hs Hb Hc. assert (fits 32 s) as Hf by (unfold fits; lia).
  pose proof (checksum_finish_range s Hf) as Hr. unfold fits in Hr.
  rewrite (checksum_finish_closed s Hf) in *. unfold ones_complement_sum in *.
  apply checksum_finish_zero; [unfold fits; lia| |].
  - case_decide; [lia|]. pose proof (Z.mod_pos_bound (s - 1) 65535). lia.
  - case_decide.
    + destruct Hc as [->|[? ->]]; [|lia]. subst s. done.
    + pose proof (Z.div_mod (s - 1) 65535).
      pose proof (Z.mod_pos_bound (s - 1) 65535).
      set (q := (s - 1) / 65535) in *. set (m := (s - 1) mod 65535) in *.
      destruct Hc as [->|[? ->]].
      * replace (s + (65535 - (m + 1))) with ((q + 1) * 65535) by lia. apply Z_mod_mult.
      * replace (s + 65535) with ((q + 2) * 65535) by lia. apply Z_mod_mult.
Qed.
