(* ===== verification/Packet.v ===== *)
(** Packet parsing and in-place rewriting, [src/src/flow_plane/packet.rs].

    A packet is a byte string; a [&mut [u8]] parameter is the state of an [ST]
    computation, so a partial write before an error is kept.  [usize] values are
    [nat]: the code only adds offsets that are bounded by a 16-bit length field
    plus a header, so its [checked_add]s never fail. *)
From S2P Require Import Prelude Net Checksum.

Definition IP_PROTOCOL_ICMP : Z := 1.
Definition IP_PROTOCOL_TCP : Z := 6.
Definition IP_PROTOCOL_UDP : Z := 17.
Definition IP_PROTOCOL_ROUTING : Z := 43.
Definition IP_PROTOCOL_FRAGMENT : Z := 44.
Definition IP_PROTOCOL_ESP : Z := 50.
Definition IP_PROTOCOL_AH : Z := 51.
Definition IP_PROTOCOL_ICMPV6 : Z := 58.
Definition IP_PROTOCOL_NO_NEXT_HEADER : Z := 59.
Definition IP_PROTOCOL_DESTINATION_OPTIONS : Z := 60.
Definition IP_PROTOCOL_HOP_BY_HOP : Z := 0.

Inductive PacketError : Type :=
| TruncatedIpHeader
| InvalidIpLength
| TruncatedTransportHeader
| UnsupportedIpVersion (v : Z)
| UnsupportedProtocol (p : Z)
| UnsupportedIcmpType (t : Z)
| NonInitialFragment
| ExtensionHeaderChainTooLong
| InvalidTranslation
| InvalidIpChecksum
| InvalidTransportChecksum
| HopLimitExceeded.

#[global] Instance PacketError_eq_dec : EqDecision PacketError.
Proof. solve_decision. Defined.

Abbreviation result := (outcome PacketError).

(** [packet.first().ok_or(TruncatedIpHeader)? >> 4]. *)
Definition ip_version (packet : bytes) : result Z :=
  let? first := ok_or (packet !! 0%nat) TruncatedIpHeader in
  Ok (Z.shiftr first 4).

(** [usize::from(packet[0] & 0x0f) * 4]. *)
Definition ipv4_header_len (packet : bytes) : result nat :=
  let? first := idx packet 0 in
  Ok (Z.to_nat (Z.land first 0x0f) * 4)%nat.

(** The extension headers that carry a length in 8-byte units. *)
Definition is_option_header (next_header : Z) : Prop :=
  next_header = IP_PROTOCOL_HOP_BY_HOP ∨ next_header = IP_PROTOCOL_ROUTING
  ∨ next_header = IP_PROTOCOL_DESTINATION_OPTIONS.
#[global] Instance is_option_header_dec n : Decision (is_option_header n).
Proof. unfold is_option_header. apply _. Defined.

(** The body of [for _ in 0..8]; [n] iterations are left. *)
Fixpoint ipv6_transport_offset_loop (n : nat) (packet : bytes) (total_len : nat)
    (next_header : Z) (offset : nat) : result (Z * nat) :=
  match n with
  | O => Err ExtensionHeaderChainTooLong
  | S n =>
      if decide (is_option_header next_header) then
        let? header := ok_or (get_range packet offset (offset + 2)) TruncatedTransportHeader in
        let? next := idx header 0 in
        let? units := idx header 1 in
        let header_len := ((Z.to_nat units + 1) * 8)%nat in
        if decide (offset + header_len ≤ total_len)%nat
        then ipv6_transport_offset_loop n packet total_len next (offset + header_len)
        else Err TruncatedTransportHeader
      else if decide (next_header = IP_PROTOCOL_FRAGMENT) then
        let? header := ok_or (get_range packet offset (offset + 8)) TruncatedTransportHeader in
        Err NonInitialFragment
      else if decide (next_header = IP_PROTOCOL_AH) then
        let? header := ok_or (get_range packet offset (offset + 2)) TruncatedTransportHeader in
        let? next := idx header 0 in
        let? units := idx header 1 in
        let header_len := ((Z.to_nat units + 2) * 4)%nat in
        if decide (offset + header_len ≤ total_len)%nat
        then ipv6_transport_offset_loop n packet total_len next (offset + header_len)
        else Err TruncatedTransportHeader
      else if decide (next_header = IP_PROTOCOL_ESP ∨ next_header = IP_PROTOCOL_NO_NEXT_HEADER)
      then Err (UnsupportedProtocol next_header)
      else Ok (next_header, offset)
  end.

Definition ipv6_transport_offset (packet : bytes) (total_len : nat) (next_header : Z)
    (offset : nat) : result (Z * nat) :=
  ipv6_transport_offset_loop 8 packet total_len next_header offset.

Fixpoint ipv6_has_fragment_header_loop (n : nat) (packet : bytes) (total_len : nat)
    (next_header : Z) (offset : nat) : result bool :=
  match n with
  | O => Err ExtensionHeaderChainTooLong
  | S n =>
      if decide (is_option_header next_header) then
        let? header := ok_or (get_range packet offset (offset + 2)) TruncatedTransportHeader in
        let? next := idx header 0 in
        let? units := idx header 1 in
        let header_len := ((Z.to_nat units + 1) * 8)%nat in
        if decide (offset + header_len ≤ total_len)%nat
        then ipv6_has_fragment_header_loop n packet total_len next (offset + header_len)
        else Err TruncatedTransportHeader
      else if decide (next_header = IP_PROTOCOL_FRAGMENT) then Ok true
      else if decide (next_header = IP_PROTOCOL_AH) then
        let? header := ok_or (get_range packet offset (offset + 2)) TruncatedTransportHeader in
        let? next := idx header 0 in
        let? units := idx header 1 in
        let header_len := ((Z.to_nat units + 2) * 4)%nat in
        if decide (offset + header_len ≤ total_len)%nat
        then ipv6_has_fragment_header_loop n packet total_len next (offset + header_len)
        else Err TruncatedTransportHeader
      else Ok false
  end.

Definition ipv6_has_fragment_header (packet : bytes) (total_len : nat) (next_header : Z)
    (offset : nat) : result bool :=
  ipv6_has_fragment_header_loop 8 packet total_len next_header offset.

Definition build_flow_key (source destination : IpAddr) (protocol : Z) (transport : bytes)
    : result FlowKey :=
  let? ports :=
    (if decide (protocol = IP_PROTOCOL_TCP) then
       let? header := ok_or (get_range transport 0 20) TruncatedTransportHeader in
       let? data_offset := idx header 12 in
       let header_len := (Z.to_nat (Z.shiftr data_offset 4) * 4)%nat in
       if decide (header_len < 20 ∨ length transport < header_len)%nat
       then Err TruncatedTransportHeader
       else
         let? source_port := rd16 header 0 in
         let? destination_port := rd16 header 2 in
         Ok (source_port, destination_port, Tcp)
     else if decide (protocol = IP_PROTOCOL_UDP) then
       let? ports := ok_or (get_range transport 0 8) TruncatedTransportHeader in
       let? len := rd16 ports 4 in
       let udp_len := Z.to_nat len in
       if decide (udp_len < 8 ∨ udp_len ≠ length transport)%nat
       then Err InvalidIpLength
       else
         let? source_port := rd16 ports 0 in
         let? destination_port := rd16 ports 2 in
         Ok (source_port, destination_port, Udp)
     else if decide (protocol = IP_PROTOCOL_ICMP ∨ protocol = IP_PROTOCOL_ICMPV6) then
       let? icmp := ok_or (get_range transport 0 8) TruncatedTransportHeader in
       let? message_type := idx icmp 0 in
       let? code := idx icmp 1 in
       let supported :=
         if decide (protocol = IP_PROTOCOL_ICMP)
         then bool_decide (message_type = 0 ∨ message_type = 8)
         else bool_decide (message_type = 128 ∨ message_type = 129) in
       if decide (supported = false ∨ code ≠ 0)
       then Err (UnsupportedIcmpType message_type)
       else
         let? identifier := rd16 icmp 4 in
         let? type_and_code := rd16 icmp 0 in
         Ok (identifier, type_and_code,
             if decide (protocol = IP_PROTOCOL_ICMP) then Icmp else Icmpv6)
     else Err (UnsupportedProtocol protocol)) in
  let '(source_port, destination_port, proto) := ports in
  Ok {| fk_source := source; fk_destination := destination;
        fk_source_port := source_port; fk_destination_port := destination_port;
        fk_protocol := proto |}.

Definition parse_ipv4_flow_key (packet : bytes) : result FlowKey :=
  if decide (length packet < 20)%nat then Err TruncatedIpHeader else
  let? header_len := ipv4_header_len packet in
  if decide (header_len < 20 ∨ length packet < header_len)%nat then Err TruncatedIpHeader else
  let? total := rd16 packet 2 in
  let total_len := Z.to_nat total in
  if decide (total_len < header_len ∨ length packet < total_len)%nat then Err InvalidIpLength else
  let? fragment := rd16 packet 6 in
  if decide (Z.land fragment 0x3fff ≠ 0) then Err NonInitialFragment else
  let? source := slice packet 12 16 in
  let? destination := slice packet 16 20 in
  let? protocol := idx packet 9 in
  let? transport := slice packet header_len total_len in
  build_flow_key (V4 (be_val source)) (V4 (be_val destination)) protocol transport.

Definition parse_ipv6_flow_key (packet : bytes) : result FlowKey :=
  if decide (length packet < 40)%nat then Err TruncatedIpHeader else
  let? payload_len := rd16 packet 4 in
  let total_len := (40 + Z.to_nat payload_len)%nat in
  if decide (length packet < total_len)%nat then Err InvalidIpLength else
  let? source := slice packet 8 24 in
  let? destination := slice packet 24 40 in
  let? next_header := idx packet 6 in
  let? '(protocol, transport_offset) := ipv6_transport_offset packet total_len next_header 40 in
  let? transport := slice packet transport_offset total_len in
  build_flow_key (V6 (be_val source)) (V6 (be_val destination)) protocol transport.

Definition parse_flow_key (packet : bytes) : result FlowKey :=
  let? version := ip_version packet in
  if decide (version = 4) then parse_ipv4_flow_key packet
  else if decide (version = 6) then parse_ipv6_flow_key packet
  else Err (UnsupportedIpVersion version).

Definition ip_packet_is_fragmented (packet : bytes) : result bool :=
  let? version := ip_version packet in
  if decide (version = 4) then
    if decide (length packet < 20)%nat then Err TruncatedIpHeader else
    let? header_len := ipv4_header_len packet in
    if decide (header_len < 20 ∨ length packet < header_len)%nat then Err TruncatedIpHeader else
    let? total := rd16 packet 2 in
    let total_len := Z.to_nat total in
    if decide (total_len < header_len ∨ length packet < total_len)%nat then Err InvalidIpLength else
    let? fragment := rd16 packet 6 in
    Ok (bool_decide (Z.land fragment 0x3fff ≠ 0))
  else if decide (version = 6) then
    if decide (length packet < 40)%nat then Err TruncatedIpHeader else
    let? payload_len := rd16 packet 4 in
    let total_len := (40 + Z.to_nat payload_len)%nat in
    if decide (length packet < total_len)%nat then Err InvalidIpLength else
    let? next_header := idx packet 6 in
    ipv6_has_fragment_header packet total_len next_header 40
  else Err (UnsupportedIpVersion version).

(** [(protocol, transport_offset, total_len)]. *)
Definition transport_metadata (packet : bytes) : result (Z * nat * nat) :=
  let? version := ip_version packet in
  if decide (version = 4) then
    if decide (length packet < 20)%nat then Err TruncatedIpHeader else
    let? header_len := ipv4_header_len packet in
    if decide (header_len < 20 ∨ length packet < header_len)%nat then Err TruncatedIpHeader else
    let? total := rd16 packet 2 in
    let total_len := Z.to_nat total in
    if decide (total_len < header_len ∨ length packet < total_len)%nat then Err InvalidIpLength else
    let? protocol := idx packet 9 in
    Ok (protocol, header_len, total_len)
  else if decide (version = 6) then
    if decide (length packet < 40)%nat then Err TruncatedIpHeader else
    let? payload_len := rd16 packet 4 in
    let total_len := (40 + Z.to_nat payload_len)%nat in
    if decide (length packet < total_len)%nat then Err InvalidIpLength else
    let? next_header := idx packet 6 in
    let? '(protocol, transport_offset) := ipv6_transport_offset packet total_len next_header 40 in
    Ok (protocol, transport_offset, total_len)
  else Err (UnsupportedIpVersion version).

Definition validate_udp_layout (packet : bytes) (transport_offset total_len : nat) : result nat :=
  let? header := ok_or (get_range packet transport_offset (transport_offset + 8))
                       TruncatedTransportHeader in
  let? len := rd16 header 4 in
  let udp_len := Z.to_nat len in
  if decide (udp_len < 8)%nat then Err InvalidIpLength else
  if decide (transport_offset + udp_len ≠ total_len)%nat then Err InvalidIpLength else
  if decide (length packet < transport_offset + udp_len)%nat then Err InvalidIpLength else
  Ok udp_len.

Definition udp_payload_range (packet : bytes) : result (nat * nat) :=
  let? '(protocol, transport_offset, total_len) := transport_metadata packet in
  if decide (protocol ≠ IP_PROTOCOL_UDP) then Err (UnsupportedProtocol protocol) else
  let? udp_len := validate_udp_layout packet transport_offset total_len in
  Ok (transport_offset + 8, transport_offset + udp_len)%nat.

Definition udp_payload (packet : bytes) : result bytes :=
  let? '(lo, hi) := udp_payload_range packet in
  slice packet lo hi.

(** [udp_payload_mut] followed by a use of the borrowed payload. *)
Definition udp_payload_mut {A : Type} (use : ST bytes PacketError A) : ST bytes PacketError A :=
  let! range := sreads udp_payload_range in
  on_slice range.1 range.2 use.

Definition TCP_MAX_SAFE_MSS : Z := 1333.

Definition parse_tcp_flags (packet : bytes) : result (option Z) :=
  let? '(protocol, transport_offset, total_len) := transport_metadata packet in
  if decide (protocol ≠ IP_PROTOCOL_TCP) then Ok None else
  let? header := ok_or (get_range packet transport_offset (transport_offset + 20))
                       TruncatedTransportHeader in
  let? data_offset := idx header 12 in
  let header_len := (Z.to_nat (Z.shiftr data_offset 4) * 4)%nat in
  if decide (header_len < 20 ∨ total_len < transport_offset + header_len)%nat
  then Err TruncatedTransportHeader else
  let? flags := idx header 13 in
  Ok (Some flags).

(** The option walk of [clamp_tcp_mss].  Each iteration advances [opt_offset],
    so [opt_end - opt_offset] iterations are enough; running out of them would
    be a [Panic]. *)
Fixpoint clamp_options (fuel : nat) (max_mss : Z) (opt_offset opt_end : nat) (modified : bool)
    : ST bytes PacketError bool :=
  if decide (opt_end ≤ opt_offset)%nat then sret modified else
  match fuel with
  | O => slift Panic
  | S fuel =>
      let! kind := sreads (λ packet, idx packet opt_offset) in
      if decide (kind = 0) then sret modified else
      if decide (kind = 1) then clamp_options fuel max_mss (opt_offset + 1) opt_end modified else
      if decide (opt_end ≤ opt_offset + 1)%nat then sret modified else
      let! len8 := sreads (λ packet, idx packet (opt_offset + 1)) in
      let len := Z.to_nat len8 in
      if decide (len < 2 ∨ opt_end < opt_offset + len)%nat then sret modified else
      if decide (kind = 2 ∧ len = 4%nat) then
        let! current_mss := sreads (λ packet, rd16 packet (opt_offset + 2)) in
        if decide (max_mss < current_mss) then
          write_at (opt_offset + 2) (be_bytes 2 max_mss) ;;;
          clamp_options fuel max_mss (opt_offset + len) opt_end true
        else clamp_options fuel max_mss (opt_offset + len) opt_end modified
      else clamp_options fuel max_mss (opt_offset + len) opt_end modified
  end.

Definition clamp_tcp_mss (max_mss : Z) : ST bytes PacketError bool :=
  let! meta := sreads transport_metadata in
  let '(protocol, transport_offset, total_len) := meta in
  if decide (protocol ≠ IP_PROTOCOL_TCP) then sret false else
  let! header := sreads (λ packet, ok_or (get_range packet transport_offset (transport_offset + 20))
                                       TruncatedTransportHeader) in
  let! flags := slift (idx header 13) in
  if decide (Z.land flags 0x02 = 0) then sret false else
  let! data_offset := slift (idx header 12) in
  let header_len := (Z.to_nat (Z.shiftr data_offset 4) * 4)%nat in
  if decide (header_len < 20 ∨ total_len < transport_offset + header_len)%nat
  then serr TruncatedTransportHeader else
  clamp_options (header_len - 20) max_mss (transport_offset + 20) (transport_offset + header_len)
    false.

(** [Vec::resize] with zeroes. *)
Definition vec_resize (n : nat) (l : bytes) : bytes := resize n 0 l.

Definition ensure_udp_payload_len (minimum : nat) : ST bytes PacketError unit :=
  let! meta := sreads transport_metadata in
  let '(protocol, transport_offset, total_len) := meta in
  if decide (protocol ≠ IP_PROTOCOL_UDP) then serr (UnsupportedProtocol protocol) else
  let! udp_len := sreads (λ packet, validate_udp_layout packet transport_offset total_len) in
  let! payload_len := slift (usub udp_len 8) in
  if decide (minimum ≤ payload_len)%nat then sret tt else
  let missing := (minimum - payload_len)%nat in
  if decide (65535 < Z.of_nat (udp_len + missing)) then serr InvalidIpLength else
  let! packet := sget in
  sput (vec_resize (total_len + missing) packet) ;;;
  write_at (transport_offset + 4) (be_bytes 2 (Z.of_nat (udp_len + missing))) ;;;
  let! first := sreads (λ packet, idx packet 0) in
  let version := Z.shiftr first 4 in
  if decide (version = 4) then
    if decide (65535 < Z.of_nat (total_len + missing)) then serr InvalidIpLength else
    write_at 2 (be_bytes 2 (Z.of_nat (total_len + missing)))
  else if decide (version = 6) then
    if decide (total_len < 40)%nat then serr InvalidIpLength else
    if decide (65535 < Z.of_nat (total_len - 40 + missing)) then serr InvalidIpLength else
    write_at 4 (be_bytes 2 (Z.of_nat (total_len - 40 + missing)))
  else serr (UnsupportedIpVersion version).

Definition checksum_offset (protocol : Z) : result nat :=
  if decide (protocol = IP_PROTOCOL_TCP) then Ok 16%nat
  else if decide (protocol = IP_PROTOCOL_UDP) then Ok 6%nat
  else if decide (protocol = IP_PROTOCOL_ICMP ∨ protocol = IP_PROTOCOL_ICMPV6) then Ok 2%nat
  else Err (UnsupportedProtocol protocol).

Definition encode_udp_zero_checksum (protocol checksum : Z) : Z :=
  if decide (protocol = IP_PROTOCOL_UDP ∧ checksum = 0) then 65535 else checksum.

(** The pseudo-header sums of the two families, continued over [transport]. *)
Definition pseudo_sum_ipv4 (packet : bytes) (transport_offset total_len : nat) (protocol : Z)
    : result Z :=
  let? addresses := slice packet 12 20 in
  let sum := checksum_add 0 addresses in
  let sum := wrap 32 (sum + protocol) in
  let? transport_len := usub total_len transport_offset in
  let sum := wrap 32 (sum + Z.of_nat transport_len) in
  let? transport := slice packet transport_offset total_len in
  Ok (checksum_add sum transport).

Definition pseudo_sum_ipv6 (packet : bytes) (transport_offset total_len : nat) (protocol : Z)
    : result Z :=
  let? addresses := slice packet 8 40 in
  let sum := checksum_add 0 addresses in
  let? transport_len := usub total_len transport_offset in
  let sum := checksum_add sum (be_bytes 4 (Z.of_nat transport_len)) in
  let sum := checksum_add sum [0; 0; 0; protocol] in
  let? transport := slice packet transport_offset total_len in
  Ok (checksum_add sum transport).

Definition validate_packet_checksums (packet : bytes) : result unit :=
  let? '(protocol, transport_offset, total_len) := transport_metadata packet in
  let? _ := (if decide (protocol = IP_PROTOCOL_UDP)
             then validate_udp_layout packet transport_offset total_len else Ok 0%nat) in
  let? first := idx packet 0 in
  let version := Z.shiftr first 4 in
  if decide (version = 4) then
    let? header := slice packet 0 transport_offset in
    if decide (internet_checksum header ≠ 0) then Err InvalidIpChecksum else
    if decide (protocol = IP_PROTOCOL_UDP
               ∧ get_range packet (transport_offset + 6) (transport_offset + 8) = Some [0; 0])
    then Ok tt else
    let? valid :=
      (if decide (protocol = IP_PROTOCOL_ICMP) then
         let? transport := slice packet transport_offset total_len in
         Ok (bool_decide (internet_checksum transport = 0))
       else
         let? sum := pseudo_sum_ipv4 packet transport_offset total_len protocol in
         Ok (bool_decide (checksum_finish sum = 0))) in
    if (valid : bool) then Ok tt else Err InvalidTransportChecksum
  else if decide (version = 6) then
    let? cs := checksum_offset protocol in
    if decide (protocol = IP_PROTOCOL_UDP
               ∧ get_range packet (transport_offset + cs) (transport_offset + cs + 2)
                 = Some [0; 0])
    then Err InvalidTransportChecksum else
    let? sum := pseudo_sum_ipv6 packet transport_offset total_len protocol in
    if decide (checksum_finish sum = 0) then Ok tt else Err InvalidTransportChecksum
  else Err (UnsupportedIpVersion version).

Definition prepare_forwarded_packet : ST bytes PacketError unit :=
  let! fragmented := sreads ip_packet_is_fragmented in
  if (fragmented : bool) then serr NonInitialFragment else
  sreads validate_packet_checksums ;;;
  let! version := sreads ip_version in
  let! packet := sget in
  if decide (version = 4) then
    let! header_len := slift (ipv4_header_len packet) in
    if decide (header_len < 20 ∨ length packet < header_len)%nat then serr TruncatedIpHeader else
    let! ttl := slift (idx packet 8) in
    if decide (ttl ≤ 1) then serr HopLimitExceeded else
    write_at 8 [ttl - 1] ;;;
    write_at 10 [0; 0] ;;;
    let! header := sreads (λ packet, slice packet 0 header_len) in
    write_at 10 (be_bytes 2 (internet_checksum header))
  else if decide (version = 6) then
    if decide (length packet < 40)%nat then serr TruncatedIpHeader else
    let! hops := slift (idx packet 7) in
    if decide (hops ≤ 1) then serr HopLimitExceeded else
    write_at 7 [hops - 1]
  else serr (UnsupportedIpVersion version).

Definition rewrite_transport_fields (translated : FlowKey) : ST bytes PacketError unit :=
  match fk_protocol translated with
  | Tcp | Udp =>
      let! _ports := sreads (λ transport, ok_or (get_range transport 0 4) TruncatedTransportHeader) in
      write_at 0 (be_bytes 2 (fk_source_port translated)) ;;;
      write_at 2 (be_bytes 2 (fk_destination_port translated))
  | Icmp | Icmpv6 =>
      let! _icmp := sreads (λ transport, ok_or (get_range transport 0 8) TruncatedTransportHeader) in
      write_at 0 (be_bytes 2 (fk_destination_port translated)) ;;;
      write_at 4 (be_bytes 2 (fk_source_port translated))
  end.

Definition write_transport_checksum_ipv4 (transport_offset total_len : nat) (protocol : Z)
    : ST bytes PacketError unit :=
  let! cs := slift (checksum_offset protocol) in
  let! _transport_len := slift (usub total_len transport_offset) in
  write_at (transport_offset + cs) [0; 0] ;;;
  if decide (protocol = IP_PROTOCOL_ICMP) then
    let! transport := sreads (λ packet, slice packet transport_offset total_len) in
    write_at (transport_offset + cs) (be_bytes 2 (internet_checksum transport))
  else
    let! sum := sreads (λ packet, pseudo_sum_ipv4 packet transport_offset total_len protocol) in
    write_at (transport_offset + cs)
      (be_bytes 2 (encode_udp_zero_checksum protocol (checksum_finish sum))).

Definition write_transport_checksum_ipv6 (transport_offset total_len : nat) (protocol : Z)
    : ST bytes PacketError unit :=
  let! cs := slift (checksum_offset protocol) in
  let! _transport_len := slift (usub total_len transport_offset) in
  write_at (transport_offset + cs) [0; 0] ;;;
  let! sum := sreads (λ packet, pseudo_sum_ipv6 packet transport_offset total_len protocol) in
  write_at (transport_offset + cs)
    (be_bytes 2 (encode_udp_zero_checksum protocol (checksum_finish sum))).

Definition rewrite_ipv4_packet (source destination : Z) (translated : FlowKey)
    : ST bytes PacketError unit :=
  let! header_len := sreads ipv4_header_len in
  let! total := sreads (λ packet, rd16 packet 2) in
  let total_len := Z.to_nat total in
  write_at 12 (be_bytes 4 source) ;;;
  write_at 16 (be_bytes 4 destination) ;;;
  on_slice header_len total_len (rewrite_transport_fields translated) ;;;
  write_at 10 [0; 0] ;;;
  let! header := sreads (λ packet, slice packet 0 header_len) in
  write_at 10 (be_bytes 2 (internet_checksum header)) ;;;
  let! protocol := sreads (λ packet, idx packet 9) in
  let! packet := sget in
  if decide (protocol = IP_PROTOCOL_UDP
             ∧ get_range packet (header_len + 6) (header_len + 8) = Some [0; 0])
  then sret tt
  else write_transport_checksum_ipv4 header_len total_len protocol.

Definition rewrite_ipv6_packet (source destination : Z) (translated : FlowKey)
    : ST bytes PacketError unit :=
  let! payload_len := sreads (λ packet, rd16 packet 4) in
  let total_len := (40 + Z.to_nat payload_len)%nat in
  let! next_header := sreads (λ packet, idx packet 6) in
  let! found := sreads (λ packet, ipv6_transport_offset packet total_len next_header 40) in
  let '(protocol, transport_offset) := found in
  write_at 8 (be_bytes 16 source) ;;;
  write_at 24 (be_bytes 16 destination) ;;;
  on_slice transport_offset total_len (rewrite_transport_fields translated) ;;;
  write_transport_checksum_ipv6 transport_offset total_len protocol.

Definition rewrite_packet (translated : FlowKey) : ST bytes PacketError unit :=
  let! original := sreads parse_flow_key in
  if decide (fk_protocol original ≠ fk_protocol translated
             ∨ same_family (fk_source original) (fk_source translated) = false
             ∨ same_family (fk_destination original) (fk_destination translated) = false)
  then serr InvalidTranslation
  else
    match fk_source original, fk_source translated with
    | V4 _, V4 source =>
        match fk_destination translated with
        | V4 destination => rewrite_ipv4_packet source destination translated
        | V6 _ => serr InvalidTranslation
        end
    | V6 _, V6 source =>
        match fk_destination translated with
        | V6 destination => rewrite_ipv6_packet source destination translated
        | V4 _ => serr InvalidTranslation
        end
    | _, _ => serr InvalidTranslation
    end.
