(* ===== verification/PacketFacts.v ===== *)
(** Lemmas on [Packet]: symbolic execution of the in-place writers, the header
    layout behind [transport_metadata], and the frame facts that say which bytes
    each parser reads. *)
From S2P Require Import Prelude Net Checksum Packet.

#[local] Arguments Nat.add : simpl never.
#[local] Arguments Nat.mul : simpl never.

(** ** Running an [ST] computation *)

Lemma sbind_run {S E A B} (c : ST S E A) (k : A → ST S E B) s a s' :
  c s = (Ok a, s') → sbind c k s = k a s'.
Proof. intros H. unfold sbind. by rewrite H. Qed.

Lemma write_at_run {E} lo bs (l : bytes) : (lo + length bs ≤ length l)%nat →
  write_at (E := E) lo bs l = (Ok tt, patch lo bs l).
Proof. intros. unfold write_at. by rewrite decide_True. Qed.

Lemma sreads_run {S E A} (f : S → outcome E A) s a : f s = Ok a → sreads f s = (Ok a, s).
Proof. intros H. unfold sreads. by rewrite H. Qed.

Lemma slift_run {S E A} (c : outcome E A) (s : S) a : c = Ok a → slift c s = (Ok a, s).
Proof. by intros ->. Qed.

Lemma on_slice_run {E A} lo hi (c : ST bytes E A) (l : bytes) o s' :
  (lo ≤ hi)%nat → (hi ≤ length l)%nat → c (sub l lo hi) = (o, s') →
  on_slice lo hi c l = (o, patch lo s' l).
Proof. intros ?? H. unfold on_slice. rewrite get_range_ok by done. by rewrite H. Qed.

(** One step of a computation whose next primitive is known to succeed; the side
    conditions are lengths. *)
Ltac plen :=
  repeat first [rewrite length_be_bytes | rewrite length_patch by plen
               | rewrite length_sub by plen];
  cbn [length]; lia.
Ltac sstep :=
  cbv beta;
  first [ erewrite sbind_run; [|apply write_at_run; plen]
        | erewrite sbind_run; [|apply sreads_run; eassumption]
        | erewrite sbind_run; [|apply slift_run; eassumption]
        | rewrite write_at_run by plen ].

(** ** Version nibble *)

Definition is_v4 (p : bytes) : Prop := Z.shiftr (byte_at p 0) 4 = 4.

Lemma ip_version_ok p : (0 < length p)%nat → ip_version p = Ok (Z.shiftr (byte_at p 0) 4).
Proof. intros. unfold ip_version. by rewrite lookup_byte_at. Qed.

Lemma ip_version_nonempty p v : ip_version p = Ok v → (0 < length p)%nat.
Proof. unfold ip_version. destruct p; simpl; [done|lia]. Qed.

Lemma ipv4_header_len_ok p : (0 < length p)%nat →
  ipv4_header_len p = Ok (Z.to_nat (Z.land (byte_at p 0) 0x0f) * 4)%nat.
Proof. intros. unfold ipv4_header_len. by rewrite idx_ok. Qed.

(** ** Addresses *)

Definition ip_source (p : bytes) : IpAddr :=
  if decide (is_v4 p) then V4 (be_val (sub p 12 16)) else V6 (be_val (sub p 8 24)).
Definition ip_destination (p : bytes) : IpAddr :=
  if decide (is_v4 p) then V4 (be_val (sub p 16 20)) else V6 (be_val (sub p 24 40)).

Definition ipv4_fragment_bits (p : bytes) : Z :=
  Z.land (be16 (byte_at p 6) (byte_at p 7)) 0x3fff.

(** [parse_flow_key] is [transport_metadata] followed by the fragment test and
    [build_flow_key]: the two header walks of the source agree. *)
Lemma parse_flow_key_meta p :
  parse_flow_key p =
    let? '(protocol, off, total) := transport_metadata p in
    if decide (is_v4 p ∧ ipv4_fragment_bits p ≠ 0) then Err NonInitialFragment
    else let? transport := slice p off total in
         build_flow_key (ip_source p) (ip_destination p) protocol transport.
Proof.
  unfold parse_flow_key, transport_metadata, ip_source, ip_destination, is_v4.
  destruct (ip_version p) as [v| |] eqn:Hv; [|done..]. simpl.
  pose proof (ip_version_nonempty p v Hv) as Hne. rewrite ip_version_ok in Hv by done.
  injection Hv as Hv. rewrite Hv. case_decide as H4; [|case_decide as H6]; [| |done].
  - unfold parse_ipv4_flow_key. case_decide; [done|]. rewrite ipv4_header_len_ok by lia. simpl.
    case_decide; [done|]. rewrite !rd16_ok by lia. simpl. case_decide; [done|].
    rewrite (idx_ok p 9) by lia. rewrite (slice_ok p 12 16), (slice_ok p 16 20) by lia. simpl.
    unfold ipv4_fragment_bits. simpl. repeat case_decide; tauto.
  - unfold parse_ipv6_flow_key. case_decide; [done|]. rewrite !rd16_ok by lia. simpl.
    case_decide; [done|]. rewrite (idx_ok p 6) by lia.
    rewrite (slice_ok p 8 24), (slice_ok p 24 40) by lia. simpl.
    destruct (ipv6_transport_offset _ _ _ _) as [[proto off]| |]; simpl; [|done..].
    rewrite decide_False by (intros [? _]; lia). done.
Qed.

(** ** The IPv6 extension header walk *)

Lemma ipv6_loop_bounds n p tl nh o proto off :
  ipv6_transport_offset_loop n p tl nh o = Ok (proto, off) → (o ≤ tl)%nat → (o ≤ off ≤ tl)%nat.
Proof.
  revert nh o. induction n as [|n IH]; intros nh o H Ho; simpl in H; [done|].
  case_decide; [|case_decide; [|case_decide; [|case_decide]]].
  - destruct (get_range p o (o + 2)) as [h|]; simpl in H; [|done].
    destruct (idx h 0); simpl in H; [|done..]. destruct (idx h 1); simpl in H; [|done..].
    case_decide; [|done]. apply IH in H; lia.
  - destruct (get_range _ _ _); simpl in H; done.
  - destruct (get_range p o (o + 2)) as [h|]; simpl in H; [|done].
    destruct (idx h 0); simpl in H; [|done..]. destruct (idx h 1); simpl in H; [|done..].
    case_decide; [|done]. apply IH in H; lia.
  - done.
  - injection H as <- <-. lia.
Qed.

Lemma idx_sub_ok {E} (p : bytes) a b i : (i < b - a)%nat → (b ≤ length p)%nat →
  idx (E := E) (sub p a b) i = Ok (byte_at p (a + i)).
Proof. intros. rewrite idx_ok by (rewrite length_sub; lia). by rewrite byte_at_sub. Qed.

Lemma ipv6_loop_frame n p p' tl tl' nh o proto off :
  ipv6_transport_offset_loop n p tl nh o = Ok (proto, off) → (o ≤ tl ≤ tl')%nat → (off ≤ length p')%nat →
  (∀ i, (o ≤ i < off)%nat → byte_at p' i = byte_at p i) →
  ipv6_transport_offset_loop n p' tl' nh o = Ok (proto, off).
Proof.
  intros H Htl Hlen. revert nh o H Htl. induction n as [|n IH]; intros nh o H Ho Hf; simpl in *; [done|].
  case_decide; [|case_decide; [|case_decide; [|case_decide]]]; [| | |done|done].
  - destruct (get_range p o (o + 2)) as [h|] eqn:Hg; simpl in H; [|done].
    apply get_range_Some in Hg as (_ & Hb & ->). rewrite !idx_sub_ok in H by lia. simpl in H.
    case_decide as Hd; [|done]. pose proof (ipv6_loop_bounds _ _ _ _ _ _ _ H Hd).
    rewrite get_range_ok by lia. simpl. rewrite !idx_sub_ok by lia. simpl.
    rewrite !Hf by lia. rewrite decide_True by lia. apply IH; [done|lia|]. intros; apply Hf; lia.
  - destruct (get_range p o (o + 8)); simpl in H; done.
  - destruct (get_range p o (o + 2)) as [h|] eqn:Hg; simpl in H; [|done].
    apply get_range_Some in Hg as (_ & Hb & ->). rewrite !idx_sub_ok in H by lia. simpl in H.
    case_decide as Hd; [|done]. pose proof (ipv6_loop_bounds _ _ _ _ _ _ _ H Hd).
    rewrite get_range_ok by lia. simpl. rewrite !idx_sub_ok by lia. simpl.
    rewrite !Hf by lia. rewrite decide_True by lia. apply IH; [done|lia|]. intros; apply Hf; lia.
Qed.

(** ** What [transport_metadata] establishes *)

Record layout (p : bytes) (proto : Z) (off total : nat) : Prop := {
  layout_order : (20 ≤ off ≤ total)%nat;
  layout_total : (total ≤ length p)%nat;
  layout_small : Z.of_nat total ≤ 65575;
  layout_version : Z.shiftr (byte_at p 0) 4 = 4 ∨ Z.shiftr (byte_at p 0) 4 = 6;
  layout_v4 : is_v4 p →
    off = (Z.to_nat (Z.land (byte_at p 0) 0x0f) * 4)%nat
    ∧ total = Z.to_nat (be16 (byte_at p 2) (byte_at p 3)) ∧ proto = byte_at p 9;
  layout_v6 : ¬ is_v4 p →
    (40 ≤ off)%nat ∧ total = (40 + Z.to_nat (be16 (byte_at p 4) (byte_at p 5)))%nat
    ∧ ipv6_transport_offset p total (byte_at p 6) 40 = Ok (proto, off);
}.

Lemma transport_metadata_layout p proto off total : bytes_ok p →
  transport_metadata p = Ok (proto, off, total) ↔ layout p proto off total.
Proof.
  intros Hok. unfold transport_metadata. split.
  - intros H. destruct (ip_version p) as [v| |] eqn:Hv; simpl in H; [|done..].
    pose proof (ip_version_nonempty p v Hv). rewrite ip_version_ok in Hv by done.
    injection Hv as Hv. pose proof (be16_range _ _ (byte_at_range p 2 Hok) (byte_at_range p 3 Hok)).
    pose proof (be16_range _ _ (byte_at_range p 4 Hok) (byte_at_range p 5 Hok)).
    unfold fits in *. case_decide as H4; [|case_decide as H6]; [| |done]; subst v.
    + case_decide; [done|]. rewrite ipv4_header_len_ok in H by lia. simpl in H.
      case_decide; [done|]. rewrite rd16_ok in H by lia. simpl in H. case_decide; [done|].
      rewrite idx_ok in H by lia. simpl in H. injection H as <- <- <-.
      split; unfold is_v4; intros; try lia; try tauto.
    + case_decide; [done|]. rewrite rd16_ok in H by lia. simpl in H. case_decide; [done|].
      rewrite idx_ok in H by lia. simpl in H.
      destruct (ipv6_transport_offset _ _ _ _) as [[pr o]| |] eqn:Ho; simpl in H; [|done..].
      injection H as <- <- <-.
      apply ipv6_loop_bounds in Ho as Hb; [|lia].
      split; unfold is_v4; try lia. intros _. split_and!; [lia|done|done].
  - intros [Ho Ht Hs Hver H4 H6]. rewrite ip_version_ok by lia. simpl.
    unfold is_v4 in *. case_decide as Hd.
    + destruct (H4 Hd) as (-> & -> & ->). rewrite decide_False by lia.
      rewrite ipv4_header_len_ok by lia. simpl. rewrite decide_False by lia.
      rewrite rd16_ok by lia. simpl. rewrite decide_False by lia. by rewrite idx_ok by lia.
    + destruct (H6 Hd) as (Ho40 & -> & Hoff). rewrite decide_True by lia.
      rewrite decide_False by lia. rewrite rd16_ok by lia. cbn [obind].
      rewrite decide_False by lia. rewrite idx_ok by lia. cbn [obind]. by rewrite Hoff.
Qed.

(** The bytes the header walk reads. *)
Definition meta_byte (p : bytes) (off i : nat) : Prop :=
  (i < 7)%nat ∨ (40 ≤ i < off)%nat ∨ (is_v4 p ∧ (i = 7 ∨ i = 9)%nat).

Lemma layout_frame p p' proto off total : layout p proto off total → length p' = length p →
  (∀ i, meta_byte p off i → byte_at p' i = byte_at p i) → layout p' proto off total.
Proof.
  intros [Ho Ht Hs Hver H4 H6] Hlen Hf. unfold meta_byte in Hf.
  assert (byte_at p' 0 = byte_at p 0) as H0 by (apply Hf; lia).
  split; unfold is_v4 in *; rewrite ?Hlen, ?H0; try done.
  - intros Hv. destruct (H4 Hv) as (? & ? & ?). rewrite !Hf by lia. done.
  - intros Hv. destruct (H6 Hv) as (? & ? & Hoff). rewrite !Hf by lia. split_and!; [done..|].
    eapply ipv6_loop_frame; [done|lia|lia|]. intros; apply Hf; lia.
Qed.
