(* ===== verification/PacketRewrite.v ===== *)
(** The correctness of the packet writers of [Packet]: [rewrite_packet],
    [prepare_forwarded_packet], [clamp_tcp_mss] and [ensure_udp_payload_len]. *)
From S2P Require Import Prelude Net Checksum Packet PacketFacts.

#[local] Arguments Nat.add : simpl never.
#[local] Arguments Nat.mul : simpl never.

(** ** The shape of a transport header *)

Inductive transport_shape (proto : Z) (tr : bytes) : Z → Z → TransportProtocol → Prop :=
| shape_tcp :
    proto = IP_PROTOCOL_TCP →
    (20 ≤ Z.to_nat (Z.shiftr (byte_at tr 12) 4) * 4 ≤ length tr)%nat →
    transport_shape proto tr (be16 (byte_at tr 0) (byte_at tr 1))
      (be16 (byte_at tr 2) (byte_at tr 3)) Tcp
| shape_udp :
    proto = IP_PROTOCOL_UDP →
    (8 ≤ length tr)%nat →
    Z.to_nat (be16 (byte_at tr 4) (byte_at tr 5)) = length tr →
    transport_shape proto tr (be16 (byte_at tr 0) (byte_at tr 1))
      (be16 (byte_at tr 2) (byte_at tr 3)) Udp
| shape_icmp :
    proto = IP_PROTOCOL_ICMP → (8 ≤ length tr)%nat →
    (byte_at tr 0 = 0 ∨ byte_at tr 0 = 8) → byte_at tr 1 = 0 →
    transport_shape proto tr (be16 (byte_at tr 4) (byte_at tr 5))
      (be16 (byte_at tr 0) (byte_at tr 1)) Icmp
| shape_icmpv6 :
    proto = IP_PROTOCOL_ICMPV6 → (8 ≤ length tr)%nat →
    (byte_at tr 0 = 128 ∨ byte_at tr 0 = 129) → byte_at tr 1 = 0 →
    transport_shape proto tr (be16 (byte_at tr 4) (byte_at tr 5))
      (be16 (byte_at tr 0) (byte_at tr 1)) Icmpv6.

Lemma rd16_sub_ok {E} (p : bytes) a b i : (i + 1 < b - a)%nat → (b ≤ length p)%nat →
  rd16 (E := E) (sub p a b) i = Ok (be16 (byte_at p (a + i)) (byte_at p (a + S i))).
Proof. intros. rewrite rd16_ok by plen. by rewrite !byte_at_sub by lia. Qed.

Lemma get_range_head (tr : bytes) n : get_range tr 0 n = None ↔ (length tr < n)%nat.
Proof. unfold get_range. case_decide; split; try done; lia. Qed.

Lemma build_flow_key_shape s d proto tr f :
  build_flow_key s d proto tr = Ok f ↔
  ∃ sp dp pr, transport_shape proto tr sp dp pr ∧ f = mkFlowKey s d sp dp pr.
Proof.
  unfold build_flow_key. split.
  - intros H. apply obind_Ok in H as ([[sp dp] pr] & H & Hf). injection Hf as <-.
    exists sp, dp, pr. split; [|done].
    repeat case_decide; obinv; try done;
      rewrite ?idx_sub_ok, ?rd16_sub_ok in * by lia; obinv; simplify_eq; try done;
      rewrite ?Nat.add_0_l in *;
      first [apply shape_tcp | apply shape_udp | apply shape_icmp | apply shape_icmpv6];
      try done; try lia;
      repeat match goal with
      | H : ¬ (_ ∨ _) |- _ => apply Decidable.not_or in H as [? ?]
      | H : bool_decide _ ≠ false |- _ =>
          apply not_false_iff_true in H; apply bool_decide_eq_true in H
      end; try done; try lia; naive_solver.
  - intros (sp & dp & pr & Hs & ->).
    destruct Hs as [-> Hb | -> Hl Hu | -> Hl Ht Hc | -> Hl Ht Hc].
    + rewrite decide_True, get_range_ok by (done || lia). cbn [ok_or obind].
      rewrite idx_sub_ok, !rd16_sub_ok by lia. rewrite ?Nat.add_0_l. cbn [obind]. by rewrite decide_False by lia.
    + rewrite decide_False, decide_True, get_range_ok by (done || lia). cbn [ok_or obind].
      rewrite !rd16_sub_ok by lia. rewrite ?Nat.add_0_l. cbn [obind]. by rewrite decide_False by lia.
    + rewrite decide_False, decide_False, decide_True, get_range_ok by (try done; try lia; tauto).
      cbn [ok_or obind]. rewrite !idx_sub_ok, !rd16_sub_ok by lia. rewrite ?Nat.add_0_l. cbn [obind].
      rewrite (bool_decide_eq_true_2 (byte_at tr 0 = 0 ∨ byte_at tr 0 = 8)) by done.
      rewrite !(decide_True (P := IP_PROTOCOL_ICMP = IP_PROTOCOL_ICMP)) by done.
      by rewrite decide_False by (simpl; naive_solver).
    + rewrite decide_False, decide_False, decide_True, get_range_ok by (try done; try lia; tauto).
      cbn [ok_or obind]. rewrite !idx_sub_ok, !rd16_sub_ok by lia. rewrite ?Nat.add_0_l. cbn [obind].
      rewrite (bool_decide_eq_true_2 (byte_at tr 0 = 128 ∨ byte_at tr 0 = 129)) by done.
      rewrite !(decide_False (P := IP_PROTOCOL_ICMPV6 = IP_PROTOCOL_ICMP)) by done.
      rewrite decide_False by (simpl; naive_solver). done.
Qed.

(** Where the two port fields of a flow key live in the transport header. *)
Definition sport_at (pr : TransportProtocol) (tr : bytes) : Z :=
  match pr with
  | Tcp | Udp => be16 (byte_at tr 0) (byte_at tr 1)
  | Icmp | Icmpv6 => be16 (byte_at tr 4) (byte_at tr 5)
  end.
Definition dport_at (pr : TransportProtocol) (tr : bytes) : Z :=
  match pr with
  | Tcp | Udp => be16 (byte_at tr 2) (byte_at tr 3)
  | Icmp | Icmpv6 => be16 (byte_at tr 0) (byte_at tr 1)
  end.
Definition port_byte (pr : TransportProtocol) (i : nat) : Prop :=
  match pr with
  | Tcp | Udp => (i < 4)%nat
  | Icmp | Icmpv6 => (i < 2 ∨ i = 4 ∨ i = 5)%nat
  end.
Definition checksum_at (pr : TransportProtocol) : nat :=
  match pr with Tcp => 16 | Udp => 6 | Icmp | Icmpv6 => 2 end.
Definition checksum_byte (pr : TransportProtocol) (i : nat) : Prop :=
  (checksum_at pr ≤ i < checksum_at pr + 2)%nat.

Lemma shape_ports proto tr sp dp pr : transport_shape proto tr sp dp pr →
  sp = sport_at pr tr ∧ dp = dport_at pr tr.
Proof. by destruct 1. Qed.

Lemma shape_length proto tr sp dp pr : transport_shape proto tr sp dp pr →
  (8 ≤ length tr)%nat ∧ (checksum_at pr + 2 ≤ length tr)%nat ∧ checksum_offset proto = Ok (checksum_at pr).
Proof. unfold checksum_offset. destruct 1; subst; simpl; split_and!; done || lia. Qed.

Lemma shape_proto_byte proto tr sp dp pr : transport_shape proto tr sp dp pr → is_byte proto.
Proof. by destruct 1; subst. Qed.

(** A header with the same length and flags but new ports has the new ports; an
    ICMP header must keep its type and code. *)
Lemma shape_frame proto tr tr' sp dp pr :
  transport_shape proto tr sp dp pr → length tr' = length tr →
  (∀ i, ¬ port_byte pr i → ¬ checksum_byte pr i → byte_at tr' i = byte_at tr i) →
  (pr = Icmp ∨ pr = Icmpv6 → byte_at tr' 0 = byte_at tr 0 ∧ byte_at tr' 1 = byte_at tr 1) →
  transport_shape proto tr' (sport_at pr tr') (dport_at pr tr') pr.
Proof.
  intros Hs Hlen Hf Hi. unfold checksum_byte in Hf.
  destruct Hs as [? Hb | ? Hl Hu | ? Hl Ht Hc | ? Hl Ht Hc]; simpl in *.
  - apply shape_tcp; [done|]. rewrite (Hf 12%nat) by lia. lia.
  - apply shape_udp; [done|lia|]. rewrite (Hf 4%nat), (Hf 5%nat) by lia. lia.
  - destruct Hi as [E0 E1]; [tauto|]. apply shape_icmp; rewrite ?E0, ?E1; done || lia.
  - destruct Hi as [E0 E1]; [tauto|]. apply shape_icmpv6; rewrite ?E0, ?E1; done || lia.
Qed.

Lemma bytes_ok_two_zero : bytes_ok [0; 0].
Proof. repeat constructor; unfold is_byte; lia. Qed.
#[local] Hint Resolve bytes_ok_two_zero : rust.

(** Reading a byte of a patched string, by deciding whether it was written. *)
Ltac bat :=
  repeat first
    [ rewrite byte_at_patch_out by plen
    | rewrite byte_at_patch_in by plen
    | rewrite byte_at_sub by plen ].

Lemma be16_of_two x a b : fits 16 x → byte_at (be_bytes 2 x) 0 = a → byte_at (be_bytes 2 x) 1 = b →
  be16 a b = x.
Proof. intros H <- <-. by apply be16_be_bytes. Qed.

Lemma rewrite_transport_fields_spec tr translated :
  bytes_ok tr → (8 ≤ length tr)%nat →
  fits 16 (fk_source_port translated) → fits 16 (fk_destination_port translated) →
  ∃ tr', rewrite_transport_fields translated tr = (Ok tt, tr') ∧ length tr' = length tr
    ∧ bytes_ok tr'
    ∧ (∀ i, ¬ port_byte (fk_protocol translated) i → byte_at tr' i = byte_at tr i)
    ∧ sport_at (fk_protocol translated) tr' = fk_source_port translated
    ∧ dport_at (fk_protocol translated) tr' = fk_destination_port translated.
Proof.
  intros Hok Hlen Hs Hd. unfold rewrite_transport_fields.
  destruct (fk_protocol translated);
    (erewrite sbind_run by (apply sreads_run; rewrite get_range_ok by lia; done));
    sstep; sstep; eexists; (split; [done|]); (split; [plen|]);
    (split; [auto with rust|]); simpl; (split; [intros i Hi; bat; done|]);
    split; (apply be16_of_two; [done|bat; done..]).
Qed.

(** ** Checksums over a packet *)

Lemma word_sum_sub_bound p a b : bytes_ok p → (a ≤ b ≤ length p)%nat →
  0 ≤ 2 * word_sum (sub p a b) ≤ 65535 * Z.of_nat (b - a + 1).
Proof.
  intros Hok Hb. pose proof (word_sum_bound (sub p a b) (bytes_ok_sub p a b Hok)) as H.
  rewrite length_sub in H by lia. done.
Qed.

Lemma patch_patch_same o b1 b2 (l : bytes) : length b1 = length b2 → (o + length b2 ≤ length l)%nat →
  patch o b2 (patch o b1 l) = patch o b2 l.
Proof.
  intros Hl Hb. apply bytes_ext; [plen|]. intros i Hi.
  rewrite !length_patch in Hi by plen.
  destruct (decide (o ≤ i < o + length b2)%nat); bat; done.
Qed.

Lemma seal_field base tr cs c : bytes_ok tr → Nat.even cs = true → (cs + 2 ≤ length tr)%nat →
  0 ≤ base → base + word_sum (patch cs [0; 0] tr) + 65535 < 2 ^ 32 →
  c = checksum_finish (base + word_sum (patch cs [0; 0] tr))
    ∨ (checksum_finish (base + word_sum (patch cs [0; 0] tr)) = 0 ∧ c = 65535) →
  checksum_finish (base + word_sum (patch cs (be_bytes 2 c) tr)) = 0.
Proof.
  intros Hok Hev Hl Hb Hbd Hc.
  pose proof (word_sum_bound (patch cs [0; 0] tr) ltac:(auto with rust)).
  assert (fits 32 (base + word_sum (patch cs [0; 0] tr))) as Hf by (unfold fits; lia).
  assert (fits 16 c) as Hc16.
  { destruct Hc as [->|[_ ->]]; [by apply checksum_finish_range|done]. }
  rewrite word_sum_patch_field by done. rewrite Z.add_assoc.
  apply checksum_seal; [lia|lia|done].
Qed.

(** An Internet checksum stored over its own zeroed field verifies. *)
Lemma internet_checksum_seal tr cs : bytes_ok tr → Nat.even cs = true → (cs + 2 ≤ length tr)%nat →
  Z.of_nat (length tr) ≤ 65575 →
  internet_checksum (patch cs (be_bytes 2 (internet_checksum (patch cs [0; 0] tr))) tr) = 0.
Proof.
  intros Hok Hev Hl Hs. unfold internet_checksum.
  assert (∀ bs, bytes_ok bs → length bs = 2%nat →
            checksum_add 0 (patch cs bs tr) = 0 + word_sum (patch cs bs tr)) as Hadd.
  { intros bs Hbs Hl2. pose proof (word_sum_bound (patch cs bs tr) ltac:(auto with rust)) as Hw.
    rewrite length_patch in Hw by lia. apply checksum_add_word_sum; auto with rust; lia. }
  rewrite !Hadd by (auto with rust). pose proof (word_sum_bound (patch cs [0; 0] tr) ltac:(auto with rust)) as Hw.
  rewrite length_patch in Hw by plen. apply seal_field; auto; lia.
Qed.

Lemma pseudo_sum_ipv4_closed p off tl proto : bytes_ok p → (20 ≤ off ≤ tl)%nat →
  (tl ≤ length p)%nat → Z.of_nat tl ≤ 65575 → is_byte proto →
  pseudo_sum_ipv4 p off tl proto
  = Ok (word_sum (sub p 12 20) + proto + Z.of_nat (tl - off) + word_sum (sub p off tl)).
Proof.
  intros Hok Ho Ht Hs Hp. unfold pseudo_sum_ipv4, is_byte in *.
  rewrite !slice_ok, usub_ok by lia. cbn [obind].
  pose proof (word_sum_sub_bound p 12 20 Hok ltac:(lia)).
  pose proof (word_sum_sub_bound p off tl Hok ltac:(lia)).
  rewrite (checksum_add_word_sum (sub p 12 20)) by (auto with rust; lia).
  unfold wrap. rewrite !Z.mod_small by (rewrite ?Z.mod_small by lia; lia).
  rewrite checksum_add_word_sum by (auto with rust; lia). f_equal; lia.
Qed.

Lemma pseudo_sum_ipv6_closed p off tl proto : bytes_ok p → (40 ≤ off ≤ tl)%nat →
  (tl ≤ length p)%nat → Z.of_nat tl ≤ 65575 → is_byte proto →
  pseudo_sum_ipv6 p off tl proto
  = Ok (word_sum (sub p 8 40) + word_sum (be_bytes 4 (Z.of_nat (tl - off))) + proto
        + word_sum (sub p off tl)).
Proof.
  intros Hok Ho Ht Hs Hp. unfold pseudo_sum_ipv6.
  rewrite !slice_ok, usub_ok by lia. cbn [obind].
  pose proof (word_sum_sub_bound p 8 40 Hok ltac:(lia)).
  pose proof (word_sum_sub_bound p off tl Hok ltac:(lia)).
  pose proof (word_sum_bound (be_bytes 4 (Z.of_nat (tl - off))) ltac:(auto with rust)) as Hbe.
  rewrite length_be_bytes in Hbe.
  assert (bytes_ok [0; 0; 0; proto]) as Hpr
    by (repeat apply Forall_cons_2; try apply Forall_nil_2; unfold is_byte in *; lia).
  assert (word_sum [0; 0; 0; proto] = proto) as Hwp by (simpl; unfold be16; lia).
  unfold is_byte in Hp.
  rewrite (checksum_add_word_sum (sub p 8 40)) by (auto with rust; lia).
  rewrite (checksum_add_word_sum (be_bytes 4 _)) by (auto with rust; lia).
  rewrite (checksum_add_word_sum [0; 0; 0; proto]) by (auto with rust; lia).
  rewrite checksum_add_word_sum by (auto with rust; lia). f_equal; lia.
Qed.

Definition transport_verifies_v4 (p : bytes) (off tl : nat) (proto : Z) : Prop :=
  if decide (proto = IP_PROTOCOL_ICMP) then internet_checksum (sub p off tl) = 0
  else ∃ s, pseudo_sum_ipv4 p off tl proto = Ok s ∧ checksum_finish s = 0.

Definition transport_verifies_v6 (p : bytes) (off tl : nat) (proto : Z) : Prop :=
  ∃ s, pseudo_sum_ipv6 p off tl proto = Ok s ∧ checksum_finish s = 0.

Lemma checksum_offset_even proto cs : checksum_offset proto = Ok cs → Nat.even cs = true.
Proof. unfold checksum_offset. repeat case_decide; intros; by simplify_eq. Qed.

Lemma encode_udp_zero_cases proto s : fits 32 s →
  let c := encode_udp_zero_checksum proto (checksum_finish s) in
  fits 16 c ∧ (c = checksum_finish s ∨ (checksum_finish s = 0 ∧ c = 65535))
  ∧ (proto = IP_PROTOCOL_UDP → c ≠ 0).
Proof.
  intros Hs. unfold encode_udp_zero_checksum. pose proof (checksum_finish_range s Hs).
  case_decide as Hd; simpl; split_and!; [done|tauto|done|done|by left|]. intros -> E. by apply Hd.
Qed.

Section transport_checksum.
Context (p : bytes) (off tl : nat) (proto : Z) (cs : nat).
Context (Hok : bytes_ok p) (Ht : (tl ≤ length p)%nat) (Hs : Z.of_nat tl ≤ 65575).
Context (Hp : is_byte proto) (Hcs : checksum_offset proto = Ok cs) (Hc : (off + cs + 2 ≤ tl)%nat).

Let q (c : Z) : bytes := patch (off + cs) (be_bytes 2 c) (patch (off + cs) [0; 0] p).

Lemma sealed_length c : length (q c) = length p.
Proof using Hc Ht. unfold q. plen. Qed.

Lemma sealed_ok c : bytes_ok (q c).
Proof using Hok. unfold q. auto with rust. Qed.

Lemma sealed_frame c i : ¬ (off + cs ≤ i < off + cs + 2)%nat → byte_at (q c) i = byte_at p i.
Proof using Hc Ht. intros. unfold q. by bat. Qed.

Lemma sealed_sub c : sub (q c) off tl = patch cs (be_bytes 2 c) (sub p off tl).
Proof using Hc Ht.
  unfold q. rewrite patch_patch_same by plen. rewrite sub_patch_in by plen. f_equal; lia.
Qed.

Lemma zeroed_sub : sub (patch (off + cs) [0; 0] p) off tl = patch cs [0; 0] (sub p off tl).
Proof using Hc Ht. rewrite sub_patch_in by plen. f_equal; lia. Qed.

Lemma zeroed_bound : 0 ≤ 2 * word_sum (patch cs [0; 0] (sub p off tl)) ≤ 65535 * 65576.
Proof using Hc Hok Hs Ht.
  pose proof (word_sum_bound (patch cs [0; 0] (sub p off tl)) ltac:(auto with rust)) as Hw.
  rewrite length_patch, length_sub in Hw by plen. lia.
Qed.

Lemma write_transport_checksum_ipv4_spec : (20 ≤ off)%nat →
  ∃ p', write_transport_checksum_ipv4 off tl proto p = (Ok tt, p') ∧ length p' = length p
    ∧ bytes_ok p'
    ∧ (∀ i, ¬ (off + cs ≤ i < off + cs + 2)%nat → byte_at p' i = byte_at p i)
    ∧ transport_verifies_v4 p' off tl proto.
Proof using Hok Ht Hs Hp Hcs Hc.
  intros Ho. unfold write_transport_checksum_ipv4, transport_verifies_v4.
  pose proof (checksum_offset_even _ _ Hcs) as Hev. pose proof zeroed_bound as Hzb.
  sstep. erewrite sbind_run by (apply slift_run; apply usub_ok; lia). sstep. case_decide as Hi.
  - erewrite sbind_run by (apply sreads_run; apply slice_ok; plen). sstep.
    eexists; split; [done|]. fold (q (internet_checksum (sub (patch (off + cs) [0; 0] p) off tl))).
    split; [apply sealed_length|]. split; [apply sealed_ok|]. split; [apply sealed_frame|].
    rewrite sealed_sub, zeroed_sub. apply internet_checksum_seal; auto with rust; plen.
  - erewrite sbind_run by (apply sreads_run; apply pseudo_sum_ipv4_closed; auto with rust; plen).
    sstep. eexists; split; [done|].
    set (s := _ + _ + _ + word_sum _). fold (q (encode_udp_zero_checksum proto (checksum_finish s))).
    split; [apply sealed_length|]. split; [apply sealed_ok|]. split; [apply sealed_frame|].
    eexists; split; [apply pseudo_sum_ipv4_closed; auto using sealed_ok; rewrite ?sealed_length; lia|].
    assert (sub (q (encode_udp_zero_checksum proto (checksum_finish s))) 12 20 = sub p 12 20) as ->.
    { unfold q. by rewrite !sub_patch_out by plen. }
    rewrite sealed_sub. pose proof (word_sum_sub_bound p 12 20 Hok ltac:(lia)).
    subst s. rewrite zeroed_sub. rewrite sub_patch_out by plen. unfold is_byte in Hp.
    apply seal_field; auto with rust; [plen|lia|lia|].
    apply encode_udp_zero_cases. unfold fits. lia.
Qed.

Lemma write_transport_checksum_ipv6_spec : (40 ≤ off)%nat →
  ∃ p', write_transport_checksum_ipv6 off tl proto p = (Ok tt, p') ∧ length p' = length p
    ∧ bytes_ok p'
    ∧ (∀ i, ¬ (off + cs ≤ i < off + cs + 2)%nat → byte_at p' i = byte_at p i)
    ∧ transport_verifies_v6 p' off tl proto
    ∧ (proto = IP_PROTOCOL_UDP → get_range p' (off + cs) (off + cs + 2) ≠ Some [0; 0]).
Proof using Hok Ht Hs Hp Hcs Hc.
  intros Ho. unfold write_transport_checksum_ipv6, transport_verifies_v6.
  pose proof (checksum_offset_even _ _ Hcs) as Hev. pose proof zeroed_bound as Hzb.
  pose proof (word_sum_sub_bound p 8 40 Hok ltac:(lia)) as Hb40.
  pose proof (word_sum_bound (be_bytes 4 (Z.of_nat (tl - off))) ltac:(auto with rust)) as Hbe.
  rewrite length_be_bytes in Hbe.
  sstep. erewrite sbind_run by (apply slift_run; apply usub_ok; lia). sstep.
  erewrite sbind_run by (apply sreads_run; apply pseudo_sum_ipv6_closed; auto with rust; plen).
  sstep. eexists; split; [done|].
  set (s := _ + _ + _ + word_sum _). fold (q (encode_udp_zero_checksum proto (checksum_finish s))).
  split; [apply sealed_length|]. split; [apply sealed_ok|]. split; [apply sealed_frame|].
  assert (fits 32 s) as Hfs.
  { subst s. rewrite zeroed_sub, sub_patch_out by plen. unfold fits, is_byte in *. lia. }
  destruct (encode_udp_zero_cases proto s Hfs) as (Hf16 & Hcase & Hnz). split.
  - eexists; split; [apply pseudo_sum_ipv6_closed; auto using sealed_ok; rewrite ?sealed_length; lia|].
    assert (sub (q (encode_udp_zero_checksum proto (checksum_finish s))) 8 40 = sub p 8 40) as ->.
    { unfold q. by rewrite !sub_patch_out by plen. }
    rewrite sealed_sub. subst s. rewrite zeroed_sub in Hcase |- *.
    rewrite sub_patch_out in Hcase |- * by plen. unfold is_byte in Hp.
    apply seal_field; auto with rust; [plen|lia|lia].
  - intros Hudp Hz. apply (Hnz Hudp). apply get_range_Some in Hz as (_ & _ & Hz).
    rewrite <- (be_val_be_bytes 2 _ Hf16).
    pose proof (sub_patch_same (off + cs) (be_bytes 2 (encode_udp_zero_checksum proto (checksum_finish s)))
      (patch (off + cs) [0; 0] p) ltac:(plen)) as Hsame.
    rewrite length_be_bytes in Hsame. unfold q in Hz. rewrite Hsame in Hz. by rewrite <- Hz.
Qed.
End transport_checksum.

(** ** [rewrite_packet] *)

Lemma sub_frame (p p' : bytes) a b : length p' = length p → (b ≤ length p)%nat →
  (∀ i, (a ≤ i < b)%nat → byte_at p' i = byte_at p i) → sub p' a b = sub p a b.
Proof.
  intros Hl Hb Hf. apply bytes_ext; [rewrite !length_sub; lia|]. intros i Hi.
  rewrite length_sub in Hi by lia. rewrite !byte_at_sub by lia. apply Hf. lia.
Qed.

(** The header checksum written over the zeroed field of a 20-byte or longer
    IPv4 header, as [rewrite_ipv4_packet] and [prepare_forwarded_packet] do. *)
Definition seal_header (off : nat) (p : bytes) : bytes :=
  patch 10 (be_bytes 2 (internet_checksum (sub (patch 10 [0; 0] p) 0 off))) (patch 10 [0; 0] p).

Section seal_header.
Context (p : bytes) (off : nat) (Hok : bytes_ok p) (Ho : (20 ≤ off ≤ length p)%nat).

Lemma seal_header_length : length (seal_header off p) = length p.
Proof using Ho. unfold seal_header. plen. Qed.

Lemma seal_header_ok : bytes_ok (seal_header off p).
Proof using Hok. unfold seal_header. auto with rust. Qed.

Lemma seal_header_frame i : ¬ (10 ≤ i < 12)%nat → byte_at (seal_header off p) i = byte_at p i.
Proof using Ho. intros. unfold seal_header. by bat. Qed.

Lemma seal_header_sub_frame a b : (12 ≤ a)%nat → (b ≤ length p)%nat →
  sub (seal_header off p) a b = sub p a b.
Proof using Ho.
  intros. apply sub_frame; [apply seal_header_length|done|].
  intros. apply seal_header_frame. lia.
Qed.

Lemma seal_header_verifies : Z.of_nat off ≤ 65575 →
  internet_checksum (sub (seal_header off p) 0 off) = 0.
Proof using Hok Ho.
  intros. unfold seal_header. rewrite patch_patch_same by plen. rewrite !sub_patch_in by plen.
  apply internet_checksum_seal; auto with rust; plen.
Qed.
End seal_header.

(** A byte of the transport header that translation may change. *)
Definition transport_byte (pr : TransportProtocol) (off i : nat) : Prop :=
  (off ≤ i)%nat ∧ (port_byte pr (i - off) ∨ checksum_byte pr (i - off)).

Section rewrite.
Context (p : bytes) (proto : Z) (off tl : nat) (sp dp : Z) (translated : FlowKey).
Let pr : TransportProtocol := fk_protocol translated.
Context (Hok : bytes_ok p) (Hl : layout p proto off tl).
Context (Hshape : transport_shape proto (sub p off tl) sp dp pr).
Context (Hsp : fits 16 (fk_source_port translated)) (Hdp : fits 16 (fk_destination_port translated)).


(** Writing the port fields of a packet whose transport header is intact. *)
Lemma rewrite_fields_at (p1 : bytes) :
  bytes_ok p1 → length p1 = length p → sub p1 off tl = sub p off tl →
  ∃ p2, on_slice off tl (rewrite_transport_fields translated) p1 = (Ok tt, p2)
    ∧ length p2 = length p ∧ bytes_ok p2
    ∧ (∀ i, ¬ ((off ≤ i)%nat ∧ port_byte pr (i - off)) → byte_at p2 i = byte_at p1 i)
    ∧ sport_at pr (sub p2 off tl) = fk_source_port translated
    ∧ dport_at pr (sub p2 off tl) = fk_destination_port translated.
Proof using Hok Hl Hshape Hsp Hdp.
  intros Hok1 Hlen1 Hsub. destruct Hl as [Ho Ht _ _ _ _].
  pose proof (shape_length _ _ _ _ _ Hshape) as (H8 & _ & _). rewrite length_sub in H8 by lia.
  destruct (rewrite_transport_fields_spec (sub p1 off tl) translated) as
    (tr' & Hrun & Hlen' & Hok' & Hf & Hs & Hd); auto with rust; [plen|].
  rewrite length_sub in Hlen' by lia.
  exists (patch off tr' p1). split; [apply on_slice_run; [lia..|done]|]. split; [plen|].
  split; [auto with rust|].
  assert (sub (patch off tr' p1) off tl = tr') as Hst.
  { replace tl with (off + length tr')%nat by lia. apply sub_patch_same. lia. }
  rewrite Hst. split; [|done]. intros i Hi.
  destruct (decide (off ≤ i < tl)%nat) as [Hin|Hout].
  - rewrite byte_at_patch_in by lia. rewrite Hf by tauto.
    rewrite byte_at_sub by lia. f_equal; lia.
  - rewrite byte_at_patch_out by lia. done.
Qed.

(** The ports survive the write of the transport checksum. *)
Lemma ports_kept (p2 p' : bytes) :
  (∀ i, ¬ (off + checksum_at pr ≤ i < off + checksum_at pr + 2)%nat → byte_at p' i = byte_at p2 i) →
  sport_at pr (sub p' off tl) = sport_at pr (sub p2 off tl)
  ∧ dport_at pr (sub p' off tl) = dport_at pr (sub p2 off tl).
Proof using Hl Hshape.
  intros Hf. destruct Hl as [Ho Ht _ _ _ _].
  pose proof (shape_length _ _ _ _ _ Hshape) as (H8 & _ & _). rewrite length_sub in H8 by lia.
  assert (∀ i, port_byte pr i → (i < 8)%nat → byte_at (sub p' off tl) i = byte_at (sub p2 off tl) i) as Hp.
  { intros i Hpi Hi. rewrite !byte_at_sub by lia. apply Hf. destruct pr; simpl in *; lia. }
  destruct pr; simpl; rewrite !Hp by (simpl; lia); done.
Qed.

Lemma rewrite_ipv4_spec source destination : is_v4 p → fits 32 source → fits 32 destination →
  ∃ p', rewrite_ipv4_packet source destination translated p = (Ok tt, p')
    ∧ length p' = length p ∧ bytes_ok p'
    ∧ (∀ i, ¬ (10 ≤ i < 20)%nat → ¬ transport_byte pr off i → byte_at p' i = byte_at p i)
    ∧ sub p' 12 16 = be_bytes 4 source ∧ sub p' 16 20 = be_bytes 4 destination
    ∧ sport_at pr (sub p' off tl) = fk_source_port translated
    ∧ dport_at pr (sub p' off tl) = fk_destination_port translated
    ∧ internet_checksum (sub p' 0 off) = 0
    ∧ (transport_verifies_v4 p' off tl proto
       ∨ (proto = IP_PROTOCOL_UDP ∧ get_range p' (off + 6) (off + 8) = Some [0; 0])).
Proof using Hok Hl Hshape Hsp Hdp.
  intros Hv4 Hsrc Hdst. pose proof Hl as [Ho Ht Hs _ H4 _]. destruct (H4 Hv4) as (Hoff & Htot & Hproto).
  pose proof (shape_length _ _ _ _ _ Hshape) as (H8 & Hcl & Hcs). rewrite length_sub in H8, Hcl by lia.
  unfold rewrite_ipv4_packet.
  erewrite sbind_run by (apply sreads_run, ipv4_header_len_ok; lia).
  erewrite sbind_run by (apply sreads_run, rd16_ok; lia). cbv zeta beta. rewrite <- Hoff, <- Htot.
  sstep. sstep. set (p1 := patch 16 _ (patch 12 _ p)).
  assert (length p1 = length p) as Hl1 by (subst p1; plen).
  destruct (rewrite_fields_at p1) as (p2 & Hrun2 & Hl2 & Hok2 & Hf2 & Hs2 & Hd2).
  { subst p1; auto with rust. } { done. } { subst p1. by rewrite !sub_patch_out by plen. }
  erewrite sbind_run by apply Hrun2. sstep.
  erewrite sbind_run by (apply sreads_run, slice_ok; plen). cbv beta. sstep. fold (seal_header off p2).
  pose proof (seal_header_length p2 off ltac:(lia)) as Hl3.
  pose proof (seal_header_frame p2 off ltac:(lia)) as Hf3.
  pose proof (seal_header_ok p2 off Hok2) as Hok3.
  pose proof (seal_header_verifies p2 off Hok2 ltac:(lia) ltac:(lia)) as Hh3.
  pose proof (seal_header_sub_frame p2 off ltac:(lia) off tl ltac:(lia) ltac:(lia)) as Htr3.
  set (p3 := seal_header off p2) in *.
  assert (∀ i, ¬ (10 ≤ i < 12)%nat → ¬ ((off ≤ i)%nat ∧ port_byte pr (i - off)) →
          byte_at p3 i = byte_at p1 i) as Hf1 by (intros; rewrite Hf3, Hf2; done).
  assert (byte_at p3 9 = proto) as Hp9 by (rewrite Hf1 by lia; subst p1; bat; done).
  assert (sub p3 12 16 = be_bytes 4 source) as Hsrc3.
  { trans (sub p1 12 16); [apply sub_frame; [lia..|]; intros; apply Hf1; lia|].
    subst p1. rewrite sub_patch_out by plen. apply (sub_patch_same 12 (be_bytes 4 source)). plen. }
  assert (sub p3 16 20 = be_bytes 4 destination) as Hdst3.
  { trans (sub p1 16 20); [apply sub_frame; [lia..|]; intros; apply Hf1; lia|].
    apply (sub_patch_same 16 (be_bytes 4 destination)). plen. }
  assert (∀ i, ¬ (10 ≤ i < 20)%nat → ¬ transport_byte pr off i → byte_at p3 i = byte_at p i) as Hf0.
  { intros i Hi Ht'. rewrite Hf1 by (unfold transport_byte in *; lia || tauto). subst p1. by bat. }
  erewrite sbind_run by (apply sreads_run, idx_ok; lia). rewrite Hp9.
  erewrite sbind_run by done. cbv beta. case_decide as Hz.
  - exists p3. split; [done|]. rewrite Htr3. split_and!; try done; [lia|by right].
  - destruct (write_transport_checksum_ipv4_spec p3 off tl proto (checksum_at pr)) as
      (p' & Hrun' & Hl' & Hok' & Hf' & Hver); try done; try lia; [by eapply shape_proto_byte|].
    assert (∀ a b, (b ≤ off)%nat → sub p' a b = sub p3 a b) as Hlow.
    { intros a b Hb. apply sub_frame; [lia..|]. intros. apply Hf'. lia. }
    exists p'. split; [done|].
    destruct (ports_kept p3 p' Hf') as [-> ->]. rewrite Htr3, !Hlow by lia. split_and!; try done; [lia| |by left].
    intros i Hi Ht'. rewrite Hf' by (unfold transport_byte, checksum_byte in *; lia). auto.
Qed.

Lemma rewrite_ipv6_spec source destination : ¬ is_v4 p → fits 128 source → fits 128 destination →
  ∃ p', rewrite_ipv6_packet source destination translated p = (Ok tt, p')
    ∧ length p' = length p ∧ bytes_ok p'
    ∧ (∀ i, ¬ (8 ≤ i < 40)%nat → ¬ transport_byte pr off i → byte_at p' i = byte_at p i)
    ∧ sub p' 8 24 = be_bytes 16 source ∧ sub p' 24 40 = be_bytes 16 destination
    ∧ sport_at pr (sub p' off tl) = fk_source_port translated
    ∧ dport_at pr (sub p' off tl) = fk_destination_port translated
    ∧ transport_verifies_v6 p' off tl proto
    ∧ (proto = IP_PROTOCOL_UDP → get_range p' (off + 6) (off + 6 + 2) ≠ Some [0; 0]).
Proof using Hok Hl Hshape Hsp Hdp.
  intros Hv6 Hsrc Hdst. pose proof Hl as [Ho Ht Hs _ _ H6]. destruct (H6 Hv6) as (Ho40 & Htot & Hoff).
  pose proof (shape_length _ _ _ _ _ Hshape) as (H8 & Hcl & Hcs). rewrite length_sub in H8, Hcl by lia.
  unfold rewrite_ipv6_packet.
  erewrite sbind_run by (apply sreads_run, rd16_ok; lia). cbv zeta beta. rewrite <- Htot.
  erewrite sbind_run by (apply sreads_run, idx_ok; lia).
  erewrite sbind_run by (apply sreads_run, Hoff). cbv beta iota.
  sstep. sstep. set (p1 := patch 24 _ (patch 8 _ p)).
  assert (length p1 = length p) as Hl1 by (subst p1; plen).
  destruct (rewrite_fields_at p1) as (p2 & Hrun2 & Hl2 & Hok2 & Hf2 & Hs2 & Hd2).
  { subst p1; auto with rust. } { done. } { subst p1. by rewrite !sub_patch_out by plen. }
  erewrite sbind_run by apply Hrun2.
  destruct (write_transport_checksum_ipv6_spec p2 off tl proto (checksum_at pr)) as
      (p' & Hrun' & Hl' & Hok' & Hf' & Hver & Hudp); try done; try lia; [by eapply shape_proto_byte|].
  assert (∀ i, ¬ transport_byte pr off i → byte_at p' i = byte_at p1 i) as Hf1.
  { intros i Ht'. unfold transport_byte, checksum_byte in Ht'. rewrite Hf' by lia. apply Hf2. tauto. }
  assert (∀ a b, (b ≤ off)%nat → sub p' a b = sub p1 a b) as Hlow.
  { intros a b Hb. apply sub_frame; [lia..|]. intros. apply Hf1. unfold transport_byte. lia. }
  exists p'. split; [done|].
  destruct (ports_kept p2 p' Hf') as [-> ->]. rewrite !Hlow by lia. split_and!; try done; try lia.
  - intros i Hi Ht'. rewrite Hf1 by done. subst p1. by bat.
  - subst p1. rewrite sub_patch_out by plen. apply (sub_patch_same 8 (be_bytes 16 source)). plen.
  - apply (sub_patch_same 24 (be_bytes 16 destination)). plen.
  - intros Hp. subst proto. clear -Hudp Hshape. destruct Hshape; try done. by apply Hudp.
Qed.
End rewrite.

(** [parse_flow_key] succeeds exactly on the packets with this structure. *)
Lemma parse_flow_key_iff p f : bytes_ok p →
  parse_flow_key p = Ok f ↔
  ∃ proto off tl sp dp pr, layout p proto off tl ∧ (is_v4 p → ipv4_fragment_bits p = 0)
    ∧ transport_shape proto (sub p off tl) sp dp pr
    ∧ f = mkFlowKey (ip_source p) (ip_destination p) sp dp pr.
Proof.
  intros Hok. rewrite parse_flow_key_meta. split.
  - intros H. apply obind_Ok in H as ([[proto off] tl] & Hm & H).
    apply transport_metadata_layout in Hm as Hl; [|done]. case_decide as Hd; [done|].
    rewrite slice_ok in H by (destruct Hl; lia). cbn [obind] in H.
    apply build_flow_key_shape in H as (sp & dp & pr & Hs & ->).
    exists proto, off, tl, sp, dp, pr. split_and!; try done. intros H4. apply dec_stable. tauto.
  - intros (proto & off & tl & sp & dp & pr & Hl & Hfr & Hs & ->).
    rewrite (proj2 (transport_metadata_layout p proto off tl Hok) Hl). cbn [obind].
    rewrite decide_False by tauto. rewrite slice_ok by (destruct Hl; lia). cbn [obind].
    apply build_flow_key_shape. eauto 10.
Qed.

(** What a NAT binding guarantees of a translation. *)
Record translation (original translated : FlowKey) : Prop := {
  translation_protocol : fk_protocol original = fk_protocol translated;
  translation_source : same_family (fk_source original) (fk_source translated) = true;
  translation_destination : same_family (fk_destination original) (fk_destination translated) = true;
  translation_icmp : fk_protocol original = Icmp ∨ fk_protocol original = Icmpv6 →
    fk_destination_port translated = fk_destination_port original;
}.

Lemma same_family_v4 x b : same_family (V4 x) b = true ↔ ∃ y, b = V4 y.
Proof. destruct b; unfold same_family; simpl; naive_solver. Qed.
Lemma same_family_v6 x b : same_family (V6 x) b = true ↔ ∃ y, b = V6 y.
Proof. destruct b; unfold same_family; simpl; naive_solver. Qed.

(** A rewritten packet keeps the shape of its transport header. *)
Lemma shape_rewritten p p' proto off tl sp dp translated :
  layout p proto off tl → length p' = length p → bytes_ok p → bytes_ok p' →
  transport_shape proto (sub p off tl) sp dp (fk_protocol translated) →
  (∀ i, (40 ≤ i ∨ 20 ≤ i ∧ is_v4 p)%nat → ¬ transport_byte (fk_protocol translated) off i →
        byte_at p' i = byte_at p i) →
  (fk_protocol translated = Icmp ∨ fk_protocol translated = Icmpv6 → fk_destination_port translated = dp) →
  sport_at (fk_protocol translated) (sub p' off tl) = fk_source_port translated →
  dport_at (fk_protocol translated) (sub p' off tl) = fk_destination_port translated →
  transport_shape proto (sub p' off tl) (fk_source_port translated) (fk_destination_port translated)
    (fk_protocol translated).
Proof.
  intros Hl Hlen Hok Hok' Hs Hf Hi Hsp Hdp. pose proof Hl as [Ho Ht _ _ _ H6].
  pose proof (shape_ports _ _ _ _ _ Hs) as [_ Hdp0].
  pose proof (shape_length _ _ _ _ _ Hs) as (H8 & _ & _). rewrite length_sub in H8 by lia.
  rewrite <- Hsp, <- Hdp. eapply shape_frame; [done|rewrite !length_sub; lia| |].
  - intros i Hp Hc. destruct (decide (i < tl - off)%nat).
    + rewrite !byte_at_sub by lia. apply Hf.
      * destruct (decide (is_v4 p)); [right; split; [lia|done]|]. destruct H6; [done|left; lia].
      * unfold transport_byte. replace (off + i - off)%nat with i by lia. tauto.
    + unfold byte_at. rewrite !lookup_ge_None_2 by (rewrite length_sub; lia). done.
  - intros Hic. specialize (Hi Hic). rewrite <- Hdp, Hdp0 in Hi.
    pose proof (byte_at_range (sub p off tl) 0 (bytes_ok_sub _ _ _ Hok)).
    pose proof (byte_at_range (sub p off tl) 1 (bytes_ok_sub _ _ _ Hok)).
    pose proof (byte_at_range (sub p' off tl) 0 (bytes_ok_sub _ _ _ Hok')).
    pose proof (byte_at_range (sub p' off tl) 1 (bytes_ok_sub _ _ _ Hok')).
    unfold dport_at, be16, is_byte in *. destruct (fk_protocol translated); try naive_solver; lia.
Qed.

Lemma validate_udp_layout_ok p proto off tl sp dp pr : layout p proto off tl →
  transport_shape proto (sub p off tl) sp dp pr → proto = IP_PROTOCOL_UDP →
  validate_udp_layout p off tl = Ok (tl - off)%nat.
Proof.
  intros [Ho Ht _ _ _ _] Hs ->. unfold validate_udp_layout.
  inversion Hs as [? | _ Hlen Hu | ? | ?]; try done. rewrite length_sub in Hlen, Hu by lia.
  rewrite !byte_at_sub in Hu by lia. rewrite get_range_ok by lia. cbn [ok_or obind].
  rewrite rd16_sub_ok by lia. cbn [obind]. rewrite !decide_False by lia. f_equal; lia.
Qed.

Lemma udp_guard_ok p proto off tl sp dp pr : layout p proto off tl →
  transport_shape proto (sub p off tl) sp dp pr →
  ∃ n, (if decide (proto = IP_PROTOCOL_UDP) then validate_udp_layout p off tl else Ok 0%nat) = Ok n.
Proof. intros. case_decide; eexists; [by eapply validate_udp_layout_ok|done]. Qed.

(** The checksum test accepts a packet whose sums verify. *)
Lemma validate_v4_ok p proto off tl sp dp pr : bytes_ok p → layout p proto off tl → is_v4 p →
  transport_shape proto (sub p off tl) sp dp pr → internet_checksum (sub p 0 off) = 0 →
  (transport_verifies_v4 p off tl proto
   ∨ (proto = IP_PROTOCOL_UDP ∧ get_range p (off + 6) (off + 8) = Some [0; 0])) →
  validate_packet_checksums p = Ok tt.
Proof.
  intros Hok Hl Hv4 Hs Hh Hv. unfold validate_packet_checksums, transport_verifies_v4 in *.
  rewrite (proj2 (transport_metadata_layout p proto off tl Hok) Hl). cbn [obind].
  destruct (udp_guard_ok _ _ _ _ _ _ _ Hl Hs) as [n ->].
  destruct Hl as [Ho Ht _ _ _ _]. cbn [obind]. rewrite idx_ok by lia. cbn [obind]. cbv zeta.
  rewrite decide_True by done. rewrite slice_ok by lia. cbn [obind]. rewrite decide_False by lia.
  destruct (decide (_ ∧ _)) as [Hz|Hz]; [done|]. destruct Hv as [Hv|?]; [|done]. case_decide.
  - rewrite slice_ok by lia. cbn [obind]. by rewrite bool_decide_eq_true_2 by done.
  - destruct Hv as (s & -> & Hf). cbn [obind]. by rewrite bool_decide_eq_true_2 by done.
Qed.

Lemma validate_v6_ok p proto off tl sp dp pr : bytes_ok p → layout p proto off tl → ¬ is_v4 p →
  transport_shape proto (sub p off tl) sp dp pr → transport_verifies_v6 p off tl proto →
  (proto = IP_PROTOCOL_UDP → get_range p (off + 6) (off + 6 + 2) ≠ Some [0; 0]) →
  validate_packet_checksums p = Ok tt.
Proof.
  intros Hok Hl Hv6 Hs (s & Hsum & Hf) Hu. unfold validate_packet_checksums.
  rewrite (proj2 (transport_metadata_layout p proto off tl Hok) Hl). cbn [obind].
  destruct (udp_guard_ok _ _ _ _ _ _ _ Hl Hs) as [n ->].
  destruct Hl as [Ho Ht _ Hver _ _]. cbn [obind]. rewrite idx_ok by lia. cbn [obind]. cbv zeta.
  unfold is_v4 in Hv6. rewrite decide_False, decide_True by lia.
  pose proof (shape_length _ _ _ _ _ Hs) as (_ & _ & ->). cbn [obind].
  rewrite decide_False.
  - rewrite Hsum. cbn [obind]. by rewrite decide_True.
  - intros [Hp Hg]. apply (Hu Hp). destruct Hs; subst; done.
Qed.

(** A byte of the network header that translation may change: the IPv4 header
    checksum and the addresses. *)
Definition network_byte (p : bytes) (i : nat) : Prop :=
  (if decide (is_v4 p) then 10 ≤ i < 20 else 8 ≤ i < 40)%nat.

(** The state [p'] is [p] translated to [t]: the parser sees [t], every checksum
    verifies, and nothing but addresses, ports and checksums moved. *)
Record rewritten (p p' : bytes) (t : FlowKey) : Prop := {
  rewritten_length : length p' = length p;
  rewritten_ok : bytes_ok p';
  rewritten_parses : parse_flow_key p' = Ok t;
  rewritten_checksums : validate_packet_checksums p' = Ok tt;
  rewritten_rest : ∃ proto off tl, transport_metadata p = Ok (proto, off, tl)
    ∧ transport_metadata p' = Ok (proto, off, tl)
    ∧ ∀ i, ¬ network_byte p i → ¬ transport_byte (fk_protocol t) off i →
           byte_at p' i = byte_at p i;
}.

Section rewritten.
Context (p : bytes) (proto : Z) (off tl : nat) (sp dp tsp tdp : Z) (pr : TransportProtocol).
Context (Hok : bytes_ok p) (Hl : layout p proto off tl).
Context (Hs : transport_shape proto (sub p off tl) sp dp pr).
Context (Hfr : is_v4 p → ipv4_fragment_bits p = 0).
Context (Hsp : fits 16 tsp) (Hdp : fits 16 tdp) (Hi : pr = Icmp ∨ pr = Icmpv6 → tdp = dp).

Lemma rewrite_v4_run s d : is_v4 p → fits 32 s → fits 32 d →
  let t := mkFlowKey (V4 s) (V4 d) tsp tdp pr in
  ∃ p', rewrite_ipv4_packet s d t p = (Ok tt, p') ∧ rewritten p p' t.
Proof using Hok Hl Hs Hfr Hsp Hdp Hi.
  intros Hv4 Hips Hipd t. pose proof Hl as [Ho Ht _ _ _ _].
  destruct (rewrite_ipv4_spec p proto off tl sp dp t Hok Hl Hs Hsp Hdp s d Hv4 Hips Hipd) as
    (p' & Hrun & Hlen & Hok' & Hf & Hsrc & Hdst & Hsp' & Hdp' & Hh & Hv).
  assert (∀ i, (i < off)%nat → ¬ (10 ≤ i < 20)%nat → byte_at p' i = byte_at p i) as Hlow.
  { intros. apply Hf; unfold transport_byte; lia. }
  assert (layout p' proto off tl) as Hl'.
  { eapply layout_frame; [done|done|]. unfold meta_byte. intros. apply Hlow; lia. }
  assert (is_v4 p') as Hv4' by (unfold is_v4 in *; rewrite Hlow by lia; done).
  assert (transport_shape proto (sub p' off tl) tsp tdp pr) as Hs'.
  { eapply (shape_rewritten p p' proto off tl sp dp t); try done. intros. apply Hf; [lia|done]. }
  exists p'. split; [done|]. split; try done.
  - apply parse_flow_key_iff; [done|]. exists proto, off, tl, tsp, tdp, pr. split_and!; try done.
    + intros _. unfold ipv4_fragment_bits. rewrite !Hlow by lia. by apply Hfr.
    + unfold ip_source, ip_destination. rewrite !decide_True by done. rewrite Hsrc, Hdst.
      by rewrite !be_val_be_bytes by done.
  - by eapply validate_v4_ok.
  - exists proto, off, tl. split; [by apply transport_metadata_layout|].
    split; [by apply transport_metadata_layout|]. intros i Hn ?. apply Hf; [|done].
    unfold network_byte in Hn. by rewrite decide_True in Hn by done.
Qed.

Lemma rewrite_v6_run s d : ¬ is_v4 p → fits 128 s → fits 128 d →
  let t := mkFlowKey (V6 s) (V6 d) tsp tdp pr in
  ∃ p', rewrite_ipv6_packet s d t p = (Ok tt, p') ∧ rewritten p p' t.
Proof using Hok Hl Hs Hsp Hdp Hi.
  intros Hv6 Hips Hipd t. pose proof Hl as [Ho Ht _ _ _ H6]. destruct (H6 Hv6) as (Ho40 & _ & _).
  destruct (rewrite_ipv6_spec p proto off tl sp dp t Hok Hl Hs Hsp Hdp s d Hv6 Hips Hipd) as
    (p' & Hrun & Hlen & Hok' & Hf & Hsrc & Hdst & Hsp' & Hdp' & Hv & Hu).
  assert (∀ i, (i < off)%nat → ¬ (8 ≤ i < 40)%nat → byte_at p' i = byte_at p i) as Hlow.
  { intros. apply Hf; unfold transport_byte; lia. }
  assert (layout p' proto off tl) as Hl'.
  { eapply layout_frame; [done|done|]. intros i [?|[?|[? _]]]; [apply Hlow; lia..|done]. }
  assert (¬ is_v4 p') as Hv6' by (unfold is_v4 in *; rewrite Hlow by lia; done).
  assert (∀ i, (40 ≤ i ∨ 20 ≤ i ∧ is_v4 p)%nat → ¬ transport_byte pr off i →
          byte_at p' i = byte_at p i) as Hrest.
  { intros i [?|[_ ?]] ?; [|done]. apply Hf; [lia|done]. }
  assert (transport_shape proto (sub p' off tl) tsp tdp pr) as Hs'.
  { by eapply (shape_rewritten p p' proto off tl sp dp t). }
  exists p'. split; [done|]. split; try done.
  - apply parse_flow_key_iff; [done|]. exists proto, off, tl, tsp, tdp, pr. split_and!; try done.
    unfold ip_source, ip_destination. rewrite !decide_False by done. rewrite Hsrc, Hdst.
    by rewrite !be_val_be_bytes by done.
  - by eapply validate_v6_ok.
  - exists proto, off, tl. split; [by apply transport_metadata_layout|].
    split; [by apply transport_metadata_layout|]. intros i Hn ?. apply Hf; [|done].
    unfold network_byte in Hn. by rewrite decide_False in Hn by done.
Qed.
End rewritten.

Lemma rewrite_packet_run p original translated :
  bytes_ok p → parse_flow_key p = Ok original → flow_ok translated → translation original translated →
  ∃ p', rewrite_packet translated p = (Ok tt, p') ∧ rewritten p p' translated.
Proof.
  intros Hok Hparse (Hips & Hipd & Hsp & Hdp) [Htp Hts Htd Hti].
  pose proof Hparse as Hparse'. apply parse_flow_key_iff in Hparse' as
    (proto & off & tl & sp & dp & pr & Hl & Hfr & Hs & ->); [|done].
  destruct translated as [ts td tsp tdp tpr]. simpl in *. subst pr.
  unfold rewrite_packet. erewrite sbind_run by (apply sreads_run, Hparse). simpl.
  rewrite decide_False by (rewrite Hts, Htd; intros [?|[?|?]]; done).
  unfold ip_source, ip_destination in *. case_decide as Hv4.
  - apply same_family_v4 in Hts as [s ->]. apply same_family_v4 in Htd as [d ->].
    by eapply rewrite_v4_run.
  - apply same_family_v6 in Hts as [s ->]. apply same_family_v6 in Htd as [d ->].
    by eapply rewrite_v6_run.
Qed.
