(* ===== verification/PacketProps.v ===== *)
(** Properties of the packet layer ([src/src/flow_plane/packet.rs]) and their
    witnesses on concrete packets. *)
From S2P Require Import Prelude Net Checksum Packet PacketFacts PacketRewrite.

#[local] Arguments Nat.add : simpl never.
#[local] Arguments Nat.mul : simpl never.

(** ** Absence of panics *)

Lemma ipv6_loop_no_panic n p tl nh o : no_panic (ipv6_transport_offset_loop n p tl nh o).
Proof.
  revert nh o. induction n as [|n IH]; intros nh o; simpl; [done|].
  repeat case_decide; try done;
    (apply no_panic_obind; [apply no_panic_ok_or|]); intros h Hh; try done;
    apply ok_or_Ok, get_range_Some in Hh as (? & ? & ->);
    rewrite !idx_sub_ok by lia; simpl; case_decide; done || apply IH.
Qed.

Lemma ipv6_fragment_loop_no_panic n p tl nh o : no_panic (ipv6_has_fragment_header_loop n p tl nh o).
Proof.
  revert nh o. induction n as [|n IH]; intros nh o; simpl; [done|].
  repeat case_decide; try done;
    (apply no_panic_obind; [apply no_panic_ok_or|]); intros h Hh; try done;
    apply ok_or_Ok, get_range_Some in Hh as (? & ? & ->);
    rewrite !idx_sub_ok by lia; simpl; case_decide; done || apply IH.
Qed.

Lemma ip_version_no_panic p : no_panic (ip_version p).
Proof. unfold ip_version. by destruct (p !! 0%nat). Qed.

Lemma transport_metadata_no_panic p : no_panic (transport_metadata p).
Proof.
  unfold transport_metadata. apply no_panic_obind; [apply ip_version_no_panic|].
  intros v Hv%ip_version_nonempty. case_decide; [|case_decide; [|done]].
  - case_decide; [done|]. rewrite ipv4_header_len_ok by done. cbn [obind]. case_decide; [done|].
    rewrite rd16_ok by lia. cbn [obind]. case_decide; [done|]. by rewrite idx_ok by lia.
  - case_decide; [done|]. rewrite rd16_ok by lia. cbn [obind]. case_decide; [done|].
    rewrite idx_ok by lia. cbn [obind].
    apply no_panic_obind; [apply ipv6_loop_no_panic|]. by intros [].
Qed.

Lemma is_fragmented_no_panic p : no_panic (ip_packet_is_fragmented p).
Proof.
  unfold ip_packet_is_fragmented. apply no_panic_obind; [apply ip_version_no_panic|].
  intros v Hv%ip_version_nonempty. case_decide; [|case_decide; [|done]].
  - case_decide; [done|]. rewrite ipv4_header_len_ok by done. cbn [obind]. case_decide; [done|].
    rewrite !rd16_ok by lia. cbn [obind]. by case_decide.
  - case_decide; [done|]. rewrite rd16_ok by lia. cbn [obind]. case_decide; [done|].
    rewrite idx_ok by lia. apply ipv6_fragment_loop_no_panic.
Qed.

Lemma build_flow_key_no_panic s d proto tr : no_panic (build_flow_key s d proto tr).
Proof.
  unfold build_flow_key. apply no_panic_obind; [|by intros [[] ?]].
  repeat case_decide; try done; (apply no_panic_obind; [apply no_panic_ok_or|]);
    intros h (? & ? & ->)%ok_or_Ok%get_range_Some;
    rewrite ?idx_sub_ok, ?rd16_sub_ok by lia; simpl; by case_decide.
Qed.

Lemma parse_flow_key_no_panic p : bytes_ok p → no_panic (parse_flow_key p).
Proof.
  intros Hok. rewrite parse_flow_key_meta.
  apply no_panic_obind; [apply transport_metadata_no_panic|]. intros [[proto off] tl] Hm.
  case_decide; [done|]. apply transport_metadata_layout in Hm as [Ho Ht _ _ _ _]; [|done].
  rewrite slice_ok by lia. apply build_flow_key_no_panic.
Qed.

Lemma validate_udp_layout_no_panic p off tl : no_panic (validate_udp_layout p off tl).
Proof.
  unfold validate_udp_layout. apply no_panic_obind; [apply no_panic_ok_or|].
  intros h (? & ? & ->)%ok_or_Ok%get_range_Some. rewrite rd16_sub_ok by lia. simpl.
  by repeat case_decide.
Qed.

Lemma pseudo_sum_no_panic p off tl proto : (off ≤ tl ≤ length p)%nat → (40 ≤ length p)%nat →
  no_panic (pseudo_sum_ipv6 p off tl proto).
Proof. intros. unfold pseudo_sum_ipv6. by rewrite !slice_ok, usub_ok by lia. Qed.

Lemma pseudo_sum4_no_panic p off tl proto : (off ≤ tl ≤ length p)%nat → (20 ≤ length p)%nat →
  no_panic (pseudo_sum_ipv4 p off tl proto).
Proof. intros. unfold pseudo_sum_ipv4. by rewrite !slice_ok, usub_ok by lia. Qed.

Lemma checksum_offset_no_panic proto : no_panic (checksum_offset proto).
Proof. unfold checksum_offset. by repeat case_decide. Qed.

Lemma validate_no_panic p : bytes_ok p → no_panic (validate_packet_checksums p).
Proof.
  intros Hok. unfold validate_packet_checksums.
  apply no_panic_obind; [apply transport_metadata_no_panic|]. intros [[proto off] tl] Hm.
  apply transport_metadata_layout in Hm as [Ho Ht _ Hver _ H6]; [|done]. unfold is_v4 in H6.
  apply no_panic_obind; [case_decide; [apply validate_udp_layout_no_panic|done]|]. intros _ _.
  rewrite idx_ok by lia. cbn [obind]. cbv zeta. case_decide as Hv; [|case_decide; [|done]].
  - rewrite !slice_ok by lia. cbn [obind]. do 2 (case_decide; [done|]).
    apply no_panic_obind; [|by intros []]. case_decide; [done|].
    apply no_panic_obind; [apply pseudo_sum4_no_panic; lia|done].
  - apply no_panic_obind; [apply checksum_offset_no_panic|]. intros cs _. case_decide; [done|].
    apply no_panic_obind; [apply pseudo_sum_no_panic; destruct H6; lia|].
    intros s _. by case_decide.
Qed.

(** ** [prepare_forwarded_packet] *)

Lemma get_range_frame (p p' : bytes) a b : length p' = length p →
  (∀ i, (a ≤ i)%nat → byte_at p' i = byte_at p i) → get_range p' a b = get_range p a b.
Proof.
  intros Hl Hf. unfold get_range. rewrite Hl. case_decide; [|done]. f_equal.
  apply sub_frame; [done|lia|]. intros. apply Hf. lia.
Qed.

(** The checksum test reads the version, the header walk, the bytes from
    [first] on and, for IPv4, the header sum. *)
Lemma validate_frame p p' proto off tl :
  bytes_ok p → bytes_ok p' → layout p proto off tl → length p' = length p →
  (∀ i, meta_byte p off i → byte_at p' i = byte_at p i) →
  (∀ i, ((if decide (is_v4 p) then 12 else 8) ≤ i)%nat → byte_at p' i = byte_at p i) →
  (is_v4 p → internet_checksum (sub p' 0 off) = 0) →
  validate_packet_checksums p = Ok tt → validate_packet_checksums p' = Ok tt.
Proof.
  intros Hok Hok' Hl Hlen Hm Hf Hh. pose proof Hl as [Ho Ht _ _ _ H6].
  unfold validate_packet_checksums.
  rewrite (proj2 (transport_metadata_layout p proto off tl Hok) Hl).
  rewrite (proj2 (transport_metadata_layout p' proto off tl Hok') (layout_frame _ _ _ _ _ Hl Hlen Hm)).
  cbn [obind].
  assert (∀ a b, (12 ≤ a ∨ 8 ≤ a ∧ ¬ is_v4 p)%nat → get_range p' a b = get_range p a b) as Hg.
  { intros a b Ha. apply get_range_frame; [done|]. intros i Hi. apply Hf.
    destruct Ha as [?|[? ?]]; case_decide; lia || done. }
  assert (validate_udp_layout p' off tl = validate_udp_layout p off tl) as ->.
  { unfold validate_udp_layout. rewrite Hg, Hlen by lia. done. }
  intros H. apply obind_Ok in H as (n & -> & H). cbn [obind].
  rewrite idx_ok in H |- * by lia. cbn [obind] in H |- *. cbv zeta in H |- *.
  rewrite (Hm 0%nat) by (left; lia). unfold is_v4 in *. case_decide as Hv4; [|case_decide as Hv6; [|done]].
  - rewrite slice_ok in H |- * by lia. cbn [obind] in H |- *. rewrite (decide_False (P := _ ≠ 0)) by
      (rewrite Hh by done; tauto). case_decide; [done|]. rewrite Hg by lia. case_decide; [done|].
    unfold pseudo_sum_ipv4, slice in *. by rewrite !Hg by lia.
  - apply obind_Ok in H as (cs & -> & H). cbn [obind]. destruct H6 as (? & _ & _); [done|].
    rewrite Hg by lia. case_decide; [done|]. unfold pseudo_sum_ipv6, slice in *. by rewrite !Hg by lia.
Qed.

(** The hop-limit byte of the two families. *)
Definition hop_index (p : bytes) : nat := if decide (is_v4 p) then 8 else 7.

Lemma parse_frame p p' proto off tl : bytes_ok p → bytes_ok p' → layout p proto off tl →
  length p' = length p → (∀ i, meta_byte p off i → byte_at p' i = byte_at p i) →
  (∀ i, ((if decide (is_v4 p) then 12 else 8) ≤ i)%nat → byte_at p' i = byte_at p i) →
  parse_flow_key p' = parse_flow_key p.
Proof.
  intros Hok Hok' Hl Hlen Hm Hf. pose proof Hl as [Ho Ht _ _ _ _]. rewrite !parse_flow_key_meta.
  rewrite (proj2 (transport_metadata_layout p proto off tl Hok) Hl).
  rewrite (proj2 (transport_metadata_layout p' proto off tl Hok') (layout_frame _ _ _ _ _ Hl Hlen Hm)).
  cbn [obind]. rewrite !slice_ok by lia. cbn [obind].
  assert (is_v4 p' ↔ is_v4 p) as Hiff by (unfold is_v4; rewrite (Hm 0%nat) by (left; lia); done).
  assert (∀ a b, (12 ≤ a ∨ 8 ≤ a ∧ ¬ is_v4 p)%nat → (b ≤ length p)%nat → sub p' a b = sub p a b) as Hsub.
  { intros a b Ha Hb. apply sub_frame; [done|done|]. intros i Hi. apply Hf.
    destruct Ha as [?|[? ?]]; case_decide; lia || done. }
  rewrite (Hsub off tl) by lia. unfold ip_source, ip_destination, ipv4_fragment_bits.
  destruct (decide (is_v4 p)) as [H4|H6].
  - rewrite !(decide_True (P := is_v4 p')) by tauto. rewrite !Hsub by lia.
    rewrite !(Hm 6%nat), !(Hm 7%nat) by (unfold meta_byte; tauto || lia).
    repeat case_decide; tauto || done.
  - rewrite !(decide_False (P := is_v4 p')) by tauto. destruct (layout_v6 _ _ _ _ Hl H6) as (? & _ & _).
    rewrite !Hsub by first [lia | right; split; [lia|done]]. rewrite !(decide_False (P := _ ∧ _)) by tauto. done.
Qed.

Lemma prepare_run p p' : bytes_ok p → prepare_forwarded_packet p = (Ok tt, p') →
  ip_packet_is_fragmented p = Ok false ∧ validate_packet_checksums p = Ok tt
  ∧ 1 < byte_at p (hop_index p)
  ∧ ∃ proto off tl, layout p proto off tl ∧ length p' = length p ∧ bytes_ok p'
    ∧ byte_at p' (hop_index p) = byte_at p (hop_index p) - 1
    ∧ (∀ i, i ≠ hop_index p → ¬ (is_v4 p ∧ 10 ≤ i < 12)%nat → byte_at p' i = byte_at p i)
    ∧ (is_v4 p → internet_checksum (sub p' 0 off) = 0).
Proof.
  intros Hok. unfold prepare_forwarded_packet, sbind, sreads, slift, sget.
  destruct (ip_packet_is_fragmented p) as [[]| |]; [done| |done..].
  destruct (validate_packet_checksums p) as [[]| |] eqn:Hv; [|done..].
  pose proof Hv as Hv'. unfold validate_packet_checksums in Hv'.
  apply obind_Ok in Hv' as ([[proto off] tl] & Hm & _). apply transport_metadata_layout in Hm as Hl; [|done].
  pose proof Hl as [Ho Ht Hs Hver H4 H6]. rewrite ip_version_ok by lia.
  pose proof (byte_at_range p 8 Hok) as Hb8. pose proof (byte_at_range p 7 Hok) as Hb7.
  unfold is_byte, hop_index, is_v4 in *. case_decide as Hd.
  - rewrite ipv4_header_len_ok by lia. destruct (H4 Hd) as (<- & _ & _). rewrite decide_False by lia.
    rewrite idx_ok by lia. case_decide; [done|]. rewrite !write_at_run by plen.
    rewrite slice_ok by plen. rewrite write_at_run by plen. intros [= <-].
    fold (seal_header off (patch 8 [byte_at p 8 - 1] p)). set (q := patch 8 _ p).
    assert (length q = length p) as Hlq by (subst q; plen).
    assert (bytes_ok q) as Hq by (subst q; apply bytes_ok_patch; [done|]; repeat constructor; lia).
    split_and!; [done..|lia|]. exists proto, off, tl.
    rewrite !seal_header_length, !seal_header_frame by lia. split_and!; try done.
    + by apply seal_header_ok.
    + subst q. bat. done.
    + intros i Hi Hi2. rewrite seal_header_frame by lia. subst q. by bat.
    + intros _. apply seal_header_verifies; [done|lia..].
  - rewrite decide_True by lia. destruct (H6 Hd) as (? & _ & _). rewrite decide_False by lia.
    rewrite idx_ok by lia. case_decide; [done|]. rewrite write_at_run by plen. intros [= <-].
    split_and!; [done..|lia|]. exists proto, off, tl. split_and!; try done.
    + plen.
    + apply bytes_ok_patch; [done|]; repeat constructor; lia.
    + bat. done.
    + intros i Hi _. by bat.
Qed.

(** ** [clamp_tcp_mss] *)

(** What a walk of the options from [lo] to [hi] did: it wrote only option data,
    and a second walk finds nothing to clamp. *)
Record clamped (max : Z) (lo hi : nat) (m m' : bool) (p p' : bytes) : Prop := {
  clamped_length : length p' = length p;
  clamped_ok : bytes_ok p';
  clamped_frame : ∀ i, ¬ (lo + 2 ≤ i < hi)%nat → byte_at p' i = byte_at p i;
  clamped_flag : m' = false → p' = p;
  clamped_keep : m = true → m' = true;
  clamped_again : ∀ fuel, (hi - lo ≤ fuel)%nat →
    clamp_options fuel max lo hi false p' = (Ok false, p');
}.

Lemma clamp_options_unfold fuel max lo hi m p : (lo < hi)%nat → (hi ≤ length p)%nat →
  clamp_options (S fuel) max lo hi m p =
    if decide (byte_at p lo = 0) then (Ok m, p) else
    if decide (byte_at p lo = 1) then clamp_options fuel max (lo + 1) hi m p else
    if decide (hi ≤ lo + 1)%nat then (Ok m, p) else
    let len := Z.to_nat (byte_at p (lo + 1)) in
    if decide (len < 2 ∨ hi < lo + len)%nat then (Ok m, p) else
    if decide (byte_at p lo = 2 ∧ len = 4%nat) then
      if decide (max < be16 (byte_at p (lo + 2)) (byte_at p (lo + 3))) then
        clamp_options fuel max (lo + len) hi true (patch (lo + 2) (be_bytes 2 max) p)
      else clamp_options fuel max (lo + len) hi m p
    else clamp_options fuel max (lo + len) hi m p.
Proof.
  intros Hlo Hhi. simpl. rewrite decide_False by lia. unfold sbind, sreads.
  rewrite idx_ok by lia. do 2 (case_decide; [done|]). case_decide; [done|].
  rewrite idx_ok by lia. cbv zeta. case_decide; [done|]. case_decide as Hk; [|done].
  rewrite rd16_ok by lia. replace (S (lo + 2)) with (lo + 3)%nat by lia.
  case_decide; [|done]. by rewrite write_at_run by plen.
Qed.

Lemma clamped_stop max lo hi m p : bytes_ok p →
  (∀ fuel, (hi - lo ≤ fuel)%nat → clamp_options fuel max lo hi false p = (Ok false, p)) →
  clamped max lo hi m m p p.
Proof. intros. by split. Qed.

Lemma clamp_past_end fuel max lo hi m p : (hi ≤ lo)%nat →
  clamp_options fuel max lo hi m p = (Ok m, p).
Proof. intros. destruct fuel; simpl; by rewrite decide_True. Qed.

(** One option of at least two bytes: [q] is the packet after its clamp. *)
Record option_step (max : Z) (lo len : nat) (m m1 : bool) (p q : bytes) : Prop := {
  step_length : length q = length p;
  step_ok : bytes_ok q;
  step_flag : m1 = false → q = p ∧ m = false;
  step_keep : m = true → m1 = true;
  step_frame : ∀ i, ¬ (lo + 2 ≤ i < lo + len)%nat → byte_at q i = byte_at p i;
  step_mss : byte_at p lo = 2 → len = 4%nat → be16 (byte_at q (lo + 2)) (byte_at q (lo + 3)) ≤ max;
}.

Lemma clamp_one_option fuel max lo hi m p len : fits 16 max → bytes_ok p → (hi ≤ length p)%nat →
  (lo + len ≤ hi)%nat → (2 ≤ len)%nat →
  ∃ q m1, option_step max lo len m m1 p q ∧
    (if decide (byte_at p lo = 2 ∧ len = 4%nat) then
       if decide (max < be16 (byte_at p (lo + 2)) (byte_at p (lo + 3))) then
         clamp_options fuel max (lo + len) hi true (patch (lo + 2) (be_bytes 2 max) p)
       else clamp_options fuel max (lo + len) hi m p
     else clamp_options fuel max (lo + len) hi m p) = clamp_options fuel max (lo + len) hi m1 q.
Proof.
  intros Hmax Hok Hhi Hlen H2. case_decide as Hk; [case_decide as Hgt|].
  - exists (patch (lo + 2) (be_bytes 2 max) p), true. split; [|done]. split; try done; auto with rust.
    + plen.
    + intros i Hi. bat. done.
    + intros _ _. bat. replace (lo + 2 - (lo + 2))%nat with 0%nat by lia.
      replace (lo + 3 - (lo + 2))%nat with 1%nat by lia. rewrite be16_be_bytes by done. lia.
  - exists p, m. split; [|done]. split; try done. intros. lia.
  - exists p, m. split; [|done]. split; try done. naive_solver.
Qed.

Lemma clamped_cons max lo hi len m m1 m' p q p' : (lo < hi)%nat → (hi ≤ length p)%nat →
  byte_at p lo ≠ 0 → byte_at p lo ≠ 1 → len = Z.to_nat (byte_at p (lo + 1)) → (2 ≤ len)%nat →
  (lo + len ≤ hi)%nat → option_step max lo len m m1 p q → clamped max (lo + len) hi m1 m' q p' →
  clamped max lo hi m m' p p'.
Proof.
  intros Hlo Hhi H0 H1 Hlen H2 Hend [Hlq Hokq Hm1 Hkq Hfq Hmss] [Hl Ho Hfr Hfl Hkp Hag]. split.
  - lia.
  - done.
  - intros i Hi. rewrite Hfr by lia. apply Hfq. lia.
  - intros Hm'. destruct m1; [by rewrite Hkp in Hm'|]. rewrite Hfl by done. by apply Hm1.
  - auto.
  - intros fl Hfl'. destruct fl; [lia|]. rewrite clamp_options_unfold by lia.
    assert (∀ i, (i < lo + len + 2)%nat → byte_at p' i = byte_at q i) as Hp' by (intros; apply Hfr; lia).
    rewrite !Hp' by lia. rewrite (Hfq lo), (Hfq (lo + 1)%nat) by lia. rewrite <- Hlen. cbv zeta.
    rewrite !decide_False by (done || lia). case_decide as Hk; [|by apply Hag; lia].
    rewrite decide_False; [by apply Hag; lia|]. destruct Hk as [Hk Hl4].
    specialize (Hmss Hk Hl4). lia.
Qed.

Lemma clamp_options_spec max hi : fits 16 max → ∀ fuel lo m p,
  bytes_ok p → (hi ≤ length p)%nat → (hi - lo ≤ fuel)%nat →
  ∃ m' p', clamp_options fuel max lo hi m p = (Ok m', p') ∧ clamped max lo hi m m' p p'.
Proof.
  intros Hmax. induction fuel as [|fuel IH]; intros lo m p Hok Hhi Hf;
    destruct (decide (hi ≤ lo)%nat) as [Hle|Hlt]; try lia.
  1-2: exists m, p; split; [by apply clamp_past_end|]; apply clamped_stop; [done|];
    intros; by apply clamp_past_end.
  rewrite clamp_options_unfold by lia.
  destruct (decide (byte_at p lo = 0)) as [Hk0|Hk0].
  { exists m, p. split; [done|]. apply clamped_stop; [done|].
    intros [|fl] Hfl; [lia|]. rewrite clamp_options_unfold by lia. by rewrite decide_True. }
  destruct (decide (byte_at p lo = 1)) as [Hk1|Hk1].
  { destruct (IH (lo + 1)%nat m p) as (m' & p' & Hrun & [Hl Ho Hfr Hfl Hkp Hag]); [done|lia|lia|].
    exists m', p'. split; [done|]. split; try done.
    - intros i Hi. apply Hfr. lia.
    - intros [|fl] Hfl'; [lia|]. rewrite clamp_options_unfold by lia.
      rewrite (Hfr lo) by lia. rewrite decide_False, decide_True by done. apply Hag. lia. }
  cbv zeta. destruct (decide (hi ≤ lo + 1 ∨ Z.to_nat (byte_at p (lo + 1)) < 2
    ∨ hi < lo + Z.to_nat (byte_at p (lo + 1)))%nat) as [Hstop|Hgo].
  { exists m, p. split; [repeat case_decide; try done; lia|]. apply clamped_stop; [done|].
    intros [|fl] Hfl; [lia|]. rewrite clamp_options_unfold by lia.
    rewrite !decide_False by done. cbv zeta. repeat case_decide; try done; lia. }
  rewrite (decide_False (P := (hi ≤ lo + 1)%nat)), (decide_False (P := (_ < 2 ∨ _)%nat)) by lia.
  destruct (clamp_one_option fuel max lo hi m p (Z.to_nat (byte_at p (lo + 1)))) as
    (q & m1 & Hstep & ->); [done..|lia|lia|].
  pose proof (step_length _ _ _ _ _ _ _ Hstep) as Hlq.
  destruct (IH (lo + Z.to_nat (byte_at p (lo + 1)))%nat m1 q) as (m' & p' & Hrun & Hc);
    [by apply Hstep|lia|lia|].
  exists m', p'. split; [done|]. by eapply clamped_cons; try done; lia.
Qed.

(** Where [clamp_tcp_mss] ends: an error or a non-SYN leaves the packet alone;
    otherwise the options of a well-formed header were walked. *)
Lemma clamp_tcp_mss_cases max p : bytes_ok p → fits 16 max →
  (∃ e, clamp_tcp_mss max p = (Err e, p)) ∨ clamp_tcp_mss max p = (Ok false, p) ∨
  ∃ off tl hl m p', clamp_tcp_mss max p = (Ok m, p') ∧ layout p IP_PROTOCOL_TCP off tl
    ∧ (20 ≤ hl)%nat ∧ (off + hl ≤ tl)%nat ∧ Z.land (byte_at p (off + 13)) 0x02 ≠ 0
    ∧ hl = (Z.to_nat (Z.shiftr (byte_at p (off + 12)) 4) * 4)%nat
    ∧ clamped max (off + 20) (off + hl) false m p p'.
Proof.
  intros Hok Hmax. unfold clamp_tcp_mss, sbind, sreads, slift, sret, serr.
  destruct (transport_metadata p) as [[[proto off] tl]| |] eqn:Hm; [|by left; eexists|
    by destruct (transport_metadata_no_panic p)].
  apply transport_metadata_layout in Hm as Hl; [|done]. pose proof Hl as [Ho Ht _ _ _ _].
  case_decide as Hp; [by right; left|]. subst proto.
  destruct (get_range p off (off + 20)) as [h|] eqn:Hg; cbn [ok_or]; [|by left; eexists].
  apply get_range_Some in Hg as (_ & Hg & ->). rewrite !idx_sub_ok by lia.
  case_decide as Hsyn; [by right; left|]. case_decide as Hhl; [by left; eexists|].
  right; right. set (hl := (Z.to_nat _ * 4)%nat) in *.
  destruct (clamp_options_spec max (off + hl) Hmax (hl - 20) (off + 20) false p) as (m & p' & Hrun & Hc);
    [done|lia|lia|]. exists off, tl, hl, m, p'. split_and!; try done; lia.
Qed.

(** A packet that differs only inside the TCP options parses the same. *)
Lemma clamped_metadata p p' off tl hl max m : bytes_ok p → layout p IP_PROTOCOL_TCP off tl →
  (off + hl ≤ tl)%nat → clamped max (off + 20) (off + hl) false m p p' →
  transport_metadata p' = transport_metadata p ∧ parse_flow_key p' = parse_flow_key p
  ∧ get_range p' off (off + 20) = get_range p off (off + 20).
Proof.
  intros Hok Hl Hhl [Hlen Hok' Hf _ _ _]. pose proof Hl as [Ho Ht _ _ H4 H6].
  assert (∀ i, (i < off + 20)%nat → byte_at p' i = byte_at p i) as Hlow by (intros; apply Hf; lia).
  assert (layout p' IP_PROTOCOL_TCP off tl) as Hl'.
  { eapply layout_frame; [done|done|]. unfold meta_byte. intros. apply Hlow. lia. }
  pose proof (proj2 (transport_metadata_layout p _ off tl Hok) Hl) as Hm.
  pose proof (proj2 (transport_metadata_layout p' _ off tl Hok') Hl') as Hm'.
  assert (get_range p' off (off + 20) = get_range p off (off + 20)) as Hg.
  { unfold get_range. rewrite Hlen. case_decide; [|done]. f_equal. apply sub_frame; [done|lia|].
    intros. apply Hlow. lia. }
  split_and!; [congruence| |done]. rewrite !parse_flow_key_meta, Hm, Hm'. cbn [obind].
  rewrite !slice_ok by lia. cbn [obind].
  assert (is_v4 p' ↔ is_v4 p) as Hiff by (unfold is_v4; rewrite Hlow by lia; done).
  assert (∀ a b, (b ≤ off)%nat → sub p' a b = sub p a b) as Hsub.
  { intros. apply sub_frame; [done|lia|]. intros. apply Hlow. lia. }
  assert (build_flow_key (ip_source p') (ip_destination p') IP_PROTOCOL_TCP (sub p' off tl)
          = build_flow_key (ip_source p) (ip_destination p) IP_PROTOCOL_TCP (sub p off tl)) as ->.
  { assert (ip_source p' = ip_source p ∧ ip_destination p' = ip_destination p) as [-> ->].
    { unfold ip_source, ip_destination. destruct (decide (is_v4 p)) as [Hv|Hv].
      - rewrite !decide_True by tauto. by rewrite !Hsub by lia.
      - destruct (H6 Hv). rewrite !decide_False by tauto. by rewrite !Hsub by lia. }
    unfold build_flow_key. rewrite !decide_True by done. rewrite !length_sub by lia.
    assert (get_range (sub p' off tl) 0 20 = get_range (sub p off tl) 0 20) as ->; [|done].
    unfold get_range. rewrite !length_sub by lia. case_decide; [|done]. f_equal.
    rewrite !sub_sub by lia. apply sub_frame; [done|lia|]. intros. apply Hlow. lia. }
  unfold ipv4_fragment_bits. rewrite !Hlow by lia. repeat case_decide; tauto || done.
Qed.

(** ** Fragments *)

Lemma ipv6_loop_not_fragmented n p tl nh o r :
  ipv6_transport_offset_loop n p tl nh o = Ok r → ipv6_has_fragment_header_loop n p tl nh o = Ok false.
Proof.
  revert nh o. induction n as [|n IH]; intros nh o H; simpl in *; [done|].
  case_decide; [|case_decide; [|case_decide]].
  - destruct (get_range _ _ _) as [h|]; simpl in *; [|done]. destruct (idx h 0); simpl in *; [|done..].
    destruct (idx h 1); simpl in *; [|done..]. case_decide; [by apply IH|done].
  - destruct (get_range _ _ _); simpl in *; done.
  - destruct (get_range _ _ _) as [h|]; simpl in *; [|done]. destruct (idx h 0); simpl in *; [|done..].
    destruct (idx h 1); simpl in *; [|done..]. case_decide; [by apply IH|done].
  - done.
Qed.

Lemma parsed_not_fragmented p f : bytes_ok p → parse_flow_key p = Ok f →
  ip_packet_is_fragmented p = Ok false.
Proof.
  intros Hok (proto & off & tl & sp & dp & pr & Hl & Hfr & _ & _)%parse_flow_key_iff; [|done].
  pose proof Hl as [Ho Ht _ Hver H4 H6]. unfold ip_packet_is_fragmented.
  rewrite ip_version_ok by lia. cbn [obind]. unfold is_v4 in *. case_decide as Hv.
  - destruct (H4 Hv) as (-> & -> & _). rewrite decide_False by lia. rewrite ipv4_header_len_ok by lia.
    cbn [obind]. rewrite decide_False by lia. rewrite !rd16_ok by lia. cbn [obind].
    rewrite decide_False by lia. f_equal. apply bool_decide_eq_false_2.
    unfold ipv4_fragment_bits in Hfr. rewrite Hfr by done. tauto.
  - destruct (H6 Hv) as (? & -> & Hoff). rewrite decide_True, decide_False by lia. rewrite rd16_ok by lia.
    cbn [obind]. rewrite decide_False by lia. rewrite idx_ok by lia. cbn [obind].
    by eapply ipv6_loop_not_fragmented.
Qed.

(** ** [ensure_udp_payload_len] *)

Lemma validate_udp_layout_len p off tl n : validate_udp_layout p off tl = Ok n →
  (off + n = tl ∧ 8 ≤ n ∧ tl ≤ length p)%nat.
Proof. intros H. unfold validate_udp_layout in H. obinv. lia. Qed.

Lemma udp_payload_layout p pl : bytes_ok p → udp_payload p = Ok pl →
  ∃ off tl, layout p IP_PROTOCOL_UDP off tl ∧ (off + 8 ≤ tl)%nat ∧ pl = sub p (off + 8) tl
    ∧ validate_udp_layout p off tl = Ok (tl - off)%nat.
Proof.
  intros Hok H. unfold udp_payload, udp_payload_range in H.
  apply obind_Ok in H as ([lo hi] & H & Hs).
  apply obind_Ok in H as ([[proto off] tl] & Hm & H). case_decide as Hp; [done|]. subst proto.
  apply obind_Ok in H as (n & Hv & [= <- <-]). apply transport_metadata_layout in Hm as Hl; [|done].
  apply validate_udp_layout_len in Hv as Hn. rewrite slice_ok in Hs by lia. injection Hs as <-.
  exists off, tl. split_and!; [done|lia|f_equal; lia|]. rewrite Hv. f_equal; lia.
Qed.

(** A packet whose total length grew by [k] around an unchanged header. *)
Lemma layout_grow p p' proto off tl k : bytes_ok p' → layout p proto off tl →
  length p' = (tl + k)%nat → Z.of_nat (tl + k) ≤ 65575 →
  (∀ i, meta_byte p off i → ¬ (2 ≤ i < 6)%nat → byte_at p' i = byte_at p i) →
  (is_v4 p → be16 (byte_at p' 2) (byte_at p' 3) = Z.of_nat (tl + k)) →
  (¬ is_v4 p → be16 (byte_at p' 4) (byte_at p' 5) = Z.of_nat (tl - 40 + k)) →
  layout p' proto off (tl + k).
Proof.
  intros Hok' [Ho Ht Hs Hver H4 H6] Hlen Hsm Hf Hv4 Hv6. unfold meta_byte in Hf.
  assert (byte_at p' 0 = byte_at p 0) as H0 by (apply Hf; lia).
  split; unfold is_v4 in *; rewrite ?H0; try lia; try done.
  - intros Hv. destruct (H4 Hv) as (? & ? & ?). rewrite Hv4, (Hf 9%nat) by (done || lia). lia.
  - intros Hv. destruct (H6 Hv) as (? & Htl & Hoff). rewrite Hv6, (Hf 6%nat) by (done || lia).
    split_and!; [lia|lia|]. eapply ipv6_loop_frame; [done|lia|lia|]. intros; apply Hf; lia.
Qed.

Lemma length_resize_bytes n (l : bytes) : length (vec_resize n l) = n.
Proof. apply length_resize. Qed.

Lemma byte_at_resize n (l : bytes) i : (i < length l)%nat → (i < n)%nat →
  byte_at (vec_resize n l) i = byte_at l i.
Proof.
  intros. unfold vec_resize, byte_at. rewrite resize_spec, lookup_app_l by (rewrite length_take; lia).
  by rewrite lookup_take_lt.
Qed.

Lemma bytes_ok_resize n l : bytes_ok l → bytes_ok (vec_resize n l).
Proof.
  intros. unfold vec_resize. rewrite resize_spec. apply Forall_app; split; [by apply Forall_take|].
  apply Forall_replicate. unfold is_byte; lia.
Qed.

Lemma byte_at_resize_out n (l : bytes) i : (length l ≤ i)%nat → byte_at (vec_resize n l) i = 0.
Proof.
  intros. unfold vec_resize, byte_at. rewrite resize_spec.
  destruct (decide (i < n)%nat).
  - rewrite lookup_app_r by (rewrite length_take; lia). rewrite length_take.
    by rewrite lookup_replicate_2 by lia.
  - by rewrite lookup_ge_None_2 by (rewrite length_app, length_take, length_replicate; lia).
Qed.

(** The packet after the growth: zero bytes at the end, then the UDP length and
    the length field of the IP header at [fo]. *)
Definition grown (p : bytes) (off fo : nat) (ulen v : Z) (n : nat) : bytes :=
  patch fo (be_bytes 2 v) (patch (off + 4) (be_bytes 2 ulen) (vec_resize n p)).

Record grows (p x : bytes) (off tl n : nat) : Prop := {
  grows_ok : bytes_ok x;
  grows_length : length x = n;
  grows_layout : layout x IP_PROTOCOL_UDP off n;
  grows_udp_len : be16 (byte_at x (off + 4)) (byte_at x (off + 5)) = Z.of_nat (n - off);
  grows_frame : ∀ i, ¬ (2 ≤ i < 6)%nat → ¬ (off + 4 ≤ i < off + 6)%nat → (i < n)%nat →
    byte_at x i = byte_at p i }.

Lemma grown_grows p off tl fo v n :
  bytes_ok p → layout p IP_PROTOCOL_UDP off tl → (off + 8 ≤ tl)%nat → (tl ≤ n)%nat →
  Z.of_nat n ≤ 65575 → Z.of_nat (n - off) ≤ 65535 →
  (is_v4 p ∧ fo = 2%nat ∧ v = Z.of_nat n ∨ ¬ is_v4 p ∧ fo = 4%nat ∧ v = Z.of_nat (n - 40)) →
  fits 16 v → grows p (grown p off fo (Z.of_nat (n - off)) v n) off tl n.
Proof.
  intros Hok Hl H8 Hn H65 Hu Hfo Hfit. pose proof Hl as [Ho Ht Hs Hver H4 H6]. unfold grown.
  set (q := vec_resize n p). assert (length q = n) as Hlq by apply length_resize_bytes.
  assert (bytes_ok q) as Hokq by (by apply bytes_ok_resize).
  assert (∀ i, (i < n)%nat → byte_at q i = byte_at p i) as Hq.
  { intros i Hi. destruct (decide (i < length p)%nat); [by apply byte_at_resize|].
    unfold q. rewrite byte_at_resize_out by lia. unfold byte_at. by rewrite lookup_ge_None_2 by lia. }
  assert (fo + 2 ≤ 6)%nat as Hfo6 by (destruct Hfo as [(? & -> & ?)|(? & -> & ?)]; lia).
  set (u := patch (off + 4) _ q). assert (length u = n) as Hlu by (subst u; plen).
  set (x := patch fo _ u). assert (length x = n) as Hlx by (subst x; plen).
  assert (bytes_ok x) as Hokx by (subst x u; auto with rust).
  assert (∀ i, ¬ (2 ≤ i < 6)%nat → ¬ (off + 4 ≤ i < off + 6)%nat → (i < n)%nat →
    byte_at x i = byte_at p i) as Hf.
  { intros. subst x u. bat. by apply Hq. }
  assert (be16 (byte_at x fo) (byte_at x (S fo)) = v) as Hv.
  { subst x. bat. rewrite Nat.sub_diag. replace (S fo - fo)%nat with 1%nat by lia.
    by apply be16_be_bytes. }
  split; [done|done| | |done].
  - replace n with (tl + (n - tl))%nat by lia.
    eapply layout_grow; [done|done|lia|lia| | |].
    + intros i Hi ?. unfold meta_byte in Hi. apply Hf; lia.
    + intros Hv4. destruct Hfo as [(_ & -> & ->)|(? & _)]; [|done]. rewrite Hv. lia.
    + intros Hv4. destruct Hfo as [(? & _)|(_ & -> & ->)]; [done|]. rewrite Hv. apply H6 in Hv4. lia.
  - subst x u. bat. replace (off + 4 - (off + 4))%nat with 0%nat by lia.
    replace (off + 5 - (off + 4))%nat with 1%nat by lia. apply be16_be_bytes. unfold fits. lia.
Qed.

Lemma ensure_udp_payload_len_run p minimum p' off tl : bytes_ok p →
  layout p IP_PROTOCOL_UDP off tl → validate_udp_layout p off tl = Ok (tl - off)%nat →
  (tl - off - 8 < minimum)%nat → ensure_udp_payload_len minimum p = (Ok tt, p') →
  grows p p' off tl (off + 8 + minimum).
Proof.
  intros Hok Hl Hv Hmin. apply validate_udp_layout_len in Hv as Hlen. pose proof Hl as [Ho Ht Hs Hver H4 H6].
  unfold ensure_udp_payload_len, sbind, sreads, slift, sget, sput, serr, sret.
  rewrite (proj2 (transport_metadata_layout p _ off tl Hok) Hl). rewrite decide_False by tauto.
  rewrite Hv, usub_ok by lia. rewrite decide_False by lia. cbv zeta.
  set (n := (off + 8 + minimum)%nat).
  replace (tl + (minimum - (tl - off - 8)))%nat with n by lia.
  replace (tl - off + (minimum - (tl - off - 8)))%nat with (n - off)%nat by lia.
  case_decide as Hudp; [done|].
  pose proof (length_resize_bytes n p). rewrite write_at_run by plen. rewrite idx_ok by plen.
  assert (byte_at (patch (off + 4) (be_bytes 2 (Z.of_nat (n - off))) (vec_resize n p)) 0 = byte_at p 0) as ->.
  { bat. rewrite byte_at_resize by lia. done. }
  case_decide as Hd4; [|case_decide as Hd6; [|done]].
  - case_decide; [done|]. rewrite write_at_run by plen. intros [= <-].
    apply grown_grows; [done|done|lia|lia|lia|lia|by left|unfold fits; lia].
  - case_decide; [done|]. replace (tl - 40 + (minimum - (tl - off - 8)))%nat with (n - 40)%nat by lia.
    case_decide; [done|]. rewrite write_at_run by plen. intros [= <-].
    apply grown_grows; [done|done|lia|lia|lia|lia|right; unfold is_v4; lia|unfold fits; lia].
Qed.

Lemma validate_udp_layout_intro p off tl : (off + 8 ≤ tl)%nat → (tl ≤ length p)%nat →
  be16 (byte_at p (off + 4)) (byte_at p (off + 5)) = Z.of_nat (tl - off) →
  validate_udp_layout p off tl = Ok (tl - off)%nat.
Proof.
  intros H8 Ht Hb. unfold validate_udp_layout. rewrite get_range_ok by lia. cbn [ok_or obind].
  rewrite rd16_ok by (rewrite length_sub; lia). cbn [obind]. rewrite !byte_at_sub by lia.
  replace (off + 5)%nat with (S (off + 4)) in Hb by lia. replace (off + S 4)%nat with (S (off + 4)) by lia.
  rewrite Hb, Nat2Z.id. rewrite !decide_False by lia. done.
Qed.

Lemma grows_payload p p' off tl n : grows p p' off tl n → (off + 8 ≤ n)%nat →
  (20 ≤ off)%nat →
  udp_payload p' = Ok (resize (n - (off + 8)) 0 (drop (off + 8) p)).
Proof.
  intros [Hok Hlen Hl Hu Hf] H8 H20. unfold udp_payload, udp_payload_range.
  rewrite (proj2 (transport_metadata_layout p' _ off n Hok) Hl). cbn [obind].
  rewrite decide_False by tauto. rewrite validate_udp_layout_intro by lia. cbn [obind].
  rewrite slice_ok by lia. f_equal. apply bytes_ext; [rewrite length_sub, length_resize; lia|].
  intros i Hi. rewrite length_sub in Hi by lia. rewrite byte_at_sub, Hf by lia. unfold byte_at.
  destruct (decide (off + 8 + i < length p)%nat).
  - rewrite resize_spec, lookup_app_l by (rewrite length_take, length_drop; lia).
    rewrite lookup_take_lt, lookup_drop by lia. f_equal.
  - rewrite (lookup_ge_None_2 p) by lia. change (default 0 None) with 0.
    pose proof (byte_at_resize_out (n - (off + 8)) (drop (off + 8) p) i) as Hr.
    unfold byte_at, vec_resize in Hr. rewrite Hr by (rewrite length_drop; lia). done.
Qed.

(** A UDP packet with no bytes after its IP length has its payload padded with
    zeros. *)
Lemma ensure_udp_payload_len_payload p minimum p' pl off tl : bytes_ok p →
  layout p IP_PROTOCOL_UDP off tl → length p = tl → udp_payload p = Ok pl →
  ensure_udp_payload_len minimum p = (Ok tt, p') →
  udp_payload p' = Ok (pl ++ replicate (minimum - length pl) 0).
Proof.
  intros Hok Hl Hlen Hpl Hrun. pose proof Hpl as Hpl'.
  apply udp_payload_layout in Hpl as (off' & tl' & Hl' & H8 & -> & Hv); [|done].
  assert (off' = off ∧ tl' = tl) as [-> ->].
  { apply transport_metadata_layout in Hl, Hl'; [|done..]. rewrite Hl in Hl'. by simplify_eq. }
  pose proof Hl as [Ho Ht _ _ H4 H6]. rewrite length_sub by lia.
  destruct (decide (minimum ≤ tl - off - 8)%nat) as [Hle|Hgt].
  - replace (minimum - (tl - (off + 8)))%nat with 0%nat by lia. cbn [replicate]. rewrite app_nil_r.
    unfold ensure_udp_payload_len, sbind, sreads, slift, sret in Hrun.
    rewrite (proj2 (transport_metadata_layout p _ off tl Hok) Hl) in Hrun.
    rewrite decide_False in Hrun by tauto. rewrite Hv, usub_ok in Hrun by lia.
    rewrite decide_True in Hrun by lia. by injection Hrun as <-.
  - apply ensure_udp_payload_len_run with (off := off) (tl := tl) in Hrun; [|done|done|done|lia].
    rewrite (grows_payload p p' off tl (off + 8 + minimum)) by (done || lia). f_equal.
    rewrite resize_spec, take_ge by (rewrite length_drop; lia). rewrite length_drop. f_equal; [|f_equal; lia].
    unfold sub. symmetry. apply take_ge. rewrite length_drop. lia.
Qed.
