(* ===== verification/PacketTheorems.v ===== *)
(** The correctness of the packet component ([src/src/flow_plane/packet.rs]): no
    operation panics on any byte string, a rewritten packet carries exactly the
    translated flow and valid checksums, translations compose and undo each
    other, forwarding decrements one hop, and the two payload-shaping operations
    change what they promise and nothing else. *)
From S2P Require Import Prelude Net Checksum Packet PacketFacts PacketRewrite PacketProps.

#[local] Arguments Nat.add : simpl never.
#[local] Arguments Nat.mul : simpl never.

(** ** The remaining operations do not panic *)

Lemma udp_payload_no_panic p : no_panic (udp_payload p).
Proof.
  unfold udp_payload, udp_payload_range.
  destruct (transport_metadata p) as [[[proto off] tl]| |] eqn:Hm; cbn [obind]; [|done|].
  2: by destruct (transport_metadata_no_panic p).
  case_decide; [done|]. destruct (validate_udp_layout p off tl) as [n| |] eqn:Hv; cbn [obind]; [|done|].
  - apply validate_udp_layout_len in Hv. by rewrite slice_ok by lia.
  - by destruct (validate_udp_layout_no_panic p off tl).
Qed.

Lemma parse_tcp_flags_no_panic p : no_panic (parse_tcp_flags p).
Proof.
  unfold parse_tcp_flags.
  destruct (transport_metadata p) as [[[proto off] tl]| |] eqn:Hm; cbn [obind]; [|done|].
  2: by destruct (transport_metadata_no_panic p).
  case_decide; [done|]. destruct (get_range p off (off + 20)) as [h|] eqn:Hg; cbn [ok_or obind]; [|done].
  apply get_range_Some in Hg as (_ & Hg & ->). rewrite !idx_ok by plen. cbn [obind].
  case_decide; done.
Qed.

Lemma clamp_tcp_mss_no_panic max p : bytes_ok p → fits 16 max → no_panic (clamp_tcp_mss max p).1.
Proof.
  intros Hok Hmax. destruct (clamp_tcp_mss_cases max p Hok Hmax)
    as [(e & ->)|[->|(off & tl & hl & m & p' & -> & _)]]; done.
Qed.

Lemma prepare_no_panic p : bytes_ok p → no_panic (prepare_forwarded_packet p).1.
Proof.
  intros Hok. unfold prepare_forwarded_packet, sbind, sreads, slift, sget, serr.
  destruct (ip_packet_is_fragmented p) as [[]| |] eqn:Hf; [done| |done|by destruct (is_fragmented_no_panic p)].
  destruct (validate_packet_checksums p) as [[]| |] eqn:Hv; [|done|by destruct (validate_no_panic p)].
  unfold validate_packet_checksums in Hv.
  apply obind_Ok in Hv as ([[proto off] tl] & Hm & _). apply transport_metadata_layout in Hm as Hl; [|done].
  pose proof Hl as [Ho Ht Hs Hver H4 H6]. rewrite ip_version_ok by lia.
  case_decide as Hd4; [|case_decide as Hd6; [|done]].
  - destruct (H4 Hd4) as (-> & _). rewrite ipv4_header_len_ok by lia.
    case_decide; [done|]. rewrite idx_ok by lia. case_decide; [done|].
    rewrite !write_at_run by plen. rewrite slice_ok by plen. by rewrite write_at_run by plen.
  - case_decide; [done|]. rewrite idx_ok by lia. case_decide; [done|]. by rewrite write_at_run by plen.
Qed.

Lemma ensure_udp_payload_len_no_panic minimum p : bytes_ok p →
  no_panic (ensure_udp_payload_len minimum p).1.
Proof.
  intros Hok. unfold ensure_udp_payload_len, sbind, sreads, slift, sget, sput, serr, sret.
  destruct (transport_metadata p) as [[[proto off] tl]| |] eqn:Hm; [|done|].
  2: by destruct (transport_metadata_no_panic p).
  apply transport_metadata_layout in Hm as [Ho Ht _ _ _ _]; [|done]. case_decide; [done|].
  destruct (validate_udp_layout p off tl) as [n| |] eqn:Hv; [|done|].
  2: by destruct (validate_udp_layout_no_panic p off tl).
  apply validate_udp_layout_len in Hv. rewrite usub_ok by lia. case_decide; [done|]. cbv zeta.
  case_decide; [done|]. pose proof (length_resize_bytes (tl + (minimum - (n - 8))) p).
  rewrite write_at_run by plen. rewrite idx_ok by plen.
  repeat case_decide; try done; by rewrite write_at_run by plen.
Qed.

Lemma rewrite_packet_no_panic t p : bytes_ok p → flow_ok t → no_panic (rewrite_packet t p).1.
Proof.
  intros Hok (Hips & Hipd & Hsp & Hdp).
  destruct (parse_flow_key p) as [f| |] eqn:Hp; [|unfold rewrite_packet, sbind, sreads; by rewrite Hp|].
  2: by destruct (parse_flow_key_no_panic p).
  unfold rewrite_packet. erewrite sbind_run by (apply sreads_run, Hp).
  destruct t as [ts td tsp tdp tpr]. apply parse_flow_key_iff in Hp as
    (proto & off & tl & sp & dp & pr & Hl & Hfr & Hs & ->); [|done]. cbn [fk_protocol fk_source fk_destination] in *.
  case_decide as Hd; [done|]. assert (pr = tpr) as -> by (destruct (decide (pr = tpr)); tauto).
  unfold ip_source in *. case_decide as Hv4.
  - destruct ts as [s|]; [|done]. destruct td as [d|]; [|done].
    destruct (rewrite_ipv4_spec p proto off tl sp dp (mkFlowKey (V4 s) (V4 d) tsp tdp tpr))
      with (source := s) (destination := d) as (p' & -> & _); done.
  - destruct ts as [|s]; [done|]. destruct td as [|d]; [done|].
    destruct (rewrite_ipv6_spec p proto off tl sp dp (mkFlowKey (V6 s) (V6 d) tsp tdp tpr))
      with (source := s) (destination := d) as (p' & -> & _); done.
Qed.

(** ** Packets that carry the same flow *)

Lemma sub_val_eq (p q : bytes) a b : bytes_ok p → bytes_ok q → length q = length p → (b ≤ length p)%nat →
  be_val (sub p a b) = be_val (sub q a b) → ∀ i, (a ≤ i < b)%nat → byte_at q i = byte_at p i.
Proof.
  intros Hp Hq Hl Hb Hv i Hi. apply be_val_inj in Hv; [|by auto with rust..|by rewrite !length_sub by lia].
  replace i with (a + (i - a))%nat by lia. rewrite <- !(byte_at_sub _ a b) by lia. by rewrite Hv.
Qed.

Lemma same_addresses p q : bytes_ok p → bytes_ok q → length q = length p →
  (is_v4 q ↔ is_v4 p) → (20 ≤ length p)%nat → (¬ is_v4 p → 40 ≤ length p)%nat →
  ip_source p = ip_source q → ip_destination p = ip_destination q →
  ∀ i, network_byte p i → ¬ (is_v4 p ∧ 10 ≤ i < 12)%nat → byte_at q i = byte_at p i.
Proof.
  intros Hp Hq Hl Hv H20 H40. unfold ip_source, ip_destination, network_byte.
  destruct (decide (is_v4 p)) as [H4|H6].
  - rewrite !(decide_True (P := is_v4 q)) by tauto. intros [= Hs] [= Hd] i Hi Hc.
    assert (¬ (10 ≤ i < 12)%nat) by tauto.
    destruct (decide (i < 16)%nat); [eapply (sub_val_eq p q 12 16)|eapply (sub_val_eq p q 16 20)]; done || lia.
  - rewrite !(decide_False (P := is_v4 q)) by tauto. specialize (H40 H6). intros [= Hs] [= Hd] i Hi ?.
    destruct (decide (i < 24)%nat); [eapply (sub_val_eq p q 8 24)|eapply (sub_val_eq p q 24 40)]; done || lia.
Qed.

Lemma same_ports pr (a b : bytes) : bytes_ok a → bytes_ok b →
  sport_at pr a = sport_at pr b → dport_at pr a = dport_at pr b →
  ∀ i, port_byte pr i → byte_at b i = byte_at a i.
Proof.
  intros Ha Hb Hs Hd i Hi.
  assert (∀ j, be16 (byte_at a j) (byte_at a (S j)) = be16 (byte_at b j) (byte_at b (S j)) →
     byte_at b j = byte_at a j ∧ byte_at b (S j) = byte_at a (S j)) as Hj.
  { intros j Hj. apply be16_inj in Hj as [-> ->]; auto with rust. }
  destruct pr; simpl in Hs, Hd, Hi; apply Hj in Hs, Hd;
    (assert (i = 0 ∨ i = 1 ∨ i = 2 ∨ i = 3 ∨ i = 4 ∨ i = 5)%nat as Hc by lia);
    destruct Hc as [-> |[-> |[-> |[-> |[-> | ->]]]]]; tauto || lia.
Qed.

#[local] Instance network_byte_dec p i : Decision (network_byte p i).
Proof. unfold network_byte. case_decide; apply _. Defined.
#[local] Instance port_byte_dec pr i : Decision (port_byte pr i).
Proof. destruct pr; simpl; apply _. Defined.

(** Translating a packet and translating the result back restores every byte
    outside the checksum fields. *)
Lemma rewrite_back p p1 p2 f t : bytes_ok p → parse_flow_key p = Ok f →
  fk_protocol f = fk_protocol t → rewritten p p1 t → rewritten p1 p2 f →
  ∃ proto off tl, transport_metadata p = Ok (proto, off, tl) ∧
  ∀ i, ¬ (is_v4 p ∧ 10 ≤ i < 12)%nat → ¬ (off + checksum_at (fk_protocol f) ≤ i
     < off + checksum_at (fk_protocol f) + 2)%nat → byte_at p2 i = byte_at p i.
Proof.
  intros Hok Hf Hpr [Hl1 Hok1 Hp1 _ (proto & off & tl & Hm & Hm1 & Hr1)]
    [Hl2 Hok2 Hp2 _ (proto' & off' & tl' & Hm1' & Hm2 & Hr2)].
  rewrite Hm1 in Hm1'. injection Hm1' as <- <- <-. exists proto, off, tl. split; [done|].
  apply parse_flow_key_iff in Hf as (x & o & l & sp & dp & pr & Hl & _ & Hs & ->); [|done].
  apply transport_metadata_layout in Hl as Hm'; [|done]. rewrite Hm in Hm'. injection Hm' as <- <- <-.
  apply parse_flow_key_iff in Hp2 as (x & o & l & sp2 & dp2 & pr2 & Hl' & _ & Hs' & [= Hsrc Hdst <- <- <-]); [|done].
  apply transport_metadata_layout in Hl' as Hm'; [|done]. rewrite Hm2 in Hm'. injection Hm' as <- <- <-.
  cbn [fk_protocol] in *. rewrite <- Hpr in Hr1. apply transport_metadata_layout in Hm1 as Hl1'; [|done].
  pose proof Hl as [Ho Ht _ _ _ H6].
  assert (is_v4 p1 ↔ is_v4 p) as Hv1.
  { unfold is_v4. rewrite Hr1; [done|unfold network_byte; case_decide; lia|unfold transport_byte; lia]. }
  assert (is_v4 p2 ↔ is_v4 p) as Hv2.
  { rewrite <- Hv1. unfold is_v4.
    rewrite Hr2; [done|unfold network_byte; case_decide; lia|unfold transport_byte; lia]. }
  assert (∀ i, network_byte p1 i ↔ network_byte p i) as Hn.
  { intros i. unfold network_byte. repeat case_decide; tauto. }
  intros i Hc4 Hct. destruct (decide (network_byte p i)) as [Hni|Hni].
  { eapply same_addresses; eauto; [lia|lia|]. intros Hv. specialize (H6 Hv). lia. }
  destruct (decide (off ≤ i ∧ port_byte pr (i - off))%nat) as [[Hoi Hpi]|Hpi].
  - destruct (shape_length _ _ _ _ _ Hs) as (H8 & _ & _). rewrite length_sub in H8 by lia.
    destruct (shape_ports _ _ _ _ _ Hs) as [Hsp Hdp]. destruct (shape_ports _ _ _ _ _ Hs') as [Hsp' Hdp'].
    assert (i - off < 8)%nat by (destruct pr; simpl in Hpi; lia).
    replace i with (off + (i - off))%nat by lia. rewrite <- !(byte_at_sub _ off tl) by lia.
    apply (same_ports pr); [auto with rust..|congruence|congruence|done].
  - assert (¬ transport_byte pr off i) as Htb.
    { unfold transport_byte, checksum_byte. intros [? [?|?]]; [tauto|lia]. }
    rewrite Hr2, Hr1; [done|done|done|by rewrite Hn|done].
Qed.

Lemma parse_flow_ok p f : bytes_ok p → parse_flow_key p = Ok f → flow_ok f.
Proof.
  intros Hok (x & off & tl & sp & dp & pr & Hl & _ & Hs & ->)%parse_flow_key_iff; [|done].
  pose proof Hl as [Ho Ht _ _ _ H6]. destruct (shape_ports _ _ _ _ _ Hs) as [-> ->].
  assert (∀ a b, (b ≤ length p)%nat → fits (8 * Z.of_nat (b - a)) (be_val (sub p a b))) as Hv.
  { intros a b ?. rewrite <- (length_sub p a b) by done. apply be_val_range. auto with rust. }
  unfold flow_ok, ip_source, ip_destination; cbn [fk_source fk_destination fk_source_port fk_destination_port].
  split_and!.
  - case_decide as Hd; [apply (Hv 12 16)%nat; lia|]. apply (Hv 8 24)%nat. specialize (H6 Hd). lia.
  - case_decide as Hd; [apply (Hv 16 20)%nat; lia|]. apply (Hv 24 40)%nat. specialize (H6 Hd). lia.
  - destruct pr; simpl; apply be16_range; auto with rust.
  - destruct pr; simpl; apply be16_range; auto with rust.
Qed.

Lemma translation_sym f t : translation f t → translation t f.
Proof.
  intros [Hp Hs Hd Hi]. unfold same_family in *. apply Bool.eqb_prop in Hs, Hd.
  split; [done| | |intros; symmetry; apply Hi; by rewrite Hp].
  - unfold same_family. by rewrite Hs, Bool.eqb_reflx.
  - unfold same_family. by rewrite Hd, Bool.eqb_reflx.
Qed.

(** ** Forwarding and clamping *)

(** What forwarding preserves. *)
Lemma prepare_spec p p' : bytes_ok p → prepare_forwarded_packet p = (Ok tt, p') →
  ip_packet_is_fragmented p = Ok false ∧ validate_packet_checksums p = Ok tt
  ∧ 1 < byte_at p (hop_index p) ∧ byte_at p' (hop_index p) = byte_at p (hop_index p) - 1
  ∧ parse_flow_key p' = parse_flow_key p ∧ validate_packet_checksums p' = Ok tt ∧ length p' = length p
  ∧ (∀ i, i ≠ hop_index p → ¬ (is_v4 p ∧ 10 ≤ i < 12)%nat → byte_at p' i = byte_at p i) ∧ bytes_ok p'.
Proof.
  intros Hok Hrun. apply prepare_run in Hrun as
    (Hfr & Hv & Hh & proto & off & tl & Hl & Hlen & Hok' & Hhop & Hf & Hsum); [|done].
  assert (∀ i, meta_byte p off i → byte_at p' i = byte_at p i) as Hm.
  { intros i Hi. apply Hf; unfold meta_byte, hop_index in *; 
      destruct Hi as [?|[?|[? ?]]]; repeat case_decide; lia || done. }
  assert (∀ i, ((if decide (is_v4 p) then 12 else 8) ≤ i)%nat → byte_at p' i = byte_at p i) as Hi.
  { intros i Hi. apply Hf; unfold hop_index; destruct (decide (is_v4 p)); lia || tauto. }
  split_and!; try done.
  - by apply (parse_frame p p' proto off tl).
  - by apply (validate_frame p p' proto off tl).
Qed.

(** What a clamp preserves. *)
Lemma clamp_spec max p : bytes_ok p → fits 16 max →
  (∃ e, clamp_tcp_mss max p = (Err e, p)) ∨
  ∃ m p', clamp_tcp_mss max p = (Ok m, p') ∧ length p' = length p ∧ (m = false → p' = p)
    ∧ parse_flow_key p' = parse_flow_key p ∧ clamp_tcp_mss max p' = (Ok false, p')
    ∧ (∀ i, byte_at p' i ≠ byte_at p i → ∃ off tl, transport_metadata p = Ok (IP_PROTOCOL_TCP, off, tl)
        ∧ (off + 22 ≤ i < tl)%nat ∧ Z.land (byte_at p (off + 13)) 0x02 ≠ 0)
    ∧ bytes_ok p'.
Proof.
  intros Hok Hmax. destruct (clamp_tcp_mss_cases max p Hok Hmax)
    as [?|[Hrun|(off & tl & hl & m & p' & Hrun & Hl & H20 & Hhl & Hsyn & Ehl & Hc)]]; [by left| |]; right.
  - exists false, p. by split_and!.
  - exists m, p'. destruct (clamped_metadata p p' off tl hl max m Hok Hl Hhl Hc) as (Hm & Hp & Hg).
    destruct Hc as [Hlen Hok' Hf Hfl _ Hag]. pose proof Hl as [Ho Ht _ _ _ _].
    pose proof (proj2 (transport_metadata_layout p _ off tl Hok) Hl) as Hmeta.
    split_and!; try done.
    + unfold clamp_tcp_mss, sbind, sreads, slift, sret. rewrite Hm, Hmeta. rewrite decide_False by tauto.
      rewrite Hg, get_range_ok by lia. cbn [ok_or]. rewrite !idx_ok by plen. rewrite !byte_at_sub by lia.
      rewrite decide_False by done. rewrite <- Ehl. rewrite decide_False by lia. apply Hag. lia.
    + intros i Hi. exists off, tl. split_and!; [done| | |done].
      * destruct (decide (off + 22 ≤ i)%nat); [done|]. destruct Hi. apply Hf. lia.
      * destruct (decide (i < tl)%nat); [done|]. destruct Hi. apply Hf. lia.
Qed.

(** ** Concrete packets *)

Definition sample_syn : bytes :=
  [0x45; 0] ++ be_bytes 2 44 ++ [0; 0; 0; 0; 64; 6; 0; 0; 192; 0; 2; 10; 198; 51; 100; 20]
  ++ be_bytes 2 12345 ++ be_bytes 2 443 ++ replicate 8 0 ++ [0x60; 0x02; 0; 0; 0; 0; 0; 0; 2; 4; 5; 180].
Definition sample_syn_flow : FlowKey :=
  mkFlowKey (V4 0xc000020a) (V4 0xc6336414) 12345 443 Tcp.
Definition sample_syn_translated : FlowKey :=
  mkFlowKey (V4 0xc00002c8) (V4 0xc6336414) 40000 443 Tcp.
Definition sample_syn_sealed : bytes := (rewrite_packet sample_syn_flow sample_syn).2.

Definition sample_udp6 : bytes :=
  [0x60; 0; 0; 0] ++ be_bytes 2 28 ++ [0; 64] ++ replicate 16 1 ++ replicate 16 3
  ++ [17; 0; 0; 0; 0; 0; 0; 0] ++ be_bytes 2 60000 ++ be_bytes 2 53 ++ be_bytes 2 20 ++ [0; 0]
  ++ replicate 12 7.

Lemma sample_syn_facts : bytes_ok sample_syn ∧ parse_flow_key sample_syn = Ok sample_syn_flow
  ∧ flow_ok sample_syn_translated ∧ translation sample_syn_flow sample_syn_translated.
Proof. split_and!; [vmdec|done|vmdec|].
  split; [done..|]. by intros [?|?]. Qed.

(** ** The packet properties *)

(** Whatever bytes arrive, no operation of the packet component panics:
    every index, slice and subtraction it performs is in range, and its two
    header walks terminate. *)
Theorem packet_operations_never_panic (p : bytes) (t : FlowKey) (max : Z) (minimum : nat) :
  bytes_ok p → flow_ok t → fits 16 max →
  no_panic (parse_flow_key p) ∧ no_panic (ip_packet_is_fragmented p) ∧ no_panic (udp_payload p)
  ∧ no_panic (parse_tcp_flags p) ∧ no_panic (validate_packet_checksums p)
  ∧ no_panic (prepare_forwarded_packet p).1 ∧ no_panic (clamp_tcp_mss max p).1
  ∧ no_panic (ensure_udp_payload_len minimum p).1 ∧ no_panic (rewrite_packet t p).1.
Proof.
  intros. split_and!; auto using parse_flow_key_no_panic, is_fragmented_no_panic, udp_payload_no_panic,
    parse_tcp_flags_no_panic, validate_no_panic, prepare_no_panic, clamp_tcp_mss_no_panic,
    ensure_udp_payload_len_no_panic, rewrite_packet_no_panic.
Qed.

Lemma packet_operations_never_panic_witness : no_panic (rewrite_packet sample_syn_translated (take 30 sample_syn)).1.
Proof.
  apply (packet_operations_never_panic (take 30 sample_syn) sample_syn_translated 1333 12);
    vmdec.
Defined.

(** C3: Rewriting a packet to a translated flow of the same protocol and address
    family succeeds; the result has the same length, parses to exactly the
    translated flow, passes the checksum validation, and differs from the
    original only in the addresses, the ports (or ICMP identifier) and the two
    checksum fields. *)
Theorem rewrite_packet_correct (p : bytes) (original translated : FlowKey) :
  bytes_ok p → parse_flow_key p = Ok original → flow_ok translated → translation original translated →
  ∃ p' proto off tl, rewrite_packet translated p = (Ok tt, p') ∧ length p' = length p
    ∧ parse_flow_key p' = Ok translated ∧ validate_packet_checksums p' = Ok tt
    ∧ transport_metadata p = Ok (proto, off, tl)
    ∧ (∀ i, ¬ network_byte p i → ¬ transport_byte (fk_protocol translated) off i →
            byte_at p' i = byte_at p i).
Proof.
  intros Hok Hp Ht Htr.
  destruct (rewrite_packet_run p original translated) as (p' & Hrun & [Hl _ Hp' Hc (proto & off & tl & Hm & _ & Hr)]);
    [done..|]. by exists p', proto, off, tl.
Qed.

Lemma rewrite_packet_correct_witness : ∃ p', rewrite_packet sample_syn_translated sample_syn = (Ok tt, p')
  ∧ validate_packet_checksums p' = Ok tt.
Proof.
  destruct sample_syn_facts as (Hok & Hp & Hf & Ht).
  destruct (rewrite_packet_correct sample_syn sample_syn_flow sample_syn_translated Hok Hp Hf Ht)
    as (p' & _ & _ & _ & Hrun & _ & _ & Hc & _). by exists p'.
Defined.

(** A rewrite to a flow of another protocol or address family is refused and
    leaves the packet as it was. *)
Theorem rewrite_packet_refuses (p : bytes) (original translated : FlowKey) :
  parse_flow_key p = Ok original →
  fk_protocol original ≠ fk_protocol translated
  ∨ same_family (fk_source original) (fk_source translated) = false
  ∨ same_family (fk_destination original) (fk_destination translated) = false →
  rewrite_packet translated p = (Err InvalidTranslation, p).
Proof. intros Hp Hd. unfold rewrite_packet, sbind, sreads. rewrite Hp. by rewrite decide_True. Qed.

Lemma rewrite_packet_refuses_witness :
  rewrite_packet (mkFlowKey (V6 1) (V6 2) 1 2 Tcp) sample_syn = (Err InvalidTranslation, sample_syn).
Proof. apply (rewrite_packet_refuses sample_syn sample_syn_flow); [reflexivity|right; left; reflexivity]. Defined.

(** C28: Source translation and the reverse translation of the reply path undo
    each other: rewriting a packet to the translated flow and rewriting the
    result back to the original flow restores every byte outside the checksum
    fields. *)
Theorem rewrite_packet_roundtrip (p : bytes) (original translated : FlowKey) :
  bytes_ok p → parse_flow_key p = Ok original → flow_ok translated → translation original translated →
  ∃ p1 p2 proto off tl, rewrite_packet translated p = (Ok tt, p1) ∧ rewrite_packet original p1 = (Ok tt, p2)
    ∧ length p2 = length p ∧ parse_flow_key p2 = Ok original ∧ transport_metadata p = Ok (proto, off, tl)
    ∧ ∀ i, ¬ (is_v4 p ∧ 10 ≤ i < 12)%nat →
        ¬ (off + checksum_at (fk_protocol original) ≤ i < off + checksum_at (fk_protocol original) + 2)%nat →
        byte_at p2 i = byte_at p i.
Proof.
  intros Hok Hp Ht Htr.
  destruct (rewrite_packet_run p original translated) as (p1 & Hrun1 & Hr1); [done..|].
  destruct (rewrite_packet_run p1 translated original) as (p2 & Hrun2 & Hr2).
  { apply Hr1. } { apply Hr1. } { by eapply parse_flow_ok. } { by apply translation_sym. }
  destruct (rewrite_back p p1 p2 original translated Hok Hp) as (proto & off & tl & Hm & Hb); [apply Htr|done|done|].
  exists p1, p2, proto, off, tl. split_and!; try done; [|apply Hr2].
  by rewrite (rewritten_length _ _ _ Hr2), (rewritten_length _ _ _ Hr1).
Qed.

Lemma rewrite_packet_roundtrip_witness : ∃ p1 p2, rewrite_packet sample_syn_translated sample_syn = (Ok tt, p1)
  ∧ rewrite_packet sample_syn_flow p1 = (Ok tt, p2) ∧ length p2 = 44%nat.
Proof.
  destruct sample_syn_facts as (Hok & Hp & Hf & Ht).
  destruct (rewrite_packet_roundtrip sample_syn sample_syn_flow sample_syn_translated Hok Hp Hf Ht)
    as (p1 & p2 & _ & _ & _ & H1 & H2 & Hl & _). by exists p1, p2.
Defined.

(** A packet accepted for forwarding was unfragmented with valid checksums
    and a hop limit above one; the forwarded packet has the hop limit reduced by
    exactly one, still carries the same flow, still passes the checksum
    validation, and differs only in the hop limit and the IPv4 header checksum. *)
Theorem prepare_forwarded_packet_correct (p p' : bytes) :
  bytes_ok p → prepare_forwarded_packet p = (Ok tt, p') →
  ip_packet_is_fragmented p = Ok false ∧ validate_packet_checksums p = Ok tt
  ∧ 1 < byte_at p (hop_index p) ∧ byte_at p' (hop_index p) = byte_at p (hop_index p) - 1
  ∧ parse_flow_key p' = parse_flow_key p ∧ validate_packet_checksums p' = Ok tt ∧ length p' = length p
  ∧ ∀ i, i ≠ hop_index p → ¬ (is_v4 p ∧ 10 ≤ i < 12)%nat → byte_at p' i = byte_at p i.
Proof. intros Hok Hrun. pose proof (prepare_spec p p' Hok Hrun). tauto. Qed.

Lemma prepare_forwarded_packet_correct_witness :
  prepare_forwarded_packet sample_syn_sealed = (Ok tt, (prepare_forwarded_packet sample_syn_sealed).2)
  ∧ validate_packet_checksums (prepare_forwarded_packet sample_syn_sealed).2 = Ok tt.
Proof.
  assert (prepare_forwarded_packet sample_syn_sealed = (Ok tt, (prepare_forwarded_packet sample_syn_sealed).2)) as H
    by (vm_compute; reflexivity).
  split; [exact H|].
  assert (bytes_ok sample_syn_sealed) as Hok by (vmdec).
  exact (proj1 (proj2 (proj2 (proj2 (proj2 (proj2 (prepare_forwarded_packet_correct _ _ Hok H))))))).
Defined.

(** Clamping the maximum segment size never fails half-way: it either
    reports an error or leaves the packet alone, or it changes only TCP option
    bytes of a SYN, keeps the flow, reports a change exactly when bytes changed,
    and a second clamp finds nothing left to change. *)
Theorem clamp_tcp_mss_correct (max : Z) (p : bytes) :
  bytes_ok p → fits 16 max →
  (∃ e, clamp_tcp_mss max p = (Err e, p)) ∨
  ∃ m p', clamp_tcp_mss max p = (Ok m, p') ∧ length p' = length p ∧ (m = false → p' = p)
    ∧ parse_flow_key p' = parse_flow_key p ∧ clamp_tcp_mss max p' = (Ok false, p')
    ∧ ∀ i, byte_at p' i ≠ byte_at p i → ∃ off tl, transport_metadata p = Ok (IP_PROTOCOL_TCP, off, tl)
        ∧ (off + 22 ≤ i < tl)%nat ∧ Z.land (byte_at p (off + 13)) 0x02 ≠ 0.
Proof.
  intros Hok Hmax. destruct (clamp_spec max p Hok Hmax) as [?|(m & p' & Hc)]; [by left|right].
  exists m, p'. tauto.
Qed.

Lemma clamp_tcp_mss_correct_witness :
  ∃ p', clamp_tcp_mss TCP_MAX_SAFE_MSS sample_syn = (Ok true, p') ∧ clamp_tcp_mss TCP_MAX_SAFE_MSS p' = (Ok false, p').
Proof.
  destruct (clamp_tcp_mss_correct TCP_MAX_SAFE_MSS sample_syn) as [[e H]|(m & p' & H & _ & _ & _ & Ha & _)].
  1-2: vmdec.
  - by vm_compute in H.
  - exists p'. split; [|exact Ha]. destruct m; [exact H|by vm_compute in H].
Defined.

(** A packet whose flow key parses is not a fragment, so translation and
    session lookup never act on a fragment. *)
Theorem parsed_packet_not_fragmented (p : bytes) (f : FlowKey) :
  bytes_ok p → parse_flow_key p = Ok f → ip_packet_is_fragmented p = Ok false ∧ flow_ok f.
Proof. intros. split; [by eapply parsed_not_fragmented|by eapply parse_flow_ok]. Qed.

Lemma parsed_packet_not_fragmented_witness : ip_packet_is_fragmented sample_udp6 = Ok false.
Proof.
  refine (proj1 (parsed_packet_not_fragmented sample_udp6
    (mkFlowKey (V6 0x01010101010101010101010101010101) (V6 0x03030303030303030303030303030303) 60000 53 Udp) _ _));
    [vmdec|vm_compute; reflexivity].
Defined.

(** Growing the UDP payload of a well-formed packet to a minimum length
    keeps the payload as a prefix, pads it with zeros to exactly the minimum,
    and updates the length fields so that the grown packet parses as UDP. *)
Theorem ensure_udp_payload_len_pads (p p' pl : bytes) (minimum off tl : nat) :
  bytes_ok p → transport_metadata p = Ok (IP_PROTOCOL_UDP, off, tl) → length p = tl →
  udp_payload p = Ok pl → ensure_udp_payload_len minimum p = (Ok tt, p') →
  udp_payload p' = Ok (pl ++ replicate (minimum - length pl) 0).
Proof.
  intros Hok Hm. apply transport_metadata_layout in Hm; [|done]. intros.
  by eapply ensure_udp_payload_len_payload.
Qed.

Lemma ensure_udp_payload_len_pads_witness :
  udp_payload (ensure_udp_payload_len 16 sample_udp6).2
  = Ok (replicate 12 7 ++ replicate (16 - length (replicate 12 7)) 0).
Proof.
  apply (ensure_udp_payload_len_pads sample_udp6 (ensure_udp_payload_len 16 sample_udp6).2
           (replicate 12 7) 16 48 68); [vmdec|vm_compute; reflexivity..].
Defined.

(** The checksum routine is the Internet checksum: on up to 131000 bytes
    (every IP packet) its wrapping 32-bit accumulator never wraps, two folding
    rounds reach a 16-bit value, and the result is the complement of the
    one's-complement sum of the 16-bit words. *)
Theorem internet_checksum_reference (bs : bytes) (rounds : nat) :
  bytes_ok bs → Z.of_nat (length bs) ≤ 131000 → (2 ≤ rounds)%nat →
  checksum_add 0 bs = word_sum bs
  ∧ checksum_fold rounds (checksum_add 0 bs) = checksum_fold 2 (checksum_add 0 bs)
  ∧ internet_checksum bs = 65535 - ones_complement_sum (word_sum bs).
Proof.
  intros Hok Hlen Hr. pose proof (word_sum_bound bs Hok).
  assert (0 ≤ word_sum bs < 2 ^ 32) as Hw by lia.
  unfold internet_checksum. rewrite checksum_add_word_sum by (done || lia).
  rewrite Z.add_0_l. split_and!; [done| |by apply checksum_finish_closed].
  by rewrite !checksum_fold_spec by (done || lia).
Qed.

Lemma internet_checksum_reference_witness : internet_checksum [0x45; 0; 0xff; 0xff; 1] = 65535 - 0x4600.
Proof. apply (internet_checksum_reference [0x45; 0; 0xff; 0xff; 1] 2); [vmdec|simpl; lia|lia]. Defined.
