(* ===== verification/NatTable.v ===== *)
(** Source network address translation ([src/src/flow_plane/nat.rs]): the
    per-worker [NatTable] that binds sessions to translated flows, and the
    [ReverseNatDirectory] that the workers share.

    [Instant] is a number of nanoseconds; [Instant::now()] is the argument [now]
    of the [_at] variants.  [BTreeSet<u16>] is a [gset Z] whose iteration is in
    increasing order; the two [HashMap]s are [gmap]s, and no operation of this
    file depends on their iteration order. *)
From S2P Require Import Prelude Net.

Definition TCP_REUSE_QUARANTINE : Z := from_secs 120.
Definition UDP_REUSE_QUARANTINE : Z := from_secs 60.
Definition ICMP_REUSE_QUARANTINE : Z := from_secs 30.

Definition reuse_quarantine (protocol : TransportProtocol) : Z :=
  match protocol with
  | Tcp => TCP_REUSE_QUARANTINE
  | Udp => UDP_REUSE_QUARANTINE
  | Icmp | Icmpv6 => ICMP_REUSE_QUARANTINE
  end.

Record SessionLocator : Type := mkSessionLocator {
  flow_worker_id : nat;
  locator_session_id : SessionId;
}.

Record ReverseNatKey : Type := mkReverseNatKey { reverse_nat_flow : FlowKey }.

#[global] Instance SessionLocator_eq_dec : EqDecision SessionLocator.
Proof. solve_decision. Defined.
#[global] Instance ReverseNatKey_eq_dec : EqDecision ReverseNatKey.
Proof. solve_decision. Defined.
#[global] Instance ReverseNatKey_countable : Countable ReverseNatKey.
Proof. refine (inj_countable' reverse_nat_flow mkReverseNatKey _). by intros []. Defined.

Definition from_translated_flow (flow : FlowKey) : ReverseNatKey :=
  match fk_protocol flow with
  | Tcp | Udp => mkReverseNatKey (reverse flow)
  | Icmp | Icmpv6 =>
      mkReverseNatKey {| fk_source := fk_destination flow;
                         fk_destination := fk_source flow;
                         fk_source_port := fk_source_port flow;
                         fk_destination_port := 0;
                         fk_protocol := fk_protocol flow |}
  end.

Definition from_return_flow (flow : FlowKey) : ReverseNatKey :=
  match fk_protocol flow with
  | Icmp | Icmpv6 =>
      mkReverseNatKey (mkFlowKey (fk_source flow) (fk_destination flow) (fk_source_port flow) 0
                                 (fk_protocol flow))
  | _ => mkReverseNatKey flow
  end.

Record NatBinding : Type := mkNatBinding {
  nb_original : FlowKey;
  nb_translated : FlowKey;
}.
#[global] Instance NatBinding_eq_dec : EqDecision NatBinding.
Proof. solve_decision. Defined.

Inductive NatError : Type :=
| InvalidPortRange
| AddressFamilyMismatch
| PortRangeExhausted
| DuplicateSession (session_id : SessionId)
| DuplicateReverseKey (key : ReverseNatKey)
| NatUnknownSession (session_id : SessionId).

(** ** The shared directory *)

Record ReverseNatDirectory : Type := mkDirectory {
  entries : gmap ReverseNatKey SessionLocator;
}.

Definition directory_publish (binding : NatBinding) (locator : SessionLocator)
    : ST ReverseNatDirectory NatError unit := λ d,
  let key := from_translated_flow (nb_translated binding) in
  match entries d !! key with
  | Some existing =>
      if decide (existing = locator) then (Ok tt, d) else (Err (DuplicateReverseKey key), d)
  | None => (Ok tt, mkDirectory (<[key := locator]> (entries d)))
  end.

Definition directory_lookup (d : ReverseNatDirectory) (return_flow : FlowKey) : option SessionLocator :=
  entries d !! from_return_flow return_flow.

Definition directory_retire (binding : NatBinding) (expected : SessionLocator)
    (d : ReverseNatDirectory) : option SessionLocator * ReverseNatDirectory :=
  let key := from_translated_flow (nb_translated binding) in
  if decide (entries d !! key ≠ Some expected) then (None, d)
  else (entries d !! key, mkDirectory (delete key (entries d))).

Definition directory_len (d : ReverseNatDirectory) : nat := size (entries d).

(** ** The per-worker table *)

Record NatTable : Type := mkNatTable {
  snat_ipv4 : option Z;
  snat_ipv6 : option Z;
  available_ports : gset Z;
  forward : gmap SessionId NatBinding;
  reverse_map : gmap ReverseNatKey SessionLocator;
  quarantined : gmap ReverseNatKey Z;
}.

(** The iteration order of a [BTreeSet<u16>]. *)
Definition ascending (s : gset Z) : list Z := merge_sort Z.le (elements s).

(** The members of an inclusive port range. *)
Definition port_range (lo hi : Z) : gset Z := list_to_set (seqZ lo (hi - lo + 1)).

Definition nat_new_dual (ipv4 ipv6 : option Z) (lo hi : Z) : outcome NatError NatTable :=
  if decide (hi < lo) then Err InvalidPortRange else
  Ok {| snat_ipv4 := ipv4; snat_ipv6 := ipv6; available_ports := port_range lo hi;
        forward := ∅; reverse_map := ∅; quarantined := ∅ |}.

Definition nat_new (snat_ip : IpAddr) (lo hi : Z) : outcome NatError NatTable :=
  match snat_ip with
  | V4 address => nat_new_dual (Some address) None lo hi
  | V6 address => nat_new_dual None (Some address) lo hi
  end.

(** The address a flow is translated to. *)
Definition snat_for (t : NatTable) (original : FlowKey) : option IpAddr :=
  match fk_source original with
  | V4 _ => V4 <$> snat_ipv4 t
  | V6 _ => V6 <$> snat_ipv6 t
  end.

(** [original] with the source replaced. *)
Definition translate (original : FlowKey) (snat_ip : IpAddr) (port : Z) : FlowKey :=
  mkFlowKey snat_ip (fk_destination original) port (fk_destination_port original)
            (fk_protocol original).

(** The closure of [find_map] in [allocate_at]. *)
Definition port_usable (reverse_map : gmap ReverseNatKey SessionLocator)
    (quarantined : gmap ReverseNatKey Z) (original : FlowKey) (snat_ip : IpAddr) (port : Z) : Prop :=
  let key := from_translated_flow (translate original snat_ip port) in
  reverse_map !! key = None ∧ quarantined !! key = None.
#[global] Instance port_usable_dec r q o s p : Decision (port_usable r q o s p).
Proof. unfold port_usable. apply _. Defined.

(** [Iterator::find]. *)
Definition find_first {A} (P : A → Prop) `{∀ a, Decision (P a)} (l : list A) : option A :=
  snd <$> list_find P l.

(** [self.quarantined.retain(|_, expires_at| *expires_at > now)]. *)
Definition retain_quarantined (now : Z) (q : gmap ReverseNatKey Z) : gmap ReverseNatKey Z :=
  filter (λ kv, now < kv.2) q.

Definition nat_allocate_at (session_id : SessionId) (original : FlowKey) (locator : SessionLocator)
    (now : Z) : ST NatTable NatError NatBinding := λ t,
  match forward t !! session_id with
  | Some _ => (Err (DuplicateSession session_id), t)
  | None =>
  match snat_for t original with
  | None => (Err AddressFamilyMismatch, t)
  | Some snat_ip =>
  let q := retain_quarantined now (quarantined t) in
  match find_first (port_usable (reverse_map t) q original snat_ip) (ascending (available_ports t)) with
  | None =>
      (Err PortRangeExhausted,
       mkNatTable (snat_ipv4 t) (snat_ipv6 t) (available_ports t) (forward t) (reverse_map t) q)
  | Some port =>
      let translated := translate original snat_ip port in
      let binding := mkNatBinding original translated in
      (Ok binding,
       mkNatTable (snat_ipv4 t) (snat_ipv6 t) (available_ports t ∖ {[port]})
         (<[session_id := binding]> (forward t))
         (<[from_translated_flow translated := locator]> (reverse_map t)) q)
  end end end.

Definition nat_get (t : NatTable) (session_id : SessionId) : option NatBinding :=
  forward t !! session_id.

Definition nat_lookup_reverse (t : NatTable) (return_flow : FlowKey) : option SessionLocator :=
  reverse_map t !! from_return_flow return_flow.

Definition nat_remove_at (session_id : SessionId) (now : Z) : ST NatTable NatError NatBinding := λ t,
  match forward t !! session_id with
  | None => (Err (NatUnknownSession session_id), t)
  | Some binding =>
      let key := from_translated_flow (nb_translated binding) in
      (Ok binding,
       mkNatTable (snat_ipv4 t) (snat_ipv6 t)
         (available_ports t ∪ {[fk_source_port (nb_translated binding)]})
         (delete session_id (forward t))
         (delete key (reverse_map t))
         (<[key := now + reuse_quarantine (fk_protocol (nb_translated binding))]> (quarantined t)))
  end.

Definition nat_len (t : NatTable) : nat := size (forward t).
Definition nat_reverse_len (t : NatTable) : nat := size (reverse_map t).
