(* ===== verification/NatProps.v ===== *)
(** The invariant of [NatTable] and what it buys: every binding owns its port,
    reverse lookups name exactly the live bindings, a released tuple stays
    unused for its quarantine. *)
From S2P Require Import Prelude Net NatTable.

(** ** Reverse keys *)

(** [r] is a packet that answers a packet of the flow [t]: the addresses are
    swapped; the ports too for TCP and UDP; an ICMP echo keeps its identifier. *)
Definition is_reply (t r : FlowKey) : Prop :=
  fk_source r = fk_destination t ∧ fk_destination r = fk_source t ∧ fk_protocol r = fk_protocol t ∧
  match fk_protocol t with
  | Tcp | Udp => fk_source_port r = fk_destination_port t ∧ fk_destination_port r = fk_source_port t
  | Icmp | Icmpv6 => fk_source_port r = fk_source_port t
  end.

Lemma return_key_reply t r : from_return_flow r = from_translated_flow t ↔ is_reply t r.
Proof.
  destruct t as [ts td tsp tdp tp], r as [rs rd rsp rdp rp]. unfold is_reply, from_return_flow, from_translated_flow.
  simpl. destruct tp, rp; simpl; naive_solver.
Qed.

(** The translated source port can be read off a reverse key. *)
Definition key_port (k : ReverseNatKey) : Z :=
  match fk_protocol (reverse_nat_flow k) with
  | Tcp | Udp => fk_destination_port (reverse_nat_flow k)
  | Icmp | Icmpv6 => fk_source_port (reverse_nat_flow k)
  end.

Lemma key_port_translated f : key_port (from_translated_flow f) = fk_source_port f.
Proof. destruct f as [? ? ? ? []]; done. Qed.

Lemma translate_key_port o s p : key_port (from_translated_flow (translate o s p)) = p.
Proof. apply key_port_translated. Qed.

(** ** The ascending iteration *)

Lemma elem_of_ascending s x : x ∈ ascending s ↔ x ∈ s.
Proof. unfold ascending. by rewrite merge_sort_Permutation, elem_of_elements. Qed.

Lemma ascending_sorted s : StronglySorted Z.le (ascending s).
Proof. apply (StronglySorted_merge_sort Z.le). Qed.

Lemma find_first_Some {A} (P : A → Prop) `{∀ a, Decision (P a)} l a :
  find_first P l = Some a → a ∈ l ∧ P a.
Proof.
  unfold find_first. rewrite fmap_Some. intros ([i x] & (Hi & HP & _)%list_find_Some & ->).
  split; [by eapply list_elem_of_lookup_2|done].
Qed.

Lemma find_first_None {A} (P : A → Prop) `{∀ a, Decision (P a)} l :
  find_first P l = None ↔ ∀ a, a ∈ l → ¬ P a.
Proof. unfold find_first. by rewrite fmap_None, list_find_None, Forall_forall. Qed.

(** On a sorted list the first match is the least one. *)
Lemma find_first_least (P : Z → Prop) `{∀ a, Decision (P a)} l a b :
  StronglySorted Z.le l → find_first P l = Some a → b ∈ l → P b → a ≤ b.
Proof.
  intros Hs Hfind Hb HPb. induction Hs as [|x l Hs IH Hx]; [done|].
  unfold find_first in Hfind. simpl in Hfind. apply elem_of_cons in Hb. destruct (decide (P x)) as [|HP].
  - injection Hfind as <-. destruct Hb as [-> |Hb]; [lia|]. rewrite Forall_forall in Hx. auto.
  - destruct Hb as [-> |Hb]; [done|]. apply IH; [|done]. unfold find_first.
    destruct (list_find P l) as [[i y]|]; [|done]. done.
Qed.

(** ** The invariant *)

(** The value ranges that [Ipv4Addr], [Ipv6Addr] and [RangeInclusive<u16>] give
    the configuration of a table. *)
Definition snat_config_ok (ipv4 ipv6 : option Z) (lo hi : Z) : Prop :=
  (∀ a, ipv4 = Some a → fits 32 a) ∧ (∀ a, ipv6 = Some a → fits 128 a) ∧ 0 ≤ lo ∧ hi < 2 ^ 16.

Definition nat_ranges (ports : gset Z) (t : NatTable) : Prop :=
  (∀ a, snat_ipv4 t = Some a → fits 32 a) ∧ (∀ a, snat_ipv6 t = Some a → fits 128 a)
  ∧ ∀ p, p ∈ ports → fits 16 p.

Section invariant.
Context (owner : nat) (ports : gset Z).

Definition own_locator (s : SessionId) : SessionLocator := mkSessionLocator owner s.

Record nat_inv (t : NatTable) : Prop := {
  inv_ranges : nat_ranges ports t;
  inv_available : available_ports t ⊆ ports;
  inv_port : ∀ s b, forward t !! s = Some b →
    fk_source_port (nb_translated b) ∈ ports ∧ fk_source_port (nb_translated b) ∉ available_ports t;
  inv_free : ∀ p, p ∈ ports → p ∉ available_ports t →
    ∃ s b, forward t !! s = Some b ∧ fk_source_port (nb_translated b) = p;
  inv_unique : ∀ s s' b b', forward t !! s = Some b → forward t !! s' = Some b' →
    fk_source_port (nb_translated b) = fk_source_port (nb_translated b') → s = s';
  inv_shape : ∀ s b, forward t !! s = Some b → ∃ snat,
    snat_for t (nb_original b) = Some snat ∧
    nb_translated b = translate (nb_original b) snat (fk_source_port (nb_translated b));
  inv_reverse : ∀ k l, reverse_map t !! k = Some l ↔
    ∃ s b, forward t !! s = Some b ∧ k = from_translated_flow (nb_translated b) ∧ l = own_locator s;
  inv_quarantine : ∀ k, is_Some (reverse_map t !! k) → quarantined t !! k = None;
}.

Lemma nat_new_dual_inv ipv4 ipv6 lo hi t : ports = port_range lo hi → snat_config_ok ipv4 ipv6 lo hi →
  nat_new_dual ipv4 ipv6 lo hi = Ok t → nat_inv t.
Proof.
  unfold nat_new_dual. intros Hpr (H4 & H6 & Hlo & Hhi). case_decide; [done|]. intros [= <-].
  split; simpl; rewrite <- ?Hpr; try set_solver. split_and!; [done|done|].
  rewrite Hpr. intros p Hp%elem_of_list_to_set%elem_of_seqZ. unfold fits. lia.
Qed.

Lemma nat_inv_purge t now : nat_inv t →
  nat_inv (mkNatTable (snat_ipv4 t) (snat_ipv6 t) (available_ports t) (forward t) (reverse_map t)
            (retain_quarantined now (quarantined t))).
Proof.
  intros [Hrg Ha Hp Hf Hu Hs Hr Hq]. split; simpl; try done.
  intros k Hk. unfold retain_quarantined. rewrite map_lookup_filter_None. left. by apply Hq.
Qed.

(** The reverse key of a usable port is fresh, and so is its port. *)
Lemma nat_allocate_inv session_id original now t r t' : nat_inv t →
  nat_allocate_at session_id original (own_locator session_id) now t = (r, t') → nat_inv t'.
Proof.
  intros Hinv. unfold nat_allocate_at.
  destruct (forward t !! session_id) eqn:Hfresh; [by intros [= <- <-]|].
  destruct (snat_for t original) as [snat|] eqn:Hsnat; [|by intros [= <- <-]].
  destruct (find_first _ _) as [port|] eqn:Hfind; [|intros [= <- <-]; by apply nat_inv_purge].
  intros [= <- <-]. apply find_first_Some in Hfind as [Hport [Hnr Hnq]].
  apply elem_of_ascending in Hport. destruct Hinv as [Hrg Ha Hp Hf Hu Hs Hr Hq].
  assert (∀ s b, forward t !! s = Some b → fk_source_port (nb_translated b) ≠ port) as Hne.
  { intros s b Hb <-. by apply (Hp s b) in Hb as [_ Hb]. }
  split; simpl.
  - exact Hrg.
  - set_solver.
  - intros s b [[<- <-]|[? Hb]]%lookup_insert_Some; simpl; [set_solver|].
    destruct (Hp s b Hb). set_solver.
  - intros p Hpp Hna. destruct (decide (p = port)) as [->|].
    + exists session_id. eexists. by rewrite lookup_insert_eq.
    + destruct (Hf p Hpp) as (s & b & Hb & <-); [set_solver|].
      exists s, b. by rewrite lookup_insert_ne by congruence.
  - intros s s' b b' [[<- <-]|[? Hb]]%lookup_insert_Some [[<- <-]|[? Hb']]%lookup_insert_Some; simpl; [done|..].
    + intros Heq. by destruct (Hne s' b' Hb').
    + intros Heq. by destruct (Hne s b Hb).
    + eauto.
  - intros s b [[<- <-]|[? Hb]]%lookup_insert_Some; simpl; [by exists snat|]. by apply Hs in Hb.
  - intros k l. destruct (decide (k = from_translated_flow (translate original snat port))) as [->|Hk].
    + rewrite lookup_insert_eq. split.
      * intros [= <-]. exists session_id. eexists. by rewrite lookup_insert_eq.
      * intros (s & b & [[<- <-]|[? Hb]]%lookup_insert_Some & Hkey & ->); [done|].
        destruct (Hne s b Hb). by rewrite <- key_port_translated, <- Hkey, translate_key_port.
    + rewrite lookup_insert_ne by done. rewrite Hr. split.
      * intros (s & b & Hb & -> & ->). exists s, b. by rewrite lookup_insert_ne by congruence.
      * intros (s & b & [[<- <-]|[? Hb]]%lookup_insert_Some & -> & ->); [done|]. by exists s, b.
  - intros k Hk. destruct (decide (k = from_translated_flow (translate original snat port))) as [->|Hkn]; [done|].
    rewrite lookup_insert_ne in Hk by done. unfold retain_quarantined.
    rewrite map_lookup_filter_None. left. by apply Hq.
Qed.

Lemma nat_keys_inj t s s' b b' : nat_inv t → forward t !! s = Some b → forward t !! s' = Some b' →
  from_translated_flow (nb_translated b) = from_translated_flow (nb_translated b') → s = s'.
Proof.
  intros Hinv Hb Hb' Hk. eapply inv_unique; eauto. by rewrite <- !key_port_translated, Hk.
Qed.

Lemma nat_remove_inv session_id now t r t' : nat_inv t →
  nat_remove_at session_id now t = (r, t') → nat_inv t'.
Proof.
  intros Hinv. unfold nat_remove_at. destruct (forward t !! session_id) as [b|] eqn:Hb; [|by intros [= <- <-]].
  intros [= <- <-]. pose proof Hinv as [Hrg Ha Hp Hf Hu Hs Hr Hq]. destruct (Hp _ _ Hb) as [Hbp Hba].
  split; simpl.
  - exact Hrg.
  - set_solver.
  - intros s b' [Hne Hb']%lookup_delete_Some. destruct (Hp s b' Hb') as [? ?]. split; [done|].
    rewrite not_elem_of_union, not_elem_of_singleton. split; [done|]. intros Heq. by destruct Hne; eauto.
  - intros p Hpp [Hna Hpb%not_elem_of_singleton]%not_elem_of_union.
    destruct (Hf p Hpp Hna) as (s & b' & Hb' & <-). exists s, b'.
    rewrite lookup_delete_ne; [done|]. by intros <-; simplify_eq.
  - intros s s' c c' [_ Hc]%lookup_delete_Some [_ Hc']%lookup_delete_Some. eauto.
  - intros s c [_ Hc]%lookup_delete_Some. by apply Hs in Hc.
  - intros k l. rewrite lookup_delete_Some, Hr. split.
    + intros (Hk & s & c & Hc & -> & ->). exists s, c. rewrite lookup_delete_ne; [done|].
      intros <-. by simplify_eq.
    + intros (s & c & [Hne Hc]%lookup_delete_Some & -> & ->). split; [|by exists s, c].
      intros Hk. destruct Hne. by eapply nat_keys_inj.
  - intros k [l [Hk Hl]%lookup_delete_Some]. rewrite lookup_insert_ne by done. by apply Hq.
Qed.

(** ** Lookups *)

Lemma nat_lookup_reverse_iff t r l : nat_inv t →
  nat_lookup_reverse t r = Some l ↔
  ∃ s b, forward t !! s = Some b ∧ is_reply (nb_translated b) r ∧ l = own_locator s.
Proof.
  intros Hinv. unfold nat_lookup_reverse. rewrite (inv_reverse t Hinv). setoid_rewrite return_key_reply. done.
Qed.

End invariant.

(** ** Allocation *)

(** A port that [allocate_at] may take: no live session has it and its tuple is
    not in quarantine. *)
Definition port_free (t : NatTable) (original : FlowKey) (snat : IpAddr) (now port : Z) : Prop :=
  port ∈ available_ports t ∧
  ∀ e, quarantined t !! from_translated_flow (translate original snat port) = Some e → e ≤ now.

Lemma port_usable_free owner ports t original snat now port : nat_inv owner ports t →
  port ∈ available_ports t →
  port_usable (reverse_map t) (retain_quarantined now (quarantined t)) original snat port
  ↔ port_free t original snat now port.
Proof.
  intros Hinv Hport. unfold port_usable, port_free, retain_quarantined.
  set (k := from_translated_flow (translate original snat port)).
  rewrite map_lookup_filter_None. split.
  - intros [_ Hq]. split; [done|]. intros e He. destruct Hq as [Hq|Hq]; [by rewrite Hq in He|].
    specialize (Hq e He). simpl in Hq. lia.
  - intros [_ Hq]. split.
    + apply eq_None_not_Some. intros [l (s & b & Hb & Hk & _)%(inv_reverse _ _ _ Hinv)].
      apply (inv_port _ _ _ Hinv) in Hb as [_ []]. rewrite <- key_port_translated, <- Hk.
      unfold k. by rewrite translate_key_port.
    + destruct (quarantined t !! k) as [e|]; [right|by left]. intros e' [= ->]. simpl.
      specialize (Hq e' eq_refl). lia.
Qed.

Lemma nat_allocate_cases owner ports t session_id original snat now : nat_inv owner ports t →
  forward t !! session_id = None → snat_for t original = Some snat →
  let run := nat_allocate_at session_id original (own_locator owner session_id) now t in
  (run.1 = Err PortRangeExhausted ∧ forward run.2 = forward t ∧ ∀ port, ¬ port_free t original snat now port)
  ∨ ∃ port, run.1 = Ok (mkNatBinding original (translate original snat port))
      ∧ port_free t original snat now port
      ∧ (∀ port', port_free t original snat now port' → port ≤ port')
      ∧ forward run.2 = <[session_id := mkNatBinding original (translate original snat port)]> (forward t).
Proof.
  intros Hinv Hfresh Hsnat run. subst run. unfold nat_allocate_at. rewrite Hfresh, Hsnat.
  destruct (find_first _ _) as [port|] eqn:Hfind; simpl.
  - right. exists port. pose proof Hfind as [Hp Hu]%find_first_Some. apply elem_of_ascending in Hp.
    rewrite port_usable_free in Hu by done. split_and!; [done|done| |done].
    intros port' Hf. eapply find_first_least; [apply ascending_sorted|done| |].
    + apply elem_of_ascending, Hf.
    + apply (port_usable_free owner ports); [done|apply Hf|done].
  - left. split_and!; [done|done|]. intros port Hf.
    apply (proj1 (find_first_None _ _) Hfind port); [apply elem_of_ascending, Hf|].
    apply (port_usable_free owner ports); [done|apply Hf|done].
Qed.

(** ** Sequences of operations *)

Inductive nat_op : Type :=
| NatAllocate (session_id : SessionId) (original : FlowKey)
| NatRemove (session_id : SessionId).

Definition nat_step (owner : nat) (t : NatTable) (event : Z * nat_op) : NatTable :=
  match event.2 with
  | NatAllocate s original => (nat_allocate_at s original (own_locator owner s) event.1 t).2
  | NatRemove s => (nat_remove_at s event.1 t).2
  end.

Definition nat_run (owner : nat) (t : NatTable) (events : list (Z * nat_op)) : NatTable :=
  fold_left (nat_step owner) events t.

Lemma nat_step_inv owner ports t event : nat_inv owner ports t → nat_inv owner ports (nat_step owner t event).
Proof.
  intros. destruct event as [now [s o|s]]; simpl.
  - by eapply nat_allocate_inv; [|apply surjective_pairing].
  - by eapply nat_remove_inv; [|apply surjective_pairing].
Qed.

Lemma nat_run_inv owner ports t events : nat_inv owner ports t → nat_inv owner ports (nat_run owner t events).
Proof. revert t. induction events as [|e l IH]; intros t Ht; [done|]. by apply IH, nat_step_inv. Qed.

(** [k] is out of use and stays quarantined until [until]. *)
Definition resting (k : ReverseNatKey) (until : Z) (t : NatTable) : Prop :=
  reverse_map t !! k = None ∧ ∃ e, quarantined t !! k = Some e ∧ until ≤ e.

Lemma resting_step owner ports k until t event : nat_inv owner ports t → event.1 < until →
  resting k until t → resting k until (nat_step owner t event).
Proof.
  intros Hinv Hnow Hrest. pose proof Hrest as [Hr (e & He & Hle)].
  destruct event as [now [s o|s]]; unfold nat_step; simpl in *.
  - unfold nat_allocate_at. destruct (forward t !! s); [exact Hrest|].
    destruct (snat_for t o) as [snat|]; [|exact Hrest].
    assert (retain_quarantined now (quarantined t) !! k = Some e) as Hk.
    { unfold retain_quarantined. apply map_lookup_filter_Some. split; [done|]. simpl. lia. }
    destruct (find_first _ _) as [port|] eqn:Hf; (split; [simpl|exists e; split; [exact Hk|done]]); [|done].
    apply find_first_Some in Hf as [_ [_ Hq]]. rewrite lookup_insert_ne; [done|]. intros Heq. congruence.
  - unfold nat_remove_at. destruct (forward t !! s) as [b|] eqn:Hb; [|exact Hrest].
    split; simpl; [by apply lookup_delete_None; right|]. exists e. split; [|done].
    rewrite lookup_insert_ne; [done|]. intros <-.
    by rewrite (proj2 (inv_reverse _ _ _ Hinv _ (own_locator owner s))) in Hr by (by exists s, b).
Qed.

Lemma resting_run owner ports k until t events : nat_inv owner ports t →
  Forall (λ event, event.1 < until) events → resting k until t → resting k until (nat_run owner t events).
Proof.
  intros Hinv Hev. revert t Hinv. induction Hev as [|e l He Hl IH]; intros t Hinv Hr; [done|].
  apply IH; [by apply nat_step_inv|by eapply resting_step].
Qed.

(** ** The shared directory *)

Inductive directory_op : Type :=
| Publish (binding : NatBinding) (locator : SessionLocator)
| Retire (binding : NatBinding) (expected : SessionLocator).

Definition directory_step (d : ReverseNatDirectory) (op : directory_op) : ReverseNatDirectory :=
  match op with
  | Publish b l => (directory_publish b l d).2
  | Retire b l => (directory_retire b l d).2
  end.

Definition directory_run (d : ReverseNatDirectory) (ops : list directory_op) : ReverseNatDirectory :=
  fold_left directory_step ops d.

(** The operation that ends an entry. *)
Definition retires (k : ReverseNatKey) (l : SessionLocator) (op : directory_op) : Prop :=
  match op with
  | Publish _ _ => False
  | Retire b l' => from_translated_flow (nb_translated b) = k ∧ l' = l
  end.

Lemma directory_step_stable k l d op : entries d !! k = Some l → ¬ retires k l op →
  entries (directory_step d op) !! k = Some l.
Proof.
  intros Hd Hn. destruct op as [b l'|b l']; simpl in *.
  - unfold directory_publish. destruct (entries d !! from_translated_flow (nb_translated b)) eqn:Hk.
    + by case_decide.
    + simpl. rewrite lookup_insert_ne; [done|]. intros Heq. congruence.
  - unfold directory_retire. case_decide as Hk; [done|]. simpl.
    rewrite lookup_delete_ne; [done|]. intros Heq. apply Hn. split; [done|]. congruence.
Qed.

(** ** A concrete table *)

Definition sample_flow (port : Z) : FlowKey := mkFlowKey (V4 0x0a000001) (V4 0xc6336414) port 443 Tcp.
Definition sample_nat : NatTable :=
  mkNatTable (Some 0xc0000201) None (port_range 40000 40001) ∅ ∅ ∅.
Definition sample_bound : NatTable :=
  nat_run 3 sample_nat [(0, NatAllocate (mkSessionId 1) (sample_flow 1000))].

Lemma sample_snat_ok : snat_config_ok (Some 0xc0000201) None 40000 40001.
Proof. split_and!; [by intros a [= <-]|done|done|done]. Qed.

Lemma sample_nat_inv : nat_inv 3 (port_range 40000 40001) sample_nat.
Proof.
  apply (nat_new_dual_inv 3 _ (Some 0xc0000201) None 40000 40001); [done|exact sample_snat_ok|done].
Qed.

Lemma sample_bound_inv : nat_inv 3 (port_range 40000 40001) sample_bound.
Proof. apply nat_run_inv, sample_nat_inv. Qed.

(** ** The NAT properties *)

(** C27: After any sequence of allocations and removals, whatever they return, the
    NAT table is consistent: a reverse lookup finds a locator exactly when the
    packet answers the translated flow of a live binding, and the locator names
    that binding's session; two live bindings never share a port or a reverse
    tuple; every binding translates only the source. *)
Theorem nat_table_consistent (owner : nat) (ipv4 ipv6 : option Z) (lo hi : Z) (t0 : NatTable)
    (events : list (Z * nat_op)) :
  snat_config_ok ipv4 ipv6 lo hi → nat_new_dual ipv4 ipv6 lo hi = Ok t0 →
  let t := nat_run owner t0 events in
  (∀ r l, nat_lookup_reverse t r = Some l ↔
     ∃ s b, nat_get t s = Some b ∧ is_reply (nb_translated b) r ∧ l = own_locator owner s)
  ∧ (∀ s s' b b', nat_get t s = Some b → nat_get t s' = Some b' →
       fk_source_port (nb_translated b) = fk_source_port (nb_translated b')
       ∨ from_translated_flow (nb_translated b) = from_translated_flow (nb_translated b') → s = s')
  ∧ (∀ s b, nat_get t s = Some b → ∃ snat, snat_for t (nb_original b) = Some snat ∧
       nb_translated b = translate (nb_original b) snat (fk_source_port (nb_translated b))
       ∧ lo ≤ fk_source_port (nb_translated b) ≤ hi).
Proof.
  intros Hcfg Hnew t. assert (nat_inv owner (port_range lo hi) t) as Hinv
    by (by eapply nat_run_inv, nat_new_dual_inv). split_and!.
  - intros r l. by apply (nat_lookup_reverse_iff owner (port_range lo hi)).
  - intros s s' b b' Hb Hb' [Hp|Hk]; [by eapply inv_unique|by eapply nat_keys_inj].
  - intros s b Hb. destruct (inv_shape _ _ _ Hinv s b Hb) as (snat & Hs & Ht). exists snat. split; [done|split; [done|]].
    destruct (inv_port _ _ _ Hinv s b Hb) as [Hp _]. unfold port_range in Hp.
    apply elem_of_list_to_set, elem_of_seqZ in Hp. lia.
Qed.

Lemma nat_table_consistent_witness :
  nat_lookup_reverse sample_bound (mkFlowKey (V4 0xc6336414) (V4 0xc0000201) 443 40000 Tcp)
  = Some (own_locator 3 (mkSessionId 1)).
Proof.
  apply (nat_table_consistent 3 (Some 0xc0000201) None 40000 40001 sample_nat
           [(0, NatAllocate (mkSessionId 1) (sample_flow 1000))]); [exact sample_snat_ok|reflexivity|].
  exists (mkSessionId 1). eexists. split; [vm_compute; reflexivity|]. vm_compute. tauto.
Defined.

(** Allocation for a new session takes the least port that no live session
    holds and whose tuple is out of quarantine, and it reports exhaustion
    exactly when there is none; a failed allocation binds nothing. *)
Theorem nat_allocate_least_port (owner : nat) (ports : gset Z) (t : NatTable) (session_id : SessionId)
    (original : FlowKey) (snat : IpAddr) (now : Z) :
  nat_inv owner ports t → nat_get t session_id = None → snat_for t original = Some snat →
  let '(r, t') := nat_allocate_at session_id original (own_locator owner session_id) now t in
  nat_inv owner ports t' ∧
  ((r = Err PortRangeExhausted ∧ forward t' = forward t ∧ ∀ port, ¬ port_free t original snat now port)
   ∨ ∃ port, r = Ok (mkNatBinding original (translate original snat port))
       ∧ port_free t original snat now port
       ∧ (∀ port', port_free t original snat now port' → port ≤ port')
       ∧ forward t' = <[session_id := mkNatBinding original (translate original snat port)]> (forward t)).
Proof.
  intros Hinv Hfresh Hsnat. pose proof (nat_allocate_cases owner ports t session_id original snat now Hinv Hfresh Hsnat) as Hc.
  destruct (nat_allocate_at _ _ _ _ _) as [r t'] eqn:Hrun. split; [|exact Hc]. by eapply nat_allocate_inv.
Qed.

Lemma nat_allocate_least_port_witness :
  ∃ port, (nat_allocate_at (mkSessionId 2) (sample_flow 1001) (own_locator 3 (mkSessionId 2)) 5 sample_bound).1
          = Ok (mkNatBinding (sample_flow 1001) (translate (sample_flow 1001) (V4 0xc0000201) port)).
Proof.
  pose proof (nat_allocate_least_port 3 (port_range 40000 40001) sample_bound (mkSessionId 2)
    (sample_flow 1001) (V4 0xc0000201) 5 sample_bound_inv eq_refl eq_refl) as H.
  destruct (nat_allocate_at _ _ _ _ _) as [r t'] eqn:Hrun.
  destruct H as [_ [[-> _]|(port & -> & _)]]; [by vm_compute in Hrun|by exists port].
Defined.

(** A tuple released at time [t0] is not bound again by any sequence of
    operations before its protocol's quarantine (120 s for TCP, 60 s for UDP,
    30 s for ICMP) is over: no reply to the released flow finds a session. *)
Theorem nat_quarantine_respected (owner : nat) (ports : gset Z) (t : NatTable) (session_id : SessionId)
    (t0 : Z) (b : NatBinding) (events : list (Z * nat_op)) (r : FlowKey) :
  nat_inv owner ports t → nat_get t session_id = Some b →
  Forall (λ event, event.1 < t0 + reuse_quarantine (fk_protocol (nb_translated b))) events →
  is_reply (nb_translated b) r →
  nat_lookup_reverse (nat_run owner (nat_remove_at session_id t0 t).2 events) r = None.
Proof.
  intros Hinv Hb Hev Hr. unfold nat_lookup_reverse. rewrite (proj2 (return_key_reply _ _) Hr).
  eapply resting_run; [|done|].
  - by eapply nat_remove_inv; [|apply surjective_pairing].
  - unfold nat_remove_at. unfold nat_get in Hb. rewrite Hb. simpl. split; simpl; [by rewrite lookup_delete_eq|].
    eexists. by rewrite lookup_insert_eq.
Qed.

Lemma nat_quarantine_respected_witness :
  nat_lookup_reverse (nat_run 3 (nat_remove_at (mkSessionId 1) 7 sample_bound).2
    [(8, NatAllocate (mkSessionId 2) (sample_flow 1000)); (9, NatRemove (mkSessionId 2))])
    (mkFlowKey (V4 0xc6336414) (V4 0xc0000201) 443 40000 Tcp) = None.
Proof.
  apply (nat_quarantine_respected 3 (port_range 40000 40001) sample_bound (mkSessionId 1) 7
    (mkNatBinding (sample_flow 1000) (translate (sample_flow 1000) (V4 0xc0000201) 40000)));
    [exact sample_bound_inv|vm_compute; reflexivity|repeat constructor|vm_compute; tauto].
Defined.

Lemma directory_entry_kept (d d' : ReverseNatDirectory) (b : NatBinding) (l : SessionLocator)
    (ops : list directory_op) (r : FlowKey) :
  directory_publish b l d = (Ok tt, d') →
  Forall (λ op, ¬ retires (from_translated_flow (nb_translated b)) l op) ops →
  is_reply (nb_translated b) r →
  directory_lookup (directory_run d' ops) r = Some l.
Proof.
  intros Hpub Hops Hr. unfold directory_lookup. rewrite (proj2 (return_key_reply _ _) Hr).
  assert (entries d' !! from_translated_flow (nb_translated b) = Some l) as Hd.
  { unfold directory_publish in Hpub. destruct (entries d !! _) as [l'|] eqn:Hk; [case_decide|]; simplify_eq; [done|].
    simpl. by rewrite lookup_insert_eq. }
  clear Hpub. revert d' Hd. induction Hops as [|op ops Hop _ IH]; intros d' Hd; [done|].
  apply IH, directory_step_stable; done.
Qed.

(** The shared reverse directory under any interleaving of workers: a
    publication that succeeds answers every reply of its flow, and keeps
    answering until a retirement that names both its tuple and its locator;
    publications never overwrite and stale retirements never delete. *)
Theorem directory_entry_stable (d d' : ReverseNatDirectory) (b : NatBinding) (l : SessionLocator)
    (ops : list directory_op) (r : FlowKey) :
  directory_publish b l d = (Ok tt, d') →
  Forall (λ op, ¬ retires (from_translated_flow (nb_translated b)) l op) ops →
  is_reply (nb_translated b) r →
  directory_lookup (directory_run d' ops) r = Some l.
Proof. apply directory_entry_kept. Qed.

Lemma directory_entry_stable_witness :
  directory_lookup (directory_run (mkDirectory
     {[from_translated_flow (translate (sample_flow 1000) (V4 1) 40000) := own_locator 3 (mkSessionId 1)]})
     [Retire (mkNatBinding (sample_flow 1000) (translate (sample_flow 1000) (V4 1) 40000)) (own_locator 3 (mkSessionId 2))])
     (mkFlowKey (V4 0xc6336414) (V4 1) 443 40000 Tcp) = Some (own_locator 3 (mkSessionId 1)).
Proof.
  apply (directory_entry_stable (mkDirectory ∅) _
    (mkNatBinding (sample_flow 1000) (translate (sample_flow 1000) (V4 1) 40000)));
    [reflexivity| |vm_compute; tauto].
  repeat constructor. by intros [_ ?].
Defined.
