(* ===== verification/Session.v ===== *)
(** The session table of a flow worker ([src/src/flow_plane/session.rs]):
    sessions keyed by the original flow and the intercepting interface, their
    idle deadlines, their TCP state, and the worker's [NatTable].

    [now] is the instant the caller passes; [clock] stands for the separate
    [Instant::now()] that [NatTable::allocate] and [NatTable::remove] read.
    Where a [HashMap] or [HashSet] is iterated the order is that of the [gmap];
    the properties do not depend on it. *)
From S2P Require Import Prelude Net NatTable.

Definition TCP_IDLE_TIMEOUT : Z := from_secs 300.
Definition TCP_CLOSING_TIMEOUT : Z := from_secs 5.
Definition TCP_RST_TIMEOUT : Z := from_secs 2.
Definition UDP_IDLE_TIMEOUT : Z := from_secs 60.
Definition ICMP_IDLE_TIMEOUT : Z := from_secs 30.

Definition protocol_idle_timeout (protocol : TransportProtocol) : Z :=
  match protocol with
  | Tcp => TCP_IDLE_TIMEOUT
  | Udp => UDP_IDLE_TIMEOUT
  | Icmp | Icmpv6 => ICMP_IDLE_TIMEOUT
  end.

Inductive TcpSessionState : Type := Established | FinSeenForward | FinSeenReverse | Closing | Reset.
#[global] Instance TcpSessionState_eq_dec : EqDecision TcpSessionState.
Proof. solve_decision. Defined.

Record SessionKey : Type := mkSessionKey { sk_original : FlowKey; sk_intercept_ifindex : Z }.
#[global] Instance SessionKey_eq_dec : EqDecision SessionKey.
Proof. solve_decision. Defined.
#[global] Instance SessionKey_countable : Countable SessionKey.
Proof.
  refine (inj_countable' (λ k, (sk_original k, sk_intercept_ifindex k)) (λ '(o, i), mkSessionKey o i) _).
  by intros [].
Defined.

Record Session : Type := mkSession {
  s_id : SessionId;
  s_original : FlowKey;
  s_nat : NatBinding;
  s_flow_worker_id : nat;
  s_intercept_io : IoOwnerKey;
  s_quic_flow_id : QuicFlowId;
  s_expires_at : Z;
  s_tcp_state : option TcpSessionState;
}.
#[global] Instance Session_eq_dec : EqDecision Session.
Proof. solve_decision. Defined.

Inductive SessionError : Type :=
| WrongOwner (expected actual : nat)
| UnknownSession (session_id : SessionId)
| Nat (error : NatError).

Inductive InterceptIoUpdate : Type := Unchanged | Corrected | Mismatch.

Record SessionTable : Type := mkSessionTable {
  owner_worker_id : nat;
  next_session_id : Z;
  by_key : gmap SessionKey SessionId;
  sessions : gmap SessionId Session;
  deadlines : gmap Z (gset SessionId);
  nat_table : NatTable;
}.

Definition set_nat (n : NatTable) (t : SessionTable) : SessionTable :=
  mkSessionTable (owner_worker_id t) (next_session_id t) (by_key t) (sessions t) (deadlines t) n.
Definition set_sessions (m : gmap SessionId Session) (t : SessionTable) : SessionTable :=
  mkSessionTable (owner_worker_id t) (next_session_id t) (by_key t) m (deadlines t) (nat_table t).

Definition session_new_dual (owner : nat) (ipv4 ipv6 : option Z) (lo hi : Z)
    : outcome SessionError SessionTable :=
  let? n := map_err Nat (nat_new_dual ipv4 ipv6 lo hi) in
  Ok (mkSessionTable owner 1 ∅ ∅ ∅ n).

Definition session_new (owner : nat) (snat_ip : IpAddr) (lo hi : Z) : outcome SessionError SessionTable :=
  match snat_ip with
  | V4 address => session_new_dual owner (Some address) None lo hi
  | V6 address => session_new_dual owner None (Some address) lo hi
  end.

Definition ensure_owner (caller_worker_id : nat) (t : SessionTable) : outcome SessionError unit :=
  if decide (caller_worker_id ≠ owner_worker_id t)
  then Err (WrongOwner (owner_worker_id t) caller_worker_id) else Ok tt.

(** ** Deadlines

    [BTreeMap<Instant, HashSet<K>>]: the session table indexes [SessionId]s, the
    worker its DNS transactions. *)

Section deadlines.
Context {K : Type} `{Countable K}.

(** [deadlines.entry(d).or_default().insert(id)]. *)
Definition insert_deadline (d : Z) (id : K) (m : gmap Z (gset K)) : gmap Z (gset K) :=
  <[d := {[id]} ∪ default ∅ (m !! d)]> m.

Definition remove_deadline (d : Z) (id : K) (m : gmap Z (gset K)) : gmap Z (gset K) :=
  match m !! d with
  | None => m
  | Some ids =>
      let ids' := ids ∖ {[id]} in
      if decide (ids' = ∅) then delete d m else <[d := ids']> m
  end.

(** The loop that pops the due buckets, earliest first.  Each iteration removes
    a bucket, so [size m] iterations are enough. *)
Fixpoint pop_due {E : Type} (fuel : nat) (now : Z) (m : gmap Z (gset K)) (expired : list K)
    : outcome E (list K * gmap Z (gset K)) :=
  match ascending (dom m) with
  | [] => Ok (expired, m)
  | deadline :: _ =>
      if decide (now < deadline) then Ok (expired, m) else
      match fuel with
      | O => Panic
      | S fuel =>
          let? ids := expect (m !! deadline) in
          pop_due fuel now (delete deadline m) (expired ++ elements ids)
      end
  end.
End deadlines.

(** ** TCP state *)

(** The timeout of a packet without FIN or RST. *)
Definition tcp_state_timeout (state : option TcpSessionState) : Z :=
  match state with
  | Some Closing => TCP_CLOSING_TIMEOUT
  | Some Reset => TCP_RST_TIMEOUT
  | _ => TCP_IDLE_TIMEOUT
  end.

Definition tcp_fin_state (state : option TcpSessionState) (is_reverse : bool) : TcpSessionState :=
  match state, is_reverse with
  | Some FinSeenReverse, false => Closing
  | Some FinSeenForward, true => Closing
  | Some Closing, _ => Closing
  | Some Reset, _ => Reset
  | _, true => FinSeenReverse
  | _, false => FinSeenForward
  end.

(** The state and timeout [touch_tcp] assigns to a TCP session. *)
Definition tcp_touch (state : option TcpSessionState) (flags : option Z) (is_reverse : bool)
    : option TcpSessionState * Z :=
  match flags with
  | Some flags =>
      if decide (Z.land flags 0x04 ≠ 0) then (Some Reset, TCP_RST_TIMEOUT)
      else if decide (Z.land flags 0x01 ≠ 0) then
        let next_state := tcp_fin_state state is_reverse in
        (Some next_state,
         match next_state with Closing | Reset => TCP_CLOSING_TIMEOUT | _ => TCP_IDLE_TIMEOUT end)
      else (state, tcp_state_timeout state)
  | None => (state, tcp_state_timeout state)
  end.

(** The state and timeout of a new session. *)
Definition initial_state (protocol : TransportProtocol) (flags : option Z)
    : option TcpSessionState * Z :=
  match protocol with
  | Tcp =>
      (Some Established,
       match flags with
       | Some flags =>
           if decide (Z.land flags 0x04 ≠ 0) then TCP_RST_TIMEOUT
           else if decide (Z.land flags 0x01 ≠ 0) then TCP_CLOSING_TIMEOUT
           else TCP_IDLE_TIMEOUT
       | None => TCP_IDLE_TIMEOUT
       end)
  | p => (None, protocol_idle_timeout p)
  end.

Definition touched (session : Session) (flags : option Z) (is_reverse : bool) (now : Z) : Session :=
  let '(state, timeout) :=
    match fk_protocol (s_original session) with
    | Tcp => tcp_touch (s_tcp_state session) flags is_reverse
    | p => (s_tcp_state session, protocol_idle_timeout p)
    end in
  mkSession (s_id session) (s_original session) (s_nat session) (s_flow_worker_id session)
    (s_intercept_io session) (s_quic_flow_id session) (now + timeout) state.

(** ** Operations *)

Definition session_touch_tcp (caller_worker_id : nat) (session_id : SessionId) (flags : option Z)
    (is_reverse : bool) (now : Z) : ST SessionTable SessionError unit :=
  sreads (ensure_owner caller_worker_id) ;;;
  let! session := sreads (λ t, ok_or (sessions t !! session_id) (UnknownSession session_id)) in
  let session' := touched session flags is_reverse now in
  let! t := sget in
  sput (mkSessionTable (owner_worker_id t) (next_session_id t) (by_key t)
          (<[session_id := session']> (sessions t))
          (insert_deadline (s_expires_at session') session_id
             (remove_deadline (s_expires_at session) session_id (deadlines t)))
          (nat_table t)).

Definition session_touch (caller_worker_id : nat) (session_id : SessionId) (now : Z)
    : ST SessionTable SessionError unit :=
  session_touch_tcp caller_worker_id session_id None false now.

(** [NatTable::allocate] and [NatTable::remove] on the table's own NAT. *)
Definition on_nat {A : Type} (c : ST NatTable NatError A) : ST SessionTable SessionError A :=
  smap_err Nat (szoom nat_table set_nat c).

Definition get_or_create_with_flags_at (caller_worker_id : nat) (original : FlowKey)
    (intercept_io : IoOwnerKey) (quic_flow_id : QuicFlowId) (flags : option Z) (is_reverse : bool)
    (now clock : Z) : ST SessionTable SessionError SessionId :=
  sreads (ensure_owner caller_worker_id) ;;;
  let key := mkSessionKey original (ifindex intercept_io) in
  let! existing := sreads (λ t, Ok (by_key t !! key)) in
  match existing with
  | Some session_id =>
      session_touch_tcp caller_worker_id session_id flags is_reverse now ;;;
      sret session_id
  | None =>
      let! t := sget in
      let session_id := mkSessionId (next_session_id t) in
      let locator := mkSessionLocator (owner_worker_id t) session_id in
      let! nat := on_nat (nat_allocate_at session_id original locator clock) in
      let '(tcp_state, timeout) := initial_state (fk_protocol original) flags in
      let expires_at := now + timeout in
      let session := mkSession session_id original nat (owner_worker_id t) intercept_io quic_flow_id
                       expires_at tcp_state in
      let! t := sget in
      sput (mkSessionTable (owner_worker_id t) (wrap 64 (next_session_id t + 1))
              (<[key := session_id]> (by_key t))
              (<[session_id := session]> (sessions t))
              (insert_deadline expires_at session_id (deadlines t))
              (nat_table t)) ;;;
      sret session_id
  end.

Definition get_or_create_at (caller_worker_id : nat) (original : FlowKey) (intercept_io : IoOwnerKey)
    (quic_flow_id : QuicFlowId) (now clock : Z) : ST SessionTable SessionError SessionId :=
  get_or_create_with_flags_at caller_worker_id original intercept_io quic_flow_id None false now clock.

Definition session_get (t : SessionTable) (session_id : SessionId) : option Session :=
  sessions t !! session_id.

Definition correct_intercept_io (caller_worker_id : nat) (session_id : SessionId) (observed : IoOwnerKey)
    : ST SessionTable SessionError InterceptIoUpdate :=
  sreads (ensure_owner caller_worker_id) ;;;
  let! session := sreads (λ t, ok_or (sessions t !! session_id) (UnknownSession session_id)) in
  if decide (s_intercept_io session = observed) then sret Unchanged else
  if decide (ifindex (s_intercept_io session) = ifindex observed ∧ queue_id (s_intercept_io session) = 0) then
    let! t := sget in
    sput (set_sessions (<[session_id := mkSession (s_id session) (s_original session) (s_nat session)
            (s_flow_worker_id session) observed (s_quic_flow_id session) (s_expires_at session)
            (s_tcp_state session)]> (sessions t)) t) ;;;
    sret Corrected
  else sret Mismatch.

Definition lookup_reverse_locator (t : SessionTable) (return_flow : FlowKey) : option SessionLocator :=
  match nat_lookup_reverse (nat_table t) return_flow with
  | Some locator =>
      if decide (flow_worker_id locator = owner_worker_id t
                 ∧ is_Some (sessions t !! locator_session_id locator))
      then Some locator else None
  | None => None
  end.

Definition session_lookup_reverse (t : SessionTable) (return_flow : FlowKey) : option SessionId :=
  locator_session_id <$> lookup_reverse_locator t return_flow.

Definition session_remove (caller_worker_id : nat) (session_id : SessionId) (clock : Z)
    : ST SessionTable SessionError Session :=
  sreads (ensure_owner caller_worker_id) ;;;
  let! session := sreads (λ t, ok_or (sessions t !! session_id) (UnknownSession session_id)) in
  on_nat (nat_remove_at session_id clock) ;;;
  let! t := sget in
  sput (mkSessionTable (owner_worker_id t) (next_session_id t)
          (delete (mkSessionKey (s_original session) (ifindex (s_intercept_io session))) (by_key t))
          (delete session_id (sessions t))
          (remove_deadline (s_expires_at session) session_id (deadlines t))
          (nat_table t)) ;;;
  sret session.

(** [iter.map(f).collect::<Result<Vec<_>, _>>()]: stops at the first error. *)
Fixpoint collect_results {S E A B : Type} (f : A → ST S E B) (l : list A) : ST S E (list B) :=
  match l with
  | [] => sret []
  | a :: l =>
      let! b := f a in
      let! bs := collect_results f l in
      sret (b :: bs)
  end.

(** [sessions.get(id).is_some_and(|session| session.expires_at <= now)]. *)
Definition session_due (m : gmap SessionId Session) (now : Z) (session_id : SessionId) : Prop :=
  match m !! session_id with Some session => s_expires_at session ≤ now | None => False end.
#[global] Instance session_due_dec m now session_id : Decision (session_due m now session_id).
Proof. unfold session_due. destruct (m !! session_id); apply _. Defined.

Definition expire_idle (caller_worker_id : nat) (now : Z) (clock : SessionId → Z)
    : ST SessionTable SessionError (list Session) :=
  sreads (ensure_owner caller_worker_id) ;;;
  let! t := sget in
  let! popped := slift (pop_due (size (deadlines t)) now (deadlines t) []) in
  sput (mkSessionTable (owner_worker_id t) (next_session_id t) (by_key t) (sessions t) popped.2
          (nat_table t)) ;;;
  let expired := filter (session_due (sessions t) now) popped.1 in
  collect_results (λ session_id, session_remove caller_worker_id session_id (clock session_id)) expired.

Definition allocate_ephemeral_nat (caller_worker_id : nat) (token : SessionId) (original : FlowKey)
    (clock : Z) : ST SessionTable SessionError NatBinding :=
  sreads (ensure_owner caller_worker_id) ;;;
  let! t := sget in
  on_nat (nat_allocate_at token original (mkSessionLocator (owner_worker_id t) token) clock).

Definition release_ephemeral_nat (caller_worker_id : nat) (token : SessionId) (clock : Z)
    : ST SessionTable SessionError NatBinding :=
  sreads (ensure_owner caller_worker_id) ;;;
  on_nat (nat_remove_at token clock).

Definition rebound (old new : QuicFlowId) (session : Session) : Session :=
  if decide (s_quic_flow_id session = old) then
    mkSession (s_id session) (s_original session) (s_nat session) (s_flow_worker_id session)
      (s_intercept_io session) new (s_expires_at session) (s_tcp_state session)
  else session.

Definition rebind_quic_flow (caller_worker_id : nat) (old new : QuicFlowId)
    : ST SessionTable SessionError nat :=
  sreads (ensure_owner caller_worker_id) ;;;
  let! t := sget in
  sput (set_sessions (rebound old new <$> sessions t) t) ;;;
  sret (size (filter (λ kv, s_quic_flow_id kv.2 = old) (sessions t))).

Definition remove_by_quic_flow (caller_worker_id : nat) (quic_flow_id : QuicFlowId)
    (clock : SessionId → Z) : ST SessionTable SessionError nat :=
  sreads (ensure_owner caller_worker_id) ;;;
  let! t := sget in
  let session_ids := (λ kv, s_id kv.2) <$>
    filter (λ kv, s_quic_flow_id kv.2 = quic_flow_id) (map_to_list (sessions t)) in
  collect_results (λ session_id, session_remove caller_worker_id session_id (clock session_id)) session_ids ;;;
  sret (length session_ids).
