(* ===== verification/SessionProps.v ===== *)
(** The invariant of [SessionTable] and its preservation by every operation. *)
From S2P Require Import Prelude Net NatTable NatProps Session.

(** ** The deadline index *)

Section deadlines.
Context {K : Type} `{Countable K}.
Implicit Types (m : gmap Z (gset K)) (id : K).

Definition dl_mem (m : gmap Z (gset K)) (d : Z) (id : K) : Prop :=
  ∃ ids, m !! d = Some ids ∧ id ∈ ids.
Definition dl_nonempty (m : gmap Z (gset K)) : Prop := ∀ d ids, m !! d = Some ids → ids ≠ ∅.

Lemma dl_mem_insert m d id d' id' :
  dl_mem (insert_deadline d id m) d' id' ↔ (d' = d ∧ id' = id) ∨ dl_mem m d' id'.
Proof.
  unfold dl_mem, insert_deadline. destruct (decide (d' = d)) as [->|Hd].
  - rewrite lookup_insert_eq. split.
    + intros (ids & [= <-] & [->%elem_of_singleton|Hid]%elem_of_union); [by left|].
      destruct (m !! d) as [ids|]; simpl in Hid; [right; by exists ids|set_solver].
    + intros Hid. eexists. split; [done|]. destruct Hid as [[_ ->]|(ids & -> & Hid)]; set_solver.
  - rewrite lookup_insert_ne by done. naive_solver.
Qed.

Lemma dl_mem_remove m d id d' id' :
  dl_mem (remove_deadline d id m) d' id' ↔ dl_mem m d' id' ∧ ¬ (d' = d ∧ id' = id).
Proof.
  unfold dl_mem, remove_deadline. destruct (m !! d) as [ids|] eqn:E; [|naive_solver].
  destruct (decide (d' = d)) as [->|Hd].
  - rewrite E. case_decide as He; [rewrite lookup_delete_eq|rewrite lookup_insert_eq]; split.
    + by intros (? & ? & _).
    + intros [(ids' & [= <-] & Hid) Hn]. assert (id' ≠ id) by naive_solver. set_solver.
    + intros (ids' & [= <-] & [? ?]%elem_of_difference). split; [by exists ids|set_solver].
    + intros [(ids' & [= <-] & Hid) Hn]. eexists. split; [done|]. assert (id' ≠ id) by naive_solver. set_solver.
  - case_decide as He; [rewrite lookup_delete_ne by done|rewrite lookup_insert_ne by done]; naive_solver.
Qed.

Lemma dl_nonempty_insert m d id : dl_nonempty m → dl_nonempty (insert_deadline d id m).
Proof.
  intros Hm d' ids. unfold insert_deadline. intros [[<- <-]|[? ?]]%lookup_insert_Some; [set_solver|eauto].
Qed.

Lemma dl_nonempty_remove m d id : dl_nonempty m → dl_nonempty (remove_deadline d id m).
Proof.
  intros Hm d' ids. unfold remove_deadline. destruct (m !! d) as [i|] eqn:E; [|apply Hm].
  case_decide as He; [intros [_ ?]%lookup_delete_Some; eauto|].
  intros [[<- <-]|[? ?]]%lookup_insert_Some; eauto.
Qed.

(** The due buckets are exactly those the loop removes, whatever the fuel above
    their number. *)
Lemma pop_due_spec {E} now fuel m acc : (size m ≤ fuel)%nat →
  ∃ l, pop_due (E := E) fuel now m acc = Ok (acc ++ l, filter (λ kv, now < kv.1) m)
    ∧ (∀ id, id ∈ l ↔ ∃ d, d ≤ now ∧ dl_mem m d id)
    ∧ ((∀ d d' id, dl_mem m d id → dl_mem m d' id → d = d') → NoDup l).
Proof.
  revert m acc. induction fuel as [|fuel IH]; intros m acc Hsize; simpl;
    destruct (ascending (dom m)) as [|d rest] eqn:Ha.
  1, 3: exists []; rewrite app_nil_r;
    assert (m = ∅) as -> by (apply map_eq; intros i; rewrite lookup_empty; apply not_elem_of_dom;
      rewrite <- elem_of_ascending, Ha; apply not_elem_of_nil);
    rewrite map_filter_empty; split_and!; [done| |constructor]; intros id; split; [by intros ?%not_elem_of_nil|];
    intros (d & _ & ids & Hd & _); by rewrite lookup_empty in Hd.
  { assert (d ∈ dom m) as Hd by (rewrite <- elem_of_ascending, Ha; apply list_elem_of_here).
    apply elem_of_dom in Hd as [x Hd]. assert (m = ∅) as -> by (apply map_size_empty_inv; lia). by rewrite lookup_empty in Hd. }
  assert (d ∈ dom m) as Hd by (rewrite <- elem_of_ascending, Ha; apply list_elem_of_here).
  apply elem_of_dom in Hd as [ids Hd].
  assert (∀ d' i', m !! d' = Some i' → d ≤ d') as Hleast.
  { intros d' i' Hd'. pose proof (ascending_sorted (dom m)) as Hs. rewrite Ha in Hs.
    apply StronglySorted_inv in Hs as [_ Hs]. rewrite Forall_forall in Hs.
    assert (d' ∈ d :: rest) as [-> |Hin]%elem_of_cons; [|lia|by apply Hs].
    rewrite <- Ha. apply elem_of_ascending, elem_of_dom. eauto. }
  destruct (decide (now < d)) as [Hlt|Hge].
  - exists []. rewrite app_nil_r. split_and!; [|intros id; split; [by intros ?%not_elem_of_nil|]|constructor].
    + do 2 f_equal. symmetry. apply map_filter_id. intros i x Hi. specialize (Hleast i x Hi). simpl. lia.
    + intros (d' & Hd' & i' & Hi' & _). specialize (Hleast d' i' Hi'). lia.
  - rewrite Hd. simpl. destruct (IH (delete d m) (acc ++ elements ids)) as (l & -> & Hl & Hnd).
    { rewrite map_size_delete_Some by (by eexists). lia. }
    assert (∀ d' id, dl_mem (delete d m) d' id ↔ d' ≠ d ∧ dl_mem m d' id) as Hdel.
    { intros d' id. unfold dl_mem. setoid_rewrite lookup_delete_Some. naive_solver. }
    exists (elements ids ++ l). rewrite app_assoc. split_and!.
    + do 2 f_equal. apply map_eq. intros i. apply option_eq. intros x.
      rewrite !map_lookup_filter_Some, lookup_delete_Some. simpl. split; [naive_solver|].
      intros [? ?]. split_and!; [lia|done|done].
    + intros id. rewrite elem_of_app, elem_of_elements, Hl. setoid_rewrite Hdel. split.
      * intros [Hid|(d' & ? & _ & ?)]; [|by exists d']. exists d. split; [lia|]. by exists ids.
      * intros (d' & ? & Hm). destruct (decide (d' = d)) as [->|]; [left|right; by exists d'].
        destruct Hm as (i & Hi & ?). by simplify_eq.
    + intros Hone. apply NoDup_app. split_and!; [apply NoDup_elements| |].
      * intros id Hid%elem_of_elements Hid'. apply Hl in Hid' as (d' & _ & [Hne Hm]%Hdel).
        destruct Hne. apply (Hone d' d id Hm). by exists ids.
      * apply Hnd. intros d1 d2 id [_ H1]%Hdel [_ H2]%Hdel. eauto.
Qed.
End deadlines.

(** ** The invariant *)

Definition session_key (s : Session) : SessionKey :=
  mkSessionKey (s_original s) (ifindex (s_intercept_io s)).

(** What a single session of worker [owner] looks like. *)
Record session_ok (owner : nat) (next : Z) (id : SessionId) (s : Session) : Prop := {
  so_id : s_id s = id;
  so_owner : s_flow_worker_id s = owner;
  so_range : 1 ≤ session_raw id < next;
  so_tcp : is_Some (s_tcp_state s) ↔ fk_protocol (s_original s) = Tcp;
  so_original : nb_original (s_nat s) = s_original s;
}.

(** The consistency of the table; the sessions of [X] are out of the deadline
    index, which happens only inside [expire_idle]. *)
Record session_inv_but (X : gset SessionId) (ports : gset Z) (t : SessionTable) : Prop := {
  si_nat : nat_inv (owner_worker_id t) ports (nat_table t);
  si_next : 1 ≤ next_session_id t ≤ 2 ^ 63;
  si_session : ∀ id s, sessions t !! id = Some s → session_ok (owner_worker_id t) (next_session_id t) id s;
  si_key : ∀ k id, by_key t !! k = Some id ↔ ∃ s, sessions t !! id = Some s ∧ session_key s = k;
  si_deadline : ∀ d id, dl_mem (deadlines t) d id ↔
    ∃ s, sessions t !! id = Some s ∧ s_expires_at s = d ∧ id ∉ X;
  si_bucket : dl_nonempty (deadlines t);
  si_binding : ∀ id s, sessions t !! id = Some s → forward (nat_table t) !! id = Some (s_nat s);
  si_forward : ∀ id b, forward (nat_table t) !! id = Some b →
    is_Some (sessions t !! id) ∨ 2 ^ 63 ≤ session_raw id;
}.
Abbreviation session_inv := (session_inv_but ∅).

Lemma session_new_dual_inv owner ipv4 ipv6 lo hi t : snat_config_ok ipv4 ipv6 lo hi →
  session_new_dual owner ipv4 ipv6 lo hi = Ok t → session_inv (port_range lo hi) t ∧ owner_worker_id t = owner.
Proof.
  intros Hcfg. unfold session_new_dual. destruct (nat_new_dual ipv4 ipv6 lo hi) as [n| |] eqn:Hn; [|done..].
  simpl. intros [= <-]. split; [|done]. pose proof Hn as Hinv. eapply (nat_new_dual_inv owner) in Hinv; [|done|done].
  unfold nat_new_dual in Hn. case_decide; [done|]. injection Hn as <-. split; simpl; try done.
  - intros k id. split; [done|by intros (? & ? & _)].
  - intros d id. split; [by intros (? & ? & _)|by intros (? & ? & _)].
Qed.

Lemma ensure_owner_ok t : ensure_owner (owner_worker_id t) t = Ok tt.
Proof. unfold ensure_owner. by rewrite decide_False by tauto. Qed.

(** ** Removal *)

Definition removed (id : SessionId) (s : Session) (clock : Z) (t : SessionTable) : SessionTable :=
  mkSessionTable (owner_worker_id t) (next_session_id t) (delete (session_key s) (by_key t))
    (delete id (sessions t)) (remove_deadline (s_expires_at s) id (deadlines t))
    (nat_remove_at id clock (nat_table t)).2.

Lemma session_remove_run X ports t id s clock : session_inv_but X ports t → sessions t !! id = Some s →
  session_remove (owner_worker_id t) id clock t = (Ok s, removed id s clock t).
Proof.
  intros Hinv Hs. pose proof (si_binding _ _ _ Hinv _ _ Hs) as Hb.
  unfold session_remove, sbind, sreads, sget, sput, sret, on_nat, smap_err, szoom.
  rewrite ensure_owner_ok, Hs. simpl. unfold removed, nat_remove_at. rewrite Hb. done.
Qed.

Lemma session_key_inj X ports t id id' s s' : session_inv_but X ports t →
  sessions t !! id = Some s → sessions t !! id' = Some s' → session_key s = session_key s' → id = id'.
Proof.
  intros Hinv Hs Hs' Hk. assert (by_key t !! session_key s = Some id) as H1 by (apply (si_key _ _ _ Hinv); eauto).
  assert (by_key t !! session_key s = Some id') as H2 by (apply (si_key _ _ _ Hinv); eauto). congruence.
Qed.

Lemma removed_inv X ports t id s clock : session_inv_but X ports t → sessions t !! id = Some s →
  session_inv_but (X ∖ {[id]}) ports (removed id s clock t).
Proof.
  intros Hinv Hs. pose proof Hinv as [Hn Hx Hso Hk Hd Hb Hbi Hf].
  pose proof (Hbi _ _ Hs) as Hbind. split; simpl; try done.
  - by eapply nat_remove_inv; [|apply surjective_pairing].
  - intros id' s' [_ Hs']%lookup_delete_Some. auto.
  - intros k id'. rewrite lookup_delete_Some, Hk. split.
    + intros (Hne & s' & Hs' & <-). exists s'. rewrite lookup_delete_ne; [done|]. intros ->. by simplify_eq.
    + intros (s' & [Hne Hs']%lookup_delete_Some & <-). split; [|by exists s'].
      intros Heq. destruct Hne. by eapply session_key_inj.
  - intros d id'. rewrite dl_mem_remove, Hd. split.
    + intros [(s' & Hs' & <- & HX) Hn']. exists s'.
      assert (id' ≠ id) by (intros ->; simplify_eq; naive_solver). rewrite lookup_delete_ne by done. set_solver.
    + intros (s' & [Hne Hs']%lookup_delete_Some & <- & HX). split; [|naive_solver]. exists s'. set_solver.
  - by apply dl_nonempty_remove.
  - unfold nat_remove_at. rewrite Hbind. simpl. intros id' s' [Hne Hs']%lookup_delete_Some.
    rewrite lookup_delete_ne by done. auto.
  - unfold nat_remove_at. rewrite Hbind. simpl. intros id' b [Hne Hb']%lookup_delete_Some.
    rewrite lookup_delete_ne by done. eauto.
Qed.

(** Removing a list of distinct live sessions. *)
Lemma remove_all_run ports clock : ∀ l X t, session_inv_but X ports t → NoDup l →
  (∀ id, id ∈ l → is_Some (sessions t !! id)) →
  ∃ ss t', collect_results (λ id, session_remove (owner_worker_id t) id (clock id)) l t = (Ok ss, t')
    ∧ session_inv_but (X ∖ list_to_set l) ports t' ∧ owner_worker_id t' = owner_worker_id t
    ∧ next_session_id t' = next_session_id t
    ∧ (λ id, sessions t !! id) <$> l = Some <$> ss
    ∧ (∀ id, sessions t' !! id = if decide (id ∈ l) then None else sessions t !! id).
Proof.
  induction l as [|id l IH]; intros X t Hinv Hnd Hl.
  - exists [], t. split_and!; try done. simpl. by rewrite difference_empty_L.
  - apply NoDup_cons in Hnd as [Hid Hnd]. destruct (Hl id) as [s Hs]; [apply list_elem_of_here|].
    pose proof (session_remove_run X ports t id s (clock id) Hinv Hs) as Hrun.
    pose proof (removed_inv X ports t id s (clock id) Hinv Hs) as Hinv'.
    destruct (IH _ (removed id s (clock id) t) Hinv' Hnd) as (ss & t' & Hrest & Ht' & Ho & Hnx & Hss & Hsess).
    { intros id' Hid'. simpl. rewrite lookup_delete_ne by (by intros ->). apply Hl. by apply list_elem_of_further. }
    exists (s :: ss), t'. simpl collect_results. unfold sbind at 1. rewrite Hrun.
    change (owner_worker_id (removed id s (clock id) t)) with (owner_worker_id t) in Hrest, Ho.
    unfold sbind at 1. rewrite Hrest. split_and!; [done| |done|done| |].
    + simpl list_to_set. replace (X ∖ ({[id]} ∪ list_to_set l)) with (X ∖ {[id]} ∖ list_to_set l) by set_solver. done.
    + rewrite !fmap_cons, Hs. f_equal. rewrite <- Hss. apply list_fmap_ext. intros i id' Hi. simpl.
      rewrite lookup_delete_ne; [done|]. intros ->. destruct Hid. by eapply list_elem_of_lookup_2.
    + intros id'. rewrite Hsess. simpl. destruct (decide (id' ∈ l)) as [Hin|Hin].
      * rewrite decide_True; [done|]. by apply list_elem_of_further.
      * destruct (decide (id' = id)) as [->|Hne].
        -- rewrite decide_True by apply list_elem_of_here. by rewrite lookup_delete_eq.
        -- rewrite decide_False by (rewrite elem_of_cons; tauto). by rewrite lookup_delete_ne.
Qed.

(** ** Expiry *)

(** Once the due buckets are out of the index, their sessions are the pending
    ones. *)
Lemma popped_inv ports t now l : session_inv ports t →
  (∀ id, id ∈ l ↔ ∃ s, sessions t !! id = Some s ∧ s_expires_at s ≤ now) →
  session_inv_but (list_to_set l) ports
    (mkSessionTable (owner_worker_id t) (next_session_id t) (by_key t) (sessions t)
      (filter (λ kv, now < kv.1) (deadlines t)) (nat_table t)).
Proof.
  intros [Hn Hx Hso Hk Hd Hb Hbi Hf] Hin. split; simpl; try done.
  - intros d id. unfold dl_mem. setoid_rewrite map_lookup_filter_Some. simpl. split.
    + intros (ids & [Hids Hlt] & Hid). destruct (proj1 (Hd d id)) as (s & Hs & <- & _); [by exists ids|].
      exists s. split_and!; [done..|]. rewrite elem_of_list_to_set, Hin. intros (s' & ? & ?). simplify_eq. lia.
    + intros (s & Hs & <- & Hni). rewrite elem_of_list_to_set, Hin in Hni.
      destruct (proj2 (Hd (s_expires_at s) id)) as (ids & Hids & Hid); [by exists s; split_and!; [..|set_solver]|].
      exists ids. split_and!; [done| |done]. apply dec_stable. intros ?. destruct Hni. exists s. split; [done|lia].
  - intros d ids [Hids _]%map_lookup_filter_Some. eauto.
Qed.

Lemma expire_idle_run ports t now clock : session_inv ports t →
  ∃ ss t', expire_idle (owner_worker_id t) now clock t = (Ok ss, t')
    ∧ session_inv ports t' ∧ owner_worker_id t' = owner_worker_id t
    ∧ next_session_id t' = next_session_id t
    ∧ sessions t' = filter (λ kv, now < s_expires_at kv.2) (sessions t)
    ∧ (∀ s, s ∈ ss ↔ ∃ id, sessions t !! id = Some s ∧ s_expires_at s ≤ now)
    ∧ NoDup ss.
Proof.
  intros Hinv. pose proof Hinv as [Hn Hx Hso Hk Hd Hb Hbi Hf].
  destruct (pop_due_spec (E := SessionError) now (size (deadlines t)) (deadlines t) []) as (l & Hpop & Hl & Hnd); [done|].
  specialize (Hnd ltac:(intros d d' id (s & Hs & <- & _)%Hd (s' & Hs' & <- & _)%Hd; by simplify_eq)).
  assert (∀ id, id ∈ l ↔ ∃ s, sessions t !! id = Some s ∧ s_expires_at s ≤ now) as Hin.
  { intros id. rewrite Hl. setoid_rewrite Hd. split.
    - intros (d & ? & s & ? & <- & _). by exists s.
    - intros (s & ? & ?). exists (s_expires_at s). split; [done|]. by exists s; split_and!; [..|set_solver]. }
  pose proof (popped_inv ports t now l Hinv Hin) as Hinv1.
  assert (filter (session_due (sessions t) now) l = l) as Hfl.
  { apply list_filter_all. intros id (s & Hs & Hle)%Hin. unfold session_due. by rewrite Hs. }
  destruct (remove_all_run ports clock l _ _ Hinv1 Hnd) as (ss & t' & Hrun & Hinv' & Ho & Hnx & Hss & Hsess).
  { intros id (s & Hs & _)%Hin. by exists s. }
  assert (∀ s, s ∈ ss ↔ ∃ id, sessions t !! id = Some s ∧ s_expires_at s ≤ now) as Hmem.
  { intros s. rewrite <- (list_elem_of_fmap_inj Some), <- Hss, list_elem_of_fmap. simpl. split.
    - intros (id & Hs & (s' & Hs' & Hle)%Hin). exists id. rewrite Hs' in Hs. injection Hs as ->. done.
    - intros (id & Hs & Hle). exists id. split; [done|]. apply Hin. by exists s. }
  exists ss, t'. split_and!.
  - unfold expire_idle, sbind, sreads, sget, sput, slift. rewrite ensure_owner_ok, Hpop. simpl. by rewrite Hfl.
  - by replace ∅ with (list_to_set (C := gset SessionId) l ∖ list_to_set l) by set_solver.
  - done.
  - done.
  - apply map_eq. intros id. apply option_eq. intros s. rewrite Hsess, map_lookup_filter_Some. simpl.
    case_decide as Hid.
    + split; [done|]. intros [Hs Hlt]. apply Hin in Hid as (s' & ? & ?). simplify_eq. lia.
    + split; [|by intros [? _]]. intros Hs. split; [done|]. apply dec_stable. intros ?.
      destruct Hid. apply Hin. exists s. split; [done|lia].
  - done.
  - apply (NoDup_fmap_1 Some). rewrite <- Hss. apply NoDup_fmap_2_strong; [|done].
    intros id1 id2 (s1 & H1 & _)%Hin (s2 & H2 & _)%Hin. simpl. rewrite H1, H2. intros [= ->].
    rewrite <- (so_id _ _ _ _ (Hso _ _ H1)), <- (so_id _ _ _ _ (Hso _ _ H2)). done.
Qed.

(** ** Updates of one session *)

Lemma update_inv ports t id s s' dl : session_inv ports t → sessions t !! id = Some s →
  session_ok (owner_worker_id t) (next_session_id t) id s' → session_key s' = session_key s →
  s_nat s' = s_nat s → dl_nonempty dl →
  (∀ d id', dl_mem dl d id' ↔ (id' = id ∧ d = s_expires_at s') ∨ (id' ≠ id ∧ dl_mem (deadlines t) d id')) →
  session_inv ports (mkSessionTable (owner_worker_id t) (next_session_id t) (by_key t)
    (<[id := s']> (sessions t)) dl (nat_table t)).
Proof.
  intros [Hn Hx Hso Hk Hd Hb Hbi Hf] Hs Hok Hkey Hnat Hdl Hmem. split; simpl; try done.
  - intros id' x [[<- <-]|[? ?]]%lookup_insert_Some; auto.
  - intros k id'. rewrite Hk. split.
    + intros (x & Hx' & <-). destruct (decide (id' = id)) as [->|].
      * exists s'. rewrite lookup_insert_eq. split; [done|]. rewrite Hs in Hx'. by injection Hx' as <-.
      * exists x. by rewrite lookup_insert_ne.
    + intros (x & [[<- <-]|[? ?]]%lookup_insert_Some & <-); [by exists s|by exists x].
  - intros d id'. rewrite Hmem, Hd. destruct (decide (id' = id)) as [->|].
    + rewrite lookup_insert_eq. split.
      * intros [[_ ->]|[? _]]; [exists s'; set_solver|done].
      * intros (x & [= <-] & <- & _). by left.
    + rewrite lookup_insert_ne by done. naive_solver.
  - intros id' x [[<- <-]|[? ?]]%lookup_insert_Some; [rewrite Hnat|]; auto.
  - intros id' b [?|?]%Hf; [left|by right]. destruct (decide (id' = id)) as [->|].
    + by rewrite lookup_insert_eq.
    + by rewrite lookup_insert_ne.
Qed.

Lemma touched_fields s flags rev now : let s' := touched s flags rev now in
  s_id s' = s_id s ∧ s_original s' = s_original s ∧ s_nat s' = s_nat s
  ∧ s_flow_worker_id s' = s_flow_worker_id s ∧ s_intercept_io s' = s_intercept_io s
  ∧ s_quic_flow_id s' = s_quic_flow_id s.
Proof.
  unfold touched. destruct (match fk_protocol _ with Tcp => _ | _ => _ end). done.
Qed.

Lemma tcp_touch_some st flags rev : is_Some st → is_Some (tcp_touch st flags rev).1.
Proof. intros. unfold tcp_touch. destruct flags; [|done]. repeat case_decide; done. Qed.

Lemma touched_ok owner next id s flags rev now : session_ok owner next id s →
  session_ok owner next id (touched s flags rev now).
Proof.
  intros [Hi Ho Hr Ht Hor]. destruct (touched_fields s flags rev now) as (H1 & H2 & H3 & H4 & _ & _).
  split; [by rewrite H1|by rewrite H4|done| |by rewrite H3, H2].
  rewrite H2. rewrite <- Ht. unfold touched.
  destruct (fk_protocol (s_original s)) eqn:Hp; simpl; try done.
  destruct (tcp_touch (s_tcp_state s) flags rev) as [st n] eqn:E. simpl.
  pose proof (tcp_touch_some (s_tcp_state s) flags rev) as Hsome. rewrite E in Hsome. naive_solver.
Qed.

Lemma touch_tcp_run ports t id s flags rev now : session_inv ports t → sessions t !! id = Some s →
  ∃ t', session_touch_tcp (owner_worker_id t) id flags rev now t = (Ok tt, t')
    ∧ session_inv ports t' ∧ owner_worker_id t' = owner_worker_id t ∧ nat_table t' = nat_table t
    ∧ next_session_id t' = next_session_id t
    ∧ by_key t' = by_key t ∧ sessions t' = <[id := touched s flags rev now]> (sessions t).
Proof.
  intros Hinv Hs. unfold session_touch_tcp, sbind, sreads, sget, sput. rewrite ensure_owner_ok, Hs. simpl.
  eexists. split; [done|]. split_and!; try done. pose proof Hinv as [_ _ Hso _ Hd Hb _ _].
  destruct (touched_fields s flags rev now) as (_ & H2 & H3 & _ & H5 & _).
  eapply update_inv; [done|done|by apply touched_ok, Hso|by unfold session_key; rewrite H2, H5|done| |].
  - by apply dl_nonempty_insert, dl_nonempty_remove.
  - intros d id'. rewrite dl_mem_insert, dl_mem_remove, Hd. split.
    + intros [[-> ->]|[(x & ? & <- & ?) Hn]]; [by left|]. right. split; [|by exists x].
      intros ->. simplify_eq. naive_solver.
    + intros [[-> ->]|[Hne Hx]]; [by left|]. right. split; [done|]. naive_solver.
Qed.

Lemma correct_intercept_io_inv ports t id observed r t' : session_inv ports t →
  correct_intercept_io (owner_worker_id t) id observed t = (r, t') →
  session_inv ports t' ∧ owner_worker_id t' = owner_worker_id t ∧ next_session_id t' = next_session_id t.
Proof.
  intros Hinv. unfold correct_intercept_io, sbind, sreads, sget, sput, sret. rewrite ensure_owner_ok.
  destruct (sessions t !! id) as [s|] eqn:Hs; simpl; [|by intros [= <- <-]].
  case_decide; [by intros [= <- <-]|]. case_decide as Hio; [|by intros [= <- <-]]. intros [= <- <-].
  split; [|done]. pose proof Hinv as [_ _ Hso _ Hd Hb _ _]. destruct (Hso _ _ Hs) as [H1 H2 H3 H4 H5].
  eapply update_inv; [done|done|by split| |done|done|].
  - unfold session_key. simpl. by destruct Hio as [-> _].
  - intros d id'. simpl. rewrite Hd. destruct (decide (id' = id)) as [->|]; set_solver.
Qed.

(** ** Creation *)

Lemma next_id_fresh ports t : session_inv ports t → next_session_id t < 2 ^ 63 →
  sessions t !! mkSessionId (next_session_id t) = None
  ∧ forward (nat_table t) !! mkSessionId (next_session_id t) = None.
Proof.
  intros [_ _ Hso _ _ _ _ Hf] Hlt.
  assert (sessions t !! mkSessionId (next_session_id t) = None) as Hnone.
  { apply eq_None_not_Some. intros [s Hs%Hso]. destruct (so_range _ _ _ _ Hs). simpl in *. lia. }
  split; [done|]. apply eq_None_not_Some. intros [b [Hs|Hs]%Hf]; [by rewrite Hnone in Hs|simpl in Hs; lia].
Qed.

(** The session a first packet creates. *)
Definition fresh_session (t : SessionTable) (original : FlowKey) (io : IoOwnerKey) (flow : QuicFlowId)
    (flags : option Z) (now : Z) (b : NatBinding) : Session :=
  mkSession (mkSessionId (next_session_id t)) original b (owner_worker_id t) io flow
    (now + (initial_state (fk_protocol original) flags).2) (initial_state (fk_protocol original) flags).1.

Lemma create_inv ports t original io flow flags now b n' :
  session_inv ports t → next_session_id t < 2 ^ 63 → by_key t !! mkSessionKey original (ifindex io) = None →
  nat_inv (owner_worker_id t) ports n' → nb_original b = original →
  forward n' = <[mkSessionId (next_session_id t) := b]> (forward (nat_table t)) →
  let s := fresh_session t original io flow flags now b in
  session_inv ports (mkSessionTable (owner_worker_id t) (wrap 64 (next_session_id t + 1))
    (<[session_key s := s_id s]> (by_key t)) (<[s_id s := s]> (sessions t))
    (insert_deadline (s_expires_at s) (s_id s) (deadlines t)) n').
Proof.
  intros Hinv Hlt Hk0 Hn' Hb Hfw s. destruct (next_id_fresh _ _ Hinv Hlt) as [Hfresh _].
  destruct Hinv as [Hn Hx Hso Hk Hd Hbk Hbi Hf]. change (s_id s) with (mkSessionId (next_session_id t)).
  set (id := mkSessionId (next_session_id t)) in *.
  assert (wrap 64 (next_session_id t + 1) = next_session_id t + 1) as Hw.
  { unfold wrap. apply Z.mod_small. lia. }
  split; simpl; rewrite ?Hw; try done.
  - lia.
  - intros id' x [[<- <-]|[? Hx']]%lookup_insert_Some.
    + split; simpl; try done; [lia|]. destruct original as [? ? ? ? []]; simpl; split; done.
    + destruct (Hso _ _ Hx') as [? ? ? ? ?]. split; try done. lia.
  - intros k id'. rewrite lookup_insert_Some, Hk. split.
    + intros [[<- <-]|[Hne (x & Hx' & <-)]]; [exists s; by rewrite lookup_insert_eq|].
      exists x. rewrite lookup_insert_ne; [done|]. intros <-. by rewrite Hfresh in Hx'.
    + intros (x & [[<- <-]|[? Hx']]%lookup_insert_Some & <-); [by left|]. right. split; [|by exists x].
      intros Heq. assert (by_key t !! session_key x = Some id') as Hbk' by (apply Hk; by exists x).
      rewrite <- Heq in Hbk'. unfold session_key in Hbk'. simpl in Hbk'. by rewrite Hk0 in Hbk'.
  - intros d id'. rewrite dl_mem_insert, Hd. setoid_rewrite lookup_insert_Some. split.
    + intros [[-> ->]|(x & ? & <- & ?)]; [exists s; set_solver|]. exists x. split; [|done]. right. split; [|done].
      intros <-. congruence.
    + intros (x & [[<- <-]|[? ?]] & <- & ?); [by left|]. right. by exists x.
  - by apply dl_nonempty_insert.
  - rewrite Hfw. intros id' x [[<- <-]|[? Hx']]%lookup_insert_Some; [by rewrite lookup_insert_eq|].
    rewrite lookup_insert_ne by done. auto.
  - rewrite Hfw. intros id' x [[<- <-]|[? Hx']]%lookup_insert_Some; [left; by rewrite lookup_insert_eq|].
    rewrite lookup_insert_ne by done. eauto.
Qed.

Lemma set_nat_inv ports t n' : session_inv ports t → nat_inv (owner_worker_id t) ports n' →
  forward n' = forward (nat_table t) → session_inv ports (set_nat n' t).
Proof. intros [Hn Hx Hso Hk Hd Hb Hbi Hf] Hn' Heq. split; simpl; rewrite ?Heq; done. Qed.

Lemma create_run ports t original io flow flags rev now clock : session_inv ports t →
  next_session_id t < 2 ^ 63 → by_key t !! mkSessionKey original (ifindex io) = None →
  ∃ r t', get_or_create_with_flags_at (owner_worker_id t) original io flow flags rev now clock t = (r, t')
    ∧ session_inv ports t' ∧ owner_worker_id t' = owner_worker_id t ∧
  ((r = Err (Nat AddressFamilyMismatch) ∧ snat_for (nat_table t) original = None ∧ t' = t)
   ∨ ∃ snat, snat_for (nat_table t) original = Some snat ∧
     ((r = Err (Nat PortRangeExhausted) ∧ sessions t' = sessions t ∧ by_key t' = by_key t
        ∧ next_session_id t' = next_session_id t
        ∧ ∀ port, ¬ port_free (nat_table t) original snat clock port)
      ∨ ∃ port, let b := mkNatBinding original (translate original snat port) in
        let s := fresh_session t original io flow flags now b in
        r = Ok (s_id s) ∧ port_free (nat_table t) original snat clock port
        ∧ (∀ port', port_free (nat_table t) original snat clock port' → port ≤ port')
        ∧ sessions t' = <[s_id s := s]> (sessions t)
        ∧ by_key t' = <[mkSessionKey original (ifindex io) := s_id s]> (by_key t)
        ∧ next_session_id t' = next_session_id t + 1)).
Proof.
  intros Hinv Hlt Hk0. destruct (next_id_fresh _ _ Hinv Hlt) as [_ Hnf]. pose proof (si_nat _ _ _ Hinv) as Hn.
  unfold get_or_create_with_flags_at, sbind, sreads, sget, sput, sret, on_nat, smap_err, szoom.
  rewrite ensure_owner_ok, Hk0. cbv zeta.
  destruct (snat_for (nat_table t) original) as [snat|] eqn:Hs.
  2: { unfold nat_allocate_at. rewrite Hnf, Hs. simpl. do 2 eexists. split; [done|].
       assert (set_nat (nat_table t) t = t) as -> by (by destruct t). naive_solver. }
  pose proof (nat_allocate_cases _ ports _ (mkSessionId (next_session_id t)) original snat clock Hn Hnf Hs) as Hc.
  destruct (nat_allocate_at _ _ _ _ _) as [r n'] eqn:Hrun. pose proof (nat_allocate_inv _ _ _ _ _ _ _ _ Hn Hrun) as Hn'.
  simpl in Hc. destruct Hc as [(-> & Hfw & Hnone)|(port & -> & Hfree & Hleast & Hfw)]; simpl.
  - do 2 eexists. split; [done|]. split; [by apply set_nat_inv|]. split; [done|]. right. exists snat.
    split; [done|]. left. done.
  - destruct (initial_state (fk_protocol original) flags) as [st timeout] eqn:Hst. do 2 eexists. split; [done|].
    pose proof (create_inv ports t original io flow flags now (mkNatBinding original (translate original snat port)) n' Hinv Hlt Hk0 Hn' eq_refl Hfw) as Hi.
    unfold fresh_session in Hi |- *. rewrite Hst in Hi |- *. split; [exact Hi|]. split; [done|].
    right. exists snat. split; [done|]. right. exists port. simpl. split_and!; try done.
    unfold wrap. pose proof (si_next _ _ _ Hinv). rewrite Z.mod_small by lia. done.
Qed.

(** ** The remaining operations *)

(** DNS tokens live in the upper half of the identifier space. *)
Definition ephemeral (token : SessionId) : Prop := 2 ^ 63 ≤ session_raw token.

Lemma session_not_ephemeral ports t token : session_inv ports t → ephemeral token → sessions t !! token = None.
Proof.
  intros Hinv Ht. apply eq_None_not_Some. intros [s Hs%(si_session _ _ _ Hinv)].
  pose proof (so_range _ _ _ _ Hs). pose proof (si_next _ _ _ Hinv). unfold ephemeral in Ht. lia.
Qed.

(** A NAT update that touches only an ephemeral token. *)
Lemma ephemeral_nat_inv ports t token n' : session_inv ports t → ephemeral token →
  nat_inv (owner_worker_id t) ports n' →
  (∀ id, id ≠ token → forward n' !! id = forward (nat_table t) !! id) → session_inv ports (set_nat n' t).
Proof.
  intros Hinv Ht Hn' Heq. pose proof (session_not_ephemeral _ _ _ Hinv Ht) as Hnone.
  destruct Hinv as [Hn Hx Hso Hk Hd Hb Hbi Hf]. split; simpl; try done.
  - intros id s Hs. rewrite Heq; [by apply Hbi|]. intros ->. congruence.
  - intros id b Hid. destruct (decide (id = token)) as [->|Hne]; [by right|]. rewrite Heq in Hid by done. eauto.
Qed.

Lemma allocate_ephemeral_inv ports t token original clock r t' : session_inv ports t → ephemeral token →
  allocate_ephemeral_nat (owner_worker_id t) token original clock t = (r, t') →
  session_inv ports t' ∧ t' = set_nat (nat_table t') t.
Proof.
  intros Hinv Ht. unfold allocate_ephemeral_nat, sbind, sreads, sget, on_nat, smap_err, szoom.
  rewrite ensure_owner_ok. destruct (nat_allocate_at _ _ _ _ _) as [o n'] eqn:Hrun. intros [= <- <-].
  split; [|done]. eapply ephemeral_nat_inv; [done|done|by eapply nat_allocate_inv, Hrun; apply Hinv|].
  intros id Hne. unfold nat_allocate_at in Hrun. repeat case_match; simplify_eq; simpl; try done.
  by rewrite lookup_insert_ne.
Qed.

Lemma release_ephemeral_inv ports t token clock r t' : session_inv ports t → ephemeral token →
  release_ephemeral_nat (owner_worker_id t) token clock t = (r, t') →
  session_inv ports t' ∧ t' = set_nat (nat_table t') t.
Proof.
  intros Hinv Ht. unfold release_ephemeral_nat, sbind, sreads, sget, on_nat, smap_err, szoom.
  rewrite ensure_owner_ok. destruct (nat_remove_at _ _ _) as [o n'] eqn:Hrun. intros [= <- <-].
  split; [|done]. eapply ephemeral_nat_inv; [done|done|by eapply nat_remove_inv, Hrun; apply Hinv|].
  intros id Hne. unfold nat_remove_at in Hrun. repeat case_match; simplify_eq; simpl; try done.
  by rewrite lookup_delete_ne.
Qed.

Lemma rebound_fields old new s : let s' := rebound old new s in
  s_id s' = s_id s ∧ s_original s' = s_original s ∧ s_nat s' = s_nat s
  ∧ s_flow_worker_id s' = s_flow_worker_id s ∧ s_intercept_io s' = s_intercept_io s
  ∧ s_expires_at s' = s_expires_at s ∧ s_tcp_state s' = s_tcp_state s.
Proof. unfold rebound. by case_decide. Qed.

Lemma rebind_inv ports t old new : session_inv ports t →
  session_inv ports (set_sessions (rebound old new <$> sessions t) t).
Proof.
  intros [Hn Hx Hso Hk Hd Hb Hbi Hf]. pose proof (rebound_fields old new) as Hr.
  assert (∀ id, (∃ s, (rebound old new <$> sessions t) !! id = Some s) ↔ is_Some (sessions t !! id)) as Hdom.
  { intros id. rewrite <- fmap_is_Some with (f := rebound old new), <- lookup_fmap. done. }
  split; simpl; try done.
  - intros id s (x & <- & Hx')%lookup_fmap_Some. destruct (Hso _ _ Hx') as [? ? ? ? ?].
    destruct (Hr x) as (E1 & E2 & E3 & E4 & E5 & E6 & E7). split; by rewrite ?E1, ?E2, ?E3, ?E4, ?E7.
  - intros k id. rewrite Hk. setoid_rewrite lookup_fmap_Some. split.
    + intros (x & Hx' & <-). destruct (Hr x) as (_ & E2 & _ & _ & E5 & _).
      exists (rebound old new x). split; [by exists x|]. unfold session_key. by rewrite E2, E5.
    + intros (s & (x & <- & Hx') & <-). destruct (Hr x) as (_ & E2 & _ & _ & E5 & _).
      exists x. split; [done|]. unfold session_key. by rewrite E2, E5.
  - intros d id. rewrite Hd. setoid_rewrite lookup_fmap_Some. split.
    + intros (x & Hx' & <- & ?). exists (rebound old new x). split_and!; [by exists x| |done]. apply Hr.
    + intros (s & (x & <- & Hx') & <- & ?). exists x. split_and!; [done| |done]. symmetry. apply Hr.
  - intros id s (x & <- & Hx')%lookup_fmap_Some. rewrite (Hbi _ _ Hx'). f_equal. symmetry. apply Hr.
  - intros id b Hid. destruct (Hf id b Hid) as [?|?]; [left; by apply Hdom|by right].
Qed.

Lemma remove_by_quic_flow_run ports t flow clock : session_inv ports t →
  ∃ n t', remove_by_quic_flow (owner_worker_id t) flow clock t = (Ok n, t')
    ∧ session_inv ports t' ∧ owner_worker_id t' = owner_worker_id t
    ∧ next_session_id t' = next_session_id t
    ∧ sessions t' = filter (λ kv, s_quic_flow_id kv.2 ≠ flow) (sessions t).
Proof.
  intros Hinv. pose proof (si_session _ _ _ Hinv) as Hso.
  set (l := (λ kv, s_id kv.2) <$> filter (λ kv, s_quic_flow_id kv.2 = flow) (map_to_list (sessions t))).
  assert (∀ id, id ∈ l ↔ ∃ s, sessions t !! id = Some s ∧ s_quic_flow_id s = flow) as Hl.
  { intros id. unfold l. rewrite list_elem_of_fmap. setoid_rewrite list_elem_of_filter. split.
    - intros ([i s] & -> & Hq & Hs%elem_of_map_to_list). simpl in *. exists s. split; [|done].
      by rewrite (so_id _ _ _ _ (Hso _ _ Hs)).
    - intros (s & Hs & Hq). exists (id, s). simpl. rewrite elem_of_map_to_list.
      by rewrite (so_id _ _ _ _ (Hso _ _ Hs)). }
  assert (NoDup l) as Hnd.
  { unfold l. apply NoDup_fmap_2_strong.
    - intros [i s] [i' s'] [_ Hs%elem_of_map_to_list]%list_elem_of_filter [_ Hs'%elem_of_map_to_list]%list_elem_of_filter.
      simpl. rewrite (so_id _ _ _ _ (Hso _ _ Hs)), (so_id _ _ _ _ (Hso _ _ Hs')). intros ->. by simplify_eq.
    - apply NoDup_filter, NoDup_map_to_list. }
  destruct (remove_all_run ports clock l _ t Hinv Hnd) as (ss & t' & Hrun & Hinv' & Ho & Hnx & _ & Hsess).
  { intros id (s & Hs & _)%Hl. by exists s. }
  exists (length l), t'. split_and!; [|by replace (∅ ∖ list_to_set l) with (∅ : gset SessionId) in Hinv' by set_solver|done|done|].
  - unfold remove_by_quic_flow, sbind, sreads, sget, sret. rewrite ensure_owner_ok. cbv zeta. fold l. by rewrite Hrun.
  - apply map_eq. intros id. apply option_eq. intros s. rewrite Hsess, map_lookup_filter_Some. simpl.
    case_decide as Hid.
    + split; [done|]. intros [Hs Hne]. apply Hl in Hid as (s' & ? & ?). congruence.
    + split; [|by intros [? _]]. intros Hs. split; [done|]. intros Hq. apply Hid, Hl. by exists s.
Qed.
