(* ===== verification/SessionTheorems.v ===== *)
(** The correctness of the session table: the invariant over every sequence of
    operations, the refinement of the four indexes to one abstract map of
    sessions, exact expiry, owner isolation and the TCP state machine. *)
From S2P Require Import Prelude Net NatTable NatProps Session SessionProps.

(** ** Operations as values *)

Inductive session_op : Type :=
| OpPacket (original : FlowKey) (io : IoOwnerKey) (flow : QuicFlowId) (flags : option Z)
           (is_reverse : bool) (now clock : Z)
| OpTouch (session_id : SessionId) (flags : option Z) (is_reverse : bool) (now : Z)
| OpCorrectIo (session_id : SessionId) (observed : IoOwnerKey)
| OpExpire (now : Z) (clock : SessionId → Z)
| OpRemove (session_id : SessionId) (clock : Z)
| OpAllocateEphemeral (token : SessionId) (original : FlowKey) (clock : Z)
| OpReleaseEphemeral (token : SessionId) (clock : Z)
| OpRebind (old new : QuicFlowId)
| OpRemoveFlow (flow : QuicFlowId) (clock : SessionId → Z).

(** The state after an operation called by worker [caller], whatever it returns. *)
Definition session_step (caller : nat) (op : session_op) (t : SessionTable) : SessionTable :=
  match op with
  | OpPacket original io flow flags rev now clock =>
      (get_or_create_with_flags_at caller original io flow flags rev now clock t).2
  | OpTouch id flags rev now => (session_touch_tcp caller id flags rev now t).2
  | OpCorrectIo id observed => (correct_intercept_io caller id observed t).2
  | OpExpire now clock => (expire_idle caller now clock t).2
  | OpRemove id clock => (session_remove caller id clock t).2
  | OpAllocateEphemeral token original clock => (allocate_ephemeral_nat caller token original clock t).2
  | OpReleaseEphemeral token clock => (release_ephemeral_nat caller token clock t).2
  | OpRebind old new => (rebind_quic_flow caller old new t).2
  | OpRemoveFlow flow clock => (remove_by_quic_flow caller flow clock t).2
  end.

(** The identifiers that callers outside the table choose are DNS tokens. *)
Definition op_ok (op : session_op) : Prop :=
  match op with
  | OpAllocateEphemeral token _ _ | OpReleaseEphemeral token _ => ephemeral token
  | _ => True
  end.

(** ** Calls from another worker *)

Lemma wrong_owner_step caller op t : caller ≠ owner_worker_id t → session_step caller op t = t.
Proof.
  intros Hne. assert (ensure_owner caller t = Err (WrongOwner (owner_worker_id t) caller)) as He.
  { unfold ensure_owner. by rewrite decide_True. }
  destruct op; simpl; unfold get_or_create_with_flags_at, session_touch_tcp, correct_intercept_io, expire_idle,
    session_remove, allocate_ephemeral_nat, release_ephemeral_nat, rebind_quic_flow, remove_by_quic_flow, sbind, sreads;
    by rewrite He.
Qed.

(** ** The abstract table: one map of sessions by key *)

Definition abs (t : SessionTable) : gmap SessionKey Session := omap (λ id, sessions t !! id) (by_key t).

Lemma abs_lookup ports t k s : session_inv ports t →
  abs t !! k = Some s ↔ ∃ id, sessions t !! id = Some s ∧ session_key s = k.
Proof.
  intros Hinv. unfold abs. rewrite lookup_omap. split.
  - destruct (by_key t !! k) as [id|] eqn:Hk; simpl; [|done]. intros Hs. exists id. split; [done|].
    apply (si_key _ _ _ Hinv) in Hk as (s' & Hs' & <-). by simplify_eq.
  - intros (id & Hs & Hk). assert (by_key t !! k = Some id) as -> by (apply (si_key _ _ _ Hinv); eauto). done.
Qed.

(** The abstract transitions.  Creation is nondeterministic in the identifier and
    the port; the port is one that no session of the map has. *)
Inductive spec_step : gmap SessionKey Session → session_op → gmap SessionKey Session → Prop :=
| spec_hit m original io flow flags rev now clock s :
    m !! mkSessionKey original (ifindex io) = Some s →
    spec_step m (OpPacket original io flow flags rev now clock)
              (<[mkSessionKey original (ifindex io) := touched s flags rev now]> m)
| spec_create m original io flow flags rev now clock s snat :
    m !! mkSessionKey original (ifindex io) = None →
    session_key s = mkSessionKey original (ifindex io) →
    s_intercept_io s = io → s_quic_flow_id s = flow →
    s_nat s = mkNatBinding original (translate original snat (fk_source_port (nb_translated (s_nat s)))) →
    (s_tcp_state s, s_expires_at s) = (prod_map id (Z.add now) (initial_state (fk_protocol original) flags)) →
    (∀ k s', m !! k = Some s' → s_id s' ≠ s_id s ∧
       fk_source_port (nb_translated (s_nat s')) ≠ fk_source_port (nb_translated (s_nat s))) →
    spec_step m (OpPacket original io flow flags rev now clock) (<[session_key s := s]> m)
| spec_refused m original io flow flags rev now clock :
    m !! mkSessionKey original (ifindex io) = None →
    spec_step m (OpPacket original io flow flags rev now clock) m
| spec_touch m id flags rev now :
    spec_step m (OpTouch id flags rev now)
              ((λ s, if decide (s_id s = id) then touched s flags rev now else s) <$> m)
| spec_expire m now clock :
    spec_step m (OpExpire now clock) (filter (λ kv, now < s_expires_at kv.2) m)
| spec_remove m id clock :
    spec_step m (OpRemove id clock) (filter (λ kv, s_id kv.2 ≠ id) m)
| spec_ephemeral_allocate m token original clock : spec_step m (OpAllocateEphemeral token original clock) m
| spec_ephemeral_release m token clock : spec_step m (OpReleaseEphemeral token clock) m
| spec_rebind m old new : spec_step m (OpRebind old new) (rebound old new <$> m)
| spec_remove_flow m flow clock :
    spec_step m (OpRemoveFlow flow clock) (filter (λ kv, s_quic_flow_id kv.2 ≠ flow) m)
| spec_correct_io m id observed :
    spec_step m (OpCorrectIo id observed)
      ((λ s, if decide (s_id s = id ∧ ifindex (s_intercept_io s) = ifindex observed
                        ∧ queue_id (s_intercept_io s) = 0)
             then mkSession (s_id s) (s_original s) (s_nat s) (s_flow_worker_id s) observed
                    (s_quic_flow_id s) (s_expires_at s) (s_tcp_state s) else s) <$> m).

(** Two tables are abstractly equal when their sessions correspond. *)
Lemma abs_ext ports t m : session_inv ports t →
  (∀ k s, m !! k = Some s ↔ ∃ id, sessions t !! id = Some s ∧ session_key s = k) → abs t = m.
Proof.
  intros Hinv Hm. apply map_eq. intros k. apply option_eq. intros s. by rewrite (abs_lookup _ _ _ _ Hinv), Hm.
Qed.

(** A table whose sessions were filtered. *)
Lemma abs_filter ports t t' (P : Session → Prop) `{∀ s, Decision (P s)} :
  session_inv ports t → session_inv ports t' → sessions t' = filter (λ kv, P kv.2) (sessions t) →
  abs t' = filter (λ kv, P kv.2) (abs t).
Proof.
  intros Hinv Hinv' Hs. apply (abs_ext ports); [done|]. intros k s.
  rewrite map_lookup_filter_Some, (abs_lookup _ _ _ _ Hinv), Hs. setoid_rewrite map_lookup_filter_Some. naive_solver.
Qed.

(** A table whose sessions were mapped by a function that keeps their keys. *)
Lemma abs_fmap ports t t' f :
  session_inv ports t → session_inv ports t' → (∀ s, session_key (f s) = session_key s) →
  sessions t' = f <$> sessions t → abs t' = f <$> abs t.
Proof.
  intros Hinv Hinv' Hk Hs. apply (abs_ext ports); [done|]. intros k s.
  rewrite lookup_fmap_Some, Hs. setoid_rewrite (abs_lookup _ _ _ _ Hinv). setoid_rewrite lookup_fmap_Some. split.
  - intros (x & <- & id & Hx & <-). exists id. split; [by exists x|done].
  - intros (id & (x & <- & Hx) & <-). exists x. split; [done|]. exists id. done.
Qed.

(** An update of one session is the map that changes the session with that id. *)
Lemma insert_as_fmap ports t id s g : session_inv ports t → sessions t !! id = Some s →
  <[id := g s]> (sessions t) = (λ x, if decide (s_id x = id) then g x else x) <$> sessions t.
Proof.
  intros Hinv Hs. apply map_eq. intros i. rewrite lookup_fmap. destruct (decide (i = id)) as [->|Hne].
  - rewrite lookup_insert_eq, Hs. simpl. rewrite decide_True; [done|]. apply (si_session _ _ _ Hinv _ _ Hs).
  - rewrite lookup_insert_ne by done. destruct (sessions t !! i) as [x|] eqn:Hx; [|done]. simpl.
    rewrite decide_False; [done|]. by rewrite (so_id _ _ _ _ (si_session _ _ _ Hinv _ _ Hx)).
Qed.

Lemma abs_fmap_id ports t f : session_inv ports t →
  (∀ id s, sessions t !! id = Some s → f s = s) → f <$> abs t = abs t.
Proof.
  intros Hinv Hf. apply map_eq. intros k. rewrite lookup_fmap. destruct (abs t !! k) as [s|] eqn:Hs; [|done].
  apply (abs_lookup _ _ _ _ Hinv) in Hs as (id & Hs & _). simpl. by rewrite (Hf id s).
Qed.

(** ** The simulation, operation by operation *)

Section refine.
Context (ports : gset Z) (t : SessionTable) (Hinv : session_inv ports t).

Definition refines (op : session_op) : Prop :=
  let t' := session_step (owner_worker_id t) op t in
  session_inv ports t' ∧ owner_worker_id t' = owner_worker_id t
  ∧ next_session_id t ≤ next_session_id t' ≤ next_session_id t + 1 ∧ spec_step (abs t) op (abs t').

Lemma refine_hit original io flow flags rev now clock id :
  by_key t !! mkSessionKey original (ifindex io) = Some id →
  refines (OpPacket original io flow flags rev now clock).
Proof using Hinv.
  intros Hk. pose proof Hk as (s & Hs & Hks)%(si_key _ _ _ Hinv).
  destruct (touch_tcp_run ports t id s flags rev now Hinv Hs) as (t' & Hrun & Hinv' & Ho & _ & Hnx & _ & Hsess).
  assert (session_step (owner_worker_id t) (OpPacket original io flow flags rev now clock) t = t') as Hstep.
  { simpl. unfold get_or_create_with_flags_at, sbind, sreads. rewrite ensure_owner_ok. cbv zeta. rewrite Hk.
    by rewrite Hrun. }
  unfold refines. rewrite Hstep. split_and!; [done|done|lia|lia|].
  assert (abs t !! mkSessionKey original (ifindex io) = Some s) as Ha by (apply (abs_lookup _ _ _ _ Hinv); eauto).
  assert (session_key (touched s flags rev now) = session_key s) as Htk.
  { unfold session_key. destruct (touched_fields s flags rev now) as (_ & -> & _ & _ & -> & _). done. }
  replace (abs t') with (<[mkSessionKey original (ifindex io) := touched s flags rev now]> (abs t)).
  { by apply spec_hit. }
  symmetry. apply (abs_ext ports); [done|]. intros k x. rewrite lookup_insert_Some, Hsess.
  rewrite (abs_lookup _ _ _ _ Hinv). setoid_rewrite lookup_insert_Some. split.
  - intros [[<- <-]|(Hne & i & Hi & <-)]; [exists id; split; [by left|by rewrite Htk]|].
    exists i. split; [|done]. right. split; [|done]. intros ->. congruence.
  - intros (i & [[<- <-]|[Hne Hi]] & <-); [left; by rewrite Htk|]. right. split; [|by exists i].
    intros Heq. apply Hne. eapply session_key_inj; [apply Hinv|apply Hs|apply Hi|congruence].
Qed.

Lemma refine_miss original io flow flags rev now clock : next_session_id t < 2 ^ 63 →
  by_key t !! mkSessionKey original (ifindex io) = None →
  refines (OpPacket original io flow flags rev now clock).
Proof using Hinv.
  intros Hlt Hk. assert (abs t !! mkSessionKey original (ifindex io) = None) as Ha.
  { unfold abs. by rewrite lookup_omap, Hk. }
  destruct (create_run ports t original io flow flags rev now clock Hinv Hlt Hk) as (r & t' & Hrun & Hinv' & Ho & Hc).
  unfold refines. simpl session_step. rewrite Hrun. simpl.
  destruct Hc as [(_ & _ & ->)|(snat & Hsn & [(_ & Hs & Hbk & Hnx & _)|(port & _ & Hfree & _ & Hs & Hbk & Hnx)])].
  - split_and!; [done|done|lia|lia|by apply spec_refused].
  - assert (abs t' = abs t) as -> by (unfold abs; by rewrite Hs, Hbk). split_and!; [done|done|lia|lia|by apply spec_refused].
  - split_and!; [done|done|lia|lia|]. set (b := mkNatBinding original (translate original snat port)) in *.
    set (s := fresh_session t original io flow flags now b) in *.
    assert (abs t' = <[session_key s := s]> (abs t)) as ->.
    { apply (abs_ext ports); [done|]. intros k x. rewrite lookup_insert_Some, Hs, (abs_lookup _ _ _ _ Hinv).
      setoid_rewrite lookup_insert_Some. destruct (next_id_fresh _ _ Hinv Hlt) as [Hfresh _]. split.
      - intros [[<- <-]|(Hne & i & Hi & <-)]; [exists (s_id s); split; [by left|done]|].
        exists i. split; [|done]. right. split; [|done]. intros <-. simpl in Hi. congruence.
      - intros (i & [[<- <-]|[Hne Hi]] & <-); [by left|]. right. split; [|by exists i]. intros Heq.
        assert (by_key t !! session_key x = Some i) as Hx by (apply (si_key _ _ _ Hinv); by exists x).
        rewrite <- Heq in Hx. unfold session_key in Hx. simpl in Hx. congruence. }
    apply (spec_create _ _ _ _ _ _ _ _ s snat); try done.
    intros k x (i & Hi & _)%(abs_lookup _ _ _ _ Hinv). split.
    + pose proof (si_session _ _ _ Hinv _ _ Hi) as [-> _ Hr _ _]. simpl. intros ->. simpl in Hr. lia.
    + pose proof (si_binding _ _ _ Hinv _ _ Hi) as Hb. apply (inv_port _ _ _ (si_nat _ _ _ Hinv)) in Hb as [_ Hb].
        simpl. intros Heq. rewrite Heq in Hb. by destruct Hb, Hfree.
Qed.

Lemma refine_touch id flags rev now : refines (OpTouch id flags rev now).
Proof using Hinv.
  unfold refines. destruct (sessions t !! id) as [s|] eqn:Hs.
  - destruct (touch_tcp_run ports t id s flags rev now Hinv Hs) as (t' & Hrun & Hinv' & Ho & _ & Hnx & _ & Hsess).
    simpl. rewrite Hrun. simpl. split_and!; [done|done|lia|lia|].
    rewrite (insert_as_fmap ports t id s (λ x, touched x flags rev now) Hinv Hs) in Hsess.
    rewrite (abs_fmap ports t t' (λ s, if decide (s_id s = id) then touched s flags rev now else s) Hinv Hinv');
      [constructor| |exact Hsess].
    intros x. case_decide; [|done]. unfold session_key.
    by destruct (touched_fields x flags rev now) as (_ & -> & _ & _ & -> & _).
  - assert (session_step (owner_worker_id t) (OpTouch id flags rev now) t = t) as ->.
    { simpl. unfold session_touch_tcp, sbind, sreads. by rewrite ensure_owner_ok, Hs. }
    split_and!; [done|done|lia|lia|].
    rewrite <- (abs_fmap_id ports t (λ s, if decide (s_id s = id) then touched s flags rev now else s) Hinv) at 2.
    + constructor.
    + intros i s Hi. rewrite decide_False; [done|]. intros <-.
      rewrite (so_id _ _ _ _ (si_session _ _ _ Hinv _ _ Hi)) in Hs. congruence.
Qed.

Lemma refine_expire now clock : refines (OpExpire now clock).
Proof using Hinv.
  destruct (expire_idle_run ports t now clock Hinv) as (ss & t' & Hrun & Hinv' & Ho & Hnx & Hs & _).
  unfold refines. simpl. rewrite Hrun. simpl. split_and!; [done|done|lia|lia|].
  rewrite (abs_filter ports t t' (λ s, now < s_expires_at s) Hinv Hinv' Hs). constructor.
Qed.

Lemma refine_remove_flow flow clock : refines (OpRemoveFlow flow clock).
Proof using Hinv.
  destruct (remove_by_quic_flow_run ports t flow clock Hinv) as (n & t' & Hrun & Hinv' & Ho & Hnx & Hs).
  unfold refines. simpl. rewrite Hrun. simpl. split_and!; [done|done|lia|lia|].
  rewrite (abs_filter ports t t' (λ s, s_quic_flow_id s ≠ flow) Hinv Hinv' Hs). constructor.
Qed.

Lemma refine_remove id clock : refines (OpRemove id clock).
Proof using Hinv.
  unfold refines. destruct (sessions t !! id) as [s|] eqn:Hs.
  - simpl. rewrite (session_remove_run _ _ _ _ _ clock Hinv Hs). simpl.
    pose proof (removed_inv _ _ _ _ _ clock Hinv Hs) as Hinv'.
    replace (∅ ∖ {[id]}) with (∅ : gset SessionId) in Hinv' by set_solver.
    split_and!; [done|done|simpl; lia|simpl; lia|].
    rewrite (abs_filter ports t _ (λ s, s_id s ≠ id) Hinv Hinv'); [constructor|]. simpl.
    apply map_eq. intros i. apply option_eq. intros x. rewrite lookup_delete_Some, map_lookup_filter_Some. simpl.
    split; intros [H1 H2]; (split; [|]); try done.
    + by rewrite (so_id _ _ _ _ (si_session _ _ _ Hinv _ _ H2)).
    + intros <-. by rewrite (so_id _ _ _ _ (si_session _ _ _ Hinv _ _ H1)) in H2.
  - assert (session_step (owner_worker_id t) (OpRemove id clock) t = t) as ->.
    { simpl. unfold session_remove, sbind, sreads. by rewrite ensure_owner_ok, Hs. }
    split_and!; [done|done|lia|lia|].
    replace (abs t) with (filter (λ kv : SessionKey * Session, s_id kv.2 ≠ id) (abs t)) at 2; [constructor|].
    apply map_filter_id. intros k x (i & Hi & _)%(abs_lookup _ _ _ _ Hinv). simpl. intros <-.
    rewrite (so_id _ _ _ _ (si_session _ _ _ Hinv _ _ Hi)) in Hs. congruence.
Qed.

Lemma refine_rebind old new : refines (OpRebind old new).
Proof using Hinv.
  unfold refines. simpl. unfold rebind_quic_flow, sbind, sreads, sget, sput, sret. rewrite ensure_owner_ok. simpl.
  pose proof (rebind_inv ports t old new Hinv) as Hinv'. split_and!; [done|done|lia|lia|].
  rewrite (abs_fmap ports t _ (rebound old new) Hinv Hinv'); [constructor| |done].
  intros s. unfold session_key. by destruct (rebound_fields old new s) as (_ & -> & _ & _ & -> & _).
Qed.

Lemma refine_ephemeral op : match op with OpAllocateEphemeral k _ _ | OpReleaseEphemeral k _ => ephemeral k | _ => False end →
  refines op.
Proof using Hinv.
  intros Hop. destruct op as [| | | | |token o clock|token clock| |]; try done; unfold refines; simpl.
  - destruct (allocate_ephemeral_nat _ _ _ _ _) as [r t'] eqn:Hrun.
    apply (allocate_ephemeral_inv ports) in Hrun as [Hinv' Heq]; [|done..]. simpl.
    assert (abs t' = abs t) as -> by (by rewrite Heq). rewrite Heq. rewrite Heq in Hinv'.
    split_and!; [done|done|simpl; lia|simpl; lia|constructor].
  - destruct (release_ephemeral_nat _ _ _ _) as [r t'] eqn:Hrun.
    apply (release_ephemeral_inv ports) in Hrun as [Hinv' Heq]; [|done..]. simpl.
    assert (abs t' = abs t) as -> by (by rewrite Heq). rewrite Heq. rewrite Heq in Hinv'.
    split_and!; [done|done|simpl; lia|simpl; lia|constructor].
Qed.

(** What [correct_intercept_io] does to a session. *)
Definition io_corrected (id : SessionId) (observed : IoOwnerKey) (s : Session) : Session :=
  if decide (s_id s = id ∧ ifindex (s_intercept_io s) = ifindex observed ∧ queue_id (s_intercept_io s) = 0)
  then mkSession (s_id s) (s_original s) (s_nat s) (s_flow_worker_id s) observed
         (s_quic_flow_id s) (s_expires_at s) (s_tcp_state s) else s.

Lemma correct_io_sessions id observed r t' :
  correct_intercept_io (owner_worker_id t) id observed t = (r, t') →
  sessions t' = io_corrected id observed <$> sessions t.
Proof using Hinv.
  pose proof (si_session _ _ _ Hinv) as Hso.
  assert (∀ i x, sessions t !! i = Some x → i ≠ id → io_corrected id observed x = x) as Hother.
  { intros i x Hi Hne. unfold io_corrected. rewrite decide_False; [done|]. intros [<- _].
    by rewrite (so_id _ _ _ _ (Hso _ _ Hi)) in Hne. }
  assert ((∀ x, sessions t !! id = Some x → io_corrected id observed x = x) →
    sessions t = io_corrected id observed <$> sessions t) as Hsame.
  { intros Hid. apply map_eq. intros i. rewrite lookup_fmap. destruct (sessions t !! i) as [x|] eqn:Hi; [|done].
    simpl. destruct (decide (i = id)) as [->|]; [by rewrite Hid|by rewrite (Hother i)]. }
  unfold correct_intercept_io, sbind, sreads, sget, sput, sret. rewrite ensure_owner_ok.
  destruct (sessions t !! id) as [s|] eqn:Hs; simpl; [|intros [= <- <-]; by apply Hsame].
  case_decide as H1.
  { intros [= <- <-]. apply Hsame. intros x [= <-]. unfold io_corrected. case_decide; [|done]. subst. by destruct s. }
  case_decide as H2.
  2: { intros [= <- <-]. apply Hsame. intros x [= <-]. unfold io_corrected. rewrite decide_False; [done|tauto]. }
  intros [= <- <-]. simpl. apply map_eq. intros i. rewrite lookup_fmap. destruct (decide (i = id)) as [->|Hne].
  - rewrite lookup_insert_eq, Hs. simpl. unfold io_corrected.
    rewrite decide_True; [done|]. split; [apply Hso, Hs|tauto].
  - rewrite lookup_insert_ne by done. destruct (sessions t !! i) as [x|] eqn:Hi; [|done]. simpl. by rewrite (Hother i).
Qed.

Lemma refine_correct_io id observed : refines (OpCorrectIo id observed).
Proof using Hinv.
  unfold refines. simpl. destruct (correct_intercept_io _ _ _ _) as [r t'] eqn:Hrun. simpl.
  pose proof (correct_io_sessions _ _ _ _ Hrun) as Hs.
  apply (correct_intercept_io_inv ports) in Hrun as (Hinv' & Ho & Hnx); [|done].
  split_and!; [done|done|lia|lia|].
  rewrite (abs_fmap ports t t' (io_corrected id observed) Hinv Hinv'); [constructor| |done].
  intros s. unfold io_corrected. case_decide as Hd; [|done]. unfold session_key. simpl. by destruct Hd as (_ & -> & _).
Qed.

Lemma refine_all op : next_session_id t < 2 ^ 63 → op_ok op → refines op.
Proof using Hinv.
  intros Hlt Hop. destruct op as [original io flow flags rev now clock| | | | |?|?| |].
  - destruct (by_key t !! mkSessionKey original (ifindex io)) eqn:Hk; [by eapply refine_hit|by apply refine_miss].
  - apply refine_touch.
  - apply refine_correct_io.
  - apply refine_expire.
  - apply refine_remove.
  - by apply refine_ephemeral.
  - by apply refine_ephemeral.
  - apply refine_rebind.
  - apply refine_remove_flow.
Qed.
End refine.

(** ** Sequences of calls *)

Definition session_run (calls : list (nat * session_op)) (t : SessionTable) : SessionTable :=
  fold_left (λ t call, session_step call.1 call.2 t) calls t.

(** The abstract runs: a call by the owner is a transition, a call by another
    worker is ignored. *)
Inductive spec_run (owner : nat) : gmap SessionKey Session → list (nat * session_op) → gmap SessionKey Session → Prop :=
| spec_run_nil m : spec_run owner m [] m
| spec_run_owner m op m' calls m'' :
    spec_step m op m' → spec_run owner m' calls m'' → spec_run owner m ((owner, op) :: calls) m''
| spec_run_foreign m caller op calls m' :
    caller ≠ owner → spec_run owner m calls m' → spec_run owner m ((caller, op) :: calls) m'.

Lemma session_run_refines ports calls : ∀ t, session_inv ports t →
  next_session_id t + Z.of_nat (length calls) ≤ 2 ^ 63 → Forall (λ call, op_ok call.2) calls →
  session_inv ports (session_run calls t) ∧ owner_worker_id (session_run calls t) = owner_worker_id t
  ∧ spec_run (owner_worker_id t) (abs t) calls (abs (session_run calls t)).
Proof.
  induction calls as [|[caller op] calls IH]; intros t Hinv Hlen Hok; [split_and!; [done|done|constructor]|].
  inversion_clear Hok as [|? ? Hop Hok']. cbn [length] in Hlen. unfold session_run in *. simpl.
  destruct (decide (caller = owner_worker_id t)) as [->|Hne].
  - destruct (refine_all ports t Hinv op) as (Hinv' & Ho & Hnx & Hsp); [lia|done|].
    destruct (IH _ Hinv') as (H1 & H2 & H3); [lia|done|]. rewrite Ho in H2, H3.
    split_and!; [done|done|by econstructor].
  - rewrite wrong_owner_step by done. destruct (IH t Hinv) as (H1 & H2 & H3); [lia|done|].
    split_and!; [done|done|by constructor].
Qed.

(** ** TCP lifecycles *)

Definition is_rst (e : option Z * bool) : bool :=
  match e.1 with Some f => bool_decide (Z.land f 0x04 ≠ 0) | None => false end.
Definition is_fin (dir : bool) (e : option Z * bool) : bool :=
  match e.1 with
  | Some f => bool_decide (Z.land f 0x04 = 0 ∧ Z.land f 0x01 ≠ 0 ∧ e.2 = dir)
  | None => false
  end.

(** The state a packet history determines. *)
Definition tcp_history_state (reset fin_forward fin_reverse : bool) : TcpSessionState :=
  if reset then Reset else
  match fin_forward, fin_reverse with
  | true, true => Closing
  | true, false => FinSeenForward
  | false, true => FinSeenReverse
  | false, false => Established
  end.

Lemma tcp_touch_history rst ff fr e :
  (tcp_touch (Some (tcp_history_state rst ff fr)) e.1 e.2).1
  = Some (tcp_history_state (rst || is_rst e) (ff || is_fin false e) (fr || is_fin true e)).
Proof.
  destruct e as [[f|] rev]; unfold tcp_touch, is_rst, is_fin; simpl; [|by destruct rst, ff, fr].
  destruct (decide (Z.land f 4 = 0)) as [H4|H4].
  - rewrite (decide_False (P := _ ≠ 0)) by tauto. rewrite (bool_decide_eq_false_2 (Z.land f 4 ≠ 0)) by tauto.
    destruct (decide (Z.land f 1 = 0)) as [H1|H1].
    + rewrite (decide_False (P := _ ≠ 0)) by tauto.
      rewrite !(bool_decide_eq_false_2 (_ ∧ _)) by tauto. by destruct rst, ff, fr.
    + rewrite decide_True by done. destruct rev; simpl.
      * rewrite (bool_decide_eq_false_2 (_ ∧ _)), (bool_decide_eq_true_2 (_ ∧ _)) by naive_solver.
        by destruct rst, ff, fr.
      * rewrite (bool_decide_eq_true_2 (_ ∧ _)), (bool_decide_eq_false_2 (_ ∧ _)) by naive_solver.
        by destruct rst, ff, fr.
  - rewrite decide_True by done. rewrite (bool_decide_eq_true_2 (Z.land f 4 ≠ 0)) by done. by destruct rst, ff, fr.
Qed.

Definition tcp_run (events : list (option Z * bool)) : option TcpSessionState :=
  fold_left (λ st e, (tcp_touch st e.1 e.2).1) events (Some Established).

Lemma tcp_run_history events : ∀ rst ff fr,
  fold_left (λ st e, (tcp_touch st e.1 e.2).1) events (Some (tcp_history_state rst ff fr))
  = Some (tcp_history_state (rst || existsb is_rst events) (ff || existsb (is_fin false) events)
                            (fr || existsb (is_fin true) events)).
Proof.
  induction events as [|e l IH]; intros rst ff fr; simpl; [by rewrite !orb_false_r|].
  rewrite tcp_touch_history, IH. by rewrite !orb_assoc.
Qed.

(** ** Lookups *)

Lemma lookup_reverse_locator_iff ports t r l : session_inv ports t →
  lookup_reverse_locator t r = Some l ↔
  ∃ id s, session_get t id = Some s ∧ is_reply (nb_translated (s_nat s)) r ∧ l = own_locator (owner_worker_id t) id.
Proof.
  intros Hinv. unfold lookup_reverse_locator, session_get. pose proof (si_nat _ _ _ Hinv) as Hn.
  pose proof (nat_lookup_reverse_iff _ _ _ r l Hn) as Hiff. split.
  - destruct (nat_lookup_reverse (nat_table t) r) as [l'|] eqn:Hl; [|done]. case_decide as Hd; [|done].
    intros [= ->]. destruct (proj1 Hiff eq_refl) as (id & b & Hb & Hr & ->). simpl in Hd. destruct Hd as [_ [s Hs]].
    exists id, s. split_and!; [done| |done]. rewrite (si_binding _ _ _ Hinv _ _ Hs) in Hb. by injection Hb as <-.
  - intros (id & s & Hs & Hr & ->). rewrite (proj2 Hiff).
    + rewrite decide_True; [done|]. split; [done|]. simpl. by rewrite Hs.
    + exists id, (s_nat s). split_and!; [by apply (si_binding _ _ _ Hinv)|done|done].
Qed.

(** ** A concrete table *)

Definition sample_table : SessionTable :=
  mkSessionTable 3 1 ∅ ∅ ∅ (mkNatTable (Some 0xc0000201) None (port_range 40000 40003) ∅ ∅ ∅).
Definition sample_io : IoOwnerKey := mkIoOwnerKey 2 0.
Definition sample_packet (port : Z) (flags : option Z) (now : Z) : nat * session_op :=
  (3%nat, OpPacket (sample_flow port) sample_io (mkQuicFlowId 7) flags false now now).
Definition sample_live : SessionTable :=
  session_run [sample_packet 1000 (Some 2) 0; sample_packet 1001 None 10] sample_table.

Lemma sample_range_ok : snat_config_ok (Some 0xc0000201) None 40000 40003.
Proof. split_and!; [by intros a [= <-]|done|done|done]. Qed.

Lemma sample_table_inv : session_inv (port_range 40000 40003) sample_table.
Proof. by apply (session_new_dual_inv 3 (Some 0xc0000201) None 40000 40003 _ sample_range_ok). Qed.

Lemma sample_live_inv : session_inv (port_range 40000 40003) sample_live.
Proof.
  apply session_run_refines; [apply sample_table_inv|simpl; lia|repeat constructor].
Qed.

(** ** The session properties *)

(** C11: The session table refines one abstract map from session keys to
    sessions.  From a new table, under any sequence of calls (packets, touches,
    expiry, removals, QUIC flow changes, DNS token allocations, calls by other
    workers), the key index, the session map, the deadline index and the NAT
    table stay consistent, and the abstraction follows the transitions of the
    abstract map, in which every created session has an identifier and a port of
    its own. *)
Theorem session_table_refines (owner : nat) (ipv4 ipv6 : option Z) (lo hi : Z) (t0 : SessionTable)
    (calls : list (nat * session_op)) :
  snat_config_ok ipv4 ipv6 lo hi → session_new_dual owner ipv4 ipv6 lo hi = Ok t0 →
  Z.of_nat (length calls) < 2 ^ 63 → Forall (λ call, op_ok call.2) calls →
  session_inv (port_range lo hi) (session_run calls t0)
  ∧ spec_run owner ∅ calls (abs (session_run calls t0)).
Proof.
  intros Hcfg Hnew Hlen Hok. pose proof Hnew as [Hinv Ho]%session_new_dual_inv; [|done].
  assert (next_session_id t0 = 1 ∧ abs t0 = ∅) as [Hnx Habs].
  { unfold session_new_dual in Hnew. apply obind_Ok in Hnew as (n & _ & [= <-]). done. }
  destruct (session_run_refines _ calls t0 Hinv) as (H1 & _ & H3); [lia|done|].
  by rewrite Ho, Habs in H3.
Qed.

Lemma session_table_refines_witness :
  spec_run 3 ∅ [sample_packet 1000 (Some 2) 0; sample_packet 1001 None 10] (abs sample_live).
Proof.
  apply (session_table_refines 3 (Some 0xc0000201) None 40000 40003 sample_table
    [sample_packet 1000 (Some 2) 0; sample_packet 1001 None 10]);
    [exact sample_range_ok|reflexivity|simpl; lia|repeat constructor].
Defined.

(** Expiry is exact: it returns, once each, exactly the sessions whose
    deadline has passed, keeps exactly the others, and releases the NAT binding
    of every session it returns; the deadline loop ends. *)
Theorem expire_idle_exact (ports : gset Z) (t : SessionTable) (now : Z) (clock : SessionId → Z) :
  session_inv ports t →
  ∃ expired t', expire_idle (owner_worker_id t) now clock t = (Ok expired, t')
    ∧ session_inv ports t' ∧ NoDup expired
    ∧ (∀ s, s ∈ expired ↔ ∃ id, session_get t id = Some s ∧ s_expires_at s ≤ now)
    ∧ (∀ id s, session_get t' id = Some s ↔ session_get t id = Some s ∧ now < s_expires_at s)
    ∧ (∀ s, s ∈ expired → nat_get (nat_table t') (s_id s) = None).
Proof.
  intros Hinv. destruct (expire_idle_run ports t now clock Hinv)
    as (ss & t' & Hrun & Hinv' & _ & Hnx & Hs & Hmem & Hnd).
  exists ss, t'. split_and!; try done.
  - intros id s. unfold session_get. by rewrite Hs, map_lookup_filter_Some.
  - intros s (id & Hid & Hle)%Hmem. apply eq_None_not_Some. intros [b Hb].
    pose proof (si_session _ _ _ Hinv _ _ Hid) as Hok. rewrite (so_id _ _ _ _ Hok) in Hb.
    apply (si_forward _ _ _ Hinv') in Hb as [[s' Hs']|Hlt].
    + rewrite Hs, map_lookup_filter_Some in Hs'. simpl in Hs'. destruct Hs'. simplify_eq. lia.
    + pose proof (so_range _ _ _ _ Hok). pose proof (si_next _ _ _ Hinv). lia.
Qed.

Lemma expire_idle_exact_witness : ∃ expired t',
  expire_idle 3 (from_secs 300) (λ _, 0) sample_live = (Ok expired, t') ∧ length expired = 1%nat.
Proof.
  destruct (expire_idle_exact (port_range 40000 40003) sample_live (from_secs 300) (λ _, 0) sample_live_inv)
    as (expired & t' & Hrun & _). exists expired, t'. split; [exact Hrun|].
  assert (match (expire_idle 3 (from_secs 300) (λ _, 0) sample_live).1 with Ok l => length l | _ => 0%nat end = 1%nat) as Hl
    by (vm_compute; reflexivity).
  change (owner_worker_id sample_live) with 3%nat in Hrun. by rewrite Hrun in Hl.
Defined.

(** A call by a worker that does not own the table is refused by every
    operation and changes nothing. *)
Theorem wrong_owner_rejected (caller : nat) (op : session_op) (t : SessionTable) :
  caller ≠ owner_worker_id t →
  ensure_owner caller t = Err (WrongOwner (owner_worker_id t) caller) ∧ session_step caller op t = t.
Proof.
  intros Hne. split; [unfold ensure_owner; by rewrite decide_True|by apply wrong_owner_step].
Qed.

Lemma wrong_owner_rejected_witness :
  session_step 4 (OpExpire (from_secs 1000) (λ _, 0)) sample_live = sample_live.
Proof. apply (wrong_owner_rejected 4 (OpExpire (from_secs 1000) (λ _, 0)) sample_live). by vm_compute. Defined.

(** A reply packet is attributed to a session exactly when it answers the
    translated flow of a live session: DNS transactions that share the NAT table
    and stale bindings never surface as sessions. *)
Theorem lookup_reverse_exact (ports : gset Z) (t : SessionTable) (r : FlowKey) (id : SessionId) :
  session_inv ports t →
  session_lookup_reverse t r = Some id ↔
  ∃ s, session_get t id = Some s ∧ is_reply (nb_translated (s_nat s)) r.
Proof.
  intros Hinv. unfold session_lookup_reverse. rewrite fmap_Some.
  setoid_rewrite (lookup_reverse_locator_iff ports t r _ Hinv). split.
  - intros (l & (i & s & Hs & Hr & ->) & ->). by exists s.
  - intros (s & Hs & Hr). exists (own_locator (owner_worker_id t) id). split; [by exists id, s|done].
Qed.

Lemma lookup_reverse_exact_witness :
  session_lookup_reverse sample_live (mkFlowKey (V4 0xc6336414) (V4 0xc0000201) 443 40001 Tcp) = Some (mkSessionId 2).
Proof.
  apply (lookup_reverse_exact (port_range 40000 40003) sample_live); [exact sample_live_inv|].
  eexists. split; [vm_compute; reflexivity|vm_compute; tauto].
Defined.

(** The first packet of a flow either creates a session, with the next
    identifier, the least usable port and the initial timeout, or is refused for
    want of an address family or a port; a packet of a known flow returns the
    session it already has and keeps its NAT binding. *)
Theorem get_or_create_outcome (ports : gset Z) (t : SessionTable) (original : FlowKey) (io : IoOwnerKey)
    (flow : QuicFlowId) (flags : option Z) (is_reverse : bool) (now clock : Z) :
  session_inv ports t → next_session_id t < 2 ^ 63 →
  let '(r, t') := get_or_create_with_flags_at (owner_worker_id t) original io flow flags is_reverse now clock t in
  session_inv ports t' ∧
  match by_key t !! mkSessionKey original (ifindex io) with
  | Some id => r = Ok id ∧ nat_table t' = nat_table t
      ∧ ∃ s, session_get t id = Some s ∧ s_original s = original
          ∧ sessions t' = <[id := touched s flags is_reverse now]> (sessions t)
  | None =>
      (r = Err (Nat AddressFamilyMismatch) ∧ snat_for (nat_table t) original = None ∧ t' = t)
      ∨ (r = Err (Nat PortRangeExhausted) ∧ sessions t' = sessions t)
      ∨ ∃ snat port, let s := fresh_session t original io flow flags now
                                (mkNatBinding original (translate original snat port)) in
          r = Ok (s_id s) ∧ snat_for (nat_table t) original = Some snat
          ∧ port_free (nat_table t) original snat clock port
          ∧ (∀ port', port_free (nat_table t) original snat clock port' → port ≤ port')
          ∧ session_get t (s_id s) = None ∧ sessions t' = <[s_id s := s]> (sessions t)
  end.
Proof.
  intros Hinv Hlt. destruct (by_key t !! mkSessionKey original (ifindex io)) as [id|] eqn:Hk.
  - pose proof Hk as (s & Hs & Hks)%(si_key _ _ _ Hinv).
    destruct (touch_tcp_run ports t id s flags is_reverse now Hinv Hs) as (t' & Hrun & Hinv' & _ & Hn & _ & _ & Hsess).
    unfold get_or_create_with_flags_at, sbind, sreads, sret. rewrite ensure_owner_ok. cbv zeta. rewrite Hk, Hrun.
    split_and!; try done. exists s. split_and!; try done. by injection Hks.
  - destruct (create_run ports t original io flow flags is_reverse now clock Hinv Hlt Hk)
      as (r & t' & -> & Hinv' & _ & Hc). split; [done|].
    destruct (next_id_fresh _ _ Hinv Hlt) as [Hfresh _].
    destruct Hc as [(-> & Hs & ->)|(snat & Hs & [(-> & Hss & _)|(port & -> & Hf & Hl & Hss & _)])]; [by left| |].
    + right; left. done.
    + right; right. exists snat, port. split_and!; done.
Qed.

Lemma get_or_create_outcome_witness :
  ∃ t', get_or_create_with_flags_at 3 (sample_flow 1000) sample_io (mkQuicFlowId 9) None false 50 50 sample_live
        = (Ok (mkSessionId 1), t') ∧ session_inv (port_range 40000 40003) t'.
Proof.
  pose proof (get_or_create_outcome (port_range 40000 40003) sample_live (sample_flow 1000) sample_io
    (mkQuicFlowId 9) None false 50 50 sample_live_inv ltac:(vm_compute; reflexivity)) as H.
  change (owner_worker_id sample_live) with 3%nat in H.
  destruct (get_or_create_with_flags_at 3 _ _ _ _ _ _ _ _) as [r t'] eqn:Hrun. destruct H as [Hi Hm].
  assert (by_key sample_live !! mkSessionKey (sample_flow 1000) (ifindex sample_io) = Some (mkSessionId 1)) as Hk
    by (vm_compute; reflexivity).
  rewrite Hk in Hm. destruct Hm as [-> _]. exists t'. split; [reflexivity|exact Hi].
Defined.

(** The TCP state of a session is a function of what its packets carried:
    [Reset] once any packet had RST; otherwise [Closing] exactly when FINs were
    seen in both directions, and one of the half-closed states when FINs were
    seen in one direction only. *)
Theorem tcp_state_of_history (events : list (option Z * bool)) :
  tcp_run events = Some (tcp_history_state (existsb is_rst events) (existsb (is_fin false) events)
                           (existsb (is_fin true) events)).
Proof. exact (tcp_run_history events false false false). Qed.
