(* ===== verification/QuicFlow.v ===== *)
(** QUIC flow ownership ([src/src/flow_plane/quic_flow.rs]) and the IO owner
    registry ([src/src/flow_plane/io_registry.rs]): which flow worker owns a
    destination connection ID, which tunnel queue a flow uses, and which owner
    serves an interface queue. *)
From S2P Require Import Prelude Net.

(** ** Hashing and static placement *)

Definition FNV_OFFSET_BASIS : Z := 0xcbf29ce484222325.
Definition FNV_PRIME : Z := 0x100000001b3.

Definition fnv1a (bs : bytes) : Z :=
  fold_left (λ hash byte, wrap 64 (Z.lxor hash byte * FNV_PRIME)) bs FNV_OFFSET_BASIS.

Record DcidOwner : Type := mkDcidOwner { do_flow_worker_id : nat; do_quic_flow_id : QuicFlowId }.
#[global] Instance DcidOwner_eq_dec : EqDecision DcidOwner.
Proof. solve_decision. Defined.

Record QuicFlow : Type := mkQuicFlow {
  qf_id : QuicFlowId;
  qf_flow_worker_id : nat;
  qf_tunnel_queue_id : Z;
}.

Inductive QuicFlowError : Type :=
| EmptyDcid
| ZeroWorkers
| ZeroTunnelQueues
| DuplicateDcid (owner : DcidOwner).

Definition quic_flow_new (id : QuicFlowId) (flow_worker_id : nat) (initial_dcid : bytes)
    (tunnel_queue_count : Z) : outcome QuicFlowError QuicFlow :=
  if decide (initial_dcid = []) then Err EmptyDcid else
  if decide (tunnel_queue_count = 0) then Err ZeroTunnelQueues else
  Ok (mkQuicFlow id flow_worker_id (wrap 32 (fnv1a initial_dcid mod tunnel_queue_count))).

Definition bootstrap_owner (dcid : bytes) (worker_count : Z) : outcome QuicFlowError Z :=
  if decide (dcid = []) then Err EmptyDcid else
  if decide (worker_count = 0) then Err ZeroWorkers else
  Ok (fnv1a dcid mod worker_count).

(** The owner an index entry records for a flow. *)
Definition owner_of (flow : QuicFlow) : DcidOwner := mkDcidOwner (qf_flow_worker_id flow) (qf_id flow).

(** ** The index of active connection IDs *)

Record ActiveDcidIndex : Type := mkDcidIndex {
  by_dcid : gmap bytes DcidOwner;
  staged_by_dcid : gmap bytes DcidOwner;
  by_flow : gmap QuicFlowId (gset bytes);
}.

(** [by_dcid.get(dcid).or_else(|| staged_by_dcid.get(dcid))]. *)
Definition dcid_resolve (i : ActiveDcidIndex) (dcid : bytes) : option DcidOwner :=
  match by_dcid i !! dcid with Some o => Some o | None => staged_by_dcid i !! dcid end.

(** [by_flow.entry(flow).or_default().insert(dcid)]. *)
Definition add_to_flow (flow : QuicFlowId) (dcid : bytes) (m : gmap QuicFlowId (gset bytes))
    : gmap QuicFlowId (gset bytes) :=
  <[flow := {[dcid]} ∪ default ∅ (m !! flow)]> m.

Definition stage_for_flow (dcid : bytes) (flow : QuicFlow) : ST ActiveDcidIndex QuicFlowError unit := λ i,
  if decide (dcid = []) then (Err EmptyDcid, i) else
  match dcid_resolve i dcid with
  | Some existing =>
      if decide (existing = owner_of flow) then (Ok tt, i) else (Err (DuplicateDcid existing), i)
  | None => (Ok tt, mkDcidIndex (by_dcid i) (<[dcid := owner_of flow]> (staged_by_dcid i)) (by_flow i))
  end.

Definition dcid_publish (dcid : bytes) (owner : DcidOwner) : ST ActiveDcidIndex QuicFlowError unit := λ i,
  if decide (dcid = []) then (Err EmptyDcid, i) else
  match by_dcid i !! dcid with
  | Some existing => if decide (existing = owner) then (Ok tt, i) else (Err (DuplicateDcid existing), i)
  | None =>
  match staged_by_dcid i !! dcid with
  | Some existing =>
      if decide (existing ≠ owner) then
        (Err (DuplicateDcid existing),
         mkDcidIndex (by_dcid i) (<[dcid := existing]> (delete dcid (staged_by_dcid i))) (by_flow i))
      else
        (Ok tt, mkDcidIndex (<[dcid := owner]> (by_dcid i)) (delete dcid (staged_by_dcid i))
                  (add_to_flow (do_quic_flow_id owner) dcid (by_flow i)))
  | None =>
      (Ok tt, mkDcidIndex (<[dcid := owner]> (by_dcid i)) (delete dcid (staged_by_dcid i))
                (add_to_flow (do_quic_flow_id owner) dcid (by_flow i)))
  end end.

Definition publish_for_flow (dcid : bytes) (flow : QuicFlow) : ST ActiveDcidIndex QuicFlowError unit :=
  dcid_publish dcid (owner_of flow).

(** The first loop of [publish_batch_for_flow]: checks every identifier and
    collects the distinct ones. *)
Fixpoint check_batch (i : ActiveDcidIndex) (owner : DcidOwner) (dcids : list bytes) (unique : list bytes)
    : outcome QuicFlowError (list bytes) :=
  match dcids with
  | [] => Ok unique
  | dcid :: dcids =>
      if decide (dcid = []) then Err EmptyDcid else
      if decide (dcid ∈ unique) then check_batch i owner dcids unique else
      match dcid_resolve i dcid with
      | Some existing =>
          if decide (existing ≠ owner) then Err (DuplicateDcid existing)
          else check_batch i owner dcids (unique ++ [dcid])
      | None => check_batch i owner dcids (unique ++ [dcid])
      end
  end.

(** The body of the second loop. *)
Definition publish_checked (owner : DcidOwner) (i : ActiveDcidIndex) (dcid : bytes) : ActiveDcidIndex :=
  mkDcidIndex (<[dcid := owner]> (by_dcid i)) (delete dcid (staged_by_dcid i))
    (add_to_flow (do_quic_flow_id owner) dcid (by_flow i)).

Definition publish_batch_for_flow (dcids : list bytes) (flow : QuicFlow)
    : ST ActiveDcidIndex QuicFlowError unit := λ i,
  match check_batch i (owner_of flow) dcids [] with
  | Ok unique => (Ok tt, fold_left (publish_checked (owner_of flow)) unique i)
  | Err e => (Err e, i)
  | Panic => (Panic, i)
  end.

Definition dcid_retire (dcid : bytes) (i : ActiveDcidIndex) : option DcidOwner * ActiveDcidIndex :=
  match dcid_resolve i dcid with
  | None => (None, i)
  | Some owner =>
      let active := delete dcid (by_dcid i) in
      let staged := match by_dcid i !! dcid with
                    | Some _ => staged_by_dcid i
                    | None => delete dcid (staged_by_dcid i)
                    end in
      let flows := match by_flow i !! do_quic_flow_id owner with
                   | Some dcids =>
                       let dcids' := dcids ∖ {[dcid]} in
                       if decide (dcids' = ∅) then delete (do_quic_flow_id owner) (by_flow i)
                       else <[do_quic_flow_id owner := dcids']> (by_flow i)
                   | None => by_flow i
                   end in
      (Some owner, mkDcidIndex active staged flows)
  end.

Definition retire_for_flow (dcid : bytes) (flow : QuicFlow) (i : ActiveDcidIndex)
    : option DcidOwner * ActiveDcidIndex :=
  if decide (dcid_resolve i dcid ≠ Some (owner_of flow)) then (None, i) else dcid_retire dcid i.

Definition close_flow (quic_flow_id : QuicFlowId) (i : ActiveDcidIndex) : nat * ActiveDcidIndex :=
  let '(removed, active, flows) :=
    match by_flow i !! quic_flow_id with
    | Some dcids =>
        (size dcids, fold_left (λ m dcid, delete dcid m) (elements dcids) (by_dcid i),
         delete quic_flow_id (by_flow i))
    | None => (0%nat, by_dcid i, by_flow i)
    end in
  (removed, mkDcidIndex active
              (filter (λ kv, do_quic_flow_id kv.2 ≠ quic_flow_id) (staged_by_dcid i)) flows).

Definition active_len (i : ActiveDcidIndex) : nat := size (by_dcid i).
Definition staged_len (i : ActiveDcidIndex) : nat := size (staged_by_dcid i).

(** ** The registry of IO owners *)

Section registry.
Context {T : Type}.

Record IoRegistry : Type := mkIoRegistry { owners : gmap IoOwnerKey T }.

Inductive RegistryError : Type := DuplicateOwner (key : IoOwnerKey).

Definition registry_new : IoRegistry := mkIoRegistry ∅.

Definition registry_register (key : IoOwnerKey) (owner : T) : ST IoRegistry RegistryError unit := λ r,
  match owners r !! key with
  | Some _ => (Err (DuplicateOwner key), r)
  | None => (Ok tt, mkIoRegistry (<[key := owner]> (owners r)))
  end.

Definition registry_get (r : IoRegistry) (key : IoOwnerKey) : option T := owners r !! key.
Definition registry_contains (r : IoRegistry) (key : IoOwnerKey) : bool := bool_decide (is_Some (owners r !! key)).
Definition registry_len (r : IoRegistry) : nat := size (owners r).
End registry.
Arguments IoRegistry : clear implicits.
