(* ===== verification/QuicFlowProps.v ===== *)
(** The index of active connection IDs: its two directions agree, ownership is
    never taken over, a batch is published atomically, and closing a flow removes
    exactly its identifiers. *)
From S2P Require Import Prelude Net QuicFlow.

(** ** Placement *)

Lemma fnv1a_range bs : fits 64 (fnv1a bs).
Proof.
  unfold fnv1a.
  assert (fits 64 FNV_OFFSET_BASIS) as H by (unfold fits, FNV_OFFSET_BASIS; lia). revert H.
  generalize FNV_OFFSET_BASIS. induction bs as [|b bs IH]; intros h Hh; [done|]. simpl. apply IH.
  unfold fits, wrap. apply Z.mod_pos_bound. lia.
Qed.

(** ** The invariant *)

Definition flow_mem (i : ActiveDcidIndex) (f : QuicFlowId) (d : bytes) : Prop :=
  ∃ ds, by_flow i !! f = Some ds ∧ d ∈ ds.

Record dcid_inv (i : ActiveDcidIndex) : Prop := {
  di_flow : ∀ f d, flow_mem i f d ↔ ∃ o, by_dcid i !! d = Some o ∧ do_quic_flow_id o = f;
  di_bucket : ∀ f ds, by_flow i !! f = Some ds → ds ≠ ∅;
  di_staged : ∀ d, is_Some (by_dcid i !! d) → staged_by_dcid i !! d = None;
  di_nonempty : dcid_resolve i [] = None;
}.

Definition dcid_empty : ActiveDcidIndex := mkDcidIndex ∅ ∅ ∅.

Lemma dcid_empty_inv : dcid_inv dcid_empty.
Proof.
  split; simpl; try done. intros f d. split; [by intros (? & ? & _)|by intros (? & ? & _)].
Qed.

Lemma add_to_flow_mem f d m f' d' :
  (∃ ds, add_to_flow f d m !! f' = Some ds ∧ d' ∈ ds) ↔
  (f' = f ∧ d' = d) ∨ (∃ ds, m !! f' = Some ds ∧ d' ∈ ds).
Proof.
  unfold add_to_flow. destruct (decide (f' = f)) as [->|Hf].
  - rewrite lookup_insert_eq. split.
    + intros (ds & [= <-] & [->%elem_of_singleton|Hd]%elem_of_union); [by left|].
      destruct (m !! f) as [ds|]; simpl in Hd; [right; by exists ds|set_solver].
    + intros Hd. eexists. split; [done|]. destruct Hd as [[_ ->]|(ds & -> & Hd)]; set_solver.
  - rewrite lookup_insert_ne by done. naive_solver.
Qed.

(** Publishing an identifier that is unowned or already [owner]'s. *)
Lemma publish_checked_inv owner i d : dcid_inv i → d ≠ [] →
  (dcid_resolve i d = None ∨ dcid_resolve i d = Some owner) →
  dcid_inv (publish_checked owner i d).
Proof.
  intros [Hf Hb Hs Hn] Hd Hr. unfold dcid_resolve in *. split; simpl.
  - intros f d'. unfold flow_mem. simpl. rewrite add_to_flow_mem. fold (flow_mem i f d'). rewrite Hf.
    setoid_rewrite lookup_insert_Some. split.
    + intros [[-> ->]|(o & Ho & <-)]; [exists owner; split; [by left|done]|].
      destruct (decide (d' = d)) as [->|]; [|exists o; split; [by right|done]].
      exists owner. split; [by left|]. rewrite Ho in Hr. destruct Hr as [?|[= ->]]; done.
    + intros (o & [[<- <-]|[? ?]] & <-); [by left|right; by exists o].
  - intros f ds. unfold add_to_flow. intros [[<- <-]|[? ?]]%lookup_insert_Some; [set_solver|eauto].
  - intros d' Hd'. destruct (decide (d' = d)) as [->|]; [by rewrite lookup_delete_eq|].
    rewrite lookup_insert_ne in Hd' by done. rewrite lookup_delete_ne by done. auto.
  - unfold dcid_resolve. simpl. rewrite lookup_insert_ne, lookup_delete_ne by done. exact Hn.
Qed.

Lemma publish_checked_resolve owner i d d' :
  dcid_resolve (publish_checked owner i d) d' = if decide (d' = d) then Some owner else dcid_resolve i d'.
Proof.
  unfold dcid_resolve. simpl. case_decide as Hd; [subst; by rewrite lookup_insert_eq|].
  by rewrite lookup_insert_ne, lookup_delete_ne by done.
Qed.

Lemma dcid_publish_cases d owner i :
  let run := dcid_publish d owner i in
  (dcid_resolve i d = None ∨ dcid_resolve i d = Some owner) ∧ d ≠ [] ∧ run.1 = Ok tt
    ∧ (run.2 = i ∧ dcid_resolve i d = Some owner ∨ run.2 = publish_checked owner i d)
  ∨ (∃ e, run = (Err e, i)).
Proof.
  unfold dcid_publish, dcid_resolve. case_decide; [right; by eexists|].
  destruct (by_dcid i !! d) as [o|] eqn:Ho.
  { case_decide; [subst|right; by eexists]. left. naive_solver. }
  destruct (staged_by_dcid i !! d) as [o|] eqn:Hs; [|left; naive_solver].
  case_decide as Hne; [|left; naive_solver].
  right. eexists. do 2 f_equal. rewrite insert_delete_id by done. by destruct i.
Qed.

Lemma dcid_publish_inv d owner i : dcid_inv i → dcid_inv (dcid_publish d owner i).2.
Proof.
  intros Hi. destruct (dcid_publish_cases d owner i) as [(Hr & Hd & _ & [[-> _]| ->])|(e & ->)];
    [done|by apply publish_checked_inv|done].
Qed.

Lemma stage_inv d flow i : dcid_inv i → dcid_inv (stage_for_flow d flow i).2.
Proof.
  intros Hi. unfold stage_for_flow. case_decide as Hd; [done|]. destruct (dcid_resolve i d) as [o|] eqn:Hr; [by case_decide|].
  simpl. unfold dcid_resolve in Hr. destruct (by_dcid i !! d) eqn:Ha; [done|].
  destruct Hi as [Hf Hb Hs Hn]. split; simpl; [done|done| |].
  - intros d' Hd'. rewrite lookup_insert_ne; [by apply Hs|]. intros ->. rewrite Ha in Hd'. by destruct Hd'.
  - unfold dcid_resolve in *. simpl. by rewrite lookup_insert_ne by done.
Qed.

(** ** Batches *)

(** A checked batch: the distinct identifiers, none of them empty or another
    owner's. *)
Lemma check_batch_spec i owner dcids : ∀ unique l, check_batch i owner dcids unique = Ok l →
  (∀ d, d ∈ l ↔ d ∈ unique ∨ d ∈ dcids) ∧
  (∀ d, d ∈ dcids → d ≠ []) ∧
  (∀ d, d ∈ l → d ∈ unique ∨ dcid_resolve i d = None ∨ dcid_resolve i d = Some owner).
Proof.
  induction dcids as [|x dcids IH]; intros unique l; simpl.
  - intros [= <-]. set_solver.
  - case_decide as Hx; [done|]. case_decide as Hu.
    { intros (H1 & H2 & H3)%IH. set_solver. }
    destruct (dcid_resolve i x) as [o|] eqn:Hr; [case_decide as Ho; [done|subst o]|];
      intros (H1 & H2 & H3)%IH; (split_and!; [set_solver|set_solver|]); intros d Hd;
      (destruct (H3 d Hd) as [Hd'|?]; [|by right]); apply elem_of_app in Hd' as [?| ->%list_elem_of_singleton]; auto.
Qed.

Lemma publish_all_spec owner l : ∀ i, dcid_inv i →
  (∀ d, d ∈ l → d ≠ [] ∧ (dcid_resolve i d = None ∨ dcid_resolve i d = Some owner)) →
  dcid_inv (fold_left (publish_checked owner) l i) ∧
  ∀ d, dcid_resolve (fold_left (publish_checked owner) l i) d
       = if decide (d ∈ l) then Some owner else dcid_resolve i d.
Proof.
  induction l as [|x l IH]; intros i Hi Hl; simpl.
  - split; [done|]. by intros d.
  - destruct (Hl x) as [Hx Hrx]; [apply list_elem_of_here|].
    destruct (IH (publish_checked owner i x)) as [Hinv Hres]; [by apply publish_checked_inv| |].
    { intros d Hd. destruct (Hl d) as [? ?]; [by apply list_elem_of_further|]. split; [done|].
      rewrite publish_checked_resolve. case_decide; [by right|done]. }
    split; [done|]. intros d. rewrite Hres, publish_checked_resolve.
    destruct (decide (d ∈ l)) as [Hd|Hd]; [by rewrite decide_True by (by apply list_elem_of_further)|].
    destruct (decide (d = x)) as [->|]; [by rewrite decide_True by apply list_elem_of_here|].
    rewrite decide_False; [done|]. rewrite elem_of_cons. tauto.
Qed.

Lemma publish_batch_inv dcids flow i : dcid_inv i → dcid_inv (publish_batch_for_flow dcids flow i).2.
Proof.
  intros Hi. unfold publish_batch_for_flow. destruct (check_batch _ _ _ _) as [l| |] eqn:Hc; [|done..].
  apply check_batch_spec in Hc as (H1 & H2 & H3). apply publish_all_spec; [done|].
  intros d Hd. destruct (proj1 (H1 d) Hd) as [?%not_elem_of_nil|Hd']; [done|]. split; [auto|].
  destruct (H3 d Hd) as [?%not_elem_of_nil|?]; done.
Qed.

(** ** Removal *)

Lemma dcid_retire_resolve d i d' : dcid_inv i →
  dcid_resolve (dcid_retire d i).2 d' = if decide (d' = d) then None else dcid_resolve i d'.
Proof.
  intros [_ _ Hs _]. unfold dcid_retire. destruct (dcid_resolve i d) as [o|] eqn:Hr.
  - unfold dcid_resolve in *. simpl. case_decide as Hd; [subst d'|].
    + rewrite lookup_delete_eq. destruct (by_dcid i !! d) eqn:Ha; [by apply Hs|by rewrite lookup_delete_eq].
    + rewrite lookup_delete_ne by done. destruct (by_dcid i !! d'); [done|].
      destruct (by_dcid i !! d); [done|by rewrite lookup_delete_ne].
  - simpl. case_decide; [by subst|done].
Qed.

Lemma dcid_retire_inv d i : dcid_inv i → dcid_inv (dcid_retire d i).2.
Proof.
  intros Hi. pose proof (dcid_retire_resolve d i [] Hi) as Hres. pose proof Hi as [Hf Hb Hs Hn].
  assert (dcid_resolve (dcid_retire d i).2 [] = None) as Hn' by (rewrite Hres; case_decide; done).
  clear Hres. unfold dcid_retire in *. destruct (dcid_resolve i d) as [o|] eqn:Hr; [|done]. simpl in *.
  set (flows := match by_flow i !! do_quic_flow_id o with Some _ => _ | None => _ end) in *.
  assert (∀ f d', (∃ ds, flows !! f = Some ds ∧ d' ∈ ds) ↔ flow_mem i f d' ∧ ¬ (f = do_quic_flow_id o ∧ d' = d)) as Hflows.
  { intros f d'. unfold flows, flow_mem. destruct (by_flow i !! do_quic_flow_id o) as [ds|] eqn:E; [|naive_solver].
    destruct (decide (f = do_quic_flow_id o)) as [->|Hne].
    - rewrite E. case_decide as He; [rewrite lookup_delete_eq|rewrite lookup_insert_eq]; split.
      + by intros (? & ? & _).
      + intros [(ds' & [= <-] & Hd) Hx]. assert (d' ≠ d) by naive_solver. set_solver.
      + intros (ds' & [= <-] & [? ?]%elem_of_difference). split; [by exists ds|set_solver].
      + intros [(ds' & [= <-] & Hd) Hx]. eexists. split; [done|]. assert (d' ≠ d) by naive_solver. set_solver.
    - case_decide as He; [rewrite lookup_delete_ne by done|rewrite lookup_insert_ne by done]; naive_solver. }
  split; [| | |done].
  - intros f d'. unfold flow_mem at 1. simpl. rewrite Hflows, Hf. setoid_rewrite lookup_delete_Some. split.
    + intros [(x & Hx & <-) Hne]. exists x. split_and!; [|done|done]. intros <-. apply Hne.
      unfold dcid_resolve in Hr. rewrite Hx in Hr. by injection Hr as ->.
    + intros (x & [Hne Hx] & <-). split; [by exists x|]. naive_solver.
  - intros f ds Hds. simpl in Hds. unfold flows in Hds.
    destruct (by_flow i !! do_quic_flow_id o) as [ds'|] eqn:E; [|by eapply Hb].
    case_decide; [apply lookup_delete_Some in Hds as [_ ?]; by eapply Hb|].
    apply lookup_insert_Some in Hds as [[_ <-]|[_ ?]]; [done|by eapply Hb].
  - simpl. intros d' [x [Hne Hx]%lookup_delete_Some]. destruct (by_dcid i !! d) eqn:E; [by apply Hs|].
    rewrite lookup_delete_ne by done. by apply Hs.
Qed.

Lemma fold_delete_lookup (l : list bytes) (m : gmap bytes DcidOwner) d :
  fold_left (λ m d, delete d m) l m !! d = if decide (d ∈ l) then None else m !! d.
Proof.
  revert m. induction l as [|x l IH]; intros m; simpl; [done|]. rewrite IH.
  destruct (decide (d ∈ l)) as [Hd|Hd]; [by rewrite decide_True by (by apply list_elem_of_further)|].
  destruct (decide (d = x)) as [->|Hne].
  - by rewrite decide_True, lookup_delete_eq by apply list_elem_of_here.
  - rewrite decide_False by (rewrite elem_of_cons; tauto). by rewrite lookup_delete_ne.
Qed.

(** The active identifiers after a flow is closed. *)
Lemma close_flow_active f i d : dcid_inv i →
  by_dcid (close_flow f i).2 !! d
  = match by_dcid i !! d with Some o => if decide (do_quic_flow_id o = f) then None else Some o | None => None end.
Proof.
  intros [Hf Hb Hs Hn]. pose proof (Hf f d) as Hfd. unfold flow_mem in Hfd. unfold close_flow.
  destruct (by_flow i !! f) as [ds|] eqn:E; simpl.
  - rewrite fold_delete_lookup. case_decide as Hd.
    + apply elem_of_elements in Hd. destruct (proj1 Hfd) as (o & -> & <-); [by exists ds|]. by rewrite decide_True.
    + destruct (by_dcid i !! d) as [o|]; [|done]. case_decide as Ho; [|done]. destruct Hd.
      apply elem_of_elements. destruct (proj2 Hfd) as (ds' & [= <-] & ?); [by exists o|done].
  - destruct (by_dcid i !! d) as [o|] eqn:Ho; [|done]. case_decide as Hof; [|done].
    destruct (proj2 Hfd) as (ds' & ? & _); [by exists o|done].
Qed.

Lemma close_flow_resolve f i d : dcid_inv i →
  dcid_resolve (close_flow f i).2 d
  = match dcid_resolve i d with Some o => if decide (do_quic_flow_id o = f) then None else Some o | None => None end.
Proof.
  intros Hi. pose proof (di_staged _ Hi d) as Hs. unfold dcid_resolve. rewrite close_flow_active by done.
  assert (staged_by_dcid (close_flow f i).2 = filter (λ kv, do_quic_flow_id kv.2 ≠ f) (staged_by_dcid i)) as ->.
  { unfold close_flow. by destruct (by_flow i !! f). }
  rewrite map_lookup_filter.
  destruct (by_dcid i !! d) as [o|].
  - rewrite Hs by done. simpl. by case_decide.
  - destruct (staged_by_dcid i !! d) as [o|]; simpl; [|done]. by repeat case_guard; case_decide.
Qed.

Lemma close_flow_inv f i : dcid_inv i → dcid_inv (close_flow f i).2.
Proof.
  intros Hi. pose proof (λ d, close_flow_active f i d Hi) as Ha.
  assert (dcid_resolve (close_flow f i).2 [] = None) as Hn'.
  { rewrite close_flow_resolve by done. by rewrite (di_nonempty _ Hi). }
  destruct Hi as [Hf Hb Hs Hn].
  assert (by_flow (close_flow f i).2 = delete f (by_flow i)) as Hfl.
  { unfold close_flow. destruct (by_flow i !! f) eqn:E; [done|]. simpl. by rewrite delete_id. }
  split; [| | |done].
  - intros f' d. unfold flow_mem. rewrite Hfl, Ha. setoid_rewrite lookup_delete_Some.
    specialize (Hf f' d). unfold flow_mem in Hf. split.
    + intros (ds & [Hne Hds] & Hd). destruct (proj1 Hf) as (o & -> & <-); [by exists ds|].
      exists o. by rewrite decide_False.
    + intros (o & Ho & <-). destruct (by_dcid i !! d) as [x|] eqn:Hx; [|done]. case_decide as Hne; [done|].
      injection Ho as ->. destruct (proj2 Hf) as (ds & ? & ?); [by exists o|]. by exists ds.
  - intros f' ds. rewrite Hfl. intros [_ ?]%lookup_delete_Some. by eapply Hb.
  - intros d [o Ho]. rewrite Ha in Ho. destruct (by_dcid i !! d) as [x|] eqn:Hx; [|done].
    assert (staged_by_dcid i !! d = None) as Hnone by (apply Hs; by rewrite Hx).
    unfold close_flow. destruct (by_flow i !! f); simpl; by rewrite map_lookup_filter, Hnone.
Qed.

(** ** Sequences of operations *)

Inductive dcid_op : Type :=
| Stage (dcid : bytes) (flow : QuicFlow)
| PublishOne (dcid : bytes) (flow : QuicFlow)
| PublishBatch (dcids : list bytes) (flow : QuicFlow)
| RetireAny (dcid : bytes)
| RetireFor (dcid : bytes) (flow : QuicFlow)
| CloseFlow (flow : QuicFlowId).

Definition dcid_step (i : ActiveDcidIndex) (op : dcid_op) : ActiveDcidIndex :=
  match op with
  | Stage d flow => (stage_for_flow d flow i).2
  | PublishOne d flow => (publish_for_flow d flow i).2
  | PublishBatch ds flow => (publish_batch_for_flow ds flow i).2
  | RetireAny d => (dcid_retire d i).2
  | RetireFor d flow => (retire_for_flow d flow i).2
  | CloseFlow f => (close_flow f i).2
  end.

Definition dcid_run (ops : list dcid_op) (i : ActiveDcidIndex) : ActiveDcidIndex := fold_left dcid_step ops i.

Lemma dcid_step_inv i op : dcid_inv i → dcid_inv (dcid_step i op).
Proof.
  intros Hi. destruct op; simpl; auto using stage_inv, dcid_publish_inv, publish_batch_inv, dcid_retire_inv, close_flow_inv.
  - by apply dcid_publish_inv.
  - unfold retire_for_flow. case_decide; [done|by apply dcid_retire_inv].
Qed.

Lemma dcid_run_inv ops i : dcid_inv i → dcid_inv (dcid_run ops i).
Proof. revert i. induction ops as [|op ops IH]; intros i Hi; [done|]. by apply IH, dcid_step_inv. Qed.

(** The operations that end the ownership of [d] by [o]. *)
Definition releases (d : bytes) (o : DcidOwner) (op : dcid_op) : Prop :=
  match op with
  | RetireAny d' => d' = d
  | RetireFor d' flow => d' = d ∧ owner_of flow = o
  | CloseFlow f => f = do_quic_flow_id o
  | _ => False
  end.

Lemma dcid_step_owner i op d o : dcid_inv i → dcid_resolve i d = Some o → ¬ releases d o op →
  dcid_resolve (dcid_step i op) d = Some o.
Proof.
  intros Hi Hr Hn. destruct op as [d' flow|d' flow|ds flow|d'|d' flow|f]; simpl in *.
  - unfold stage_for_flow. case_decide; [done|]. destruct (dcid_resolve i d') eqn:Hr'; [by case_decide|].
    simpl. unfold dcid_resolve in *. simpl. destruct (by_dcid i !! d) eqn:Ha; [done|].
    rewrite lookup_insert_ne; [done|]. intros ->. by rewrite Ha, Hr in Hr'.
  - destruct (dcid_publish_cases d' (owner_of flow) i) as [(H1 & _ & _ & [[H2 _]|H2])|(e & H2)];
      unfold publish_for_flow; rewrite H2; [done| |done].
    rewrite publish_checked_resolve. case_decide; [subst d'|done]. rewrite Hr in H1. naive_solver.
  - unfold publish_batch_for_flow. destruct (check_batch _ _ _ _) as [l| |] eqn:Hc; [|done..].
    apply check_batch_spec in Hc as (H1 & H2 & H3). simpl.
    rewrite (proj2 (publish_all_spec (owner_of flow) l i Hi ltac:(intros x Hx; split;
      [destruct (proj1 (H1 x) Hx) as [?%not_elem_of_nil|]; [done|auto]|
       destruct (H3 x Hx) as [?%not_elem_of_nil|?]; done]))).
    case_decide as Hd; [|done]. destruct (H3 d Hd) as [?%not_elem_of_nil|[?|?]]; congruence.
  - rewrite dcid_retire_resolve by done. by rewrite decide_False by congruence.
  - unfold retire_for_flow. case_decide as Hne; [done|]. rewrite dcid_retire_resolve by done.
    rewrite decide_False; [done|]. intros <-. apply Hn. split; [done|]. congruence.
  - rewrite close_flow_resolve, Hr by done. by rewrite decide_False by congruence.
Qed.

(** ** The ownership properties *)

Definition sample_quic_flow (n : Z) : QuicFlow := mkQuicFlow (mkQuicFlowId n) 1 0.
Definition sample_index : ActiveDcidIndex :=
  dcid_run [Stage [1; 2] (sample_quic_flow 7); PublishBatch [[1; 2]; [3]; [3]] (sample_quic_flow 7);
            PublishOne [9] (sample_quic_flow 8)] dcid_empty.

Lemma sample_index_inv : dcid_inv sample_index.
Proof. apply dcid_run_inv, dcid_empty_inv. Qed.

(** Whatever sequence of operations built the connection-ID index, an
    identifier that resolves to an owner keeps resolving to that owner until it
    is retired or its flow is closed: no staging, publication or batch of another
    flow, and no retirement on behalf of another flow, takes it over. *)
Theorem dcid_owner_stable (history ops : list dcid_op) (d : bytes) (o : DcidOwner) :
  dcid_resolve (dcid_run history dcid_empty) d = Some o →
  Forall (λ op, ¬ releases d o op) ops →
  dcid_resolve (dcid_run ops (dcid_run history dcid_empty)) d = Some o.
Proof.
  assert (dcid_inv (dcid_run history dcid_empty)) as Hi by apply dcid_run_inv, dcid_empty_inv.
  revert Hi. generalize (dcid_run history dcid_empty). intros i Hi Hr Hops. revert i Hi Hr.
  induction Hops as [|op ops Hop _ IH]; intros i Hi Hr; [done|].
  apply IH; [by apply dcid_step_inv|by apply dcid_step_owner].
Qed.

Lemma dcid_owner_stable_witness :
  dcid_resolve (dcid_run [PublishOne [1; 2] (sample_quic_flow 8); CloseFlow (mkQuicFlowId 8)] sample_index) [1; 2]
  = Some (owner_of (sample_quic_flow 7)).
Proof.
  apply (dcid_owner_stable [Stage [1; 2] (sample_quic_flow 7);
    PublishBatch [[1; 2]; [3]; [3]] (sample_quic_flow 7); PublishOne [9] (sample_quic_flow 8)]); [vm_compute; reflexivity|].
  constructor; [by intros []|]. constructor; [|constructor]. by intros [= ].
Defined.

(** C39: A batch of connection IDs is published atomically: an error leaves the
    index exactly as it was; success makes every identifier of the batch resolve
    to the flow and changes no other. *)
Theorem publish_batch_atomic (dcids : list bytes) (flow : QuicFlow) (i : ActiveDcidIndex) :
  dcid_inv i →
  let '(r, i') := publish_batch_for_flow dcids flow i in
  match r with
  | Ok _ => dcid_inv i' ∧
      ∀ d, dcid_resolve i' d = if decide (d ∈ dcids) then Some (owner_of flow) else dcid_resolve i d
  | Err _ => i' = i
  | Panic => False
  end.
Proof.
  intros Hi. pose proof (publish_batch_inv dcids flow i Hi) as Hinv. unfold publish_batch_for_flow in *.
  destruct (check_batch i (owner_of flow) dcids []) as [l| |] eqn:Hc; [|done|].
  - split; [done|]. apply check_batch_spec in Hc as (H1 & H2 & H3). intros d.
    rewrite (proj2 (publish_all_spec (owner_of flow) l i Hi ltac:(intros x Hx; split;
      [destruct (proj1 (H1 x) Hx) as [?%not_elem_of_nil|]; [done|auto]|
       destruct (H3 x Hx) as [?%not_elem_of_nil|?]; done]))).
    pose proof (H1 d) as Hd. rewrite (right_id False or) in Hd || setoid_rewrite elem_of_nil in Hd.
    repeat case_decide; tauto || done.
  - exfalso. revert Hc. generalize (@nil bytes). induction dcids as [|x ds IH]; intros u; simpl; [done|].
    destruct (dcid_resolve i x); repeat case_decide; try done; apply IH.
Qed.

Lemma publish_batch_atomic_witness :
  let '(r, i') := publish_batch_for_flow [[5]; [9]] (sample_quic_flow 7) sample_index in i' = sample_index.
Proof.
  pose proof (publish_batch_atomic [[5]; [9]] (sample_quic_flow 7) sample_index sample_index_inv) as H.
  destruct (publish_batch_for_flow _ _ _) as [[[]|e|] i'] eqn:E; [by vm_compute in E|exact H|destruct H].
Defined.

(** Closing a flow removes all of its connection IDs, active and staged, and
    no other flow's, and returns how many were active. *)
Theorem close_flow_exact (f : QuicFlowId) (i : ActiveDcidIndex) :
  dcid_inv i →
  let '(removed, i') := close_flow f i in
  dcid_inv i'
  ∧ (∀ d o, dcid_resolve i' d = Some o ↔ dcid_resolve i d = Some o ∧ do_quic_flow_id o ≠ f)
  ∧ (removed + active_len i')%nat = active_len i.
Proof.
  intros Hi. pose proof (close_flow_inv f i Hi) as Hinv. pose proof (λ d, close_flow_resolve f i d Hi) as Hr.
  pose proof (λ d, close_flow_active f i d Hi) as Ha.
  destruct (close_flow f i) as [removed i'] eqn:E. simpl in *. split_and!; [done| |].
  - intros d o. rewrite Hr. destruct (dcid_resolve i d) as [x|]; [|naive_solver]. case_decide; naive_solver.
  - unfold active_len. rewrite <- !size_dom. unfold close_flow in E.
    destruct (by_flow i !! f) as [ds|] eqn:Hf.
    + injection E as <- <-. rewrite <- size_union.
      * f_equal. apply set_eq. intros d. rewrite elem_of_union, !elem_of_dom. simpl in Ha. simpl. rewrite Ha.
        pose proof (di_flow _ Hi f d) as Hd. unfold flow_mem in Hd. rewrite Hf in Hd. split.
        -- intros [Hin|Hin]; [destruct (proj1 Hd) as (o & -> & _); [by exists ds|done]|].
           destruct (by_dcid i !! d); [done|by destruct Hin].
        -- intros [o Ho]. rewrite Ho. case_decide as Hof; [|by right]. left.
           destruct (proj2 Hd) as (ds' & [= <-] & ?); [by exists o|done].
      * intros d Hin [o Ho]%elem_of_dom. simpl in Ha, Ho. rewrite Ha in Ho.
        destruct (proj1 (di_flow _ Hi f d)) as (x & Hx & Hxf); [by exists ds|]. rewrite Hx in Ho. by case_decide.
    + by injection E as <- <-.
Qed.

Lemma close_flow_exact_witness : ((close_flow (mkQuicFlowId 7) sample_index).1
  + active_len (close_flow (mkQuicFlowId 7) sample_index).2)%nat = active_len sample_index.
Proof.
  pose proof (close_flow_exact (mkQuicFlowId 7) sample_index sample_index_inv) as H.
  destruct (close_flow (mkQuicFlowId 7) sample_index) as [r i']. exact (proj2 (proj2 H)).
Defined.

(** Static placement is total and in range: a non-empty connection ID maps to
    an existing worker, and a flow's tunnel queue is one of the queues. *)
Theorem placement_in_range (id : QuicFlowId) (worker : nat) (dcid : bytes) (worker_count queue_count : Z) :
  dcid ≠ [] → 0 < worker_count → 0 < queue_count < 2 ^ 32 →
  (∃ w, bootstrap_owner dcid worker_count = Ok w ∧ 0 ≤ w < worker_count)
  ∧ (∃ flow, quic_flow_new id worker dcid queue_count = Ok flow
       ∧ 0 ≤ qf_tunnel_queue_id flow < queue_count ∧ owner_of flow = mkDcidOwner worker id).
Proof.
  intros Hd Hw Hq. split.
  - eexists. unfold bootstrap_owner. rewrite !decide_False by (done || lia). split; [done|].
    apply Z.mod_pos_bound. lia.
  - eexists. unfold quic_flow_new. rewrite !decide_False by (done || lia). split; [done|]. simpl.
    pose proof (Z.mod_pos_bound (fnv1a dcid) queue_count). unfold wrap. rewrite Z.mod_small by lia. split; [lia|done].
Qed.

Lemma placement_in_range_witness : ∃ w, bootstrap_owner [1; 2; 3; 4; 5; 6; 7; 8] 4 = Ok w ∧ 0 ≤ w < 4.
Proof. apply (placement_in_range (mkQuicFlowId 1) 0 [1; 2; 3; 4; 5; 6; 7; 8] 4 8); [done|lia|lia]. Defined.
