(* ===== verification/Dns.v ===== *)
(** DNS interception ([src/src/flow_plane/dns.rs]): the message walker (names,
    compression pointers, resource records), the domain rules that route a query,
    the EDNS payload clamp and the transaction table.

    A domain name is the byte string of its ASCII text.  Offsets are [nat]: they
    stay below [payload.len() + 65600], so [checked_add] on [usize] never fails.
    [std::str::from_utf8] in [normalize_label] is applied to ASCII letters,
    digits and hyphens only, where it succeeds. *)
From S2P Require Import Prelude Net NatTable QuicFlow.

Definition DNS_PAYLOAD_MAX : Z := 1232.

Record DnsQuestion : Type := mkDnsQuestion { qname : bytes; qtype : Z; qclass : Z }.
#[global] Instance DnsQuestion_eq_dec : EqDecision DnsQuestion.
Proof. solve_decision. Defined.

Inductive DnsRoute : Type :=
| Local (question : DnsQuestion)
| Remote (question : DnsQuestion)
| LocalFallback.

Inductive DnsTransactionKey : Type :=
| Question (client : SocketAddr) (id : Z) (name : bytes) (typ class : Z)
| Opaque (client : SocketAddr) (id : option Z) (payload_hash : Z).

Record DnsReverseKey : Type := mkDnsReverseKey { rk_resolver : SocketAddr; rk_nat_ip : IpAddr; rk_nat_port : Z }.

#[global] Instance DnsTransactionKey_eq_dec : EqDecision DnsTransactionKey.
Proof. solve_decision. Defined.
#[global] Instance DnsTransactionKey_countable : Countable DnsTransactionKey.
Proof.
  refine (inj_countable'
    (λ k, match k with Question c i n t l => inl (c, i, n, t, l) | Opaque c i h => inr (c, i, h) end)
    (λ s, match s with inl (c, i, n, t, l) => Question c i n t l | inr (c, i, h) => Opaque c i h end) _).
  by intros [].
Defined.
#[global] Instance DnsReverseKey_eq_dec : EqDecision DnsReverseKey.
Proof. solve_decision. Defined.
#[global] Instance DnsReverseKey_countable : Countable DnsReverseKey.
Proof.
  refine (inj_countable' (λ k, (rk_resolver k, rk_nat_ip k, rk_nat_port k))
    (λ '(r, i, p), mkDnsReverseKey r i p) _).
  by intros [].
Defined.

Record DnsTransaction : Type := mkDnsTransaction {
  tx_id : Z;
  tx_key : DnsTransactionKey;
  tx_client : SocketAddr;
  tx_resolver : SocketAddr;
  tx_nat_ip : IpAddr;
  tx_nat_port : Z;
}.
#[global] Instance DnsTransaction_eq_dec : EqDecision DnsTransaction.
Proof. solve_decision. Defined.

Inductive DnsError : Type :=
| Truncated
| NonStandardOpcode
| QuestionCount
| MalformedName
| CapacityExhausted
| NatPortExhausted
| DnsInvalidPortRange
| ResponseMismatch
| NotQuery.

(** ** Names *)

Definition dot : Z := 46.
Definition hyphen : Z := 45.

Definition is_ascii_alphanumeric (b : Z) : Prop := 48 ≤ b ≤ 57 ∨ 65 ≤ b ≤ 90 ∨ 97 ≤ b ≤ 122.
#[global] Instance is_ascii_alphanumeric_dec b : Decision (is_ascii_alphanumeric b).
Proof. unfold is_ascii_alphanumeric. apply _. Defined.

Definition to_ascii_lowercase (b : Z) : Z := if decide (65 ≤ b ≤ 90) then b + 32 else b.

Definition label_byte (b : Z) : Prop := is_ascii_alphanumeric b ∨ b = hyphen.
#[global] Instance label_byte_dec b : Decision (label_byte b).
Proof. unfold label_byte. apply _. Defined.

Definition normalize_label (label : bytes) : outcome DnsError bytes :=
  if decide (label = [] ∨ head label = Some hyphen ∨ last label = Some hyphen ∨ ¬ Forall label_byte label)
  then Err MalformedName
  else Ok (to_ascii_lowercase <$> label).

(** [labels.join(".")]. *)
Fixpoint join_labels (labels : list bytes) : bytes :=
  match labels with
  | [] => []
  | [l] => l
  | l :: ls => l ++ dot :: join_labels ls
  end.

Definition get_byte (payload : bytes) (offset : nat) : outcome DnsError Z :=
  ok_or (payload !! offset) Truncated.

(** [(usize::from(first & 0x3f) << 8) | usize::from(next)]. *)
Definition name_pointer (first next : Z) : nat := Z.to_nat (Z.lor (Z.shiftl (Z.land first 0x3f) 8) next).

(** The loop of [parse_name]: [n] of its 128 rounds are left. *)
Fixpoint parse_name_loop (n : nat) (payload : bytes) (offset : nat) (labels : list bytes)
    (next_offset : option nat) (seen : list nat) : outcome DnsError (bytes * nat) :=
  match n with
  | O => Err MalformedName
  | S n =>
      if decide (offset ∈ seen) then Err MalformedName else
      let seen := offset :: seen in
      let? length8 := get_byte payload offset in
      if decide (Z.land length8 0xc0 = 0xc0) then
        let? next := get_byte payload (offset + 1) in
        let pointer := name_pointer length8 next in
        if decide (length payload ≤ pointer)%nat then Err MalformedName else
        parse_name_loop n payload pointer labels
          (match next_offset with Some e => Some e | None => Some (offset + 2)%nat end) seen
      else if decide (Z.land length8 0xc0 ≠ 0) then Err MalformedName else
      let offset := (offset + 1)%nat in
      if decide (length8 = 0) then
        let end_ := default offset next_offset in
        if decide (labels = []) then Err MalformedName else Ok (join_labels labels, end_)
      else
        let len := Z.to_nat length8 in
        if decide (63 < len)%nat then Err MalformedName else
        let? label := ok_or (get_range payload offset (offset + len)) Truncated in
        let? label := normalize_label label in
        parse_name_loop n payload (offset + len) (labels ++ [label]) next_offset seen
  end.

Definition parse_name (payload : bytes) (offset : nat) : outcome DnsError (bytes * nat) :=
  parse_name_loop 128 payload offset [] None [].

Definition validate_name_pointer (payload : bytes) (offset owner_start : nat) : outcome DnsError unit :=
  let? next := get_byte payload (offset + 1) in
  let? first := idx payload offset in
  let pointer := name_pointer first next in
  if decide (owner_start ≤ pointer)%nat then Err MalformedName else
  let? _ := parse_name payload pointer in
  Ok tt.

Fixpoint skip_name_loop (n : nat) (payload : bytes) (start offset : nat) : outcome DnsError nat :=
  match n with
  | O => Err MalformedName
  | S n =>
      let? length8 := get_byte payload offset in
      if decide (Z.land length8 0xc0 = 0xc0) then
        let? _ := validate_name_pointer payload offset start in
        Ok (offset + 2)%nat
      else if decide (Z.land length8 0xc0 ≠ 0) then Err MalformedName else
      let offset := (offset + 1)%nat in
      if decide (length8 = 0) then Ok offset else
      let offset := (offset + Z.to_nat length8)%nat in
      if decide (length payload < offset)%nat then Err Truncated else
      skip_name_loop n payload start offset
  end.

Definition skip_name (payload : bytes) (offset : nat) : outcome DnsError nat :=
  skip_name_loop 128 payload offset offset.

Definition skip_resource_record (payload : bytes) (offset : nat) : outcome DnsError nat :=
  let? offset := skip_name payload offset in
  let? rr := ok_or (get_range payload offset (offset + 10)) Truncated in
  let? rdlength := rd16 rr 8 in
  let offset := (offset + 10 + Z.to_nat rdlength)%nat in
  if decide (length payload < offset)%nat then Err Truncated else Ok offset.

(** [for _ in 0..count { offset = skip_resource_record(payload, offset)?; }]. *)
Fixpoint skip_records (count : nat) (payload : bytes) (offset : nat) : outcome DnsError nat :=
  match count with
  | O => Ok offset
  | S count => let? offset := skip_resource_record payload offset in skip_records count payload offset
  end.

(** ** Messages *)

Definition dns_header (payload : bytes) : outcome DnsError bytes := ok_or (get_range payload 0 12) Truncated.

Definition dns_id (payload : bytes) : option Z :=
  match get_range payload 0 2 with
  | Some header => Some (be16 (byte_at header 0) (byte_at header 1))
  | None => None
  end.

Definition parse_question_fields (payload : bytes) : outcome DnsError DnsQuestion :=
  let? header := dns_header payload in
  let? qdcount := rd16 header 4 in
  if decide (qdcount ≠ 1) then Err QuestionCount else
  let? '(name, offset) := parse_name payload 12 in
  let? fields := ok_or (get_range payload offset (offset + 4)) Truncated in
  let? typ := rd16 fields 0 in
  let? class := rd16 fields 2 in
  Ok (mkDnsQuestion name typ class).

Definition parse_question (payload : bytes) : outcome DnsError DnsQuestion :=
  let? header := dns_header payload in
  let? flags := rd16 header 2 in
  if decide (Z.land flags 0x8000 ≠ 0) then Err NotQuery else
  if decide (Z.land flags 0x7800 ≠ 0) then Err NonStandardOpcode else
  parse_question_fields payload.

Definition validate_message (payload : bytes) (response : bool) : outcome DnsError DnsQuestion :=
  let? header := dns_header payload in
  let? flags := rd16 header 2 in
  if decide (bool_decide (Z.land flags 0x8000 ≠ 0) ≠ response)
  then Err (if response then ResponseMismatch else NotQuery) else
  if decide (Z.land flags 0x7800 ≠ 0) then Err NonStandardOpcode else
  let? question := parse_question_fields payload in
  let? ancount := rd16 header 6 in
  let? nscount := rd16 header 8 in
  let? arcount := rd16 header 10 in
  let? offset := skip_name payload 12 in
  let count := saturating_add 16 (saturating_add 16 ancount nscount) arcount in
  let? offset := skip_records (Z.to_nat count) payload (offset + 4) in
  if decide (offset ≠ length payload) then Err Truncated else Ok question.

Definition validate_query (payload : bytes) : outcome DnsError DnsQuestion := validate_message payload false.

Definition response_matches_query (query response : bytes) : outcome DnsError unit :=
  let? query_id := ok_or (dns_id query) Truncated in
  let? response_id := ok_or (dns_id response) Truncated in
  if decide (response_id ≠ query_id) then Err ResponseMismatch else
  let? header := dns_header response in
  let? flags := rd16 header 2 in
  if decide (Z.land flags 0x8000 = 0 ∨ Z.land flags 0x7800 ≠ 0) then Err ResponseMismatch else
  let? query_question := map_err (λ _, ResponseMismatch) (parse_question query) in
  let? response_question := map_err (λ _, ResponseMismatch) (validate_message response true) in
  if decide (response_question ≠ query_question) then Err ResponseMismatch else Ok tt.

(** ** The EDNS clamp *)

(** The question loop. *)
Fixpoint skip_questions (count : nat) (payload : bytes) (offset : nat) : outcome DnsError nat :=
  match count with
  | O => Ok offset
  | S count =>
      let? offset := skip_name payload offset in
      let offset := (offset + 4)%nat in
      if decide (length payload < offset)%nat then Err Truncated else
      skip_questions count payload offset
  end.

(** The additional-section loop. *)
Fixpoint clamp_records (count : nat) (offset : nat) (clamped : bool) : ST bytes DnsError (nat * bool) :=
  match count with
  | O => sret (offset, clamped)
  | S count =>
      let! offset := sreads (λ payload, skip_name payload offset) in
      let! rr := sreads (λ payload, ok_or (get_range payload offset (offset + 10)) Truncated) in
      let! rr_type := slift (rd16 rr 0) in
      let! rdlength := slift (rd16 rr 8) in
      let! clamped :=
        (if decide (rr_type = 41) then
           let! advertised := slift (rd16 rr 2) in
           if decide (DNS_PAYLOAD_MAX < advertised) then
             write_at (offset + 2) (be_bytes 2 DNS_PAYLOAD_MAX) ;;;
             sret true
           else sret clamped
         else sret clamped) in
      let offset := (offset + 10 + Z.to_nat rdlength)%nat in
      let! payload := sget in
      if decide (length payload < offset)%nat then serr Truncated else
      clamp_records count offset clamped
  end.

Definition clamp_edns_udp_payload : ST bytes DnsError bool :=
  let! header := sreads dns_header in
  let! qdcount := slift (rd16 header 4) in
  let! ancount := slift (rd16 header 6) in
  let! nscount := slift (rd16 header 8) in
  let! arcount := slift (rd16 header 10) in
  let! offset := sreads (λ payload, skip_questions (Z.to_nat qdcount) payload 12) in
  let! offset := sreads (λ payload, skip_records (Z.to_nat (saturating_add 16 ancount nscount)) payload offset) in
  let! walked := clamp_records (Z.to_nat arcount) offset false in
  let! payload := sget in
  if decide (walked.1 ≠ length payload) then serr Truncated else sret walked.2.

(** ** Routing rules *)

Record RemoteDomainRules : Type := mkRules { suffixes : gset bytes }.

Definition rules_new (domains : list bytes) : RemoteDomainRules := mkRules (list_to_set domains).

(** The suffixes after each ['.'], as [match_indices] finds them. *)
Fixpoint suffixes_after_dots (name : bytes) : list bytes :=
  match name with
  | [] => []
  | b :: rest => if decide (b = dot) then rest :: suffixes_after_dots rest else suffixes_after_dots rest
  end.

Definition rules_match (rules : RemoteDomainRules) (name : bytes) : bool :=
  bool_decide (name ∈ suffixes rules)
  || existsb (λ s, bool_decide (s ∈ suffixes rules)) (suffixes_after_dots name).

(** [qname.strip_suffix(rule)]. *)
Definition strip_suffix (rule name : bytes) : option bytes :=
  let k := (length name - length rule)%nat in
  if decide (length rule ≤ length name ∧ drop k name = rule)%nat then Some (take k name) else None.

Definition domain_matches (rule name : bytes) : bool :=
  bool_decide (name = rule)
  || match strip_suffix rule name with
     | Some prefix => bool_decide (last prefix = Some dot)
     | None => false
     end.

Definition classify_query (payload : bytes) (remote_domains : RemoteDomainRules) : outcome DnsError DnsRoute :=
  match validate_query payload with
  | Ok question =>
      if rules_match remote_domains (qname question) then Ok (Remote question) else Ok (Local question)
  | Err _ => Ok LocalFallback
  | Panic => Panic
  end.

Definition transaction_key (client : SocketAddr) (payload : bytes) : outcome DnsError DnsTransactionKey :=
  match validate_query payload with
  | Ok question =>
      let? id := expect (dns_id payload) in
      Ok (Question client id (qname question) (qtype question) (qclass question))
  | Err _ => Ok (Opaque client (dns_id payload) (fnv1a payload))
  | Panic => Panic
  end.

(** ** The transaction table *)

Record DnsTransactionTable : Type := mkDnsTable {
  dt_capacity : nat;
  dt_nat_ip : IpAddr;
  dt_available_ports : gset Z;
  dt_next_id : Z;
  dt_by_key : gmap DnsTransactionKey DnsTransaction;
  dt_by_id : gmap Z DnsTransactionKey;
  dt_reverse : gmap DnsReverseKey Z;
}.

Definition dns_table_new (capacity : nat) (nat_ip : IpAddr) (lo hi : Z) : outcome DnsError DnsTransactionTable :=
  if decide (hi < lo) then Err DnsInvalidPortRange else
  Ok (mkDnsTable capacity nat_ip (port_range lo hi) 1 ∅ ∅ ∅).

Definition dns_get_or_create (key : DnsTransactionKey) (client resolver : SocketAddr)
    : ST DnsTransactionTable DnsError DnsTransaction := λ t,
  match dt_by_key t !! key with
  | Some transaction => (Ok transaction, t)
  | None =>
  if decide (dt_capacity t ≤ size (dt_by_key t))%nat then (Err CapacityExhausted, t) else
  match ascending (dt_available_ports t) with
  | [] => (Err NatPortExhausted, t)
  | nat_port :: _ =>
      let id := dt_next_id t in
      let transaction := mkDnsTransaction id key client resolver (dt_nat_ip t) nat_port in
      (Ok transaction,
       mkDnsTable (dt_capacity t) (dt_nat_ip t) (dt_available_ports t ∖ {[nat_port]})
         (Z.max (wrap 64 (id + 1)) 1)
         (<[key := transaction]> (dt_by_key t))
         (<[id := key]> (dt_by_id t))
         (<[mkDnsReverseKey resolver (dt_nat_ip t) nat_port := id]> (dt_reverse t)))
  end end.

Definition dns_lookup_reverse (t : DnsTransactionTable) (key : DnsReverseKey) : option DnsTransaction :=
  id ← dt_reverse t !! key; k ← dt_by_id t !! id; dt_by_key t !! k.

Definition dns_complete (id : Z) (t : DnsTransactionTable) : option DnsTransaction * DnsTransactionTable :=
  match dt_by_id t !! id with
  | None => (None, t)
  | Some key =>
      let by_id := delete id (dt_by_id t) in
      match dt_by_key t !! key with
      | None => (None, mkDnsTable (dt_capacity t) (dt_nat_ip t) (dt_available_ports t) (dt_next_id t)
                         (dt_by_key t) by_id (dt_reverse t))
      | Some tx =>
          (Some tx,
           mkDnsTable (dt_capacity t) (dt_nat_ip t) (dt_available_ports t ∪ {[tx_nat_port tx]}) (dt_next_id t)
             (delete key (dt_by_key t)) by_id
             (delete (mkDnsReverseKey (tx_resolver tx) (tx_nat_ip tx) (tx_nat_port tx)) (dt_reverse t)))
      end
  end.

Definition dns_table_len (t : DnsTransactionTable) : nat := size (dt_by_key t).
