(* ===== verification/Text.v ===== *)
(** The parts of Rust's string and address parsing that the configuration uses: [str] as
    the list of its characters (Unicode scalar values), the integer parsers of
    [core::num], and the address parsers of [core::net]. *)
From S2P Require Import Prelude Net Dns.

Abbreviation text := (list Z).

(** String literals. *)
Definition txt (s : string) : text := (λ a, Z.of_nat (Ascii.nat_of_ascii a)) <$> String.list_ascii_of_string s.

(** ** Characters and lengths *)

Definition char_len (c : Z) : nat :=
  if decide (c < 0x80) then 1%nat else if decide (c < 0x800) then 2%nat else if decide (c < 0x10000) then 3%nat else 4%nat.

(** [str::len]: bytes of the UTF-8 encoding. *)
Fixpoint str_len (s : text) : nat := match s with [] => O | c :: s => (char_len c + str_len s)%nat end.

(** [char::is_whitespace]: the characters with the Unicode property [White_Space]. *)
Definition is_whitespace (c : Z) : bool :=
  bool_decide (9 ≤ c ≤ 13 ∨ c = 0x20 ∨ c = 0x85 ∨ c = 0xa0 ∨ c = 0x1680 ∨ 0x2000 ≤ c ≤ 0x200a ∨ c = 0x2028 ∨ c = 0x2029
               ∨ c = 0x202f ∨ c = 0x205f ∨ c = 0x3000).

(** [&s[n..]] for [n] bytes; [None] when [n] is not a character boundary in [s]. *)
Fixpoint skip_bytes (n : nat) (s : text) : option text :=
  match n, s with
  | O, _ => Some s
  | _, [] => None
  | _, c :: s => if decide (char_len c ≤ n)%nat then skip_bytes (n - char_len c) s else None
  end.
(** [&s[..n]]. *)
Fixpoint take_bytes (n : nat) (s : text) : option text :=
  match n, s with
  | O, _ => Some []
  | _, [] => None
  | _, c :: s => if decide (char_len c ≤ n)%nat then cons c <$> take_bytes (n - char_len c) s else None
  end.
(** [&s[lo..hi]], a panic when a bound is out of range or inside a character. *)
Definition str_slice {E : Type} (s : text) (lo hi : nat) : outcome E text :=
  expect (if decide (lo ≤ hi)%nat then skip_bytes lo s ≫= take_bytes (hi - lo) else None).

(** ** Trimming and splitting *)

Fixpoint trim_start (s : text) : text :=
  match s with
  | [] => []
  | c :: s' => if is_whitespace c then trim_start s' else s
  end.
Definition trim_end (s : text) : text := rev (trim_start (rev s)).
Definition trim (s : text) : text := trim_end (trim_start s).

(** [str::split] with a predicate on characters; never empty. *)
Fixpoint split (p : Z → bool) (s : text) : list text :=
  match s with
  | [] => [[]]
  | c :: s =>
      if p c then [] :: split p s
      else match split p s with
           | [] => [[c]]
           | piece :: pieces => (c :: piece) :: pieces
           end
  end.
(** [.split(..).next().unwrap_or("")]. *)
Definition first_piece (p : Z → bool) (s : text) : text := hd [] (split p s).

Definition is_char (c x : Z) : bool := bool_decide (x = c).

(** [str::split_once] with a character. *)
Fixpoint split_once (c : Z) (s : text) : option (text * text) :=
  match s with
  | [] => None
  | x :: s => if decide (x = c) then Some ([], s) else (λ '(a, r), (x :: a, r)) <$> split_once c s
  end.

Fixpoint strip_text_prefix (prefix s : text) : option text :=
  match prefix, s with
  | [], _ => Some s
  | p :: prefix, c :: s => if decide (c = p) then strip_text_prefix prefix s else None
  | _ :: _, [] => None
  end.
Definition starts_with (prefix s : text) : bool := match strip_text_prefix prefix s with Some _ => true | None => false end.
Definition strip_text_suffix (suffix s : text) : option text := @rev Z <$> strip_text_prefix (rev suffix) (rev s).
Definition ends_with (suffix s : text) : bool := match strip_text_suffix suffix s with Some _ => true | None => false end.

(** [str::lines]: a line ends with a newline, or with a carriage return and a newline. *)
Definition strip_cr (line : text) : text := default line (strip_text_suffix [13] line).
Fixpoint lines_of (pieces : list text) : list text :=
  match pieces with
  | [] | [[]] => []
  | [last] => [last]
  | line :: pieces => strip_cr line :: lines_of pieces
  end.
Definition lines (s : text) : list text := lines_of (split (is_char 10) s).

Definition lowercase (s : text) : text := to_ascii_lowercase <$> s.

(** ** Integers *)

(** [char::to_digit]. *)
Definition to_digit (radix c : Z) : option Z :=
  let d := if decide (48 ≤ c ≤ 57) then c - 48
           else if decide (97 ≤ c ≤ 122) then c - 87
           else if decide (65 ≤ c ≤ 90) then c - 55 else radix in
  if decide (d < radix) then Some d else None.

(** The digits of an unsigned integer below [limit], with checked arithmetic. *)
Fixpoint digits (radix limit acc : Z) (s : text) : option Z :=
  match s with
  | [] => Some acc
  | c :: s =>
      match to_digit radix c with
      | None => None
      | Some d => let acc := acc * radix + d in if decide (acc < limit) then digits radix limit acc s else None
      end
  end.
(** [from_str_radix] of an unsigned type; [FromStr] is radix 10.  A leading plus sign is
    accepted, a sign alone is not. *)
Definition from_str_radix (radix limit : Z) (s : text) : option Z :=
  match s with
  | [] => None
  | c :: s' => if decide (c = 43) then (if decide (s' = []) then None else digits radix limit 0 s') else digits radix limit 0 s
  end.

(** ** Addresses *)

(** The parser's state is what is left of the input; a parser that fails leaves it as it
    was. *)
Definition parser (A : Type) : Type := text → option (A * text).

(** The number of digits read is bounded by [max_digits]; more digits, no digit, overflow
    and a forbidden leading zero fail. *)
Fixpoint read_digits (radix limit : Z) (count : nat) (acc : Z) (s : text) : option (Z * nat * text) :=
  match s with
  | [] => Some (acc, count, s)
  | c :: s' =>
      match to_digit radix c with
      | None => Some (acc, count, s)
      | Some d =>
          let acc := acc * radix + d in
          if decide (acc < limit) then read_digits radix limit (S count) acc s' else None
      end
  end.
Definition read_number (radix limit : Z) (max_digits : option nat) (allow_zero_prefix : bool) : parser Z := λ s,
  match read_digits radix limit 0 0 s with
  | None => None
  | Some (n, count, rest) =>
      if decide (count = 0)%nat then None
      else if (match max_digits with Some m => bool_decide (m < count)%nat | None => false end) then None
      else if negb allow_zero_prefix && bool_decide (hd 0 s = 48) && bool_decide (1 < count)%nat then None
      else Some (n, rest)
  end.
Definition read_char (c : Z) : parser unit := λ s,
  match s with x :: s => if decide (x = c) then Some (tt, s) else None | [] => None end.

(** [read_separator]: the separator comes before every item but the first. *)
Definition read_separator {A} (sep : Z) (index : nat) (p : parser A) : parser A := λ s,
  match index with O => p s | S _ => '(_, s) ← read_char sep s; p s end.

Definition read_ipv4_octet (index : nat) : parser Z := read_separator 46 index (read_number 10 256 (Some 3%nat) false).
Definition read_ipv4_addr : parser Z := λ s,
  '(a, s) ← read_ipv4_octet 0 s;
  '(b, s) ← read_ipv4_octet 1 s;
  '(c, s) ← read_ipv4_octet 2 s;
  '(d, s) ← read_ipv4_octet 3 s;
  Some (((a * 256 + b) * 256 + c) * 256 + d, s).

(** [read_groups] with [left] of its slots still to fill: the groups read, and whether they
    end with an embedded IPv4 address. *)
Fixpoint read_groups (left index : nat) (s : text) : list Z * bool * text :=
  match left with
  | O => ([], false, s)
  | S left' =>
      match (if decide (0 < left')%nat then read_separator 58 index read_ipv4_addr s else None) with
      | Some (v4, s) => ([v4 / 65536; v4 mod 65536], true, s)
      | None =>
          match read_separator 58 index (read_number 16 65536 (Some 4%nat) true) s with
          | None => ([], false, s)
          | Some (g, s) => let '(gs, v4, s) := read_groups left' (S index) s in (g :: gs, v4, s)
          end
      end
  end.
Definition join_groups (groups : list Z) : Z := foldl (λ acc g, acc * 65536 + g) 0 groups.
Definition read_ipv6_addr : parser Z := λ s,
  let '(head, head_ipv4, s) := read_groups 8 0 s in
  if decide (length head = 8)%nat then Some (join_groups head, s) else
  if (head_ipv4 : bool) then None else
  '(_, s) ← read_char 58 s;
  '(_, s) ← read_char 58 s;
  let limit := (8 - (length head + 1))%nat in
  let '(tail, _, s) := read_groups limit 0 s in
  Some (join_groups (head ++ replicate (8 - length head - length tail) 0 ++ tail), s).

Definition read_port : parser Z := λ s,
  '(_, s) ← read_char 58 s;
  read_number 10 65536 None true s.
Definition read_scope_id : parser Z := λ s,
  '(_, s) ← read_char 37 s;
  read_number 10 (2 ^ 32) None true s.
Definition read_socket_addr_v4 : parser SocketAddr := λ s,
  '(ip, s) ← read_ipv4_addr s;
  '(port, s) ← read_port s;
  Some (mkSocketAddr (V4 ip) port, s).
(** The scope identifier does not enter the comparisons of the configuration. *)
Definition read_socket_addr_v6 : parser SocketAddr := λ s,
  '(_, s) ← read_char 91 s;
  '(ip, s) ← read_ipv6_addr s;
  let s := match read_scope_id s with Some (_, s) => s | None => s end in
  '(_, s) ← read_char 93 s;
  '(port, s) ← read_port s;
  Some (mkSocketAddr (V6 ip) port, s).

(** [parse_with]: the whole input is used. *)
Definition parse_all {A} (p : parser A) (s : text) : option A :=
  match p s with Some (a, []) => Some a | _ => None end.

(** [Ipv4Addr::from_str] refuses more than 15 bytes before it reads. *)
Definition parse_ipv4 (s : text) : option Z := if decide (15 < str_len s)%nat then None else parse_all read_ipv4_addr s.
Definition parse_ipv6 (s : text) : option Z := parse_all read_ipv6_addr s.
Definition parse_socket_addr (s : text) : option SocketAddr :=
  parse_all (λ s, match read_socket_addr_v4 s with Some r => Some r | None => read_socket_addr_v6 s end) s.

Example parse_socket_addr_v4 : parse_socket_addr (txt "192.0.2.1:4433") = Some (mkSocketAddr (V4 0xc0000201) 4433).
Proof. reflexivity. Qed.
Example parse_socket_addr_v6 : parse_socket_addr (txt "[2001:db8::1%3]:53") = Some (mkSocketAddr (V6 0x20010db8000000000000000000000001) 53).
Proof. reflexivity. Qed.
Example parse_ipv6_embedded : parse_ipv6 (txt "::ffff:10.0.0.1") = Some 0xffff0a000001.
Proof. reflexivity. Qed.
Example parse_ipv4_zero_prefix : parse_ipv4 (txt "10.0.0.01") = None.
Proof. reflexivity. Qed.

(** ** Every address read fits its width *)

Lemma to_digit_bound radix c d : to_digit radix c = Some d → 0 ≤ d < radix.
Proof. unfold to_digit. intros H. repeat case_decide; simplify_eq; lia. Qed.

Lemma read_digits_bound radix limit s : 0 < radix → ∀ count acc n k rest, 0 ≤ acc < limit →
  read_digits radix limit count acc s = Some (n, k, rest) → 0 ≤ n < limit.
Proof.
  intros Hr. induction s as [|c s IH]; intros count acc n k rest Hacc; simpl; [by intros [= <- _ _]|].
  destruct (to_digit radix c) as [d|] eqn:Hd; [|by intros [= <- _ _]]. apply to_digit_bound in Hd.
  case_decide; [|done]. apply IH. nia.
Qed.

Lemma read_number_bound radix limit m z s n rest : 0 < radix → 0 < limit → read_number radix limit m z s = Some (n, rest) → 0 ≤ n < limit.
Proof.
  intros Hr Hl. unfold read_number. destruct (read_digits radix limit 0 0 s) as [[[x k] y]|] eqn:Hd; [|done].
  apply read_digits_bound in Hd; [|lia..]. repeat case_match; try done; by intros [= <- _].
Qed.

Lemma read_separator_inv {A} sep i (p : parser A) s r : read_separator sep i p s = Some r → ∃ s', p s' = Some r.
Proof. unfold read_separator. destruct i; [by exists s|]. destruct (read_char sep s) as [[? s']|]; [by exists s'|done]. Qed.

Lemma read_ipv4_bound s a rest : read_ipv4_addr s = Some (a, rest) → fits 32 a.
Proof.
  unfold read_ipv4_addr, read_ipv4_octet.
  assert (∀ i s n r, read_separator 46 i (read_number 10 256 (Some 3%nat) false) s = Some (n, r) → 0 ≤ n < 256) as Ho.
  { intros i s0 n r (s' & H%read_number_bound)%read_separator_inv; lia. }
  intros ([a1 s1] & H1 & ([a2 s2] & H2 & ([a3 s3] & H3 & ([a4 s4] & H4 & [= <- _])%bind_Some)%bind_Some)%bind_Some)%bind_Some.
  apply Ho in H1, H2, H3, H4. unfold fits. change (2 ^ 32) with 4294967296. lia.
Qed.

Lemma join_groups_bound gs : Forall (λ g, 0 ≤ g < 65536) gs → ∀ acc, 0 ≤ acc →
  0 ≤ foldl (λ acc g, acc * 65536 + g) acc gs < (acc + 1) * 65536 ^ Z.of_nat (length gs).
Proof.
  induction 1 as [|g gs Hg _ IH]; intros acc Hacc; cbn [foldl length]; [simpl; lia|].
  rewrite Nat2Z.inj_succ, Z.pow_succ_r by lia. destruct (IH (acc * 65536 + g)) as [H1 H2]; [lia|]. split; [done|].
  eapply Z.lt_le_trans; [exact H2|]. rewrite Z.mul_assoc. apply Z.mul_le_mono_nonneg_r; lia.
Qed.

Lemma read_groups_bound left : ∀ index s gs v4 rest, read_groups left index s = (gs, v4, rest) →
  Forall (λ g, 0 ≤ g < 65536) gs ∧ (length gs ≤ left)%nat.
Proof.
  induction left as [|left IH]; intros index s gs v4 rest; cbn [read_groups]; [intros [= <- _ _]; by split; [|simpl; lia]|].
  destruct (if decide (0 < left)%nat then read_separator 58 index read_ipv4_addr s else None) as [[a s1]|] eqn:H4.
  - case_decide as Hl; [|done]. apply read_separator_inv in H4 as (s' & H4%read_ipv4_bound). intros [= <- _ _]. simpl. unfold fits in H4.
    change (2 ^ 32) with (65536 * 65536) in H4. split; [|lia]. repeat constructor; Z.to_euclidean_division_equations; lia.
  - destruct (read_separator 58 index (read_number 16 65536 (Some 4%nat) true) s) as [[g s1]|] eqn:Hg.
    + apply read_separator_inv in Hg as (s' & Hg%read_number_bound); [|lia..]. destruct (read_groups left (S index) s1) as [[gs' v'] r'] eqn:Hr.
      apply IH in Hr as [? ?]. intros [= <- _ _]. simpl. split; [by constructor|lia].
    + intros [= <- _ _]. simpl. split; [constructor|lia].
Qed.

Lemma join_groups_fits gs : Forall (λ g, 0 ≤ g < 65536) gs → length gs = 8%nat → fits 128 (join_groups gs).
Proof. intros Hg Hl. pose proof (join_groups_bound gs Hg 0 ltac:(lia)) as H. rewrite Hl in H. exact H. Qed.

Lemma read_ipv6_bound s a rest : read_ipv6_addr s = Some (a, rest) → fits 128 a.
Proof.
  unfold read_ipv6_addr. destruct (read_groups 8 0 s) as [[head v4] s1] eqn:Hh. apply read_groups_bound in Hh as [Hh1 Hh2].
  case_decide as Hl; [intros [= <- _]; by apply join_groups_fits|]. destruct v4; [done|].
  intros ([[] s2] & _ & ([[] s3] & _ & H)%bind_Some)%bind_Some. cbv zeta in H.
  destruct (read_groups (8 - (length head + 1)) 0 s3) as [[tail v4] s4] eqn:Ht. apply read_groups_bound in Ht as [Ht1 Ht2].
  injection H as <- _. apply join_groups_fits.
  - apply Forall_app. split; [done|]. apply Forall_app. split; [|done]. apply Forall_replicate. lia.
  - rewrite !length_app, length_replicate. lia.
Qed.

Lemma parse_all_inv {A} (p : parser A) s a : parse_all p s = Some a → p s = Some (a, []).
Proof. unfold parse_all. destruct (p s) as [[x [|]]|]; naive_solver. Qed.

Lemma read_port_bound s n rest : read_port s = Some (n, rest) → fits 16 n.
Proof. unfold read_port. intros ([[] s1] & _ & H)%bind_Some. by apply read_number_bound in H. Qed.

Lemma parse_ipv4_ok s a : parse_ipv4 s = Some a → fits 32 a.
Proof. unfold parse_ipv4. case_decide; [done|]. by intros Ha%parse_all_inv%read_ipv4_bound. Qed.

Lemma parse_ipv6_ok s a : parse_ipv6 s = Some a → fits 128 a.
Proof. by intros H%parse_all_inv%read_ipv6_bound. Qed.

Lemma parse_socket_addr_ok s a : parse_socket_addr s = Some a → ip_ok (sa_ip a) ∧ fits 16 (sa_port a).
Proof.
  intros H%parse_all_inv. destruct (read_socket_addr_v4 s) as [[x r]|] eqn:H4.
  - injection H as -> ->. revert H4. unfold read_socket_addr_v4.
    intros ([ip s1] & Hip%read_ipv4_bound & ([port s2] & Hp%read_port_bound & [= <- _])%bind_Some)%bind_Some. by split.
  - revert H. unfold read_socket_addr_v6. intros ([[] s1] & _ & ([ip s2] & Hip%read_ipv6_bound & H)%bind_Some)%bind_Some. cbv zeta in H.
    apply bind_Some in H as ([[] s3] & _ & ([port s4] & Hp%read_port_bound & [= <- _])%bind_Some). by split.
Qed.

Lemma from_str_radix_bound radix limit s n : 0 < radix → 0 < limit → from_str_radix radix limit s = Some n → 0 ≤ n < limit.
Proof.
  intros Hr Hl. assert (∀ s acc n, 0 ≤ acc < limit → digits radix limit acc s = Some n → 0 ≤ n < limit) as Hd.
  { clear s n. induction s as [|c s IH]; intros acc n Hacc; simpl; [by intros [= <-]|].
    destruct (to_digit radix c) as [d|] eqn:Hd; [|done]. apply to_digit_bound in Hd. case_decide; [|done]. apply IH. nia. }
  unfold from_str_radix. destruct s as [|c s]; [done|]. repeat case_decide; [done|..]; apply Hd; lia.
Qed.
