(* ===== verification/Dispatch.v ===== *)
(** The dispatcher of packets to flow workers ([FlowDispatcher] and
    [bounded_flow_channels] of [src/src/flow_plane/worker.rs]).

    A [SyncSender]/[Receiver] pair is the queue it shares: the messages that were
    sent and not yet received, the capacity, and whether the receiver is alive.
    The dispatcher is cloned into every I/O thread, so its operations are steps on
    the shared state, interleaved with the workers' receives. *)
From S2P Require Import Prelude Net NatTable QuicFlow Dns.

Inductive FlowMessage : Type :=
| InterceptIngress (io_owner : IoOwnerKey) (packet : bytes) (expected_locator : option SessionLocator)
| TunnelIngress (io_owner : IoOwnerKey) (dcid : bytes) (remote : SocketAddr) (local_ip : IpAddr) (packet : bytes)
| ReloadPolicies (remote_domains : option RemoteDomainRules).

Inductive DispatchOutcome : Type := Accepted | DroppedFull | DroppedDisconnected | InvalidWorker.
#[global] Instance DispatchOutcome_eq_dec : EqDecision DispatchOutcome.
Proof. solve_decision. Defined.

Record DispatchStats : Type := mkDispatchStats {
  channel_full_drops : Z;
  channel_disconnected_drops : Z;
  invalid_worker_drops : Z;
}.

Inductive FlowChannelError : Type := ChannelZeroWorkers | ZeroCapacity.

Record Channel : Type := mkChannel { ch_capacity : nat; ch_queue : list FlowMessage; ch_connected : bool }.

(** [FlowDispatcher] with the channels its senders point to and the shared
    counters. *)
Record FlowDispatcher : Type := mkDispatcher { senders : list Channel; counters : DispatchStats }.

Definition bounded_flow_channels (worker_count capacity : nat) : outcome FlowChannelError FlowDispatcher :=
  if decide (worker_count = 0)%nat then Err ChannelZeroWorkers else
  if decide (capacity = 0)%nat then Err ZeroCapacity else
  Ok (mkDispatcher (replicate worker_count (mkChannel capacity [] true)) (mkDispatchStats 0 0 0)).

(** [fetch_add] on an [AtomicU64]. *)
Definition fetch_add1 (x : Z) : Z := wrap 64 (x + 1).

(** [SyncSender::try_send]. *)
Definition try_send (message : FlowMessage) (c : Channel) : DispatchOutcome * Channel :=
  if ch_connected c then
    if decide (length (ch_queue c) < ch_capacity c)%nat
    then (Accepted, mkChannel (ch_capacity c) (ch_queue c ++ [message]) true)
    else (DroppedFull, c)
  else (DroppedDisconnected, c).

Definition dispatch_to (worker_id : nat) (message : FlowMessage) (d : FlowDispatcher) : DispatchOutcome * FlowDispatcher :=
  let k := counters d in
  match senders d !! worker_id with
  | None => (InvalidWorker, mkDispatcher (senders d) (mkDispatchStats (channel_full_drops k) (channel_disconnected_drops k)
                                               (fetch_add1 (invalid_worker_drops k))))
  | Some sender =>
      match try_send message sender with
      | (Accepted, sender') => (Accepted, mkDispatcher (<[worker_id := sender']> (senders d)) k)
      | (DroppedFull, _) => (DroppedFull, mkDispatcher (senders d) (mkDispatchStats (fetch_add1 (channel_full_drops k))
                                               (channel_disconnected_drops k) (invalid_worker_drops k)))
      | (o, _) => (o, mkDispatcher (senders d) (mkDispatchStats (channel_full_drops k)
                                               (fetch_add1 (channel_disconnected_drops k)) (invalid_worker_drops k)))
      end
  end.

(** One [send] of [broadcast]: it blocks while the queue is full ([None]); its
    error on a dead receiver is ignored. *)
Definition send (message : FlowMessage) (c : Channel) : option Channel :=
  if ch_connected c then
    if decide (length (ch_queue c) < ch_capacity c)%nat
    then Some (mkChannel (ch_capacity c) (ch_queue c ++ [message]) true) else None
  else Some c.

(** The [i]-th iteration of [broadcast]. *)
Definition broadcast_step (i : nat) (message : FlowMessage) (d : FlowDispatcher) : option FlowDispatcher :=
  sender ← senders d !! i; sender' ← send message sender;
  Some (mkDispatcher (<[i := sender']> (senders d)) (counters d)).

(** The whole loop, when no receiver runs in between. *)
Fixpoint broadcast_from (n i : nat) (message : FlowMessage) (d : FlowDispatcher) : option FlowDispatcher :=
  match n with
  | O => Some d
  | S n => broadcast_step i message d ≫= broadcast_from n (S i) message
  end.

Definition broadcast (message : FlowMessage) (d : FlowDispatcher) : option FlowDispatcher :=
  broadcast_from (length (senders d)) 0 message d.

Definition stats (d : FlowDispatcher) : DispatchStats := counters d.

(** ** The workers' side *)

(** [Receiver::try_recv] by worker [i]. *)
Definition receive (i : nat) (d : FlowDispatcher) : option FlowMessage * FlowDispatcher :=
  match senders d !! i with
  | Some (mkChannel capacity (message :: queue) true) =>
      (Some message, mkDispatcher (<[i := mkChannel capacity queue true]> (senders d)) (counters d))
  | _ => (None, d)
  end.

(** Worker [i] exits and drops its receiver, with what was queued. *)
Definition disconnect (i : nat) (d : FlowDispatcher) : FlowDispatcher :=
  match senders d !! i with
  | Some c => mkDispatcher (<[i := mkChannel (ch_capacity c) [] false]> (senders d)) (counters d)
  | None => d
  end.

(** ** Interleavings *)

Inductive dispatch_event : Type :=
| EvDispatch (i : nat) (message : FlowMessage) (o : DispatchOutcome)
| EvBroadcast (i : nat) (message : FlowMessage)
| EvReceive (i : nat) (message : FlowMessage)
| EvDisconnect (i : nat).

Inductive dispatch_step : FlowDispatcher → dispatch_event → FlowDispatcher → Prop :=
| step_dispatch d i m o d' : dispatch_to i m d = (o, d') → dispatch_step d (EvDispatch i m o) d'
| step_broadcast d i m d' : broadcast_step i m d = Some d' → dispatch_step d (EvBroadcast i m) d'
| step_receive d i m d' : receive i d = (Some m, d') → dispatch_step d (EvReceive i m) d'
| step_disconnect d i : dispatch_step d (EvDisconnect i) (disconnect i d).

Inductive dispatch_trace : FlowDispatcher → list dispatch_event → FlowDispatcher → Prop :=
| trace_nil d : dispatch_trace d [] d
| trace_snoc d es d1 e d2 : dispatch_trace d es d1 → dispatch_step d1 e d2 → dispatch_trace d (es ++ [e]) d2.

(** The messages put into the queue of worker [i], and those it took out. *)
Definition sent_by (i : nat) (e : dispatch_event) : list FlowMessage :=
  match e with
  | EvDispatch j m Accepted | EvBroadcast j m => if decide (j = i) then [m] else []
  | _ => []
  end.
Definition taken_by (i : nat) (e : dispatch_event) : list FlowMessage :=
  match e with EvReceive j m => if decide (j = i) then [m] else [] | _ => [] end.
Definition sent (i : nat) (es : list dispatch_event) : list FlowMessage := es ≫= sent_by i.
Definition taken (i : nat) (es : list dispatch_event) : list FlowMessage := es ≫= taken_by i.

(** The number of messages dropped with outcome [o]. *)
Definition drop_of (o : DispatchOutcome) (e : dispatch_event) : Z :=
  match e with EvDispatch _ _ o' => if decide (o' = o) then 1 else 0 | _ => 0 end.
Definition drops (o : DispatchOutcome) (es : list dispatch_event) : Z := fold_right Z.add 0 (drop_of o <$> es).

Lemma sent_snoc i es e : sent i (es ++ [e]) = sent i es ++ sent_by i e.
Proof. unfold sent. rewrite bind_app. simpl. by rewrite app_nil_r. Qed.
Lemma taken_snoc i es e : taken i (es ++ [e]) = taken i es ++ taken_by i e.
Proof. unfold taken. rewrite bind_app. simpl. by rewrite app_nil_r. Qed.
Lemma drops_snoc o es e : drops o (es ++ [e]) = drops o es + drop_of o e.
Proof. unfold drops. induction es as [|x es IH]; csimpl; [lia|]. rewrite IH. lia. Qed.

(** ** The invariant of the queues *)

(** What is true of worker [i]'s channel after the events [es]. *)
Definition channel_ok (capacity : nat) (i : nat) (es : list dispatch_event) (d : FlowDispatcher) : Prop :=
  ∃ c, senders d !! i = Some c ∧ ch_capacity c = capacity ∧ (length (ch_queue c) ≤ capacity)%nat
    ∧ (EvDisconnect i ∉ es → ch_connected c = true ∧ sent i es = taken i es ++ ch_queue c).

Definition counters_ok (es : list dispatch_event) (d : FlowDispatcher) : Prop :=
  channel_full_drops (counters d) = wrap 64 (drops DroppedFull es)
  ∧ channel_disconnected_drops (counters d) = wrap 64 (drops DroppedDisconnected es)
  ∧ invalid_worker_drops (counters d) = wrap 64 (drops InvalidWorker es).

Lemma fetch_add_wrap x : fetch_add1 (wrap 64 x) = wrap 64 (x + 1).
Proof. unfold fetch_add1, wrap. by rewrite Z.add_mod_idemp_l by done. Qed.

Lemma not_disconnected_snoc (i : nat) es e : EvDisconnect i ∉ (es ++ [e]) ↔ (EvDisconnect i ∉ es) ∧ e ≠ EvDisconnect i.
Proof. rewrite elem_of_app, list_elem_of_singleton. naive_solver. Qed.

Section channel.
Context (capacity i : nat) (es : list dispatch_event) (e : dispatch_event) (d d' : FlowDispatcher).
Hypotheses (Hok : channel_ok capacity i es d) (Htaken : taken_by i e = []).

(** A step that leaves the channel of worker [i] alone. *)
Lemma channel_kept : senders d' !! i = senders d !! i → sent_by i e = [] → channel_ok capacity i (es ++ [e]) d'.
Proof using Hok Htaken.
  intros Hs He. destruct Hok as (c & Hc & Hcap & Hl & Hi). exists c. split_and!; [congruence|done|done|].
  intros [Hn _]%not_disconnected_snoc. destruct (Hi Hn). split; [done|]. by rewrite sent_snoc, taken_snoc, He, Htaken, !app_nil_r.
Qed.

Lemma channel_other j s : j ≠ i → senders d' = <[j := s]> (senders d) → sent_by i e = [] → channel_ok capacity i (es ++ [e]) d'.
Proof using Hok Htaken. intros Hne Hs. apply channel_kept. by rewrite Hs, list_lookup_insert_ne. Qed.

(** A step that queues [m] for worker [i]. *)
Lemma channel_append c m : senders d !! i = Some c → ch_connected c = true → (length (ch_queue c) < ch_capacity c)%nat →
  senders d' = <[i := mkChannel (ch_capacity c) (ch_queue c ++ [m]) true]> (senders d) → sent_by i e = [m] →
  channel_ok capacity i (es ++ [e]) d'.
Proof using Hok Htaken.
  intros Hc Hcon Hlt Hs He. destruct Hok as (c0 & Hc0 & Hcap & _ & Hi). simplify_eq. unfold channel_ok. rewrite Hs.
  eexists. split_and!; [apply list_lookup_insert_eq; by eapply lookup_lt_Some|done|simpl; rewrite length_app; simpl; lia|].
  intros [Hn _]%not_disconnected_snoc. destruct (Hi Hn) as [_ Hseq]. split; [done|]. simpl.
  by rewrite sent_snoc, taken_snoc, He, Htaken, Hseq, app_nil_r, <- app_assoc.
Qed.
End channel.

Lemma channel_step capacity i es d e d' : dispatch_step d e d' → channel_ok capacity i es d → channel_ok capacity i (es ++ [e]) d'.
Proof.
  intros Hstep Hok. destruct Hstep as [d j m o d' Hd|d j m d' Hd|d j m d' Hd|d j].
  - unfold dispatch_to, try_send in Hd. destruct (senders d !! j) as [s|] eqn:Hs; [|injection Hd as <- <-; by apply (channel_kept _ _ _ _ d)].
    destruct (ch_connected s) eqn:Hcon; [case_decide|]; injection Hd as <- <-; try by apply (channel_kept _ _ _ _ d).
    destruct (decide (j = i)) as [->|Hne]; [eapply channel_append|eapply channel_other]; try done; simpl; by case_decide.
  - unfold broadcast_step, send in Hd. destruct (senders d !! j) as [s|] eqn:Hs; [|done]. simpl in Hd.
    destruct (ch_connected s) eqn:Hcon; [case_decide; [|done]|]; injection Hd as <-.
    + destruct (decide (j = i)) as [->|Hne]; [eapply channel_append|eapply channel_other]; try done; simpl; by case_decide.
    + destruct (decide (j = i)) as [->|Hne]; [|eapply channel_other; try done; simpl; by case_decide].
      destruct Hok as (c & Hc & Hcap & Hl & Hi). simplify_eq. exists s.
      split_and!; [by apply list_lookup_insert_eq; eapply lookup_lt_Some|done|done|].
      intros [Hn _]%not_disconnected_snoc. destruct (Hi Hn). congruence.
  - unfold receive in Hd. destruct (senders d !! j) as [[cap [|x q] []]|] eqn:Hs; try done. injection Hd as -> <-.
    destruct (decide (j = i)) as [->|Hne]; [|eapply channel_other; try done; simpl; by case_decide].
    destruct Hok as (c & Hc & Hcap & Hl & Hi). simplify_eq. simpl in *.
    eexists. split_and!; [apply list_lookup_insert_eq; by eapply lookup_lt_Some|done|simpl; lia|].
    intros [Hn _]%not_disconnected_snoc. destruct (Hi Hn) as [_ Hseq]. split; [done|].
    rewrite sent_snoc, taken_snoc, Hseq. simpl. rewrite decide_True by done. by rewrite app_nil_r, <- app_assoc.
  - unfold disconnect. destruct (senders d !! j) as [s|] eqn:Hs; [|by apply (channel_kept _ _ _ _ d)].
    destruct (decide (j = i)) as [->|Hne]; [|by eapply channel_other].
    destruct Hok as (c & Hc & Hcap & _). simplify_eq.
    eexists. split_and!; [apply list_lookup_insert_eq; by eapply lookup_lt_Some|done|simpl; lia|].
    by intros [_ Hn]%not_disconnected_snoc.
Qed.

Lemma counters_step es d e d' : dispatch_step d e d' → counters_ok es d → counters_ok (es ++ [e]) d'.
Proof.
  intros Hstep (H1 & H2 & H3). unfold counters_ok. rewrite !drops_snoc.
  destruct Hstep as [d j m o d' Hd|d j m d' Hd|d j m d' Hd|d j]; simpl; rewrite ?Z.add_0_r.
  - unfold dispatch_to in Hd. destruct (senders d !! j) as [s|].
    + unfold try_send in Hd. destruct (ch_connected s); [case_decide|]; injection Hd as <- <-; simpl;
        rewrite ?H1, ?H2, ?H3, ?fetch_add_wrap, ?Z.add_0_r; done.
    + injection Hd as <- <-; simpl; rewrite ?H1, ?H2, ?H3, ?fetch_add_wrap, ?Z.add_0_r; done.
  - unfold broadcast_step in Hd. destruct (senders d !! j) as [s|]; [|done]. simpl in Hd. destruct (send m s); [|done].
    by injection Hd as <-.
  - unfold receive in Hd. destruct (senders d !! j) as [[cap [|x q] []]|]; try done. by injection Hd as -> <-.
  - unfold disconnect. by destruct (senders d !! j).
Qed.

Lemma trace_ok workers capacity d es d' : bounded_flow_channels workers capacity = Ok d → dispatch_trace d es d' →
  counters_ok es d' ∧ ∀ i, (i < workers)%nat → channel_ok capacity i es d'.
Proof.
  intros Hd Ht. induction Ht as [d|d es d1 e d2 Ht IH Hs].
  - unfold bounded_flow_channels in Hd. repeat case_decide; try done. injection Hd as <-. split; [done|].
    intros i Hi. exists (mkChannel capacity [] true). split_and!; [by apply lookup_replicate_2|done|simpl; lia|done].
  - destruct (IH Hd) as [Hc Hq]. split; [by eapply counters_step|]. intros i Hi. eapply channel_step; [done|by apply Hq].
Qed.

(** ** The dispatcher properties *)

Definition sample_message (n : Z) : FlowMessage := InterceptIngress (mkIoOwnerKey 1 0) [n] None.
Definition sample_dispatcher (q0 q1 : list FlowMessage) (full : Z) : FlowDispatcher :=
  mkDispatcher [mkChannel 1 q0 true; mkChannel 1 q1 true] (mkDispatchStats full 0 0).

(** C30: However dispatches, broadcasts, receives and worker exits interleave: a
    worker that is alive has received, in order and without loss or duplication,
    exactly the messages accepted for it, up to those still queued; no queue
    exceeds the channel capacity; and the drop counters count, modulo 2^64,
    exactly the messages that were refused, by reason. *)
Theorem dispatch_fifo (workers capacity : nat) (d d' : FlowDispatcher) (es : list dispatch_event) :
  bounded_flow_channels workers capacity = Ok d → dispatch_trace d es d' →
  (channel_full_drops (stats d') = wrap 64 (drops DroppedFull es)
   ∧ channel_disconnected_drops (stats d') = wrap 64 (drops DroppedDisconnected es)
   ∧ invalid_worker_drops (stats d') = wrap 64 (drops InvalidWorker es))
  ∧ ∀ i, (i < workers)%nat → ∃ c, senders d' !! i = Some c ∧ (length (ch_queue c) ≤ capacity)%nat
      ∧ (EvDisconnect i ∉ es → sent i es = taken i es ++ ch_queue c).
Proof.
  intros Hd Ht. destruct (trace_ok workers capacity d es d' Hd Ht) as [Hc Hq]. split; [done|].
  intros i Hi. destruct (Hq i Hi) as (c & Hs & _ & Hl & Hn). exists c. split_and!; [done|done|]. intros He. by apply Hn.
Qed.

Lemma dispatch_fifo_witness :
  ∃ c, senders (sample_dispatcher [] [sample_message 3] 1) !! 1%nat = Some c ∧ (length (ch_queue c) ≤ 1)%nat
    ∧ (EvDisconnect 1 ∉ [EvDispatch 1 (sample_message 1) Accepted; EvDispatch 1 (sample_message 2) DroppedFull;
         EvReceive 1 (sample_message 1); EvBroadcast 1 (sample_message 3)] →
       sent 1 [EvDispatch 1 (sample_message 1) Accepted; EvDispatch 1 (sample_message 2) DroppedFull;
         EvReceive 1 (sample_message 1); EvBroadcast 1 (sample_message 3)]
       = taken 1 [EvDispatch 1 (sample_message 1) Accepted; EvDispatch 1 (sample_message 2) DroppedFull;
         EvReceive 1 (sample_message 1); EvBroadcast 1 (sample_message 3)] ++ ch_queue c).
Proof.
  apply (dispatch_fifo 2 1 (sample_dispatcher [] [] 0)); [reflexivity| |lia].
  apply (trace_snoc _ [_; _; _] (sample_dispatcher [] [] 1)); [|apply step_broadcast; reflexivity].
  apply (trace_snoc _ [_; _] (sample_dispatcher [] [sample_message 1] 1)); [|apply step_receive; reflexivity].
  apply (trace_snoc _ [_] (sample_dispatcher [] [sample_message 1] 0)); [|apply step_dispatch; reflexivity].
  apply (trace_snoc _ [] (sample_dispatcher [] [] 0)); [apply trace_nil|apply step_dispatch; reflexivity].
Defined.
