(* ===== verification/Inner.v ===== *)
(** Inner packets over QUIC datagrams ([src/src/quic_engine.rs]): sending one packet
    whole or in fragments, and reassembly on the other side.

    [EngineCore] holds the fields of [QuicEngine] these operations use; the QUIC
    connection is a parameter with the two datagram operations the code calls. *)
From S2P Require Import Prelude Net.

Definition INNER_PACKET : Z := 16.
Definition INNER_FRAGMENT : Z := 17.
Definition INNER_FRAGMENT_HEADER_LEN : nat := 13.
Definition MAX_INNER_PACKET_LEN : nat := Z.to_nat 65535.
Definition MAX_REASSEMBLY_BYTES : Z := 1024 * 1024.
Definition MAX_REASSEMBLY_ENTRIES : nat := Z.to_nat 4096.
Definition REASSEMBLY_TIMEOUT : Z := from_secs 5.

Record OuterTransmit : Type := mkOuterTransmit {
  ot_destination : SocketAddr;
  ot_source_ip : option IpAddr;
  ot_contents : bytes;
  ot_segment_size : option nat;
}.

Inductive QuicEngineEvent : Type :=
| EvTransmit (transmit : OuterTransmit)
| EvAuthenticated
| InnerPacket (packet : bytes)
| DcidStaged (dcid : bytes)
| DcidPublished (dcid : bytes)
| DcidRetired (dcid : bytes)
| Replaced (dcids : list bytes)
| EvClosed.

Inductive QuicEngineError : Type :=
| InvalidDcidLength | MissingRemote | MissingClientConfig | Connect | NotConnected | NotAuthenticated
| EmptyInnerPacket | DatagramTooLarge.

Record InnerReassembly : Type := mkReassembly {
  re_created_at : Z;
  re_packet : bytes;
  re_received : list bool;
  re_received_count : nat;
}.

Record EngineCore : Type := mkCore {
  next_inner_packet_id : Z;
  reassembly : gmap Z InnerReassembly;
  reassembly_bytes : Z;
  events : list QuicEngineEvent;
}.

(** ** Receiving *)

(** The copy loop of [handle_inner_fragment]. *)
Fixpoint place (fragment : bytes) (position : nat) (r : InnerReassembly) : outcome unit InnerReassembly :=
  match fragment with
  | [] => Ok r
  | byte :: fragment =>
      let? seen := expect (re_received r !! position) in
      let received := if seen : bool then re_received r else <[position := true]> (re_received r) in
      let count := if seen then re_received_count r else S (re_received_count r) in
      if decide (position < length (re_packet r))%nat
      then place fragment (S position)
             (mkReassembly (re_created_at r) (<[position := byte]> (re_packet r)) received count)
      else Panic
  end.

(** The end of [handle_inner_fragment]: the entry of [packet_id] takes the
    fragment, and leaves when it is complete. *)
Definition accept_fragment (packet_id : Z) (total_len offset : nat) (fragment : bytes) (c : EngineCore)
    : outcome unit EngineCore :=
  match reassembly c !! packet_id with
  | None => Ok c
  | Some entry =>
      if decide (length (re_packet entry) ≠ total_len) then Ok c else
      let? entry := place fragment offset entry in
      if decide (re_received_count entry = total_len) then
        if decide (reassembly_bytes c < Z.of_nat (length (re_packet entry))) then Panic else
        Ok (mkCore (next_inner_packet_id c) (delete packet_id (reassembly c))
              (reassembly_bytes c - Z.of_nat (length (re_packet entry)))
              (events c ++ [InnerPacket (re_packet entry)]))
      else Ok (mkCore (next_inner_packet_id c) (<[packet_id := entry]> (reassembly c)) (reassembly_bytes c) (events c))
  end.

Definition handle_inner_fragment (now : Z) (payload : bytes) (c : EngineCore) : outcome unit EngineCore :=
  if decide (length payload < INNER_FRAGMENT_HEADER_LEN)%nat then Ok c else
  let? id := slice payload 0 8 in
  let packet_id := be_val id in
  let? total := slice payload 8 10 in
  let total_len := Z.to_nat (be_val total) in
  let? off := slice payload 10 12 in
  let offset := Z.to_nat (be_val off) in
  let? fragment := slice payload 12 (length payload) in
  let fragment_end := (offset + length fragment)%nat in
  if decide (total_len = 0 ∨ MAX_INNER_PACKET_LEN < total_len ∨ total_len ≤ offset ∨ total_len < fragment_end)%nat then Ok c else
  match reassembly c !! packet_id with
  | Some _ => accept_fragment packet_id total_len offset fragment c
  | None =>
      if decide ((MAX_REASSEMBLY_ENTRIES ≤ size (reassembly c))%nat
                 ∨ MAX_REASSEMBLY_BYTES < saturating_add 64 (reassembly_bytes c) (Z.of_nat total_len)) then Ok c else
      accept_fragment packet_id total_len offset fragment
        (mkCore (next_inner_packet_id c)
           (<[packet_id := mkReassembly now (replicate total_len 0) (replicate total_len false) 0]> (reassembly c))
           (reassembly_bytes c + Z.of_nat total_len) (events c))
  end.

Definition prune_reassembly (now : Z) (c : EngineCore) : EngineCore :=
  let kept := filter (λ kv, Z.max 0 (now - re_created_at kv.2) < REASSEMBLY_TIMEOUT) (reassembly c) in
  mkCore (next_inner_packet_id c) kept (map_fold (λ _ entry n, Z.of_nat (length (re_packet entry)) + n) 0 kept) (events c).

Definition clear_reassembly (c : EngineCore) : EngineCore :=
  mkCore (next_inner_packet_id c) ∅ 0 (events c).

Definition handle_application_datagram (authenticated : bool) (now : Z) (datagram : bytes) (c : EngineCore)
    : outcome unit EngineCore :=
  match datagram with
  | [] => Ok c
  | kind :: payload =>
      if decide (kind = INNER_PACKET ∧ authenticated = true ∧ payload ≠ []) then
        Ok (mkCore (next_inner_packet_id c) (reassembly c) (reassembly_bytes c) (events c ++ [InnerPacket payload]))
      else if decide (kind = INNER_FRAGMENT ∧ authenticated = true) then handle_inner_fragment now payload c
      else Ok c
  end.

(** ** Sending *)

(** [(0..len).step_by(step)]. *)
Definition step_by_offsets (len step : nat) : list nat := (λ i, i * step)%nat <$> seq 0 ((len + step - 1) / step).

(** One fragment on the wire. *)
Definition fragment_wire (packet_id : Z) (packet : bytes) (step offset : nat) : outcome QuicEngineError bytes :=
  let fragment_end := Nat.min (length packet) (offset + step) in
  let? fragment := slice packet offset fragment_end in
  Ok ([INNER_FRAGMENT] ++ be_bytes 8 packet_id ++ be_bytes 2 (Z.of_nat (length packet))
        ++ be_bytes 2 (wrap 16 (Z.of_nat offset)) ++ fragment).

Section send.
Context {Conn : Type} (datagrams_max_size : Conn → option nat) (datagrams_send : bytes → Conn → bool * Conn).

(** [send_datagram] on the active connection. *)
Definition send_datagram (datagram : bytes) (conn : Conn) : outcome QuicEngineError unit * Conn :=
  let '(sent, conn') := datagrams_send datagram conn in
  (if sent : bool then Ok tt else Err DatagramTooLarge, conn').

(** The loop of [send_fragmented_inner]. *)
Fixpoint send_fragments (packet_id : Z) (packet : bytes) (step : nat) (offsets : list nat) : ST Conn QuicEngineError unit :=
  match offsets with
  | [] => sret tt
  | offset :: offsets =>
      let! wire := slift (fragment_wire packet_id packet step offset) in
      send_datagram wire ;;;
      send_fragments packet_id packet step offsets
  end.

Definition send_fragmented_inner (packet : bytes) (max_datagram_size : nat) : ST (EngineCore * Conn) QuicEngineError unit := λ s,
  if decide (MAX_INNER_PACKET_LEN < length packet ∨ max_datagram_size ≤ INNER_FRAGMENT_HEADER_LEN)%nat
  then (Err DatagramTooLarge, s) else
  let packet_id := next_inner_packet_id s.1 in
  let core := mkCore (wrap 64 (packet_id + 1)) (reassembly s.1) (reassembly_bytes s.1) (events s.1) in
  let fragment_payload_len := (max_datagram_size - INNER_FRAGMENT_HEADER_LEN)%nat in
  let '(r, conn) := send_fragments packet_id packet fragment_payload_len
                      (step_by_offsets (length packet) fragment_payload_len) s.2 in
  (r, (core, conn)).

(** [send_inner] up to its final [drive]; [authenticated] is the flag of the
    active connection, whose absence is [None]. *)
Definition queue_inner (authenticated : bool) (packet : bytes) (core : EngineCore) (connection : option Conn)
    : outcome QuicEngineError unit * (EngineCore * option Conn) :=
  if decide (packet = []) then (Err EmptyInnerPacket, (core, connection)) else
  match connection with
  | None => (Err NotAuthenticated, (core, None))
  | Some conn =>
      if negb authenticated then (Err NotAuthenticated, (core, Some conn)) else
      match datagrams_max_size conn with
      | None => (Err NotConnected, (core, Some conn))
      | Some max_datagram_size =>
          if decide (length packet < max_datagram_size)%nat then
            let '(r, conn') := send_datagram (INNER_PACKET :: packet) conn in (r, (core, Some conn'))
          else
            let '(r, (core', conn')) := send_fragmented_inner packet max_datagram_size (core, conn) in (r, (core', Some conn'))
      end
  end.
End send.
