(* ===== verification/InnerProps.v ===== *)
(** Inner packets over QUIC datagrams: reassembly is bounded and never panics on any
    input, and the fragments of a packet, delivered in any order, give the packet
    back exactly once. *)
From S2P Require Import Prelude Net Inner.

#[local] Arguments Nat.add : simpl never.
#[local] Arguments Nat.mul : simpl never.

(** ** Counting received bytes *)

Definition count_true (l : list bool) : nat := length (filter (λ b, b = true) l).

Lemma count_true_set l i : l !! i = Some false → count_true (<[i := true]> l) = S (count_true l).
Proof.
  revert i. induction l as [|b l IH]; intros [|i] Hi; simplify_eq/=; unfold count_true in *; [done|].
  destruct b; [rewrite !filter_cons_True by done|rewrite !filter_cons_False by done]; simpl; by rewrite IH.
Qed.

Lemma count_true_le l : (count_true l ≤ length l)%nat.
Proof. unfold count_true. apply length_filter. Qed.

Lemma count_true_all l : count_true l = length l ↔ ∀ i, (i < length l)%nat → l !! i = Some true.
Proof.
  unfold count_true. induction l as [|b l IH]; [split; [simpl; lia|done]|]. pose proof (count_true_le l) as Hle. unfold count_true in Hle.
  destruct b; [rewrite filter_cons_True by done|rewrite filter_cons_False by done]; simpl; split.
  - intros [=H] [|i] Hi; [done|]. simpl. apply IH; [done|lia].
  - intros H. f_equal. apply IH. intros i Hi. apply (H (S i)). lia.
  - lia.
  - intros H. by specialize (H O ltac:(lia)).
Qed.

(** ** The copy loop *)

Record entry_ok (r : InnerReassembly) : Prop := {
  en_length : length (re_received r) = length (re_packet r);
  en_count : re_received_count r = count_true (re_received r);
}.

(** What the loop leaves in an entry. *)
Record placed (fragment : bytes) (position : nat) (r r' : InnerReassembly) : Prop := {
  pl_created : re_created_at r' = re_created_at r;
  pl_length : length (re_packet r') = length (re_packet r);
  pl_ok : entry_ok r';
  pl_packet : ∀ p, re_packet r' !! p
    = if decide (position ≤ p < position + length fragment)%nat then fragment !! (p - position)%nat else re_packet r !! p;
  pl_received : ∀ p, re_received r' !! p
    = if decide (position ≤ p < position + length fragment)%nat then Some true else re_received r !! p;
}.

Lemma place_spec fragment : ∀ position r, entry_ok r → (position + length fragment ≤ length (re_packet r))%nat →
  ∃ r', place fragment position r = Ok r' ∧ placed fragment position r r'.
Proof.
  induction fragment as [|b fragment IH]; intros position r Hok Hlen.
  { exists r. split; [done|]. split; try done; intros p; rewrite decide_False; simpl; lia || done. }
  simpl length in Hlen. pose proof Hok as [Hl Hc]. cbn [place].
  assert (position < length (re_received r))%nat as [seen Hseen]%lookup_lt_is_Some by lia.
  rewrite Hseen. cbn [expect obind]. rewrite decide_True by lia.
  set (r1 := mkReassembly _ _ _ _).
  assert (entry_ok r1) as Hok1.
  { split; simpl; destruct seen; rewrite ?length_insert; try done. by rewrite count_true_set, Hc. }
  assert (∀ p, re_received r1 !! p = if decide (p = position) then Some true else re_received r !! p) as Hr1.
  { intros p. simpl. case_decide as Hp; [subst p|]; destruct seen; try done.
    - apply list_lookup_insert_eq. lia.
    - by rewrite list_lookup_insert_ne. }
  destruct (IH (S position) r1 Hok1) as (r' & Hrun & [P1 P2 P3 P4 P5]).
  { simpl. rewrite length_insert. lia. }
  exists r'. split; [done|]. split; [done| |done| |].
  - rewrite P2. simpl. by rewrite length_insert.
  - intros p. rewrite P4. simpl. destruct (decide (p = position)) as [->|Hp].
    + rewrite decide_False, decide_True by lia. rewrite Nat.sub_diag. simpl. apply list_lookup_insert_eq. lia.
    + rewrite list_lookup_insert_ne by done.
      destruct (decide (S position ≤ p < S position + length fragment)%nat).
      * rewrite decide_True by lia. replace (p - position)%nat with (S (p - S position)) by lia. done.
      * rewrite decide_False by lia. done.
  - intros p. rewrite P5, Hr1. simpl length. destruct (decide (p = position)) as [->|Hp].
    + rewrite decide_False, decide_True by lia. done.
    + destruct (decide (S position ≤ p < S position + length fragment)%nat).
      * by rewrite decide_True by lia.
      * by rewrite decide_False by lia.
Qed.

(** ** The memory held by reassembly *)

Definition held (m : gmap Z InnerReassembly) : Z := map_fold (λ _ entry n, Z.of_nat (length (re_packet entry)) + n) 0 m.

Lemma held_insert m id e : m !! id = None → held (<[id := e]> m) = Z.of_nat (length (re_packet e)) + held m.
Proof. intros Hn. unfold held. rewrite map_fold_insert_L; [done| |done]. intros. lia. Qed.

Lemma held_delete m id e : m !! id = Some e → held m = Z.of_nat (length (re_packet e)) + held (delete id m).
Proof. intros He. rewrite <- (held_insert (delete id m) id e) by apply lookup_delete_eq. by rewrite insert_delete_id. Qed.

Lemma held_update m id e e' : m !! id = Some e → length (re_packet e') = length (re_packet e) → held (<[id := e']> m) = held m.
Proof.
  intros He Hl. rewrite (held_delete m id e He), <- insert_delete_eq, held_insert, Hl by apply lookup_delete_eq. done.
Qed.

Lemma held_nonneg m : 0 ≤ held m.
Proof.
  induction m as [|id e m Hn IH] using map_ind; [done|]. rewrite held_insert by done. lia.
Qed.

Lemma held_filter_le (P : Z * InnerReassembly → Prop) `{∀ x, Decision (P x)} m : held (filter P m) ≤ held m.
Proof.
  induction m as [|id e m Hn IH] using map_ind; [done|]. rewrite held_insert by done. destruct (decide (P (id, e))).
  - rewrite map_filter_insert_True, held_insert by (done || by apply map_lookup_filter_None_2; left). lia.
  - rewrite map_filter_insert_False, delete_id by done. lia.
Qed.

(** ** The invariant *)

Record core_inv (c : EngineCore) : Prop := {
  co_entry : ∀ id e, reassembly c !! id = Some e →
    entry_ok e ∧ (re_received_count e < length (re_packet e) ≤ MAX_INNER_PACKET_LEN)%nat;
  co_bytes : reassembly_bytes c = held (reassembly c);
  co_bound : reassembly_bytes c ≤ MAX_REASSEMBLY_BYTES;
  co_entries : (size (reassembly c) ≤ MAX_REASSEMBLY_ENTRIES)%nat;
}.

(** A fragment for an entry that exists and has not got all its bytes. *)
Lemma accept_fragment_run id total offset fragment c e : reassembly c !! id = Some e → entry_ok e →
  length (re_packet e) = total → (offset + length fragment ≤ total)%nat → reassembly_bytes c = held (reassembly c) →
  ∃ e', placed fragment offset e e' ∧ accept_fragment id total offset fragment c
    = Ok (if decide (re_received_count e' = total)
          then mkCore (next_inner_packet_id c) (delete id (reassembly c)) (held (delete id (reassembly c)))
                 (events c ++ [InnerPacket (re_packet e')])
          else mkCore (next_inner_packet_id c) (<[id := e']> (reassembly c)) (held (<[id := e']> (reassembly c))) (events c)).
Proof.
  intros He Hok Hl Hend Hb. destruct (place_spec fragment offset e Hok) as (e' & Hrun & Hp); [lia|]. exists e'. split; [done|].
  unfold accept_fragment. rewrite He, decide_False by lia. rewrite Hrun. cbn [obind].
  pose proof (pl_length _ _ _ _ Hp) as Hl'. destruct (decide (re_received_count e' = total)).
  - rewrite (held_delete _ _ _ He) in Hb. pose proof (held_nonneg (delete id (reassembly c))).
    rewrite decide_False by lia. do 2 f_equal. lia.
  - do 2 f_equal. rewrite Hb. symmetry. by eapply held_update.
Qed.

Lemma accept_fragment_inv id total offset fragment c e : core_inv c → reassembly c !! id = Some e →
  (length (re_packet e) = total → offset + length fragment ≤ total)%nat →
  ∃ c', accept_fragment id total offset fragment c = Ok c' ∧ core_inv c'.
Proof.
  intros [He Hb Hbd Hn] Hlk Hend. destruct (He _ _ Hlk) as [Hok Hlt].
  destruct (decide (length (re_packet e) = total)) as [Hl|Hl].
  - destruct (accept_fragment_run id total offset fragment c e) as (e' & [_ P2 P3 _ _] & ->); [done|done|done|by apply Hend|done|].
    eexists. split; [done|]. pose proof (held_nonneg (delete id (reassembly c))) as Hnn. rewrite (held_delete _ _ _ Hlk) in Hb.
    case_decide as Hd.
    + split; simpl; [|done|lia|pose proof (delete_size_le (reassembly c) id); lia].
      intros i x [_ Hx]%lookup_delete_Some. by eapply He.
    + rewrite (held_update _ _ _ _ Hlk P2). split; simpl.
      * intros i x [[<- <-]|[_ Hx]]%lookup_insert_Some; [|by eapply He]. split; [done|].
        pose proof (count_true_le (re_received e')) as Hc. rewrite <- (en_count _ P3), (en_length _ P3) in Hc. lia.
      * by rewrite (held_update _ _ _ _ Hlk P2).
      * rewrite (held_delete _ _ _ Hlk). lia.
      * rewrite map_size_insert_Some; [done|by exists e].
  - exists c. unfold accept_fragment. rewrite Hlk, decide_True by done. done.
Qed.

Lemma handle_fragment_inv now payload c : core_inv c →
  ∃ c', handle_inner_fragment now payload c = Ok c' ∧ core_inv c'.
Proof.
  intros Hc. unfold handle_inner_fragment. case_decide as Hlen; [by exists c|]. unfold INNER_FRAGMENT_HEADER_LEN in Hlen.
  rewrite !slice_ok by lia. cbn [obind]. cbv zeta. set (id := be_val (sub payload 0 8)).
  set (total := Z.to_nat (be_val (sub payload 8 10))). set (offset := Z.to_nat (be_val (sub payload 10 12))).
  set (fragment := sub payload 12 (length payload)). case_decide as Hd; [by exists c|].
  assert (0 < total ∧ total ≤ MAX_INNER_PACKET_LEN ∧ offset + length fragment ≤ total)%nat as (Ht0 & Hmax & Hend) by lia.
  destruct (reassembly c !! id) as [e|] eqn:Hid; [eapply accept_fragment_inv; [done|done|lia]|].
  case_decide as Hroom; [by exists c|].
  set (e := mkReassembly now _ _ 0). destruct Hc as [He Hb Hbd Hn].
  eapply (accept_fragment_inv _ _ _ _ _ e); [|simpl; by rewrite lookup_insert_eq|lia].
  assert (count_true (replicate total false) = 0%nat) as Hct.
  { clear. unfold count_true. induction total as [|n IH]; [done|]. simpl. by rewrite filter_cons_False. }
  split; simpl.
  - intros i x [[<- <-]|[_ Hx]]%lookup_insert_Some; [|by eapply He]. simpl. rewrite length_replicate. split; [|lia].
    split; simpl; [by rewrite !length_replicate|done].
  - rewrite held_insert by done. simpl. rewrite length_replicate, Hb. lia.
  - unfold saturating_add, MAX_REASSEMBLY_BYTES in *. lia.
  - rewrite map_size_insert_None by done. lia.
Qed.

Lemma prune_inv now c : core_inv c → core_inv (prune_reassembly now c).
Proof.
  intros [He Hb Hbd Hn]. unfold prune_reassembly. cbv zeta.
  set (kept := filter _ (reassembly c)). fold (held kept). assert (kept ⊆ reassembly c) as Hsub by apply map_filter_subseteq.
  split; simpl; [|done| |].
  - intros id e Hk. eapply He, lookup_weaken; done.
  - pose proof (held_filter_le (λ kv, Z.max 0 (now - re_created_at kv.2) < REASSEMBLY_TIMEOUT) (reassembly c)).
    fold kept in H. lia.
  - pose proof (map_subseteq_size kept (reassembly c) Hsub). lia.
Qed.

Lemma clear_inv c : core_inv (clear_reassembly c).
Proof. split; simpl; [done|done|done|]. rewrite map_size_empty. lia. Qed.

Lemma datagram_inv authenticated now datagram c : core_inv c →
  ∃ c', handle_application_datagram authenticated now datagram c = Ok c' ∧ core_inv c'.
Proof.
  intros Hc. unfold handle_application_datagram. destruct datagram as [|kind payload]; [by exists c|].
  case_decide; [|case_decide; [by apply handle_fragment_inv|by exists c]]. eexists. split; [done|]. by destruct Hc.
Qed.

(** ** Runs of the receiving side *)

Inductive core_op : Type :=
| CoreDatagram (authenticated : bool) (now : Z) (datagram : bytes)
| CorePrune (now : Z)
| CoreClear.

Definition core_step (op : core_op) (c : EngineCore) : outcome unit EngineCore :=
  match op with
  | CoreDatagram authenticated now datagram => handle_application_datagram authenticated now datagram c
  | CorePrune now => Ok (prune_reassembly now c)
  | CoreClear => Ok (clear_reassembly c)
  end.

Fixpoint core_run (ops : list core_op) (c : EngineCore) : outcome unit EngineCore :=
  match ops with
  | [] => Ok c
  | op :: ops => let? c := core_step op c in core_run ops c
  end.

Lemma core_run_inv ops : ∀ c, core_inv c → ∃ c', core_run ops c = Ok c' ∧ core_inv c'.
Proof.
  induction ops as [|op ops IH]; intros c Hc; [by exists c|]. cbn [core_run].
  assert (∃ c1, core_step op c = Ok c1 ∧ core_inv c1) as (c1 & -> & Hc1); [|by apply IH].
  destruct op; simpl; [by apply datagram_inv|eexists; split; [done|by apply prune_inv]|eexists; split; [done|apply clear_inv]].
Qed.

(** ** Fragments of one packet *)

Section fragments.
Context (packet : bytes) (m : nat) (id : Z).
Hypotheses (Hm : (0 < m)%nat) (Hmax : (0 < length packet ≤ MAX_INNER_PACKET_LEN)%nat) (Hid : fits 64 id).
Abbreviation n := (length packet).
Abbreviation offsets := (step_by_offsets n m).

Definition chunk (o : nat) : bytes := sub packet o (Nat.min n (o + m)).
Definition payload (o : nat) : bytes := be_bytes 8 id ++ be_bytes 2 (Z.of_nat n) ++ be_bytes 2 (Z.of_nat o) ++ chunk o.

Lemma elem_of_offsets o : o ∈ offsets ↔ (o < n ∧ ∃ k, o = k * m)%nat.
Proof using Hm Hmax.
  unfold step_by_offsets. rewrite list_elem_of_fmap. setoid_rewrite elem_of_seq. split.
  - intros (k & -> & _ & Hk). split; [|by exists k]. pose proof (Nat.div_mod_eq (n + m - 1) m).
    pose proof (Nat.mod_upper_bound (n + m - 1) m). nia.
  - intros (Ho & k & ->). exists k. split; [done|]. split; [lia|]. apply Nat.div_le_lower_bound; nia.
Qed.

Lemma offsets_NoDup : NoDup offsets.
Proof using Hm Hmax. apply NoDup_fmap_2; [|apply NoDup_seq]. intros a b Hab. nia. Qed.

Lemma length_chunk o : (o < n)%nat → length (chunk o) = (Nat.min n (o + m) - o)%nat.
Proof using Hm Hmax. intros Ho. unfold chunk. rewrite length_sub; lia. Qed.

Lemma lookup_chunk o p : (o ≤ p < o + length (chunk o))%nat → (o < n)%nat → chunk o !! (p - o)%nat = packet !! p.
Proof using Hm Hmax.
  intros Hp Ho. rewrite length_chunk in Hp by done. unfold chunk. rewrite lookup_sub by lia. f_equal. lia.
Qed.

(** Position [p] belongs to the fragment at [p / m * m]. *)
Lemma chunk_of k p : (k * m < n)%nat → (p < n)%nat →
  (k * m ≤ p < k * m + length (chunk (k * m)))%nat ↔ (p / m * m = k * m)%nat.
Proof using Hm Hmax.
  intros Hk Hp. rewrite length_chunk by done. pose proof (Nat.div_mod_eq p m). pose proof (Nat.mod_upper_bound p m).
  split; intros; [|nia]. enough (p / m = k)%nat by nia. symmetry; apply Nat.div_unique with (r := (p - k * m)%nat); nia.
Qed.

Lemma own_offset p : (p < n)%nat → (p / m * m)%nat ∈ offsets.
Proof using Hm Hmax.
  intros Hp. apply elem_of_offsets. split; [|by eexists]. pose proof (Nat.div_mod_eq p m). lia.
Qed.

(** An entry that has got exactly the fragments [done]. *)
Record partial (done : list nat) (e : InnerReassembly) : Prop := {
  pa_ok : entry_ok e;
  pa_length : length (re_packet e) = n;
  pa_received : ∀ p, (p < n)%nat → re_received e !! p = Some (bool_decide ((p / m * m)%nat ∈ done));
  pa_packet : ∀ p, (p < n)%nat → (p / m * m)%nat ∈ done → re_packet e !! p = packet !! p;
}.

Lemma partial_new now : partial [] (mkReassembly now (replicate n 0) (replicate n false) 0).
Proof using Hm Hmax.
  split; simpl; [|apply length_replicate| |].
  - split; simpl; [by rewrite !length_replicate|]. unfold count_true. clear; induction n as [|x IH]; [done|]. simpl. by rewrite filter_cons_False.
  - intros p Hp. by rewrite lookup_replicate_2 by done.
  - intros p _ H. by apply not_elem_of_nil in H.
Qed.

Lemma partial_step done e o e' : o ∈ offsets → partial done e → placed (chunk o) o e e' → partial (done ++ [o]) e'.
Proof using Hm Hmax.
  intros (Ho & k & ->)%elem_of_offsets [Hok Hl Hr Hp] [_ P2 P3 P4 P5]. split; [done|congruence| |].
  - intros p Hlt. rewrite P5. rewrite (Hr p) by done. destruct (decide _) as [Hin|Hin].
    + rewrite (chunk_of k p) in Hin by done. rewrite Hin. symmetry. f_equal. apply bool_decide_eq_true_2. rewrite elem_of_app, list_elem_of_singleton. by right.
    + rewrite (chunk_of k p) in Hin by done. f_equal. apply bool_decide_ext. rewrite elem_of_app, list_elem_of_singleton. tauto.
  - intros p Hlt. rewrite P4, elem_of_app, list_elem_of_singleton. destruct (decide _) as [Hin|Hin].
    + intros _. by apply lookup_chunk.
    + rewrite (chunk_of k p) in Hin by done. intros [?|?]; [by apply Hp|done].
Qed.

Lemma partial_complete done e : partial done e → re_received_count e = n ↔ ∀ o, o ∈ offsets → o ∈ done.
Proof using Hm Hmax.
  intros [Hok Hl Hr _]. rewrite (en_count _ Hok), <- Hl, <- (en_length _ Hok), count_true_all.
  rewrite (en_length _ Hok), Hl. split.
  - intros Hall o (Ho & k & ->)%elem_of_offsets. specialize (Hall _ Ho). rewrite Hr in Hall by done.
    injection Hall as Hall%bool_decide_eq_true_1. by rewrite Nat.div_mul in Hall by lia.
  - intros Hall p Hp. rewrite Hr by done. f_equal. apply bool_decide_eq_true_2, Hall, own_offset. done.
Qed.

Lemma partial_packet done e : partial done e → (∀ o, o ∈ offsets → o ∈ done) → re_packet e = packet.
Proof using Hm Hmax.
  intros [Hok Hl Hr Hp] Hall. apply list_eq. intros p. destruct (decide (p < n)%nat) as [Hlt|Hge].
  - apply Hp; [done|]. by apply Hall, own_offset.
  - rewrite !lookup_ge_None_2 by lia. done.
Qed.

Lemma payload_fields o : (o < n)%nat →
  slice (E := unit) (payload o) 0 8 = Ok (be_bytes 8 id) ∧ slice (E := unit) (payload o) 8 10 = Ok (be_bytes 2 (Z.of_nat n))
  ∧ slice (E := unit) (payload o) 10 12 = Ok (be_bytes 2 (Z.of_nat o))
  ∧ slice (E := unit) (payload o) 12 (length (payload o)) = Ok (chunk o).
Proof using Hm Hmax.
  intros Ho. unfold payload. set (a := be_bytes 8 id). set (b := be_bytes 2 (Z.of_nat n)). set (c := be_bytes 2 (Z.of_nat o)).
  assert (length a = 8 ∧ length b = 2 ∧ length c = 2)%nat as (Ha & Hb & Hc) by (split_and!; apply length_be_bytes).
  clearbody a b c. split_and!.
  - apply (slice_app []); simpl; lia.
  - apply slice_app; lia.
  - rewrite app_assoc. apply slice_app; rewrite ?length_app; lia.
  - rewrite !length_app, !app_assoc. rewrite <- (app_nil_r (_ ++ chunk o)), <- app_assoc.
    apply slice_app; rewrite ?length_app; lia.
Qed.

(** What the receiver reads from a fragment on the wire. *)
Lemma handle_payload now o c : o ∈ offsets →
  handle_inner_fragment now (payload o) c
  = match reassembly c !! id with
    | Some _ => accept_fragment id n o (chunk o) c
    | None =>
        if decide ((MAX_REASSEMBLY_ENTRIES ≤ size (reassembly c))%nat
                   ∨ MAX_REASSEMBLY_BYTES < saturating_add 64 (reassembly_bytes c) (Z.of_nat n)) then Ok c else
        accept_fragment id n o (chunk o) (mkCore (next_inner_packet_id c)
          (<[id := mkReassembly now (replicate n 0) (replicate n false) 0]> (reassembly c))
          (reassembly_bytes c + Z.of_nat n) (events c))
    end.
Proof using Hm Hmax Hid.
  intros Ho. pose proof Ho as (Hlt & _)%elem_of_offsets. pose proof (length_chunk o Hlt) as Hlc.
  unfold MAX_INNER_PACKET_LEN in Hmax. assert (length (payload o) = 12 + length (chunk o))%nat as Hlp.
  { unfold payload. rewrite !length_app, !length_be_bytes. lia. }
  unfold handle_inner_fragment, INNER_FRAGMENT_HEADER_LEN. rewrite decide_False by lia.
  destruct (payload_fields o) as (-> & -> & -> & ->); [done|].
  cbn [obind]. cbv zeta. rewrite !be_val_be_bytes by (simpl; done || (unfold fits; lia)). rewrite !Nat2Z.id.
  unfold MAX_INNER_PACKET_LEN. rewrite decide_False by lia. done.
Qed.
(** ** Delivery in any order *)

Definition fragment_datagram (o : nat) : bytes := INNER_FRAGMENT :: payload o.

Lemma fragment_received now o c : handle_application_datagram true now (fragment_datagram o) c = handle_inner_fragment now (payload o) c.
Proof using Hm Hmax. unfold handle_application_datagram, fragment_datagram. rewrite decide_False by naive_solver. by rewrite decide_True by done. Qed.

(** Some fragment is still missing while the rest of the list is not empty. *)
Lemma covers_iff got o rest : got ++ o :: rest ≡ₚ offsets → (∀ x, x ∈ offsets → x ∈ got ++ [o]) ↔ rest = [].
Proof using Hm Hmax.
  intros Hp. split.
  - intros Hall. destruct rest as [|x rest]; [done|]. exfalso. pose proof offsets_NoDup as Hnd. rewrite <- Hp in Hnd.
    assert (got ++ o :: x :: rest = (got ++ [o]) ++ x :: rest) as Heq by by rewrite <- app_assoc. rewrite Heq in Hnd, Hp.
    apply NoDup_app in Hnd as (_ & Hd & _). apply (Hd x); [|apply list_elem_of_here].
    apply Hall. rewrite <- Hp. apply elem_of_app. right. apply list_elem_of_here.
  - intros -> x. by rewrite <- Hp.
Qed.

(** The state after the last missing fragment: the entry is gone, the packet is out. *)
Definition delivered (c : EngineCore) : EngineCore :=
  mkCore (next_inner_packet_id c) (delete id (reassembly c)) (held (delete id (reassembly c))) (events c ++ [InnerPacket packet]).

Definition deliver (arrivals : list (Z * bytes)) : list core_op := (λ a, CoreDatagram true a.1 a.2) <$> arrivals.

Lemma deliver_cons t w arrivals c :
  core_run (deliver ((t, w) :: arrivals)) c = let? c := handle_application_datagram true t w c in core_run (deliver arrivals) c.
Proof using Type. done. Qed.

(** One fragment for an entry that has the fragments [got]. *)
Lemma accept_next got o rest c e : got ++ o :: rest ≡ₚ offsets → partial got e → reassembly c !! id = Some e →
  reassembly_bytes c = held (reassembly c) →
  ∃ c', accept_fragment id n o (chunk o) c = Ok c' ∧
    (rest = [] → c' = delivered c) ∧
    (rest ≠ [] → ∃ e', partial (got ++ [o]) e' ∧ reassembly c' !! id = Some e' ∧ reassembly_bytes c' = held (reassembly c')
       ∧ delivered c' = delivered c).
Proof using Hm Hmax.
  intros Hp Hpart He Hb. assert (o ∈ offsets) as Ho by (rewrite <- Hp, elem_of_app; right; apply list_elem_of_here).
  pose proof Ho as (Hlt & _)%elem_of_offsets. pose proof (length_chunk o Hlt) as Hlc.
  destruct (accept_fragment_run id n o (chunk o) c e) as (e' & Hpl & Hrun); [done|apply Hpart|apply Hpart|lia|done|].
  pose proof (partial_step _ _ _ _ Ho Hpart Hpl) as Hpart'. pose proof (partial_complete _ _ Hpart') as Hcount.
  rewrite (covers_iff _ _ _ Hp) in Hcount. eexists. split; [exact Hrun|]. split; intros Hrest.
  - rewrite decide_True by by apply Hcount. unfold delivered. by rewrite (partial_packet _ _ Hpart') by by apply (covers_iff _ _ _ Hp).
  - rewrite decide_False by by rewrite Hcount. exists e'. unfold delivered. simpl. by rewrite lookup_insert_eq, delete_insert_eq.
Qed.

Lemma deliver_rest os : ∀ arrivals got c e, arrivals.*2 = fragment_datagram <$> os → os ≠ [] → got ++ os ≡ₚ offsets →
  partial got e → reassembly c !! id = Some e → reassembly_bytes c = held (reassembly c) →
  core_run (deliver arrivals) c = Ok (delivered c).
Proof using Hm Hmax Hid.
  induction os as [|o os IH]; intros [|[t w] arrivals] got c e Harr Hne Hp Hpart He Hb; [done|done|done|].
  injection Harr as -> Harr. rewrite deliver_cons, fragment_received, handle_payload, He
    by (done || (rewrite <- Hp, elem_of_app; right; apply list_elem_of_here)).
  destruct (accept_next got o os c e Hp Hpart He Hb) as (c' & -> & Hlast & Hmore). cbn [obind].
  destruct os as [|o' os].
  - rewrite Hlast by done. by destruct arrivals.
  - destruct Hmore as (e' & H1 & H2 & H3 & <-); [done|]. apply (IH _ (got ++ [o]) _ e'); try done. by rewrite <- app_assoc.
Qed.

(** A receiver with no entry for the packet and room for it. *)
Definition ready (c : EngineCore) : Prop :=
  reassembly c !! id = None ∧ (size (reassembly c) < MAX_REASSEMBLY_ENTRIES)%nat
  ∧ reassembly_bytes c + Z.of_nat n ≤ MAX_REASSEMBLY_BYTES.

Lemma deliver_all arrivals c : arrivals.*2 ≡ₚ fragment_datagram <$> offsets → core_inv c → ready c →
  core_run (deliver arrivals) c
  = Ok (mkCore (next_inner_packet_id c) (reassembly c) (reassembly_bytes c) (events c ++ [InnerPacket packet])).
Proof using Hm Hmax Hid.
  intros (os & Harr & Hp)%Permutation_map_inv [_ Hb _ _] (Hn & Hsize & Hroom).
  destruct os as [|o os], arrivals as [|[t w] arrivals]; try done.
  { exfalso. apply (not_elem_of_nil (0 / m * m)%nat). rewrite <- Hp. apply own_offset. lia. }
  assert (o ∈ offsets) as Ho by (rewrite Hp; apply list_elem_of_here).
  injection Harr as -> Harr. rewrite deliver_cons, fragment_received, handle_payload, Hn by done. rewrite decide_False by (unfold saturating_add; lia).
  set (c1 := mkCore _ _ _ _).
  destruct (accept_next [] o os c1 (mkReassembly t (replicate n 0) (replicate n false) 0)) as (c' & -> & Hlast & Hmore).
  { by symmetry. } { apply partial_new. } { simpl. by rewrite lookup_insert_eq. }
  { simpl. rewrite held_insert by done. simpl. rewrite length_replicate. lia. }
  assert (delivered c1 = mkCore (next_inner_packet_id c) (reassembly c) (reassembly_bytes c) (events c ++ [InnerPacket packet])) as <-.
  { unfold delivered. simpl. rewrite delete_insert_eq, delete_id by done. by rewrite <- Hb. }
  cbn [obind]. destruct os as [|o' os].
  - rewrite Hlast by done. by destruct arrivals.
  - destruct Hmore as (e' & H1 & H2 & H3 & <-); [done|]. apply (deliver_rest (o' :: os) _ [o] _ e'); try done.
Qed.
End fragments.

(** ** Sending *)

Lemma fragment_wire_ok packet m id o : (0 < m)%nat → (0 < length packet ≤ MAX_INNER_PACKET_LEN)%nat →
  o ∈ step_by_offsets (length packet) m → fragment_wire id packet m o = Ok (fragment_datagram packet m id o).
Proof.
  intros Hm Hmax (Ho & _)%elem_of_offsets; [|done|done]. unfold fragment_wire, MAX_INNER_PACKET_LEN in *.
  rewrite slice_ok by lia. cbn [obind]. unfold fragment_datagram, payload, chunk. do 4 f_equal. unfold wrap. by rewrite Z.mod_small by lia.
Qed.

Section send_facts.
Context {Conn : Type} (datagrams_max_size : Conn → option nat) (datagrams_send : bytes → Conn → bool * Conn)
  (accepted : Conn → list bytes).

(** What the QUIC library documents of [Datagrams::send]: a datagram no longer than
    [max_size] is accepted, and sending does not change the limit. *)
Definition datagram_laws : Prop := ∀ d conn limit, datagrams_max_size conn = Some limit → (length d ≤ limit)%nat →
  ∃ conn', datagrams_send d conn = (true, conn') ∧ accepted conn' = accepted conn ++ [d] ∧ datagrams_max_size conn' = Some limit.

Hypothesis Hlaws : datagram_laws.

Lemma send_fragments_run packet id m limit os : (0 < m)%nat → (0 < length packet ≤ MAX_INNER_PACKET_LEN)%nat →
  (13 + m ≤ limit)%nat → (∀ o, o ∈ os → o ∈ step_by_offsets (length packet) m) → ∀ conn, datagrams_max_size conn = Some limit →
  ∃ conn', send_fragments datagrams_send id packet m os conn = (Ok tt, conn')
    ∧ accepted conn' = accepted conn ++ (fragment_datagram packet m id <$> os) ∧ datagrams_max_size conn' = Some limit.
Proof using Hlaws.
  intros Hm Hmax Hlim. induction os as [|o os IH]; intros Hos conn Hconn.
  { exists conn. simpl. by rewrite app_nil_r. }
  pose proof (Hos o (list_elem_of_here _ _)) as Ho. pose proof Ho as (Hlt & _)%elem_of_offsets; [|done|done].
  cbn [send_fragments]. unfold sbind at 1, slift. rewrite fragment_wire_ok by done. cbn. unfold sbind, send_datagram.
  destruct (Hlaws (fragment_datagram packet m id o) conn limit) as (conn1 & -> & Ha & Hl); [done| |].
  { unfold fragment_datagram, payload. rewrite length_cons, !length_app, !length_be_bytes, length_chunk by done. lia. }
  destruct (IH (λ x Hx, Hos x (list_elem_of_further _ _ _ Hx)) conn1 Hl) as (conn2 & Hrun & Ha2 & Hl2).
  exists conn2. split; [exact Hrun|]. split; [|done]. rewrite Ha2, Ha, <- app_assoc. done.
Qed.

(** [queue_inner] hands the connection either the whole packet or its fragments. *)
Lemma queue_inner_run packet core conn limit : datagrams_max_size conn = Some limit →
  (0 < length packet ≤ MAX_INNER_PACKET_LEN)%nat → (INNER_FRAGMENT_HEADER_LEN < limit)%nat →
  let m := (limit - INNER_FRAGMENT_HEADER_LEN)%nat in let id := next_inner_packet_id core in
  ∃ core' conn' wires,
    queue_inner datagrams_max_size datagrams_send true packet core (Some conn) = (Ok tt, (core', Some conn'))
    ∧ accepted conn' = accepted conn ++ wires
    ∧ (wires = [INNER_PACKET :: packet] ∧ (length packet < limit)%nat
       ∨ wires = fragment_datagram packet m id <$> step_by_offsets (length packet) m).
Proof using Hlaws.
  intros Hconn Hmax Hlim. cbv zeta. unfold queue_inner. rewrite decide_False by (intros ->; simpl in Hmax; lia).
  cbn [negb]. rewrite Hconn. case_decide as Hfit.
  - unfold send_datagram. destruct (Hlaws (INNER_PACKET :: packet) conn limit) as (conn1 & -> & Ha & _); [done|simpl; lia|].
    do 3 eexists. split; [done|]. split; [exact Ha|]. by left.
  - unfold send_fragmented_inner. rewrite decide_False by lia. cbn [fst snd].
    destruct (send_fragments_run packet (next_inner_packet_id core) (limit - INNER_FRAGMENT_HEADER_LEN) limit
      (step_by_offsets (length packet) (limit - INNER_FRAGMENT_HEADER_LEN))) with (conn := conn)
      as (conn1 & -> & Ha & _); try done; try (unfold INNER_FRAGMENT_HEADER_LEN in *; lia).
    do 3 eexists. split; [done|]. split; [exact Ha|]. by right.
Qed.
End send_facts.

(** ** Claims *)

(** The fields of a new engine. *)
Definition core_new : EngineCore := mkCore 0 ∅ 0 [].

Lemma core_new_inv : core_inv core_new.
Proof. split; simpl; [done|done|done|]. rewrite map_size_empty. lia. Qed.

(** C32: Whatever datagrams a peer sends, in any order and interleaved with pruning and
    clearing, reassembly never panics (no index or counter of it goes out of range)
    and its memory is bounded: at most 4096 packets are in progress, the byte
    counter is exactly the memory they hold and stays within one mebibyte, and
    every packet in progress still misses a byte, so none is kept once complete. *)
Theorem reassembly_bounded ops : ∃ c, core_run ops core_new = Ok c
  ∧ (size (reassembly c) ≤ MAX_REASSEMBLY_ENTRIES)%nat
  ∧ reassembly_bytes c = held (reassembly c) ∧ reassembly_bytes c ≤ MAX_REASSEMBLY_BYTES
  ∧ ∀ id e, reassembly c !! id = Some e → (∃ p : nat, re_received e !! p = Some false)
      ∧ length (re_received e) = length (re_packet e) ∧ (length (re_packet e) ≤ MAX_INNER_PACKET_LEN)%nat.
Proof.
  destruct (core_run_inv ops core_new core_new_inv) as (c & Hrun & [He Hb Hbd Hn]). exists c. split_and!; try done.
  intros id e Hid. destruct (He id e Hid) as [[Hl Hc] [Hlt Hle]]. split_and!; try done.
  destruct (decide (Forall (λ b, b = true) (re_received e))) as [Hall|Hex].
  - exfalso. rewrite Forall_lookup in Hall. enough (count_true (re_received e) = length (re_received e)) by lia.
    apply count_true_all. intros p [b Hp]%lookup_lt_is_Some. rewrite Hp. by rewrite (Hall _ _ Hp).
  - apply not_Forall_Exists in Hex; [|apply _]. apply Exists_exists in Hex as (b & (p & Hp)%list_elem_of_lookup & Hb').
    exists p. rewrite Hp. destruct b; [by destruct Hb'|done].
Qed.


(** A connection that accepts datagrams of up to 16 bytes and records them. *)
Definition sample_max_size (conn : list bytes) : option nat := Some 16%nat.
Definition sample_send (d : bytes) (conn : list bytes) : bool * list bytes :=
  if decide (length d ≤ 16)%nat then (true, conn ++ [d]) else (false, conn).

Lemma sample_laws : datagram_laws sample_max_size sample_send id.
Proof.
  intros d conn limit [=<-] Hd. unfold sample_send. rewrite decide_True by done. by eexists.
Qed.

