(* ===== verification/Auth.v ===== *)
(** One QUIC connection of the engine and its HMAC handshake
    ([src/src/quic_engine.rs]): [ManagedConnection], the authentication stream and
    [drive_connection].

    The QUIC library is the type class [Transport]: the operations the code calls on
    one [quinn_proto::Connection].  A loop that only collects what the library yields
    (chunks of a stream, received datagrams, accepted streams, endpoint events,
    transmits) is one operation that returns the collected list.  The connection value
    also carries the thread's random source, from which [fresh_nonce] draws. *)
From S2P Require Import Prelude Net Inner.

Definition AUTH_REQUEST : Z := 1.
Definition AUTH_RESPONSE : Z := 2.
Definition AUTH_CONFIRM : Z := 3.
Definition AUTH_COMPLETE : Z := 4.
Definition AUTH_FRAME_LEN : nat := 65.
Definition AUTH_TIMEOUT : Z := from_secs 10.
Definition MAX_TRACKED_DCIDS : nat := 32.
Definition EMPTY_NONCE : bytes := replicate 16 0.

(** A byte string literal. *)
Definition b (s : string) : bytes := (λ a, Z.of_nat (Ascii.nat_of_ascii a)) <$> String.list_ascii_of_string s.

Definition AUTH_PROTOCOL : bytes := b "new-proxy-auth-v2".
Definition AUTH_EXPORTER_LABEL : bytes := b "EXPORTER-new-proxy-v1-auth".

Inductive QuicRole : Type := Client | Server.
#[global] Instance QuicRole_eq_dec : EqDecision QuicRole.
Proof. solve_decision. Defined.

(** ** What the code uses of the QUIC library *)

Inductive Dir : Type := Bi | Uni.
Inductive StreamEvent : Type :=
| Opened (dir : Dir) | Readable (id : Z) | Writable (id : Z) | Finished (id : Z) | Stopped (id : Z) | Available (dir : Dir).
Inductive Event : Type :=
| Connected | DatagramReceived | StreamEv (event : StreamEvent) | ConnectionLost | HandshakeDataReady.
(** How the chunks of a readable stream end. *)
Inductive ReadEnd : Type := ReadFinished | ReadBlocked | ReadReset.
Inductive WriteResult : Type := Written (n : nat) | WriteBlocked | WriteFailed.

Class Transport (Conn EndpointEvent : Type) : Type := {
  open_stream : Conn → option Z * Conn;
  accept_streams : Conn → list Z * Conn;
  (** [recv_stream(id).read(true)]: [None] when it fails. *)
  read_stream : Z → Conn → option (list bytes * ReadEnd) * Conn;
  write_stream : Z → bytes → Conn → WriteResult * Conn;
  export_keying_material : bytes → bytes → Conn → option bytes;
  fresh_nonce : Conn → bytes * Conn;
  poll_event : Conn → option Event * Conn;
  recv_datagrams : Conn → list bytes * Conn;
  poll_timeout : Conn → option Z;
  handle_timeout : Z → Conn → Conn;
  poll_endpoint_events : Conn → list EndpointEvent * Conn;
  poll_transmits : Z → Conn → list OuterTransmit * Conn;
  retire_frames : Conn → Z;
}.

(** ** State *)

Record AuthState : Type := mkAuthState {
  client_nonce : option bytes;
  server_nonce : option bytes;
  auth_stream : option Z;
  auth_receive : bytes;
  auth_transmit : list bytes;
  transmit_offset : nat;
  authenticate_after_flush : bool;
  authenticated : bool;
}.

Definition auth_default : AuthState := mkAuthState None None None [] [] 0 false false.

Inductive AuthFlushOutcome : Type := Complete | Blocked | Failed.
#[global] Instance AuthFlushOutcome_eq_dec : EqDecision AuthFlushOutcome.
Proof. solve_decision. Defined.

Record ManagedConnection (Conn : Type) : Type := mkManaged {
  handle : Z;
  connection : Conn;
  auth : AuthState;
  dcids : gset bytes;
  auth_deadline : Z;
  endpoint_registered : bool;
  dcid_limit_exceeded : bool;
  retired_dcid_frames : Z;
}.
Arguments mkManaged {Conn}.
Arguments handle {Conn}.
Arguments connection {Conn}.
Arguments auth {Conn}.
Arguments dcids {Conn}.
Arguments auth_deadline {Conn}.
Arguments endpoint_registered {Conn}.
Arguments dcid_limit_exceeded {Conn}.
Arguments retired_dcid_frames {Conn}.

Record ConnectionDrive (EndpointEvent : Type) : Type := mkDrive {
  endpoint_events : list (Z * EndpointEvent);
  transmits : list OuterTransmit;
  datagrams : list bytes;
  authenticated_now : bool;
  lost : bool;
}.
Arguments mkDrive {EndpointEvent}.
Arguments endpoint_events {EndpointEvent}.
Arguments transmits {EndpointEvent}.
Arguments datagrams {EndpointEvent}.
Arguments authenticated_now {EndpointEvent}.
Arguments lost {EndpointEvent}.

Definition drive_default {EndpointEvent} : ConnectionDrive EndpointEvent := mkDrive [] [] [] false false.
Definition set_lost {EndpointEvent} (d : ConnectionDrive EndpointEvent) : ConnectionDrive EndpointEvent :=
  mkDrive (endpoint_events d) (transmits d) (datagrams d) (authenticated_now d) true.
Definition set_authenticated_now {EndpointEvent} (d : ConnectionDrive EndpointEvent) : ConnectionDrive EndpointEvent :=
  mkDrive (endpoint_events d) (transmits d) (datagrams d) true (lost d).
Definition push_datagrams {EndpointEvent} (ds : list bytes) (d : ConnectionDrive EndpointEvent) : ConnectionDrive EndpointEvent :=
  mkDrive (endpoint_events d) (transmits d) (datagrams d ++ ds) (authenticated_now d) (lost d).

(** Assignments to the fields of [managed.auth]. *)
Definition set_nonces (cn sn : option bytes) (a : AuthState) : AuthState :=
  mkAuthState cn sn (auth_stream a) (auth_receive a) (auth_transmit a) (transmit_offset a) (authenticate_after_flush a) (authenticated a).
Definition set_stream (s : Z) (a : AuthState) : AuthState :=
  mkAuthState (client_nonce a) (server_nonce a) (Some s) (auth_receive a) (auth_transmit a) (transmit_offset a)
    (authenticate_after_flush a) (authenticated a).
Definition set_receive (r : bytes) (a : AuthState) : AuthState :=
  mkAuthState (client_nonce a) (server_nonce a) (auth_stream a) r (auth_transmit a) (transmit_offset a)
    (authenticate_after_flush a) (authenticated a).
Definition set_transmit (t : list bytes) (o : nat) (a : AuthState) : AuthState :=
  mkAuthState (client_nonce a) (server_nonce a) (auth_stream a) (auth_receive a) t o (authenticate_after_flush a) (authenticated a).
Definition set_flags (after_flush done : bool) (a : AuthState) : AuthState :=
  mkAuthState (client_nonce a) (server_nonce a) (auth_stream a) (auth_receive a) (auth_transmit a) (transmit_offset a) after_flush done.

(** ** Messages *)

Definition constant_time_eq (left right : bytes) : bool :=
  bool_decide (length left = length right)
  && bool_decide (fold_left (λ difference '(l, r), Z.lor difference (Z.lxor l r)) (zip left right) 0 = 0).

(** The bytes the MAC covers. *)
Definition auth_message (label cn sn exporter : bytes) : bytes := AUTH_PROTOCOL ++ label ++ cn ++ sn ++ exporter.

Section auth.
Context {Conn EndpointEvent : Type} `{!Transport Conn EndpointEvent} (hmac_sha256 : bytes → bytes → bytes).
Abbreviation Managed := (ManagedConnection Conn).
Abbreviation Drive := (ConnectionDrive EndpointEvent).

Definition with_connection (conn : Conn) (mc : Managed) : Managed :=
  mkManaged (handle mc) conn (auth mc) (dcids mc) (auth_deadline mc) (endpoint_registered mc) (dcid_limit_exceeded mc)
    (retired_dcid_frames mc).
Definition with_auth (a : AuthState) (mc : Managed) : Managed :=
  mkManaged (handle mc) (connection mc) a (dcids mc) (auth_deadline mc) (endpoint_registered mc) (dcid_limit_exceeded mc)
    (retired_dcid_frames mc).
Definition with_retired (n : Z) (mc : Managed) : Managed :=
  mkManaged (handle mc) (connection mc) (auth mc) (dcids mc) (auth_deadline mc) (endpoint_registered mc)
    (dcid_limit_exceeded mc) n.

Definition managed_new (h : Z) (conn : Conn) (now : Z) : Managed :=
  mkManaged h conn auth_default ∅ (now + AUTH_TIMEOUT) true false 0.

Definition track_dcid (dcid : bytes) (mc : Managed) : Managed :=
  if decide (dcid ∈ dcids mc) then mc
  else if decide (MAX_TRACKED_DCIDS ≤ size (dcids mc))%nat then
    mkManaged (handle mc) (connection mc) (auth mc) (dcids mc) (auth_deadline mc) (endpoint_registered mc) true
      (retired_dcid_frames mc)
  else mkManaged (handle mc) (connection mc) (auth mc) ({[dcid]} ∪ dcids mc) (auth_deadline mc) (endpoint_registered mc)
         (dcid_limit_exceeded mc) (retired_dcid_frames mc).

Definition auth_exporter (mc : Managed) : option bytes :=
  export_keying_material AUTH_EXPORTER_LABEL AUTH_PROTOCOL (connection mc).

Definition auth_mac (key label cn sn exporter : bytes) : bytes := hmac_sha256 key (auth_message label cn sn exporter).

(** ** Sending frames *)

(** The loop of [flush_auth_stream]: the front frame is written from
    [transmit_offset] until it is gone or the stream blocks. *)
Fixpoint flush_loop (fuel : nat) (stream : Z) (mc : Managed) : outcome unit (AuthFlushOutcome * Managed) :=
  match auth_transmit (auth mc) with
  | [] => Ok (Complete, mc)
  | frame :: frames =>
      match fuel with
      | O => Panic
      | S fuel =>
          let? data := slice frame (transmit_offset (auth mc)) (length frame) in
          let '(result, conn) := write_stream stream data (connection mc) in
          let mc := with_connection conn mc in
          match result with
          | Written written =>
              let offset := (transmit_offset (auth mc) + written)%nat in
              if decide (offset = length frame)
              then flush_loop fuel stream (with_auth (set_transmit frames 0 (auth mc)) mc)
              else flush_loop fuel stream (with_auth (set_transmit (frame :: frames) offset (auth mc)) mc)
          | WriteBlocked => Ok (Blocked, mc)
          | WriteFailed => Ok (Failed, mc)
          end
      end
  end.

Definition flush_auth_stream (mc : Managed) : outcome unit (AuthFlushOutcome * Managed) :=
  match auth_stream (auth mc) with
  | None => Ok (if decide (auth_transmit (auth mc) = []) then Complete else Failed, mc)
  | Some stream => flush_loop (length (concat (auth_transmit (auth mc)))) stream mc
  end.

Definition queue_auth_frame (key : bytes) (kind : Z) (label cn sn : bytes) (mc : Managed)
    : outcome unit (AuthFlushOutcome * Managed) :=
  match auth_exporter mc with
  | None => Ok (Failed, mc)
  | Some exporter =>
      let frame := [kind] ++ cn ++ sn ++ auth_mac key label cn sn exporter in
      flush_auth_stream (with_auth (set_transmit (auth_transmit (auth mc) ++ [frame]) (transmit_offset (auth mc)) (auth mc)) mc)
  end.

Definition start_client_authentication (key : bytes) (mc : Managed) : outcome unit (bool * Managed) :=
  let '(opened, conn) := open_stream (connection mc) in
  let mc := with_connection conn mc in
  match opened with
  | None => Ok (false, mc)
  | Some stream =>
      let '(nonce, conn) := fresh_nonce (connection mc) in
      let mc := with_connection conn mc in
      let mc := with_auth (set_nonces (Some nonce) (server_nonce (auth mc)) (set_stream stream (auth mc))) mc in
      let? '(flushed, mc) := queue_auth_frame key AUTH_REQUEST (b "client") nonce EMPTY_NONCE mc in
      Ok (negb (bool_decide (flushed = Failed)), mc)
  end.

(** ** Receiving frames *)

(** A fixed-size array: [slice.try_into().expect(..)]. *)
Definition array (n : nat) (l : bytes) : outcome unit bytes := if decide (length l = n) then Ok l else Panic.

(** The match of [handle_auth_frame] on the role and the kind of a frame. *)
Definition answer_auth_frame (role : QuicRole) (key : bytes) (kind : Z) (cn sn received_mac : bytes) (mc : Managed) (drive : Drive)
    : outcome unit (Managed * Drive) :=
  match auth_exporter mc with
  | None => Ok (mc, set_lost drive)
  | Some exporter =>
      let valid label := constant_time_eq received_mac (auth_mac key label cn sn exporter) in
      if decide (role = Server ∧ kind = AUTH_REQUEST ∧ sn = EMPTY_NONCE ∧ valid (b "client") = true) then
        let '(nonce, conn) := fresh_nonce (connection mc) in
        let mc := with_connection conn mc in
        let mc := with_auth (set_nonces (Some cn) (Some nonce) (auth mc)) mc in
        let? '(flushed, mc) := queue_auth_frame key AUTH_RESPONSE (b "server") cn nonce mc in
        Ok (mc, if decide (flushed = Failed) then set_lost drive else drive)
      else if decide (role = Client ∧ kind = AUTH_RESPONSE ∧ client_nonce (auth mc) = Some cn ∧ sn ≠ EMPTY_NONCE
                      ∧ valid (b "server") = true) then
        let mc := with_auth (set_nonces (client_nonce (auth mc)) (Some sn) (auth mc)) mc in
        let? '(flushed, mc) := queue_auth_frame key AUTH_CONFIRM (b "confirm") cn sn mc in
        Ok (mc, if decide (flushed = Failed) then set_lost drive else drive)
      else if decide (role = Server ∧ kind = AUTH_CONFIRM ∧ client_nonce (auth mc) = Some cn ∧ server_nonce (auth mc) = Some sn
                      ∧ valid (b "confirm") = true) then
        let? '(flushed, mc) := queue_auth_frame key AUTH_COMPLETE (b "complete") cn sn mc in
        Ok (match flushed with
            | Complete => (with_auth (set_flags (authenticate_after_flush (auth mc)) true (auth mc)) mc, set_authenticated_now drive)
            | Blocked => (with_auth (set_flags true (authenticated (auth mc)) (auth mc)) mc, drive)
            | Failed => (mc, set_lost drive)
            end)
      else if decide (role = Client ∧ kind = AUTH_COMPLETE ∧ client_nonce (auth mc) = Some cn ∧ server_nonce (auth mc) = Some sn
                      ∧ valid (b "complete") = true) then
        Ok (with_auth (set_flags (authenticate_after_flush (auth mc)) true (set_nonces (Some cn) (Some sn) (auth mc))) mc,
            set_authenticated_now drive)
      else Ok (mc, set_lost drive)
  end.

Definition handle_auth_frame (role : QuicRole) (key frame : bytes) (mc : Managed) (drive : Drive)
    : outcome unit (Managed * Drive) :=
  let? kind := idx frame 0 in
  let? cn := slice frame 1 17 in
  let? cn := array 16 cn in
  let? sn := slice frame 17 33 in
  let? sn := array 16 sn in
  let? received_mac := slice frame 33 (length frame) in
  let? received_mac := array 32 received_mac in
  answer_auth_frame role key kind cn sn received_mac mc drive.

(** The frame loop of [drain_auth_stream]. *)
Fixpoint drain_frames (fuel : nat) (role : QuicRole) (key : bytes) (mc : Managed) (drive : Drive)
    : outcome unit (Managed * Drive) :=
  if decide (length (auth_receive (auth mc)) < AUTH_FRAME_LEN)%nat then Ok (mc, drive) else
  match fuel with
  | O => Panic
  | S fuel =>
      let frame := take AUTH_FRAME_LEN (auth_receive (auth mc)) in
      let mc := with_auth (set_receive (drop AUTH_FRAME_LEN (auth_receive (auth mc))) (auth mc)) mc in
      let? '(mc, drive) := handle_auth_frame role key frame mc drive in
      drain_frames fuel role key mc drive
  end.

Definition drain_auth_stream (role : QuicRole) (key : bytes) (mc : Managed) (drive : Drive)
    : outcome unit (Managed * Drive) :=
  match auth_stream (auth mc) with
  | None => Ok (mc, drive)
  | Some stream =>
      let '(result, conn) := read_stream stream (connection mc) in
      let mc := with_connection conn mc in
      match result with
      | None | Some (_, ReadReset) =>
          Ok (with_auth (set_flags (authenticate_after_flush (auth mc)) false (auth mc)) mc, set_lost drive)
      | Some (chunks, _) =>
          let mc := with_auth (set_receive (auth_receive (auth mc) ++ concat chunks) (auth mc)) mc in
          if decide (AUTH_FRAME_LEN < length (auth_receive (auth mc)))%nat then Ok (mc, set_lost drive)
          else drain_frames (length (auth_receive (auth mc))) role key mc drive
      end
  end.

(** What follows a flush: the delayed authentication of the server takes effect, a
    failure revokes it. *)
Definition settle_flush (flushed : AuthFlushOutcome) (mc : Managed) (drive : Drive) : Managed * Drive :=
  match flushed with
  | Complete =>
      if authenticate_after_flush (auth mc)
      then (with_auth (set_flags false true (auth mc)) mc, set_authenticated_now drive)
      else (mc, drive)
  | Failed => (with_auth (set_flags (authenticate_after_flush (auth mc)) false (auth mc)) mc, set_lost drive)
  | Blocked => (mc, drive)
  end.

(** The streams a server accepts: the first one carries the handshake. *)
Fixpoint accept_auth_streams (streams : list Z) (role : QuicRole) (key : bytes) (mc : Managed) (drive : Drive)
    : outcome unit (Managed * Drive) :=
  match streams with
  | [] => Ok (mc, drive)
  | stream :: streams =>
      let? '(mc, drive) :=
        match auth_stream (auth mc) with
        | None => drain_auth_stream role key (with_auth (set_stream stream (auth mc)) mc) drive
        | Some _ => Ok (mc, set_lost drive)
        end in
      accept_auth_streams streams role key mc drive
  end.

Definition handle_stream_event (role : QuicRole) (key : bytes) (event : StreamEvent) (mc : Managed) (drive : Drive)
    : outcome unit (Managed * Drive) :=
  match event with
  | Opened Bi =>
      if decide (role = Server) then
        let '(streams, conn) := accept_streams (connection mc) in
        accept_auth_streams streams role key (with_connection conn mc) drive
      else Ok (mc, set_lost drive)
  | Opened Uni => Ok (mc, set_lost drive)
  | Readable id => if decide (auth_stream (auth mc) = Some id) then drain_auth_stream role key mc drive else Ok (mc, set_lost drive)
  | Writable id =>
      if decide (auth_stream (auth mc) = Some id) then
        let? '(flushed, mc) := flush_auth_stream mc in Ok (settle_flush flushed mc drive)
      else Ok (mc, set_lost drive)
  | Stopped _ => Ok (mc, set_lost drive)
  | Finished id => Ok (mc, if decide (auth_stream (auth mc) = Some id) then drive else set_lost drive)
  | Available _ => Ok (mc, drive)
  end.

(** ** Driving the connection *)

Definition finish_connection_drive (now : Z) (mc : Managed) (drive : Drive) : Managed * Drive :=
  let '(events, conn) := poll_endpoint_events (connection mc) in
  let '(ts, conn) := poll_transmits now conn in
  (with_connection conn mc,
   mkDrive (endpoint_events drive ++ (pair (handle mc) <$> events)) (transmits drive ++ ts) (datagrams drive)
     (authenticated_now drive) (lost drive)).

(** The event loop of [drive_connection]: stream events are kept for later. *)
Fixpoint poll_events (fuel : nat) (role : QuicRole) (key : bytes) (pending : list StreamEvent) (mc : Managed) (drive : Drive)
    : outcome unit (list StreamEvent * (Managed * Drive)) :=
  let '(event, conn) := poll_event (connection mc) in
  let mc := with_connection conn mc in
  match event with
  | None => Ok (pending, (mc, drive))
  | Some event =>
      match fuel with
      | O => Panic
      | S fuel =>
          match event with
          | Connected =>
              if decide (role = Client) then
                let? '(started, mc) := start_client_authentication key mc in
                poll_events fuel role key pending mc (if started : bool then drive else set_lost drive)
              else poll_events fuel role key pending mc drive
          | DatagramReceived =>
              let '(ds, conn) := recv_datagrams (connection mc) in
              poll_events fuel role key pending (with_connection conn mc) (push_datagrams ds drive)
          | StreamEv event => poll_events fuel role key (pending ++ [event]) mc drive
          | ConnectionLost => poll_events fuel role key pending mc (set_lost drive)
          | HandshakeDataReady => poll_events fuel role key pending mc drive
          end
      end
  end.

Fixpoint handle_stream_events (role : QuicRole) (key : bytes) (pending : list StreamEvent) (mc : Managed) (drive : Drive)
    : outcome unit (Managed * Drive) :=
  match pending with
  | [] => Ok (mc, drive)
  | event :: pending =>
      let? '(mc, drive) := handle_stream_event role key event mc drive in
      handle_stream_events role key pending mc drive
  end.

(** A peer that retires a connection identifier after authentication loses the connection. *)
Definition check_retired (was_authenticated : bool) (mc : Managed) (drive : Drive) : Managed * Drive :=
  let frames := retire_frames (connection mc) in
  if negb was_authenticated && authenticated (auth mc) then (with_retired frames mc, drive)
  else if authenticated (auth mc) && bool_decide (retired_dcid_frames mc < frames) then (with_retired frames mc, set_lost drive)
  else if negb (authenticated (auth mc)) then (with_retired frames mc, drive)
  else (mc, drive).

(** [fuel] bounds the number of events one call polls. *)
Definition drive_connection (fuel : nat) (role : QuicRole) (key : bytes) (now : Z) (mc : Managed)
    : outcome unit (Managed * Drive) :=
  let was_authenticated := authenticated (auth mc) in
  let drive := if dcid_limit_exceeded mc then set_lost drive_default else drive_default in
  let drive := if decide (authenticated (auth mc) = false ∧ auth_deadline mc ≤ now) then set_lost drive else drive in
  let mc := match poll_timeout (connection mc) with
            | Some deadline => if decide (deadline ≤ now) then with_connection (handle_timeout now (connection mc)) mc else mc
            | None => mc
            end in
  let? '(pending, (mc, drive)) := poll_events fuel role key [] mc drive in
  let? '(mc, drive) := handle_stream_events role key pending mc drive in
  if lost drive then Ok (finish_connection_drive now mc drive) else
  let? '(flushed, mc) := flush_auth_stream mc in
  let '(mc, drive) := settle_flush flushed mc drive in
  let '(mc, drive) := check_retired was_authenticated mc drive in
  Ok (finish_connection_drive now mc drive).
End auth.
