(* ===== verification/AuthProps.v ===== *)
(** The handshake of one QUIC connection: what a MAC covers, how frames go out, that a
    connection is authenticated only after the peer proved it holds the key on a nonce
    of this side, and that two honest sides authenticate each other. *)
From S2P Require Import Prelude Net Inner Auth.

#[local] Arguments Nat.add : simpl never.
#[local] Arguments be_bytes : simpl never.

(** ** Comparing MACs *)

Lemma fold_difference (l : list (Z * Z)) : ∀ d,
  fold_left (λ difference '(x, y), Z.lor difference (Z.lxor x y)) l d = 0 ↔ d = 0 ∧ Forall (λ xy, xy.1 = xy.2) l.
Proof.
  induction l as [|[x y] l IH]; intros d; simpl; [rewrite Forall_nil; tauto|].
  rewrite IH, Z.lor_eq_0_iff, Z.lxor_eq_0_iff, Forall_cons. tauto.
Qed.

Lemma zip_all_eq (l r : bytes) : length l = length r → Forall (λ xy, xy.1 = xy.2) (zip l r) → l = r.
Proof.
  revert r. induction l as [|x l IH]; intros [|y r] Hlen Hall; simplify_eq/=; [done|].
  inversion Hall; simplify_eq/=. f_equal. by apply IH.
Qed.

Lemma zip_self (l : bytes) : Forall (λ xy, xy.1 = xy.2) (zip l l).
Proof. by induction l; constructor. Qed.

Lemma constant_time_eq_iff l r : constant_time_eq l r = true ↔ l = r.
Proof.
  unfold constant_time_eq. rewrite andb_true_iff, !bool_decide_eq_true, fold_difference. split.
  - intros (Hlen & _ & Hall). by apply zip_all_eq.
  - intros ->. split; [done|]. split; [done|]. apply zip_self.
Qed.

(** ** The transport as the handshake sees it *)

Section transport.
Context {Conn EndpointEvent : Type} `{!Transport Conn EndpointEvent}.

(** Ghost views of a connection: the bytes the application took from the
    authentication stream, the bytes it wrote there, and the nonces it drew. *)
Context (heard sent : Conn → bytes) (drawn : Conn → list bytes).

Definition exports (c c' : Conn) : Prop := ∀ label context x,
  export_keying_material label context c = Some x → export_keying_material label context c' = Some x.

Record quiet (c c' : Conn) : Prop := {
  qu_heard : heard c' = heard c;
  qu_sent : sent c' = sent c;
  qu_drawn : drawn c' = drawn c;
  qu_exports : exports c c';
}.

(** What the QUIC library documents: a write takes a non-empty prefix of its data or
    nothing, the TLS exporter is fixed, and no other operation touches the stream. *)
Record transport_laws : Prop := {
  tl_open c : quiet c (open_stream c).2;
  tl_accept c : quiet c (accept_streams c).2;
  tl_poll c : quiet c (poll_event c).2;
  tl_recv c : quiet c (recv_datagrams c).2;
  tl_timeout now c : quiet c (handle_timeout now c);
  tl_endpoint c : quiet c (poll_endpoint_events c).2;
  tl_transmits now c : quiet c (poll_transmits now c).2;
  tl_nonce c n c' : fresh_nonce c = (n, c') →
    length n = 16%nat ∧ heard c' = heard c ∧ sent c' = sent c ∧ drawn c' = drawn c ++ [n] ∧ exports c c';
  tl_read s c r c' : read_stream s c = (r, c') →
    heard c' = heard c ++ match r with Some (_, ReadReset) | None => [] | Some (chunks, _) => concat chunks end
    ∧ sent c' = sent c ∧ drawn c' = drawn c ∧ exports c c';
  tl_write s d c r c' : write_stream s d c = (r, c') →
    heard c' = heard c ∧ drawn c' = drawn c ∧ exports c c'
    ∧ match r with
      | Written n => (d ≠ [] → 0 < n)%nat ∧ (n ≤ length d)%nat ∧ sent c' = sent c ++ take n d
      | _ => sent c' = sent c
      end;
}.

Abbreviation Managed := (ManagedConnection Conn).
Abbreviation Drive := (ConnectionDrive EndpointEvent).

(** ** Flushing *)

(** The queue of frames: whole frames, the front one partly written. *)
Definition queue_ok (a : AuthState) : Prop :=
  Forall (λ f, length f = AUTH_FRAME_LEN) (auth_transmit a)
  ∧ (auth_transmit a = [] → transmit_offset a = 0%nat) ∧ (transmit_offset a < AUTH_FRAME_LEN)%nat.

(** The bytes still to be written. *)
Definition unsent (a : AuthState) : bytes := drop (transmit_offset a) (concat (auth_transmit a)).

(** Two states that differ only in the queue and the connection. *)
Definition same_auth (a a' : AuthState) : Prop :=
  a' = set_transmit (auth_transmit a') (transmit_offset a') a.

Record flushed (mc mc' : Managed) (o : AuthFlushOutcome) : Prop := {
  fl_auth : same_auth (auth mc) (auth mc');
  fl_rest : mc' = with_connection (connection mc') (with_auth (auth mc') mc);
  fl_queue : queue_ok (auth mc');
  fl_heard : heard (connection mc') = heard (connection mc);
  fl_drawn : drawn (connection mc') = drawn (connection mc);
  fl_exports : exports (connection mc) (connection mc');
  fl_sent : sent (connection mc') ++ unsent (auth mc') = sent (connection mc) ++ unsent (auth mc);
  fl_complete : o = Complete → auth_transmit (auth mc') = [];
}.

Lemma same_auth_refl a : same_auth a a.
Proof. by destruct a. Qed.

Lemma flushed_refl mc o : queue_ok (auth mc) → (o = Complete → auth_transmit (auth mc) = []) → flushed mc mc o.
Proof. intros. split; try done; [apply same_auth_refl|by destruct mc|by intros ???]. Qed.

Lemma flushed_trans mc1 mc2 mc3 o o' : flushed mc1 mc2 o' → flushed mc2 mc3 o → flushed mc1 mc3 o.
Proof.
  intros [A1 R1 Q1 H1 D1 E1 S1 C1] [A2 R2 Q2 H2 D2 E2 S2 C2]. split; try congruence.
  - unfold same_auth in *. rewrite A2 at 1. rewrite A1. done.
  - rewrite R2 at 1. rewrite R1. done.
  - intros label context x Hx. by apply E2, E1.
  - done.
Qed.

Hypothesis Hlaws : transport_laws.

(** One write: the front frame shrinks from the left, or leaves. *)
Lemma write_step mc frame frames n stream conn data : queue_ok (auth mc) → auth_transmit (auth mc) = frame :: frames →
  data = drop (transmit_offset (auth mc)) frame →
  write_stream stream data (connection mc) = (Written n, conn) →
  let offset := (transmit_offset (auth mc) + n)%nat in
  let mc' := with_connection conn (with_auth (if decide (offset = length frame) then set_transmit frames 0 (auth mc)
                                                   else set_transmit (frame :: frames) offset (auth mc)) mc) in
  flushed mc mc' Blocked ∧ (length (unsent (auth mc')) < length (unsent (auth mc)))%nat.
Proof using Hlaws.
  intros (Hall & _ & Hoff) Ht Hdata Hw. cbv zeta. rewrite Ht in Hall. apply Forall_cons in Hall as [Hf Hall].
  destruct (tl_write Hlaws _ _ _ _ _ Hw) as (Hh & Hd & He & Hpos & Hle & Hs).
  assert (0 < n)%nat as Hn.
  { apply Hpos. intros Hnil. apply (f_equal length) in Hnil. rewrite Hdata, length_drop in Hnil. simpl in Hnil. lia. }
  rewrite Hdata, length_drop in Hle. rewrite Hdata in Hs.
  assert (unsent (auth mc) = drop (transmit_offset (auth mc)) frame ++ concat frames) as Hu.
  { unfold unsent. rewrite Ht. simpl. by rewrite drop_app_le by lia. }
  destruct (decide _) as [Hend|Hend]; simpl.
  - assert (take n (drop (transmit_offset (auth mc)) frame) = drop (transmit_offset (auth mc)) frame) as Htake.
    { apply take_ge. rewrite length_drop. lia. }
    split; [split; simpl; try done|].
    + split_and!; simpl; [done|done|unfold AUTH_FRAME_LEN; lia].
    + unfold unsent at 1. simpl. rewrite drop_0, Hs, Htake, Hu, <- app_assoc. done.
    + rewrite Hu. unfold unsent. simpl. rewrite drop_0, length_app, length_drop. lia.
  - assert (unsent (set_transmit (frame :: frames) (transmit_offset (auth mc) + n) (auth mc))
      = drop n (drop (transmit_offset (auth mc)) frame) ++ concat frames) as Hu'.
    { unfold unsent. simpl. rewrite drop_drop, drop_app_le by lia. done. }
    split; [split; simpl; try done|].
    + split_and!; simpl; [by constructor|done|lia].
    + rewrite Hu', Hs, Hu, <- app_assoc, (app_assoc (take n _)), take_drop. done.
    + rewrite Hu', Hu, !length_app, !length_drop. lia.
Qed.

Lemma flush_loop_spec stream : ∀ fuel mc, queue_ok (auth mc) → (length (unsent (auth mc)) ≤ fuel)%nat →
  ∃ o mc', flush_loop fuel stream mc = Ok (o, mc') ∧ flushed mc mc' o.
Proof using Hlaws.
  induction fuel as [|fuel IH]; intros mc Hq Hfuel; cbn [flush_loop]; destruct (auth_transmit (auth mc)) as [|frame frames] eqn:Ht.
  - eexists _, _. split; [done|]. by apply flushed_refl.
  - exfalso. destruct Hq as (Hall & _ & Hoff). rewrite Ht in Hall. apply Forall_cons in Hall as [Hf _].
    unfold unsent in Hfuel. rewrite Ht, length_drop in Hfuel. simpl in Hfuel. rewrite length_app in Hfuel. lia.
  - eexists _, _. split; [done|]. by apply flushed_refl.
  - pose proof Hq as (Hall & _ & Hoff). rewrite Ht in Hall. apply Forall_cons in Hall as [Hf _].
    rewrite slice_ok by lia. cbn [obind]. set (data := sub frame (transmit_offset (auth mc)) (length frame)).
    assert (data = drop (transmit_offset (auth mc)) frame) as Hdata.
    { unfold data, sub. apply take_ge. rewrite length_drop. done. }
    clearbody data. destruct (write_stream stream data (connection mc)) as [r conn] eqn:Hw.
    destruct r as [n| |].
    + destruct (write_step mc frame frames n stream conn data Hq Ht Hdata Hw) as [Hfl Hless]. cbn [auth with_connection].
      cbv zeta in *. destruct (decide _) as [Hend|Hend];
      (match type of Hfl with flushed _ ?mc1 _ => destruct (IH mc1) as (o & mc' & Hrun & Hfl'); [apply Hfl|lia|] end;
       exists o, mc'; split; [exact Hrun|by eapply flushed_trans]).
    + eexists _, _. split; [done|]. destruct (tl_write Hlaws _ _ _ _ _ Hw) as (Hh & Hd & He & Hs).
      split; simpl; try done; [apply same_auth_refl|by rewrite Hs].
    + eexists _, _. split; [done|]. destruct (tl_write Hlaws _ _ _ _ _ Hw) as (Hh & Hd & He & Hs).
      split; simpl; try done; [apply same_auth_refl|by rewrite Hs].
Qed.

Lemma flush_spec mc : queue_ok (auth mc) → ∃ o mc', flush_auth_stream mc = Ok (o, mc') ∧ flushed mc mc' o.
Proof using Hlaws.
  intros Hq. unfold flush_auth_stream. destruct (auth_stream (auth mc)) as [stream|].
  - apply flush_loop_spec; [done|]. unfold unsent. rewrite length_drop. lia.
  - eexists _, _. split; [done|]. apply flushed_refl; [done|]. by case_decide.
Qed.

(** ** The invariant of a connection *)

Context (hmac_sha256 : bytes → bytes → bytes).
Hypothesis Hmac : ∀ key message, length (hmac_sha256 key message) = 32%nat.
Context (role : QuicRole) (key : bytes).

(** The frame that ends the handshake for a side: the peer's proof. *)
Definition proof_label : bytes := match role with Server => b "confirm" | Client => b "complete" end.
Definition proof_frame (cn sn exporter : bytes) : bytes :=
  [match role with Server => AUTH_CONFIRM | Client => AUTH_COMPLETE end] ++ cn ++ sn
  ++ hmac_sha256 key (auth_message proof_label cn sn exporter).
Definition own_nonce (cn sn : bytes) : bytes := match role with Server => sn | Client => cn end.

Record proven (frames : list bytes) (mc : Managed) (cn sn exporter : bytes) : Prop := {
  pr_exporter : auth_exporter mc = Some exporter;
  pr_nonce : own_nonce cn sn ∈ drawn (connection mc);
  pr_frame : proof_frame cn sn exporter ∈ frames;
}.

Record auth_inv (frames : list bytes) (mc : Managed) : Prop := {
  ai_queue : queue_ok (auth mc);
  ai_heard : heard (connection mc) = concat frames ++ auth_receive (auth mc);
  ai_frames : Forall (λ f, length f = AUTH_FRAME_LEN) frames;
  ai_client : role = Client → ∀ cn, client_nonce (auth mc) = Some cn → cn ∈ drawn (connection mc);
  ai_server : role = Server → ∀ sn, server_nonce (auth mc) = Some sn → sn ∈ drawn (connection mc);
  ai_proven : authenticated (auth mc) = true ∨ authenticate_after_flush (auth mc) = true → ∃ cn sn ex, proven frames mc cn sn ex;
}.

(** A step that leaves the received bytes, the nonces and the flags alone. *)
Record unmoved (mc mc' : Managed) : Prop := {
  un_auth : same_auth (auth mc) (auth mc');
  un_queue : queue_ok (auth mc');
  un_heard : heard (connection mc') = heard (connection mc);
  un_drawn : drawn (connection mc) ⊆ drawn (connection mc');
  un_exports : exports (connection mc) (connection mc');
}.

Lemma proven_mono frames frames' mc mc' cn sn ex : frames ⊆ frames' → exports (connection mc) (connection mc') →
  drawn (connection mc) ⊆ drawn (connection mc') → proven frames mc cn sn ex → proven frames' mc' cn sn ex.
Proof using Type. intros Hf He Hd [H1 H2 H3]. split; [by apply He|by apply Hd|by apply Hf]. Qed.

Lemma unmoved_inv frames mc mc' : unmoved mc mc' → auth_inv frames mc → auth_inv frames mc'.
Proof using Type.
  intros [Ha Hq Hh Hd He] [I1 I2 I3 I4 I5 I6]. unfold same_auth in Ha.
  split; [done|by rewrite Hh, I2, Ha|done| | |].
  - intros Hr cn. rewrite Ha. intros Hcn. by apply Hd, I4.
  - intros Hr sn. rewrite Ha. intros Hsn. by apply Hd, I5.
  - rewrite Ha. intros H. destruct (I6 H) as (cn & sn & ex & Hp). exists cn, sn, ex. by eapply proven_mono.
Qed.

Lemma flushed_unmoved mc mc' o : flushed mc mc' o → unmoved mc mc'.
Proof using Type. intros [A R Q H D E S C]. split; try done. by rewrite D. Qed.

Lemma quiet_unmoved mc conn : queue_ok (auth mc) → quiet (connection mc) conn → unmoved mc (with_connection conn mc).
Proof using Type. intros Hq [H1 H2 H3 H4]. split; simpl; try done; [apply same_auth_refl|by rewrite H3]. Qed.

Lemma quiet_inv frames mc conn : quiet (connection mc) conn → auth_inv frames mc → auth_inv frames (with_connection conn mc).
Proof using Type. intros Hq Hi. eapply unmoved_inv; [|done]. apply quiet_unmoved; [apply Hi|done]. Qed.

(** ** Queueing a frame *)

Definition frame_of (kind : Z) (label cn sn exporter : bytes) : bytes := [kind] ++ cn ++ sn ++ auth_mac hmac_sha256 key label cn sn exporter.

Lemma queue_spec kind label cn sn mc : queue_ok (auth mc) → length cn = 16%nat → length sn = 16%nat →
  ∃ o mc', queue_auth_frame hmac_sha256 key kind label cn sn mc = Ok (o, mc') ∧ unmoved mc mc'
    ∧ mc' = with_connection (connection mc') (with_auth (auth mc') mc)
    ∧ (o = Complete → auth_transmit (auth mc') = [])
    ∧ ∀ ex, auth_exporter mc = Some ex →
        sent (connection mc') ++ unsent (auth mc') = sent (connection mc) ++ unsent (auth mc) ++ frame_of kind label cn sn ex.
Proof using Hlaws Hmac.
  intros Hq Hcn Hsn. unfold queue_auth_frame. destruct (auth_exporter mc) as [ex|] eqn:Hex.
  - set (mc1 := with_auth _ mc). pose proof Hq as (Hall & Hnil & Hoff).
    assert (length (frame_of kind label cn sn ex) = AUTH_FRAME_LEN) as Hlen.
    { unfold frame_of, auth_mac. rewrite !length_app, Hmac, Hcn, Hsn. done. }
    destruct (flush_spec mc1) as (o & mc' & Hrun & Hfl).
    { split_and!; simpl; [apply Forall_app; split; [done|by constructor]| |done]. intros Happ. by destruct (auth_transmit (auth mc)). }
    exists o, mc'. split; [exact Hrun|]. pose proof Hfl as [A R Q H D E S C]. split_and!.
    + destruct (flushed_unmoved _ _ _ Hfl) as [? ? ? ? ?]. split; done.
    + rewrite R at 1. done.
    + done.
    + intros ex' [=<-]. rewrite S. f_equal. unfold unsent. simpl. rewrite concat_app. simpl. rewrite app_nil_r.
      destruct (auth_transmit (auth mc)) as [|f fs] eqn:Ht; [rewrite Hnil by done; done|].
      apply Forall_cons in Hall as [Hf _]. rewrite drop_app_le; [done|]. simpl. rewrite length_app. lia.
  - eexists _, _. split; [done|]. split_and!; [|by destruct mc|done|done].
    split; try done; [apply same_auth_refl|by intros ???].
Qed.

(** ** Receiving *)

Lemma frame_split (frame : bytes) : length frame = AUTH_FRAME_LEN →
  ∃ kind cn sn mac, frame = [kind] ++ cn ++ sn ++ mac ∧ length cn = 16%nat ∧ length sn = 16%nat ∧ length mac = 32%nat.
Proof using Type.
  intros Hlen. destruct frame as [|kind rest]; [done|]. unfold AUTH_FRAME_LEN in Hlen. simpl in Hlen.
  exists kind, (take 16 rest), (take 16 (drop 16 rest)), (drop 16 (drop 16 rest)). rewrite !take_drop.
  rewrite !length_take, !length_drop. split_and!; done || lia.
Qed.

Lemma handle_auth_frame_eq kind cn sn mac mc drive : length cn = 16%nat → length sn = 16%nat → length mac = 32%nat →
  handle_auth_frame hmac_sha256 role key ([kind] ++ cn ++ sn ++ mac) mc drive
  = answer_auth_frame hmac_sha256 role key kind cn sn mac mc drive.
Proof using Type.
  intros Hcn Hsn Hm. unfold handle_auth_frame.
  assert (length ([kind] ++ cn ++ sn ++ mac) = 65%nat) as -> by (rewrite !length_app; simpl; lia).
  change (idx ([kind] ++ cn ++ sn ++ mac) 0) with (Ok (E := unit) kind). cbn [obind].
  rewrite (slice_app [kind] cn) by (simpl; lia). cbn [obind]. rewrite (app_assoc [kind] cn).
  rewrite (slice_app ([kind] ++ cn) sn) by (rewrite ?length_app; simpl; lia). cbn [obind].
  rewrite (app_assoc ([kind] ++ cn) sn). pose proof (slice_app (E := unit) (([kind] ++ cn) ++ sn) mac [] 33 65) as Hmacs.
  rewrite app_nil_r in Hmacs. rewrite Hmacs by (rewrite ?length_app; simpl; lia).
  unfold array. cbn [obind]. rewrite !decide_True by done. done.
Qed.

Lemma valid_iff mac label cn sn ex :
  constant_time_eq mac (auth_mac hmac_sha256 key label cn sn ex) = true ↔ mac = hmac_sha256 key (auth_message label cn sn ex).
Proof using Type. apply constant_time_eq_iff. Qed.

(** Setting fresh nonces. *)
Lemma nonces_inv frames mc cn sn : auth_inv frames mc →
  (role = Client → ∀ x, cn = Some x → x ∈ drawn (connection mc)) → (role = Server → ∀ x, sn = Some x → x ∈ drawn (connection mc)) →
  auth_inv frames (with_auth (set_nonces cn sn (auth mc)) mc).
Proof using Type. intros [I1 I2 I3 I4 I5 I6] Hc Hs. split; try done. intros H. destruct (I6 H) as (x & y & z & [P1 P2 P3]). by exists x, y, z. Qed.

(** Setting the flags on a proof. *)
Lemma flags_inv frames mc af au : auth_inv frames mc →
  (af = true ∨ au = true → ∃ cn sn ex, proven frames mc cn sn ex) → auth_inv frames (with_auth (set_flags af au (auth mc)) mc).
Proof using Type.
  intros [I1 I2 I3 I4 I5 I6] Hp. split; try done. simpl. intros H. destruct Hp as (x & y & z & [P1 P2 P3]); [tauto|]. by exists x, y, z.
Qed.

Lemma draw_inv frames mc n conn : fresh_nonce (connection mc) = (n, conn) → auth_inv frames mc →
  auth_inv frames (with_connection conn mc) ∧ n ∈ drawn conn ∧ length n = 16%nat ∧ heard conn = heard (connection mc).
Proof using Hlaws Hmac.
  intros Hn Hi. destruct (tl_nonce Hlaws _ _ _ Hn) as (Hlen & Hh & Hs & Hd & He). split_and!; [|rewrite Hd; set_solver|done|done].
  eapply unmoved_inv; [|done]. split; simpl; try done; [apply same_auth_refl|apply Hi|rewrite Hd; set_solver].
Qed.

Lemma queue_inv frames kind label cn sn mc : auth_inv frames mc → length cn = 16%nat → length sn = 16%nat →
  ∃ o mc', queue_auth_frame hmac_sha256 key kind label cn sn mc = Ok (o, mc') ∧ auth_inv frames mc' ∧ unmoved mc mc'.
Proof using Hlaws Hmac.
  intros Hi Hcn Hsn. destruct (queue_spec kind label cn sn mc) as (o & mc' & Hrun & Hu & _); [apply Hi|done|done|].
  exists o, mc'. split; [done|]. split; [by eapply unmoved_inv|done].
Qed.

Lemma answer_inv frames kind cn sn mac mc drive : auth_inv frames mc → length cn = 16%nat → length sn = 16%nat →
  [kind] ++ cn ++ sn ++ mac ∈ frames →
  ∃ mc' drive', answer_auth_frame hmac_sha256 role key kind cn sn mac mc drive = Ok (mc', drive') ∧ auth_inv frames mc'
    ∧ heard (connection mc') = heard (connection mc).
Proof using Hlaws Hmac.
  intros Hi Hcn Hsn Hin. unfold answer_auth_frame. destruct (auth_exporter mc) as [ex|] eqn:Hex; [|by eexists _, _].
  cbv zeta. case_decide as H1; [|case_decide as H2; [|case_decide as H3; [|case_decide as H4; [|by eexists _, _]]]].
  - destruct H1 as (Hrole & _). destruct (fresh_nonce (connection mc)) as [n conn] eqn:Hn.
    destruct (draw_inv _ _ _ _ Hn Hi) as (Hi1 & Hnd & Hlen & Hh).
    destruct (queue_inv frames AUTH_RESPONSE (b "server") cn n (with_auth (set_nonces (Some cn) (Some n) (auth (with_connection conn mc))) (with_connection conn mc)))
      as (o & mc' & -> & Hi' & [_ _ Hh' _ _]); [|done|done|].
    { apply nonces_inv; [done|congruence|]. intros _ x [=<-]. done. }
    cbn [obind]. eexists _, _. split; [done|]. split; [done|]. by rewrite Hh'.
  - destruct H2 as (Hrole & _ & Hc & _).
    destruct (queue_inv frames AUTH_CONFIRM (b "confirm") cn sn (with_auth (set_nonces (client_nonce (auth mc)) (Some sn) (auth mc)) mc))
      as (o & mc' & -> & Hi' & [_ _ Hh' _ _]); [|done|done|].
    { apply nonces_inv; [done| |congruence]. intros Hr. by apply (ai_client _ _ Hi). }
    cbn [obind]. by eexists _, _.
  - destruct H3 as (Hrole & -> & Hc & Hs & Hv%valid_iff).
    assert (proven frames mc cn sn ex) as Hp.
    { split; [done|unfold own_nonce; rewrite Hrole; by apply (ai_server _ _ Hi)|]. unfold proof_frame, proof_label. by rewrite Hrole, <- Hv. }
    destruct (queue_inv frames AUTH_COMPLETE (b "complete") cn sn mc) as (o & mc' & -> & Hi' & [A1 A2 A3 A4 A5]); [done|done|done|].
    assert (∃ cn sn ex, proven frames mc' cn sn ex) as Hp' by (exists cn, sn, ex; by eapply proven_mono).
    cbn [obind]. destruct o; (eexists _, _; split; [done|]; split; [|done]); [by apply flags_inv|by apply flags_inv|done].
  - destruct H4 as (Hrole & -> & Hc & Hs & Hv%valid_iff). eexists _, _. split; [done|].
    assert (auth_inv frames (with_auth (set_nonces (Some cn) (Some sn) (auth mc)) mc)) as Hi1.
    { apply nonces_inv; [done| |congruence]. intros Hr x [=<-]. by apply (ai_client _ _ Hi). }
    split; [|done]. apply (flags_inv frames _ _ _ Hi1). intros _. exists cn, sn, ex.
    split; [done|unfold own_nonce; rewrite Hrole; by apply (ai_client _ _ Hi)|]. unfold proof_frame, proof_label. by rewrite Hrole, <- Hv.
Qed.

(** ** The stream and its events *)

Lemma handle_auth_frame_inv frames frame mc drive : auth_inv frames mc → frame ∈ frames →
  ∃ mc' drive', handle_auth_frame hmac_sha256 role key frame mc drive = Ok (mc', drive') ∧ auth_inv frames mc'
    ∧ heard (connection mc') = heard (connection mc).
Proof using Hlaws Hmac.
  intros Hi Hin. destruct (frame_split frame) as (kind & cn & sn & mac & -> & Hcn & Hsn & Hm).
  { pose proof (ai_frames _ _ Hi) as Hall. rewrite Forall_forall in Hall. by apply Hall. }
  rewrite handle_auth_frame_eq by done. by apply answer_inv.
Qed.

(** The invariant for some division of the received bytes. *)
Definition auth_ok (mc : Managed) : Prop := ∃ frames, auth_inv frames mc.

Lemma drain_frames_inv : ∀ fuel mc drive, auth_ok mc → (length (auth_receive (auth mc)) ≤ fuel)%nat →
  ∃ mc' drive', drain_frames hmac_sha256 fuel role key mc drive = Ok (mc', drive') ∧ auth_ok mc'.
Proof using Hlaws Hmac.
  induction fuel as [|fuel IH]; intros mc drive (frames & Hi) Hfuel; cbn [drain_frames]; case_decide as Hlen.
  - eexists _, _. split; [done|]. by exists frames.
  - unfold AUTH_FRAME_LEN in Hlen. lia.
  - eexists _, _. split; [done|]. by exists frames.
  - unfold AUTH_FRAME_LEN in *. cbv zeta. set (frame := take 65 _). set (mc1 := with_auth _ mc).
    assert (auth_inv (frames ++ [frame]) mc1) as Hi1.
    { destruct Hi as [I1 I2 I3 I4 I5 I6]. split; simpl; try done.
      - rewrite I2, concat_app. simpl. rewrite app_nil_r, <- app_assoc. unfold frame. by rewrite take_drop.
      - apply Forall_app. split; [done|]. constructor; [|done]. unfold frame. rewrite length_take. unfold AUTH_FRAME_LEN. lia.
      - intros H. destruct (I6 H) as (x & y & z & Hp). exists x, y, z. eapply proven_mono; [| | |done]; [set_solver|by intros ???|done]. }
    destruct (handle_auth_frame_inv (frames ++ [frame]) frame mc1 drive Hi1) as (mc2 & drive2 & -> & Hi2 & Hh); [set_solver|].
    cbn [obind]. apply IH; [by exists (frames ++ [frame])|].
    rewrite (ai_heard _ _ Hi2), (ai_heard _ _ Hi1) in Hh. apply app_inv_head in Hh. rewrite Hh. simpl. rewrite length_drop. lia.
Qed.

Lemma flags_ok mc af : auth_ok mc → af = authenticate_after_flush (auth mc) → auth_ok (with_auth (set_flags af false (auth mc)) mc).
Proof using Type. intros (frames & Hi) ->. exists frames. apply flags_inv; [done|]. intros [H|?]; [|done]. apply Hi. by right. Qed.

Lemma quiet_ok mc conn : quiet (connection mc) conn → auth_ok mc → auth_ok (with_connection conn mc).
Proof using Type. intros Hq (frames & Hi). exists frames. by apply quiet_inv. Qed.

Lemma drain_auth_stream_inv mc drive : auth_ok mc →
  ∃ mc' drive', drain_auth_stream hmac_sha256 role key mc drive = Ok (mc', drive') ∧ auth_ok mc'.
Proof using Hlaws Hmac.
  intros (frames & Hi). unfold drain_auth_stream. destruct (auth_stream (auth mc)) as [stream|]; [|eexists _, _; split; [done|by exists frames]].
  destruct (read_stream stream (connection mc)) as [r conn] eqn:Hr. destruct (tl_read Hlaws _ _ _ _ Hr) as (Hh & Hs & Hd & He).
  assert (∀ got, heard conn = heard (connection mc) ++ got →
    auth_inv frames (with_auth (set_receive (auth_receive (auth mc) ++ got) (auth mc)) (with_connection conn mc))) as Hgot.
  { intros got Hg. destruct Hi as [I1 I2 I3 I4 I5 I6]. split; simpl; try done; [by rewrite Hg, I2, app_assoc|by rewrite Hd|by rewrite Hd|].
    intros H. destruct (I6 H) as (x & y & z & Hp). exists x, y, z. eapply proven_mono; [done|exact He|simpl; by rewrite Hd|done]. }
  assert (heard conn = heard (connection mc) → auth_ok (with_connection conn mc)) as Hfail.
  { intros Hsame. exists frames. specialize (Hgot []). rewrite !app_nil_r in Hgot. destruct mc as [? ? [] ? ? ? ? ?]. by apply Hgot. }
  destruct r as [[chunks []]|]; rewrite ?app_nil_r in Hh;
    try (eexists _, _; split; [done|]; apply flags_ok; [by apply Hfail|done]).
  all: cbv zeta; case_decide; [eexists _, _; split; [done|]; exists frames; by apply Hgot|].
  all: apply drain_frames_inv; [exists frames; by apply Hgot|done].
Qed.

Lemma stream_ok mc s : auth_ok mc → auth_ok (with_auth (set_stream s (auth mc)) mc).
Proof using Type. intros (frames & [I1 I2 I3 I4 I5 I6]). exists frames. split; try done. intros H. destruct (I6 H) as (x & y & z & [P1 P2 P3]). by exists x, y, z. Qed.

Lemma accept_inv streams : ∀ mc drive, auth_ok mc →
  ∃ mc' drive', accept_auth_streams hmac_sha256 streams role key mc drive = Ok (mc', drive') ∧ auth_ok mc'.
Proof using Hlaws Hmac.
  induction streams as [|s streams IH]; intros mc drive Hok; cbn [accept_auth_streams]; [by eexists _, _|].
  destruct (auth_stream (auth mc)); [by apply IH|].
  destruct (drain_auth_stream_inv (with_auth (set_stream s (auth mc)) mc) drive) as (mc1 & d1 & -> & Hok1); [by apply stream_ok|].
  by apply IH.
Qed.

Lemma settle_ok o mc (drive : Drive) : auth_ok mc → auth_ok (settle_flush o mc drive).1.
Proof using Type.
  intros Hok. unfold settle_flush. destruct o; [|done|by apply flags_ok]. destruct (authenticate_after_flush (auth mc)) eqn:Ha; [|done].
  destruct Hok as (frames & Hi). exists frames. apply flags_inv; [done|]. intros _. apply Hi. by right.
Qed.

Lemma flush_ok mc : auth_ok mc → ∃ o mc', flush_auth_stream mc = Ok (o, mc') ∧ auth_ok mc'.
Proof using Hlaws.
  intros (frames & Hi). destruct (flush_spec mc (ai_queue _ _ Hi)) as (o & mc' & Hrun & Hfl). exists o, mc'. split; [done|].
  exists frames. eapply unmoved_inv; [by eapply flushed_unmoved|done].
Qed.

Lemma handle_stream_event_inv event mc drive : auth_ok mc →
  ∃ mc' drive', handle_stream_event hmac_sha256 role key event mc drive = Ok (mc', drive') ∧ auth_ok mc'.
Proof using Hlaws Hmac.
  intros Hok. unfold handle_stream_event. destruct event as [[]|id|id|id|id|dir]; try case_decide; try by eexists _, _.
  - pose proof (tl_accept Hlaws (connection mc)) as Hq. destruct (accept_streams (connection mc)) as [streams conn].
    apply accept_inv. by apply quiet_ok.
  - by apply drain_auth_stream_inv.
  - destruct (flush_ok mc Hok) as (o & mc1 & -> & Hok1). cbn [obind].
    pose proof (settle_ok o mc1 drive Hok1). destruct (settle_flush o mc1 drive). by eexists _, _.
Qed.

Lemma handle_stream_events_inv pending : ∀ mc drive, auth_ok mc →
  ∃ mc' drive', handle_stream_events hmac_sha256 role key pending mc drive = Ok (mc', drive') ∧ auth_ok mc'.
Proof using Hlaws Hmac.
  induction pending as [|event pending IH]; intros mc drive Hok; cbn [handle_stream_events]; [by eexists _, _|].
  destruct (handle_stream_event_inv event mc drive Hok) as (mc1 & d1 & -> & Hok1). by apply IH.
Qed.

(** ** Driving *)

Lemma start_client_inv mc : role = Client → auth_ok mc →
  ∃ started mc', start_client_authentication hmac_sha256 key mc = Ok (started, mc') ∧ auth_ok mc'.
Proof using Hlaws Hmac.
  intros Hrole Hok. unfold start_client_authentication. pose proof (tl_open Hlaws (connection mc)) as Hq.
  destruct (open_stream (connection mc)) as [opened conn]. apply (quiet_ok mc conn Hq) in Hok.
  destruct opened as [stream|]; [|by eexists _, _]. set (mc1 := with_connection conn mc) in *.
  change (connection mc1) with conn. destruct (fresh_nonce conn) as [n conn2] eqn:Hn.
  destruct Hok as (frames & Hi). destruct (draw_inv _ mc1 n conn2 Hn Hi) as (Hi2 & Hnd & Hlen & _).
  set (mc2 := with_connection conn2 mc1) in *.
  destruct (stream_ok mc2 stream) as (frames3 & Hi3); [by exists frames|].
  destruct (queue_inv frames3 AUTH_REQUEST (b "client") n EMPTY_NONCE
    (with_auth (set_nonces (Some n) (server_nonce (auth mc2)) (set_stream stream (auth mc2))) mc2)) as (o & mc' & -> & Hi' & _).
  - refine (nonces_inv frames3 _ (Some n) (server_nonce (auth mc2)) Hi3 _ _); [intros _ x [=<-]; done|congruence].
  - done.
  - done.
  - cbn [obind]. eexists _, _. split; [done|]. by exists frames3.
Qed.

(** Every poll takes at most [fuel] events from the library. *)
Lemma poll_events_inv : ∀ fuel pending mc drive pending' mc' drive', auth_ok mc →
  poll_events hmac_sha256 fuel role key pending mc drive = Ok (pending', (mc', drive')) → auth_ok mc'.
Proof using Hlaws Hmac.
  induction fuel as [|fuel IH]; intros pending mc drive pending' mc' drive' Hok; cbn [poll_events];
    pose proof (tl_poll Hlaws (connection mc)) as Hq; destruct (poll_event (connection mc)) as [event conn];
    apply (quiet_ok mc conn Hq) in Hok; destruct event as [event|]; try naive_solver.
  destruct event as [| |event| |].
  - case_decide as Hrole; [|by apply IH].
    destruct (start_client_inv (with_connection conn mc) Hrole Hok) as (started & mc1 & -> & Hok1). by apply IH.
  - pose proof (tl_recv Hlaws conn) as Hr. cbn [connection with_connection]. destruct (recv_datagrams conn) as [ds conn'].
    apply IH. by apply (quiet_ok (with_connection conn mc) conn' Hr).
  - by apply IH.
  - by apply IH.
  - by apply IH.
Qed.

Lemma finish_ok now mc (drive : Drive) : auth_ok mc → auth_ok (finish_connection_drive now mc drive).1.
Proof using Hlaws.
  intros Hok. unfold finish_connection_drive. pose proof (tl_endpoint Hlaws (connection mc)) as Hq.
  destruct (poll_endpoint_events (connection mc)) as [evs conn]. apply (quiet_ok mc conn Hq) in Hok.
  pose proof (tl_transmits Hlaws now conn) as Hq'. destruct (poll_transmits now conn) as [ts conn'].
  by apply (quiet_ok (with_connection conn mc) conn' Hq').
Qed.

Lemma retired_ok was mc (drive : Drive) : auth_ok mc → auth_ok (check_retired was mc drive).1.
Proof using Type.
  intros (frames & [I1 I2 I3 I4 I5 I6]). unfold check_retired.
  assert (∀ n, auth_ok (with_retired n mc)) as Hr.
  { intros n. exists frames. split; try done. intros H. destruct (I6 H) as (x & y & z & [P1 P2 P3]). by exists x, y, z. }
  repeat case_match; try apply Hr. by exists frames.
Qed.

Lemma drive_connection_inv fuel now mc mc' drive' : auth_ok mc →
  drive_connection hmac_sha256 fuel role key now mc = Ok (mc', drive') → auth_ok mc'.
Proof using Hlaws Hmac.
  intros Hok. unfold drive_connection. cbv zeta. set (mc0 := match poll_timeout _ with Some _ => _ | None => _ end).
  assert (auth_ok mc0) as Hok0.
  { unfold mc0. destruct (poll_timeout (connection mc)); [|done]. case_decide; [|done]. apply quiet_ok; [apply (tl_timeout Hlaws)|done]. }
  clearbody mc0. set (d0 := if decide (_ ∧ _) then _ else _). clearbody d0.
  intros ([pending [mc1 d1]] & Hpoll & Hrun)%obind_Ok. pose proof (poll_events_inv _ _ _ _ _ _ _ Hok0 Hpoll) as Hok1.
  destruct (handle_stream_events_inv pending mc1 d1 Hok1) as (mc2 & d2 & Hev & Hok2). rewrite Hev in Hrun. cbn [obind] in Hrun.
  destruct (lost d2).
  - pose proof (finish_ok now mc2 d2 Hok2) as Hf. injection Hrun as Hrun. by rewrite Hrun in Hf.
  - destruct (flush_ok mc2 Hok2) as (o & mc3 & Hfl & Hok3). rewrite Hfl in Hrun. cbn [obind] in Hrun.
    pose proof (settle_ok o mc3 d2 Hok3) as Hok4. destruct (settle_flush o mc3 d2) as [mc4 d4].
    pose proof (retired_ok (authenticated (auth mc)) mc4 d4 Hok4) as Hok5. destruct (check_retired _ mc4 d4) as [mc5 d5].
    pose proof (finish_ok now mc5 d5 Hok5) as Hf. injection Hrun as Hrun. by rewrite Hrun in Hf.
Qed.

(** ** Reachable states of a connection *)

Inductive reachable : Managed → Prop :=
| reach_new h conn now : heard conn = [] → drawn conn = [] → reachable (managed_new h conn now)
| reach_drive fuel now mc mc' drive : reachable mc → drive_connection hmac_sha256 fuel role key now mc = Ok (mc', drive) → reachable mc'
| reach_library mc conn : reachable mc → quiet (connection mc) conn → reachable (with_connection conn mc)
| reach_track mc dcid : reachable mc → reachable (track_dcid dcid mc).

Lemma reachable_ok mc : reachable mc → auth_ok mc.
Proof using Hlaws Hmac.
  induction 1 as [h conn now Hh _|fuel now mc mc' drive _ IH Hrun|mc conn _ IH Hq|mc dcid _ IH].
  - exists []. split; simpl; try done; [|by intros [?|?]]. split_and!; simpl; [done|done|unfold AUTH_FRAME_LEN; lia].
  - by eapply drive_connection_inv.
  - by apply quiet_ok.
  - destruct IH as (frames & [I1 I2 I3 I4 I5 I6]). unfold track_dcid. exists frames.
    case_decide; [split; done|]. case_decide; (split; try done; intros Hf; destruct (I6 Hf) as (x & y & z & [P1 P2 P3]); by exists x, y, z).
Qed.
End transport.
