(* ===== verification/AuthClaims.v ===== *)
(** The theorems about the handshake of one QUIC connection ([src/src/quic_engine.rs]). *)
From S2P Require Import Prelude Net Inner Auth AuthProps.

#[local] Arguments Nat.add : simpl never.

(** ** An unblocked stream *)

Section honest.
Context {Conn EndpointEvent : Type} `{!Transport Conn EndpointEvent}.
Context (heard sent : Conn → bytes) (drawn : Conn → list bytes) (hmac_sha256 : bytes → bytes → bytes) (key : bytes).
Hypotheses (Hlaws : transport_laws heard sent drawn) (Hmac : ∀ k m, length (hmac_sha256 k m) = 32%nat).

(** Writes take all of their data. *)
Definition unblocked : Prop := ∀ stream data (conn : Conn), (write_stream stream data conn).1 = Written (length data).
Hypothesis Hfree : unblocked.

Lemma flush_loop_complete stream : ∀ fuel mc o mc', flush_loop fuel stream mc = Ok (o, mc') → o = Complete.
Proof using Hfree.
  induction fuel as [|fuel IH]; intros mc o mc'; cbn [flush_loop]; destruct (auth_transmit (auth mc)) as [|frame frames]; try naive_solver.
  destruct (slice _ _ _) as [data| |]; cbn [obind]; try done. pose proof (Hfree stream data (connection mc)) as Hw.
  destruct (write_stream stream data (connection mc)) as [r conn]; simpl in Hw; subst r. case_decide; by apply IH.
Qed.

(** A side whose queue is empty. *)
Record idle (mc : ManagedConnection Conn) (exporter : bytes) : Prop := {
  id_stream : is_Some (auth_stream (auth mc));
  id_transmit : auth_transmit (auth mc) = [];
  id_offset : transmit_offset (auth mc) = 0%nat;
  id_exporter : auth_exporter mc = Some exporter;
}.

Lemma idle_queue mc ex : idle mc ex → queue_ok (auth mc).
Proof using Type. intros [_ Ht Ho _]. split_and!; rewrite ?Ht, ?Ho; [done|done|unfold AUTH_FRAME_LEN; lia]. Qed.

Lemma queue_idle mc ex kind label cn sn : idle mc ex → length cn = 16%nat → length sn = 16%nat →
  ∃ mc', queue_auth_frame hmac_sha256 key kind label cn sn mc = Ok (Complete, mc') ∧ idle mc' ex ∧ auth mc' = auth mc
    ∧ sent (connection mc') = sent (connection mc) ++ frame_of hmac_sha256 key kind label cn sn ex.
Proof using Hlaws Hmac Hfree.
  intros Hid Hcn Hsn. destruct (queue_spec heard sent drawn Hlaws hmac_sha256 Hmac key kind label cn sn mc) as (o & mc' & Hrun & Hu & _ & Hc & Hs);
    [by eapply idle_queue|done|done|]. destruct Hid as [[stream Hst] Ht Ho Hex].
  assert (o = Complete) as ->.
  { unfold queue_auth_frame in Hrun. rewrite Hex in Hrun. unfold flush_auth_stream in Hrun. cbn [auth with_auth auth_stream set_transmit] in Hrun.
    rewrite Hst in Hrun. by eapply flush_loop_complete. }
  exists mc'. specialize (Hc eq_refl). specialize (Hs ex Hex). destruct Hu as [A Q _ _ E].
  assert (transmit_offset (auth mc') = 0%nat) as Ho' by by apply Q.
  assert (auth mc' = auth mc) as Hauth.
  { unfold same_auth in A. rewrite A, Hc, Ho', <- Ht at 1. rewrite <- Ho. by destruct (auth mc). }
  split; [done|]. split; [split; rewrite ?Hauth; (done || (by exists stream) || by apply E)|]. split; [done|].
  unfold unsent in Hs. rewrite Hauth, Ht in Hs. simpl in Hs. by rewrite drop_nil, app_nil_r in Hs.
Qed.

Lemma handle_frame role label kind cn sn ex mc (drive : ConnectionDrive EndpointEvent) : length cn = 16%nat → length sn = 16%nat →
  handle_auth_frame hmac_sha256 role key (frame_of hmac_sha256 key kind label cn sn ex) mc drive
  = answer_auth_frame hmac_sha256 role key kind cn sn (auth_mac hmac_sha256 key label cn sn ex) mc drive.
Proof using Hmac. intros. apply handle_auth_frame_eq; [done|done|apply Hmac]. Qed.

Lemma same_mac label cn sn ex : constant_time_eq (auth_mac hmac_sha256 key label cn sn ex) (auth_mac hmac_sha256 key label cn sn ex) = true.
Proof using Type. by apply constant_time_eq_iff. Qed.

(** ** The four messages *)

Abbreviation answer := (answer_auth_frame (EndpointEvent := EndpointEvent) hmac_sha256).

Lemma answer_request server cn ex (drive : ConnectionDrive EndpointEvent) : idle server ex → length cn = 16%nat →
  ∃ server' sn, sn = (fresh_nonce (connection server)).1 ∧ length sn = 16%nat
    ∧ answer Server key AUTH_REQUEST cn EMPTY_NONCE (auth_mac hmac_sha256 key (b "client") cn EMPTY_NONCE ex) server drive = Ok (server', drive)
    ∧ idle server' ex ∧ auth server' = set_nonces (Some cn) (Some sn) (auth server)
    ∧ sent (connection server') = sent (connection server) ++ frame_of hmac_sha256 key AUTH_RESPONSE (b "server") cn sn ex.
Proof using Hlaws Hmac Hfree.
  intros Hid Hcn. unfold answer_auth_frame. rewrite (id_exporter _ _ Hid). cbv zeta. rewrite same_mac, decide_True by done.
  destruct (fresh_nonce (connection server)) as [sn conn] eqn:Hn. destruct (tl_nonce _ _ _ Hlaws _ _ _ Hn) as (Hsn & _ & Hs & _ & He).
  destruct (queue_idle (with_auth (set_nonces (Some cn) (Some sn) (auth (with_connection conn server))) (with_connection conn server)) ex
    AUTH_RESPONSE (b "server") cn sn) as (server' & -> & Hid' & Ha & Hs'); [|done|done|].
  { destruct Hid as [H1 H2 H3 H4]. split; try done. by apply He. }
  cbn [obind]. exists server', sn. rewrite Hs'. simpl. by rewrite Hs.
Qed.

Lemma answer_response client cn sn ex (drive : ConnectionDrive EndpointEvent) : idle client ex → client_nonce (auth client) = Some cn →
  sn ≠ EMPTY_NONCE → length cn = 16%nat → length sn = 16%nat →
  ∃ client', answer Client key AUTH_RESPONSE cn sn (auth_mac hmac_sha256 key (b "server") cn sn ex) client drive = Ok (client', drive)
    ∧ idle client' ex ∧ auth client' = set_nonces (Some cn) (Some sn) (auth client)
    ∧ sent (connection client') = sent (connection client) ++ frame_of hmac_sha256 key AUTH_CONFIRM (b "confirm") cn sn ex.
Proof using Hlaws Hmac Hfree.
  intros Hid Hc Hne Hcn Hsn. unfold answer_auth_frame. rewrite (id_exporter _ _ Hid). cbv zeta.
  rewrite same_mac, decide_False, decide_True by naive_solver.
  destruct (queue_idle (with_auth (set_nonces (client_nonce (auth client)) (Some sn) (auth client)) client) ex AUTH_CONFIRM (b "confirm") cn sn)
    as (client' & -> & Hid' & Ha & Hs'); [|done|done|].
  { destruct Hid as [H1 H2 H3 H4]. by split. }
  cbn [obind]. exists client'. rewrite Hs', Ha, Hc. done.
Qed.

Lemma answer_confirm server cn sn ex (drive : ConnectionDrive EndpointEvent) : idle server ex → client_nonce (auth server) = Some cn →
  server_nonce (auth server) = Some sn → length cn = 16%nat → length sn = 16%nat →
  ∃ server', answer Server key AUTH_CONFIRM cn sn (auth_mac hmac_sha256 key (b "confirm") cn sn ex) server drive = Ok (server', set_authenticated_now drive)
    ∧ authenticated (auth server') = true
    ∧ sent (connection server') = sent (connection server) ++ frame_of hmac_sha256 key AUTH_COMPLETE (b "complete") cn sn ex.
Proof using Hlaws Hmac Hfree.
  intros Hid Hc Hs Hcn Hsn. unfold answer_auth_frame. rewrite (id_exporter _ _ Hid). cbv zeta.
  rewrite same_mac, decide_False, decide_False, decide_True by naive_solver.
  destruct (queue_idle server ex AUTH_COMPLETE (b "complete") cn sn) as (server' & -> & Hid' & Ha & Hs'); [done|done|done|].
  cbn [obind]. eexists. split; [done|]. by split.
Qed.

Lemma answer_complete client cn sn ex (drive : ConnectionDrive EndpointEvent) : idle client ex → client_nonce (auth client) = Some cn →
  server_nonce (auth client) = Some sn →
  ∃ client', answer Client key AUTH_COMPLETE cn sn (auth_mac hmac_sha256 key (b "complete") cn sn ex) client drive = Ok (client', set_authenticated_now drive)
    ∧ authenticated (auth client') = true.
Proof using Type.
  intros Hid Hc Hs. unfold answer_auth_frame. rewrite (id_exporter _ _ Hid). cbv zeta.
  rewrite same_mac, decide_False, decide_False, decide_False, decide_True by naive_solver. by eexists.
Qed.
End honest.

(** ** A transport for the samples

    A pipe: bytes put into the inbox are read as one chunk, writes are recorded, events
    come from a script. *)

Record pipe : Type := mkPipe {
  pi_inbox : bytes;
  pi_heard : bytes;
  pi_sent : bytes;
  pi_drawn : list bytes;
  pi_seed : Z;
  pi_events : list Event;
}.

#[export] Instance pipe_transport : Transport pipe unit := {|
  open_stream c := (Some 0, c);
  accept_streams c := ([0], c);
  read_stream _ c := (Some ([pi_inbox c], ReadBlocked),
    mkPipe [] (pi_heard c ++ pi_inbox c) (pi_sent c) (pi_drawn c) (pi_seed c) (pi_events c));
  write_stream _ d c := (Written (length d), mkPipe (pi_inbox c) (pi_heard c) (pi_sent c ++ d) (pi_drawn c) (pi_seed c) (pi_events c));
  export_keying_material _ _ _ := Some (replicate 32 7);
  fresh_nonce c := (replicate 16 (pi_seed c),
    mkPipe (pi_inbox c) (pi_heard c) (pi_sent c) (pi_drawn c ++ [replicate 16 (pi_seed c)]) (pi_seed c) (pi_events c));
  poll_event c := (head (pi_events c), mkPipe (pi_inbox c) (pi_heard c) (pi_sent c) (pi_drawn c) (pi_seed c) (tail (pi_events c)));
  recv_datagrams c := ([], c);
  poll_timeout _ := None;
  handle_timeout _ c := c;
  poll_endpoint_events c := ([], c);
  poll_transmits _ c := ([], c);
  retire_frames _ := 0;
|}.

Lemma pipe_laws : transport_laws pi_heard pi_sent pi_drawn.
Proof.
  split; try by (intros; split; [..|intros ???]).
  - intros c n c' [=<- <-]. split_and!; try done. by intros ???.
  - intros s c r c' [=<- <-]. simpl. rewrite app_nil_r. split_and!; try done. by intros ???.
  - intros s d c r c' [=<- <-]. split_and!; simpl; try done; [by intros ???| |by rewrite take_ge]. intros Hd. destruct d; [done|]. simpl. lia.
Qed.

(** A stand-in for the MAC: 32 copies of a checksum of key and message. *)
Definition sample_hmac (key message : bytes) : bytes := replicate 32 (foldr (λ x acc, (31 * acc + x) mod 256) 0 (key ++ message)).

Lemma sample_hmac_length k m : length (sample_hmac k m) = 32%nat.
Proof. reflexivity. Qed.

Definition sample_key : bytes := replicate 32 9.
Definition sample_pipe (seed : Z) (events : list Event) : pipe := mkPipe [] [] [] [] seed events.
Definition sample_client : ManagedConnection pipe := managed_new 0 (sample_pipe 1 [Connected]) 0.
Definition sample_server : ManagedConnection pipe :=
  with_auth (set_stream 0 auth_default) (managed_new 0 (sample_pipe 2 []) 0).

(** ** Claims *)

(** C4: A connection is authenticated only on proof. In every state a connection can reach,
    whatever the peer sends and however the transport splits it, if it is marked
    authenticated then the bytes taken from its stream contain, as one of their 65-byte
    frames, the closing frame of the handshake with the MAC of the shared key over this
    connection's TLS exporter and over a nonce that this side drew on this connection. *)
Theorem authentication_sound {Conn EndpointEvent : Type} `{!Transport Conn EndpointEvent} (heard sent : Conn → bytes)
    (drawn : Conn → list bytes) (hmac_sha256 : bytes → bytes → bytes) role key mc :
  transport_laws heard sent drawn → (∀ k m, length (hmac_sha256 k m) = 32%nat) →
  reachable heard sent drawn hmac_sha256 role key mc → authenticated (auth mc) = true →
  ∃ frames rest cn sn exporter,
    heard (connection mc) = concat frames ++ rest ∧ Forall (λ f, length f = AUTH_FRAME_LEN) frames
    ∧ auth_exporter mc = Some exporter ∧ own_nonce role cn sn ∈ drawn (connection mc)
    ∧ proof_frame hmac_sha256 role key cn sn exporter ∈ frames.
Proof.
  intros Hlaws Hmac Hreach Hauth. destruct (reachable_ok heard sent drawn Hlaws hmac_sha256 Hmac role key mc Hreach) as (frames & Hi).
  destruct (ai_proven _ _ _ _ _ _ _ Hi) as (cn & sn & ex & [P1 P2 P3]); [by left|].
  exists frames, (auth_receive (auth mc)), cn, sn, ex. split_and!; [apply Hi|apply Hi|done|done|done].
Qed.

(** C34: Two honest sides authenticate each other. When both hold the key and see the same TLS
    exporter and their streams do not block, the four frames of the handshake, each
    delivered to the other side, end with both sides authenticated and neither lost,
    provided the nonce the server draws is not the all-zero one. *)
Theorem honest_handshake {Conn EndpointEvent : Type} `{!Transport Conn EndpointEvent} (heard sent : Conn → bytes)
    (drawn : Conn → list bytes) (hmac_sha256 : bytes → bytes → bytes) key exporter stream conn
    (client server : ManagedConnection Conn) (drive : ConnectionDrive EndpointEvent) :
  transport_laws heard sent drawn → (∀ k m, length (hmac_sha256 k m) = 32%nat) → unblocked →
  auth client = auth_default → open_stream (connection client) = (Some stream, conn) →
  auth_exporter client = Some exporter → idle server exporter → (fresh_nonce (connection server)).1 ≠ EMPTY_NONCE →
  ∃ client1 server1 client2 server2 client3 f1 f2 f3 f4,
    start_client_authentication hmac_sha256 key client = Ok (true, client1)
    ∧ sent (connection client1) = sent (connection client) ++ f1
    ∧ handle_auth_frame hmac_sha256 Server key f1 server drive = Ok (server1, drive)
    ∧ sent (connection server1) = sent (connection server) ++ f2
    ∧ handle_auth_frame hmac_sha256 Client key f2 client1 drive = Ok (client2, drive)
    ∧ sent (connection client2) = sent (connection client1) ++ f3
    ∧ handle_auth_frame hmac_sha256 Server key f3 server1 drive = Ok (server2, set_authenticated_now drive)
    ∧ sent (connection server2) = sent (connection server1) ++ f4
    ∧ handle_auth_frame hmac_sha256 Client key f4 client2 drive = Ok (client3, set_authenticated_now drive)
    ∧ authenticated (auth server2) = true ∧ authenticated (auth client3) = true.
Proof.
  intros Hlaws Hmac Hfree Hauth Hopen Hex Hserver Hne. unfold start_client_authentication. rewrite Hopen. cbv zeta.
  pose proof (tl_open _ _ _ Hlaws (connection client)) as [Hh0 Hs0 Hd0 He0]. rewrite Hopen in *. simpl in Hh0, Hs0, Hd0, He0.
  destruct (fresh_nonce (connection (with_connection conn client))) as [cn conn'] eqn:Hcn. simpl in Hcn.
  destruct (tl_nonce _ _ _ Hlaws _ _ _ Hcn) as (Hlen & _ & Hs1 & _ & He1).
  set (c0 := with_auth _ (with_connection conn' _)).
  assert (idle c0 exporter) as Hid0.
  { unfold c0. simpl. rewrite Hauth. split; simpl; try done. by apply He1, He0. }
  destruct (queue_idle heard sent drawn hmac_sha256 key Hlaws Hmac Hfree c0 exporter AUTH_REQUEST (b "client") cn EMPTY_NONCE)
    as (client1 & -> & Hid1 & Ha1 & Hsent1); [done|done|done|].
  destruct (answer_request heard sent drawn hmac_sha256 key Hlaws Hmac Hfree server cn exporter drive)
    as (server1 & sn & Hsn & Hsl & Hrun1 & Hids1 & Has1 & Hsents1); [done|done|].
  destruct (answer_response heard sent drawn hmac_sha256 key Hlaws Hmac Hfree client1 cn sn exporter drive)
    as (client2 & Hrun2 & Hid2 & Ha2 & Hsent2); [done|by rewrite Ha1|by rewrite Hsn|done|done|].
  destruct (answer_confirm heard sent drawn hmac_sha256 key Hlaws Hmac Hfree server1 cn sn exporter drive)
    as (server2 & Hrun3 & Hdone1 & Hsents2); [done|by rewrite Has1|by rewrite Has1|done|done|].
  destruct (answer_complete hmac_sha256 key client2 cn sn exporter drive) as (client3 & Hrun4 & Hdone2); [done|by rewrite Ha2|by rewrite Ha2|].
  exists client1, server1, client2, server2, client3. eexists _, _, _, _. cbn [obind].
  split; [done|]. split; [rewrite Hsent1; simpl; by rewrite Hs1, Hs0|].
  split; [rewrite handle_frame by done; exact Hrun1|]. split; [exact Hsents1|].
  split; [rewrite handle_frame by done; exact Hrun2|]. split; [exact Hsent2|].
  split; [rewrite handle_frame by done; exact Hrun3|]. split; [exact Hsents2|].
  split; [rewrite handle_frame by done; exact Hrun4|]. by split.
Qed.

(** Nothing of the handshake is lost, repeated or reordered on the way out. However the
    stream accepts the data, in pieces of any size or not at all, [flush_auth_stream] ends
    without a panic; the bytes written so far followed by the bytes still queued are the
    same sequence before and after; it reports completion only with nothing left; and it
    changes nothing else of the connection's state. *)
Theorem flush_keeps_stream {Conn EndpointEvent : Type} `{!Transport Conn EndpointEvent} (heard sent : Conn → bytes)
    (drawn : Conn → list bytes) (mc : ManagedConnection Conn) :
  transport_laws heard sent drawn → queue_ok (auth mc) →
  ∃ o mc', flush_auth_stream mc = Ok (o, mc')
    ∧ sent (connection mc') ++ unsent (auth mc') = sent (connection mc) ++ unsent (auth mc)
    ∧ (o = Complete → unsent (auth mc') = []) ∧ queue_ok (auth mc')
    ∧ mc' = with_connection (connection mc') (with_auth (set_transmit (auth_transmit (auth mc')) (transmit_offset (auth mc')) (auth mc)) mc).
Proof.
  intros Hlaws Hq. destruct (flush_spec heard sent drawn Hlaws mc Hq) as (o & mc' & Hrun & [A R Q H D E S C]).
  exists o, mc'. split_and!; [done|done| |done|].
  - intros Ho. unfold unsent. rewrite (C Ho). apply drop_nil.
  - rewrite R at 1. unfold same_auth in A. by rewrite A at 1.
Qed.

(** The MACs of the handshake are over different texts: two messages agree only if their
    labels, both nonces and the exporter agree, so a MAC made for one message of one
    connection is never the MAC's text of another. *)
Theorem mac_inputs_separated label label' cn cn' sn sn' exporter exporter' :
  length cn = 16%nat → length cn' = 16%nat → length sn = 16%nat → length sn' = 16%nat →
  length exporter = 32%nat → length exporter' = 32%nat →
  auth_message label cn sn exporter = auth_message label' cn' sn' exporter' →
  label = label' ∧ cn = cn' ∧ sn = sn' ∧ exporter = exporter'.
Proof.
  intros. unfold auth_message in *. match goal with H : _ ++ _ = _ |- _ => apply app_inv_head in H; rename H into Heq end.
  assert (length label = length label') as Hlen.
  { apply (f_equal length) in Heq. rewrite !length_app in Heq. lia. }
  apply app_inj_1 in Heq as [-> Heq]; [|done]. apply app_inj_1 in Heq as [-> Heq]; [|lia].
  apply app_inj_1 in Heq as [-> ->]; [done|lia].
Qed.

Lemma mac_inputs_separated_witness : auth_message (b "client") EMPTY_NONCE EMPTY_NONCE (replicate 32 7) = auth_message (b "client") EMPTY_NONCE EMPTY_NONCE (replicate 32 7)
  ∧ b "client" = b "client".
Proof.
  split; [reflexivity|]. eapply (mac_inputs_separated (b "client") (b "client") EMPTY_NONCE EMPTY_NONCE EMPTY_NONCE EMPTY_NONCE (replicate 32 7) (replicate 32 7)); reflexivity.
Defined.

Lemma flush_keeps_stream_witness : ∃ o mc',
  flush_auth_stream (with_auth (set_transmit [replicate 65 5; replicate 65 6] 10 (auth sample_server)) sample_server) = Ok (o, mc')
  ∧ pi_sent (connection mc') ++ unsent (auth mc') = replicate 55 5 ++ replicate 65 6.
Proof.
  destruct (flush_keeps_stream pi_heard pi_sent pi_drawn
    (with_auth (set_transmit [replicate 65 5; replicate 65 6] 10 (auth sample_server)) sample_server)) as (o & mc' & Hrun & Hs & _).
  - apply pipe_laws.
  - split_and!; [repeat constructor|done|unfold AUTH_FRAME_LEN; simpl; lia].
  - exists o, mc'. split; [exact Hrun|exact Hs].
Defined.

Lemma honest_handshake_witness : ∃ server2 client3 f3 f4 server1 client2,
  handle_auth_frame sample_hmac Server sample_key f3 server1 drive_default = Ok (server2, set_authenticated_now drive_default)
  ∧ handle_auth_frame sample_hmac Client sample_key f4 client2 drive_default = Ok (client3, set_authenticated_now drive_default)
  ∧ authenticated (auth server2) = true ∧ authenticated (auth client3) = true.
Proof.
  destruct (honest_handshake pi_heard pi_sent pi_drawn sample_hmac sample_key (replicate 32 7) 0 (sample_pipe 1 [Connected])
    sample_client sample_server drive_default) as (client1 & server1 & client2 & server2 & client3 & f1 & f2 & f3 & f4 & H).
  - apply pipe_laws.
  - apply sample_hmac_length.
  - intros ???. reflexivity.
  - reflexivity.
  - reflexivity.
  - reflexivity.
  - split; [by eexists|reflexivity|reflexivity|reflexivity].
  - vm_compute. congruence.
  - exists server2, client3, f3, f4, server1, client2. tauto.
Defined.

(** A server that gets the request and then the confirmation. *)
Definition sample_deliver (inbox : bytes) (event : Event) (c : pipe) : pipe :=
  mkPipe inbox (pi_heard c) (pi_sent c) (pi_drawn c) (pi_seed c) [event].
Definition sample_drive (mc : ManagedConnection pipe) : ManagedConnection pipe :=
  match drive_connection sample_hmac 5 Server sample_key 0 mc with Ok (mc', _) => mc' | _ => mc end.
Definition sample_frame (kind : Z) (label sn : bytes) : bytes :=
  frame_of sample_hmac sample_key kind label (replicate 16 1) sn (replicate 32 7).
Definition sample_fresh : ManagedConnection pipe :=
  managed_new 0 (sample_deliver (sample_frame AUTH_REQUEST (b "client") EMPTY_NONCE) (StreamEv (Opened Bi)) (sample_pipe 2 [])) 0.
Definition sample_waiting : ManagedConnection pipe := sample_drive sample_fresh.
Definition sample_confirmed : ManagedConnection pipe :=
  with_connection (sample_deliver (sample_frame AUTH_CONFIRM (b "confirm") (replicate 16 2)) (StreamEv (Readable 0)) (connection sample_waiting))
    sample_waiting.

Lemma sample_drive_ok mc mc' drive : drive_connection sample_hmac 5 Server sample_key 0 mc = Ok (mc', drive) →
  drive_connection sample_hmac 5 Server sample_key 0 mc = Ok (sample_drive mc, drive).
Proof. intros H. unfold sample_drive. by rewrite H. Qed.

Lemma sample_reachable : reachable pi_heard pi_sent pi_drawn sample_hmac Server sample_key (sample_drive sample_confirmed).
Proof.
  eapply (reach_drive _ _ _ _ _ _ 5 0 sample_confirmed).
  - apply reach_library; [|split; [vm_compute; reflexivity..|by intros ???]].
    eapply (reach_drive _ _ _ _ _ _ 5 0 sample_fresh); [by apply reach_new|]. eapply sample_drive_ok. vm_compute. reflexivity.
  - eapply sample_drive_ok. vm_compute. reflexivity.
Qed.

Lemma authentication_sound_witness : authenticated (auth (sample_drive sample_confirmed)) = true ∧
  ∃ frames rest cn sn exporter,
    pi_heard (connection (sample_drive sample_confirmed)) = concat frames ++ rest
    ∧ own_nonce Server cn sn ∈ pi_drawn (connection (sample_drive sample_confirmed))
    ∧ proof_frame sample_hmac Server sample_key cn sn exporter ∈ frames.
Proof.
  split; [vm_compute; reflexivity|].
  destruct (authentication_sound pi_heard pi_sent pi_drawn sample_hmac Server sample_key (sample_drive sample_confirmed))
    as (frames & rest & cn & sn & ex & H1 & _ & _ & H2 & H3).
  - apply pipe_laws.
  - apply sample_hmac_length.
  - apply sample_reachable.
  - vm_compute. reflexivity.
  - exists frames, rest, cn, sn, ex. split; [exact H1|]. split; [exact H2|exact H3].
Defined.
