(* ===== verification/Engine.v ===== *)
(** The QUIC engine of one flow worker ([QuicEngine] in [src/src/quic_engine.rs]): its active
    connection, the candidate that may replace it, and the connection identifiers it
    announces.

    The QUIC endpoint is the type class [EndpointOps].  An endpoint call may ask the
    engine's identifier generator for new connection identifiers; it returns them, and
    [generated] keeps them in the shared queue the code drains.  A [HashSet] is walked in
    the order of [elements]; the code promises no order. *)
From S2P Require Import Prelude Net Inner Auth.

Inductive DatagramEvent (Conn ConnectionEvent : Type) : Type :=
| NewConnection (connection : Conn)
| ConnectionEv (event : ConnectionEvent).
Arguments NewConnection {Conn ConnectionEvent}.
Arguments ConnectionEv {Conn ConnectionEvent}.

Class EndpointOps (Conn EndpointEvent ConnectionEvent Endpoint : Type) : Type := {
  endpoint_handle : Z → SocketAddr → option IpAddr → bytes → Endpoint →
    option (Z * DatagramEvent Conn ConnectionEvent) * list bytes * Endpoint;
  endpoint_handle_event : Z → EndpointEvent → Endpoint → option ConnectionEvent * list bytes * Endpoint;
  endpoint_transmits : Endpoint → list OuterTransmit * Endpoint;
  is_drained : EndpointEvent → bool;
  drained : EndpointEvent;
  handle_event : ConnectionEvent → Conn → Conn;
  close_connection : Z → bytes → Conn → Conn;
  datagrams_max_size : Conn → option nat;
  datagrams_send : bytes → Conn → bool * Conn;
}.

Section engine.
Context {Conn EndpointEvent ConnectionEvent Endpoint : Type}.
Context `{!Transport Conn EndpointEvent} `{!EndpointOps Conn EndpointEvent ConnectionEvent Endpoint}.
Context (hmac_sha256 : bytes → bytes → bytes).
Abbreviation Managed := (ManagedConnection Conn).
Abbreviation Drive := (ConnectionDrive EndpointEvent).

Record QuicEngine : Type := mkEngine {
  en_role : QuicRole;
  en_endpoint : Endpoint;
  en_connection : option Managed;
  en_candidate : option Managed;
  en_shared_key : bytes;
  en_dcid_len : nat;
  en_generated : list bytes;
  en_published : gset bytes;
  en_promotion_pending : bool;
  en_core : EngineCore;
}.

(** Assignments to fields. *)
Definition set_endpoint (ep : Endpoint) (generated : list bytes) (en : QuicEngine) : QuicEngine :=
  mkEngine (en_role en) ep (en_connection en) (en_candidate en) (en_shared_key en) (en_dcid_len en) generated
    (en_published en) (en_promotion_pending en) (en_core en).
Definition set_connections (active candidate : option Managed) (en : QuicEngine) : QuicEngine :=
  mkEngine (en_role en) (en_endpoint en) active candidate (en_shared_key en) (en_dcid_len en) (en_generated en)
    (en_published en) (en_promotion_pending en) (en_core en).
Definition set_published (ds : gset bytes) (en : QuicEngine) : QuicEngine :=
  mkEngine (en_role en) (en_endpoint en) (en_connection en) (en_candidate en) (en_shared_key en) (en_dcid_len en)
    (en_generated en) ds (en_promotion_pending en) (en_core en).
Definition set_pending (pending : bool) (en : QuicEngine) : QuicEngine :=
  mkEngine (en_role en) (en_endpoint en) (en_connection en) (en_candidate en) (en_shared_key en) (en_dcid_len en)
    (en_generated en) (en_published en) pending (en_core en).
Definition set_core (c : EngineCore) (en : QuicEngine) : QuicEngine :=
  mkEngine (en_role en) (en_endpoint en) (en_connection en) (en_candidate en) (en_shared_key en) (en_dcid_len en)
    (en_generated en) (en_published en) (en_promotion_pending en) c.

(** [self.events.push_back] and [self.events.extend]. *)
Definition push_events (evs : list QuicEngineEvent) (en : QuicEngine) : QuicEngine :=
  let c := en_core en in set_core (mkCore (next_inner_packet_id c) (reassembly c) (reassembly_bytes c) (events c ++ evs)) en.

Definition validate_dcid_len (dcid_len : nat) : outcome QuicEngineError unit :=
  if decide (1 ≤ dcid_len ≤ 20)%nat then Ok tt else Err InvalidDcidLength.

Definition server_for_worker (endpoint : Endpoint) (key : bytes) (dcid_len : nat) : outcome QuicEngineError QuicEngine :=
  let? _ := validate_dcid_len dcid_len in
  Ok (mkEngine Server endpoint None None key dcid_len [] ∅ false (mkCore 0 ∅ 0 [])).

Definition is_authenticated (en : QuicEngine) : bool :=
  match en_connection en with Some mc => authenticated (auth mc) | None => false end.

(** ** Connections by handle *)

Definition has_handle (h : Z) (slot : option Managed) : bool :=
  match slot with Some mc => bool_decide (handle mc = h) | None => false end.

Definition connection_for_handle (h : Z) (en : QuicEngine) : option Managed :=
  if has_handle h (en_connection en) then en_connection en
  else if has_handle h (en_candidate en) then en_candidate en else None.

(** An update through [connection_for_handle_mut]. *)
Definition update_for_handle (h : Z) (f : Managed → Managed) (en : QuicEngine) : QuicEngine :=
  if has_handle h (en_connection en) then set_connections (f <$> en_connection en) (en_candidate en) en
  else if has_handle h (en_candidate en) then set_connections (en_connection en) (f <$> en_candidate en) en
  else en.

(** ** Connection identifiers *)

Definition discard_generated_dcids (en : QuicEngine) : QuicEngine := set_endpoint (en_endpoint en) [] en.
Definition take_generated_dcids (en : QuicEngine) : list bytes * QuicEngine := (en_generated en, discard_generated_dcids en).

Definition publish_dcid (dcid : bytes) (en : QuicEngine) : QuicEngine :=
  if decide (dcid ∈ en_published en) then en
  else push_events [DcidPublished dcid] (set_published ({[dcid]} ∪ en_published en) en).

Definition publish_dcids (ds : list bytes) (en : QuicEngine) : QuicEngine := fold_left (λ en d, publish_dcid d en) ds en.

Definition stage_dcids_for_handle (h : Z) (generated : list bytes) (en : QuicEngine) : QuicEngine :=
  match connection_for_handle h en with
  | None => en
  | Some mc =>
      let tracked := fold_left (λ mc d, track_dcid d mc) generated mc in
      let en := update_for_handle h (λ _, tracked) en in
      if dcid_limit_exceeded tracked then en
      else if authenticated (auth tracked) then publish_dcids generated en
      else push_events (DcidStaged <$> generated) en
  end.

Definition publish_active_dcids (en : QuicEngine) : QuicEngine :=
  match en_connection en with Some mc => publish_dcids (elements (dcids mc)) en | None => en end.

Definition retire_staged_dcids (ds : gset bytes) (en : QuicEngine) : QuicEngine :=
  push_events (DcidRetired <$> filter (λ d, d ∉ en_published en) (elements ds)) en.

Definition retire_all_dcids (en : QuicEngine) : QuicEngine :=
  push_events (DcidRetired <$> elements (en_published en)) (set_published ∅ en).

(** ** Disposing of connections *)

(** One endpoint event of a connection that goes away. *)
Definition dispose_event (h : Z) (event : EndpointEvent) (en : QuicEngine) : QuicEngine :=
  let en := discard_generated_dcids en in
  let '(_, generated, ep) := endpoint_handle_event h event (en_endpoint en) in
  discard_generated_dcids (set_endpoint ep (en_generated en ++ generated) en).

Definition dispose_managed_connection (mc : Managed) (now : Z) (reason : option bytes) (en : QuicEngine) : QuicEngine :=
  let conn := match reason with Some reason => close_connection now reason (connection mc) | None => connection mc end in
  let '(evs, _) := poll_endpoint_events conn in
  let en := fold_left (λ en event, dispose_event (handle mc) event en) evs en in
  let registered := endpoint_registered mc && forallb (λ event, negb (is_drained event)) evs in
  if registered then dispose_event (handle mc) drained en else en.

Definition dispose_slot (slot : option Managed) (now : Z) (reason : option bytes) (en : QuicEngine) : QuicEngine :=
  match slot with Some mc => dispose_managed_connection mc now reason en | None => en end.

(** Drops the candidate with the identifiers it staged. *)
Definition drop_candidate (now : Z) (reason : option bytes) (en : QuicEngine) : QuicEngine :=
  match en_candidate en with
  | None => en
  | Some candidate =>
      let en := set_connections (en_connection en) None en in
      dispose_managed_connection candidate now reason (retire_staged_dcids (dcids candidate) en)
  end.

(** ** Replacing the active connection *)

Definition promote_candidate (en : QuicEngine) : QuicEngine :=
  match en_candidate en with
  | None => en
  | Some candidate =>
      match en_connection en with
      | Some _ => push_events [Replaced (elements (dcids candidate))] (set_pending true en)
      | None =>
          let en := set_connections (Some candidate) None en in
          push_events [EvAuthenticated] (publish_dcids (elements (dcids candidate)) en)
      end
  end.

Definition clear_engine_reassembly (en : QuicEngine) : QuicEngine := set_core (clear_reassembly (en_core en)) en.

Definition commit_candidate_replacement (now : Z) (en : QuicEngine) : QuicEngine :=
  match en_candidate en with
  | None => en
  | Some candidate =>
      let previous := en_connection en in
      let en := set_connections (Some candidate) None en in
      let en := dispose_slot previous now (Some (b "peer restarted")) en in
      let en := clear_engine_reassembly en in
      let retired := filter (λ d, d ∉ dcids candidate) (elements (en_published en)) in
      let en := push_events (DcidRetired <$> retired) (set_published (dcids candidate) en) in
      push_events [EvAuthenticated] en
  end.

Definition resolve_candidate_replacement (now : Z) (publish_succeeded : bool) (en : QuicEngine) : QuicEngine :=
  if negb (en_promotion_pending en) then en else
  let en := set_pending false en in
  if publish_succeeded then commit_candidate_replacement now en
  else drop_candidate now (Some (b "DCID publication rejected")) en.

Definition close (now : Z) (en : QuicEngine) : QuicEngine :=
  let active := en_connection en in
  let candidate := en_candidate en in
  let en := set_connections None candidate en in
  let en := dispose_slot active now (Some (b "closed")) en in
  let en := set_connections None None en in
  let en := dispose_slot candidate now (Some (b "closed")) en in
  push_events [EvClosed] (retire_all_dcids (clear_engine_reassembly en)).

(** ** Driving the engine *)

(** [drive_connection] on a slot. *)
Definition drive_slot (fuel : nat) (en : QuicEngine) (now : Z) (slot : option Managed)
    : outcome unit (option Managed * option Drive) :=
  match slot with
  | None => Ok (None, None)
  | Some mc =>
      let? '(mc, drive) := drive_connection hmac_sha256 fuel (en_role en) (en_shared_key en) now mc in
      Ok (Some mc, Some drive)
  end.

Definition from_drive {A : Type} (f : Drive → A) (none : A) (drive : option Drive) : A :=
  match drive with Some d => f d | None => none end.

(** An event from a connection to the endpoint, and the answer. *)
Definition route_endpoint_event (en : QuicEngine) (he : Z * EndpointEvent) : QuicEngine :=
  let '(h, event) := he in
  let en := if is_drained event
            then update_for_handle h (λ mc, mkManaged (handle mc) (connection mc) (auth mc) (dcids mc) (auth_deadline mc) false
                                              (dcid_limit_exceeded mc) (retired_dcid_frames mc)) en
            else en in
  let en := discard_generated_dcids en in
  let '(answer, generated, ep) := endpoint_handle_event h event (en_endpoint en) in
  let '(generated, en) := take_generated_dcids (set_endpoint ep (en_generated en ++ generated) en) in
  let en := match answer with
            | Some event => update_for_handle h (λ mc, with_connection (handle_event event (connection mc)) mc) en
            | None => en
            end in
  stage_dcids_for_handle h generated en.

(** What the two connections reported: authentication, loss of the candidate, loss of
    the active connection. *)
Definition settle_connections (now : Z) (active_now active_lost candidate_now candidate_lost : bool) (en : QuicEngine) : QuicEngine :=
  let en := if active_now then push_events [EvAuthenticated] (publish_active_dcids en) else en in
  let en := if candidate_now then promote_candidate en
            else if candidate_lost then drop_candidate now None en else en in
  if active_lost && negb candidate_now then
    let en := drop_candidate now (Some (b "active connection lost")) en in
    let active := en_connection en in
    let en := dispose_slot active now None (set_connections None (en_candidate en) en) in
    push_events [EvClosed] (retire_all_dcids (clear_engine_reassembly en))
  else en.

Fixpoint handle_application_datagrams (now : Z) (ds : list bytes) (en : QuicEngine) : outcome unit QuicEngine :=
  match ds with
  | [] => Ok en
  | d :: ds =>
      let? core := handle_application_datagram (is_authenticated en) now d (en_core en) in
      handle_application_datagrams now ds (set_core core en)
  end.

Definition drive (fuel : nat) (now : Z) (en : QuicEngine) : outcome unit QuicEngine :=
  let? '(active, active_drive) := drive_slot fuel en now (en_connection en) in
  let? '(candidate, candidate_drive) := drive_slot fuel en now (en_candidate en) in
  let en := set_connections active candidate en in
  let sent := from_drive transmits [] active_drive ++ from_drive transmits [] candidate_drive in
  let en := fold_left route_endpoint_event
              (from_drive endpoint_events [] active_drive ++ from_drive endpoint_events [] candidate_drive) en in
  let '(more, ep) := endpoint_transmits (en_endpoint en) in
  let en := set_endpoint ep (en_generated en) en in
  let sent := sent ++ more in
  let active_lost := from_drive lost false active_drive in
  let candidate_now := from_drive authenticated_now false candidate_drive in
  let en := settle_connections now (from_drive authenticated_now false active_drive) active_lost candidate_now
              (from_drive lost false candidate_drive) en in
  let en := set_core (prune_reassembly now (en_core en)) en in
  let application := if candidate_now then from_drive datagrams [] candidate_drive
                     else if negb active_lost then from_drive datagrams [] active_drive else [] in
  let? en := handle_application_datagrams now application en in
  Ok (push_events (EvTransmit <$> sent) en).

(** ** Calls from the flow worker *)

Definition extract_dcid (packet : bytes) (fixed_len : nat) : option bytes :=
  first ← head packet;
  if decide (Z.land first 128 ≠ 0) then
    len ← packet !! 5%nat;
    if decide (len = 0 ∨ 20 < len) then None else get_range packet 6 (6 + Z.to_nat len)
  else get_range packet 1 (1 + fixed_len).

(** A new connection becomes the candidate unless there is one already. *)
Definition take_datagram_event (now : Z) (h : Z) (event : DatagramEvent Conn ConnectionEvent) (en : QuicEngine) : QuicEngine :=
  match event with
  | NewConnection conn =>
      let incoming := managed_new h conn now in
      match en_candidate en with
      | Some _ => dispose_managed_connection incoming now (Some (b "candidate busy")) en
      | None => set_connections (en_connection en) (Some incoming) en
      end
  | ConnectionEv event => update_for_handle h (λ mc, with_connection (handle_event event (connection mc)) mc) en
  end.

Definition handle_outer (fuel : nat) (now : Z) (remote : SocketAddr) (local_ip : option IpAddr) (packet : bytes) (en : QuicEngine)
    : outcome unit QuicEngine :=
  let accepted_dcid := extract_dcid packet (en_dcid_len en) in
  let en := discard_generated_dcids en in
  let '(handled, generated, ep) := endpoint_handle now remote local_ip packet (en_endpoint en) in
  let '(generated, en) := take_generated_dcids (set_endpoint ep (en_generated en ++ generated) en) in
  match handled with
  | None => drive fuel now en
  | Some (h, event) =>
      let en := take_datagram_event now h event en in
      let en := match accepted_dcid with Some dcid => update_for_handle h (track_dcid dcid) en | None => en end in
      drive fuel now (stage_dcids_for_handle h generated en)
  end.

Definition send_inner (fuel : nat) (now : Z) (packet : bytes) (en : QuicEngine) : outcome QuicEngineError unit * QuicEngine :=
  let '(result, (core, conn)) := queue_inner datagrams_max_size datagrams_send (is_authenticated en) packet (en_core en)
                                   (connection <$> en_connection en) in
  let active := match en_connection en, conn with Some mc, Some conn => Some (with_connection conn mc) | slot, _ => slot end in
  let en := set_connections active (en_candidate en) (set_core core en) in
  match result with
  | Ok tt => match drive fuel now en with Ok en => (Ok tt, en) | _ => (Panic, en) end
  | r => (r, en)
  end.

Definition poll (fuel : nat) (now : Z) (en : QuicEngine) : outcome unit (option QuicEngineEvent * QuicEngine) :=
  let? en := drive fuel now en in
  let c := en_core en in
  match events c with
  | [] => Ok (None, en)
  | event :: evs => Ok (Some event, set_core (mkCore (next_inner_packet_id c) (reassembly c) (reassembly_bytes c) evs) en)
  end.
End engine.
