(* ===== verification/EngineProps.v ===== *)
(** The connection identifiers of a QUIC engine: whatever the engine announces it accounts
    for, and the shared index routes to a worker only identifiers its engine holds. *)
From S2P Require Import Prelude Net Inner Auth QuicFlow QuicFlowProps Engine.

(** ** Driving one connection keeps its identity *)

Section kept.
Context {Conn EndpointEvent : Type} `{!Transport Conn EndpointEvent} (hmac_sha256 : bytes → bytes → bytes).
Abbreviation Managed := (ManagedConnection Conn).
Abbreviation Drive := (ConnectionDrive EndpointEvent).

Definition kept (mc mc' : Managed) : Prop := handle mc' = handle mc ∧ dcids mc' = dcids mc.

(** A computation that, when it returns, has kept the connection's identity. *)
Definition keeps {A} (get : A → Managed) (mc : Managed) (c : outcome unit A) : Prop := ∀ a, c = Ok a → kept mc (get a).

Lemma keeps_Ok {A} (get : A → Managed) mc a : kept mc (get a) → keeps get mc (Ok a).
Proof using Type. by intros H ? [=<-]. Qed.

Lemma keeps_bind {A B} (get : A → Managed) (get' : B → Managed) mc c (k : A → outcome unit B) : keeps get mc c →
  (∀ a, keeps get' (get a) (k a)) → keeps get' mc (obind c k).
Proof using Type.
  intros Hc Hk x (a & Ha & Hx)%obind_Ok. destruct (Hc a Ha) as [H1 H2], (Hk a x Hx) as [H3 H4]. unfold kept. by rewrite H3, H4.
Qed.

Lemma keeps_from {A} (get : A → Managed) mc mc' c : kept mc mc' → keeps get mc' c → keeps get mc c.
Proof using Type. intros [H1 H2] Hc a Ha. destruct (Hc a Ha) as [H3 H4]. unfold kept. by rewrite H3, H4. Qed.

Lemma keeps_Panic {A} (get : A → Managed) mc : keeps get mc Panic.
Proof using Type. done. Qed.

Lemma flush_loop_keeps stream : ∀ fuel mc, keeps snd mc (flush_loop fuel stream mc).
Proof using Type.
  induction fuel as [|fuel IH]; intros mc; cbn [flush_loop]; destruct (auth_transmit (auth mc)) as [|f fs]; try by apply keeps_Ok.
  { apply keeps_Panic. }
  destruct (slice _ _ _) as [data| |]; cbn [obind]; [|done|apply keeps_Panic].
  destruct (write_stream stream data (connection mc)) as [[] conn]; [|by apply keeps_Ok..].
  cbv zeta. case_decide; (eapply keeps_from; [|apply IH]; done).
Qed.

Lemma flush_keeps mc : keeps snd mc (flush_auth_stream mc).
Proof using Type. unfold flush_auth_stream. case_match; [apply flush_loop_keeps|by apply keeps_Ok]. Qed.

Lemma queue_keeps key kind label cn sn mc : keeps snd mc (queue_auth_frame hmac_sha256 key kind label cn sn mc).
Proof using Type.
  unfold queue_auth_frame. case_match; [|by apply keeps_Ok]. eapply keeps_from; [|apply flush_keeps]. done.
Qed.

Lemma start_keeps key mc : keeps snd mc (start_client_authentication hmac_sha256 key mc).
Proof using Type.
  unfold start_client_authentication. destruct (open_stream (connection mc)) as [[stream|] conn]; [|by apply keeps_Ok].
  cbv zeta. destruct (fresh_nonce _) as [n conn']. eapply keeps_bind; [eapply keeps_from; [|apply queue_keeps]; done|].
  intros [o mc']. by apply keeps_Ok.
Qed.

Lemma answer_keeps role key kind cn sn mac mc (drive : Drive) : keeps fst mc (answer_auth_frame hmac_sha256 role key kind cn sn mac mc drive).
Proof using Type.
  unfold answer_auth_frame. destruct (auth_exporter mc); [|by apply keeps_Ok]. cbv zeta.
  case_decide; [|case_decide; [|case_decide; [|case_decide; by apply keeps_Ok]]].
  - destruct (fresh_nonce _) as [n conn]. eapply keeps_bind; [eapply keeps_from; [|apply queue_keeps]; done|]. intros [o mc']. by apply keeps_Ok.
  - eapply keeps_bind; [eapply keeps_from; [|apply queue_keeps]; done|]. intros [o mc']. by apply keeps_Ok.
  - eapply keeps_bind; [apply queue_keeps|]. intros [[] mc']; by apply keeps_Ok.
Qed.

Lemma handle_auth_frame_keeps role key frame mc (drive : Drive) : keeps fst mc (handle_auth_frame hmac_sha256 role key frame mc drive).
Proof using Type.
  unfold handle_auth_frame. repeat (match goal with |- keeps _ _ (obind ?c _) => destruct c; cbn [obind]; [|done|apply keeps_Panic] end).
  apply answer_keeps.
Qed.

Lemma drain_frames_keeps role key : ∀ fuel mc (drive : Drive), keeps fst mc (drain_frames hmac_sha256 fuel role key mc drive).
Proof using Type.
  induction fuel as [|fuel IH]; intros mc drive; cbn [drain_frames]; case_decide; try by apply keeps_Ok.
  { apply keeps_Panic. }
  cbv zeta. eapply keeps_bind; [eapply keeps_from; [|apply handle_auth_frame_keeps]; done|]. intros [mc' d']. apply IH.
Qed.

Lemma drain_stream_keeps role key mc (drive : Drive) : keeps fst mc (drain_auth_stream hmac_sha256 role key mc drive).
Proof using Type.
  unfold drain_auth_stream. destruct (auth_stream (auth mc)); [|by apply keeps_Ok].
  destruct (read_stream _ _) as [[[chunks []]|] conn]; cbv zeta; try by apply keeps_Ok.
  all: case_decide; [by apply keeps_Ok|]; eapply keeps_from; [|apply drain_frames_keeps]; done.
Qed.

Lemma accept_keeps role key streams : ∀ mc (drive : Drive), keeps fst mc (accept_auth_streams hmac_sha256 streams role key mc drive).
Proof using Type.
  induction streams as [|s streams IH]; intros mc drive; cbn [accept_auth_streams]; [by apply keeps_Ok|].
  eapply (keeps_bind fst); [|intros [mc' d']; apply IH]. case_match; [by apply keeps_Ok|]. eapply keeps_from; [|apply drain_stream_keeps]. done.
Qed.

Lemma settle_kept o mc (drive : Drive) : kept mc (settle_flush o mc drive).1.
Proof using Type. unfold settle_flush. repeat case_match; done. Qed.

Lemma stream_event_keeps role key event mc (drive : Drive) : keeps fst mc (handle_stream_event hmac_sha256 role key event mc drive).
Proof using Type.
  unfold handle_stream_event. destruct event as [[]|id|id|id|id|dir]; try case_decide; try by apply keeps_Ok.
  - destruct (accept_streams _) as [streams conn]. eapply keeps_from; [|apply accept_keeps]. done.
  - apply drain_stream_keeps.
  - eapply keeps_bind; [apply flush_keeps|]. intros [o mc']. apply keeps_Ok, settle_kept.
Qed.

Lemma stream_events_keep role key pending : ∀ mc (drive : Drive), keeps fst mc (handle_stream_events hmac_sha256 role key pending mc drive).
Proof using Type.
  induction pending as [|event pending IH]; intros mc drive; cbn [handle_stream_events]; [by apply keeps_Ok|].
  eapply keeps_bind; [apply stream_event_keeps|]. intros [mc' d']. apply IH.
Qed.

Lemma poll_events_keep role key : ∀ fuel pending mc (drive : Drive),
  keeps (λ r, r.2.1) mc (poll_events hmac_sha256 fuel role key pending mc drive).
Proof using Type.
  induction fuel as [|fuel IH]; intros pending mc drive; cbn [poll_events];
    destruct (poll_event (connection mc)) as [[event|] conn]; cbv zeta; try by apply keeps_Ok.
  { apply keeps_Panic. }
  destruct event; try (eapply keeps_from; [|apply IH]; done).
  - case_decide; [|eapply keeps_from; [|apply IH]; done].
    eapply keeps_bind; [eapply keeps_from; [|apply start_keeps]; done|]. intros [started mc']. apply IH.
  - destruct (recv_datagrams _) as [ds conn']. eapply keeps_from; [|apply IH]. done.
Qed.

Lemma drive_connection_keeps fuel role key now mc : keeps fst mc (drive_connection hmac_sha256 fuel role key now mc).
Proof using Type.
  unfold drive_connection. cbv zeta. set (mc0 := match poll_timeout _ with Some _ => _ | None => _ end).
  assert (kept mc mc0) as Hk by (unfold mc0; repeat case_match; done). clearbody mc0.
  set (d0 := if decide (_ ∧ _) then _ else _). clearbody d0. apply (keeps_from _ _ mc0 _ Hk).
  eapply keeps_bind; [apply poll_events_keep|]. intros [pending [mc1 d1]]. simpl.
  eapply keeps_bind; [apply stream_events_keep|]. intros [mc2 d2]. simpl.
  assert (∀ (d : Drive) mc, kept mc (finish_connection_drive now mc d).1) as Hf.
  { intros d x. unfold finish_connection_drive. destruct (poll_endpoint_events _) as [? c], (poll_transmits now c). done. }
  destruct (lost d2); [apply keeps_Ok, Hf|]. eapply keeps_bind; [apply flush_keeps|]. intros [o mc3]. simpl.
  pose proof (settle_kept o mc3 d2) as Hs. destruct (settle_flush o mc3 d2) as [mc4 d4]. simpl in Hs. apply (keeps_from _ _ mc4 _ Hs).
  assert (kept mc4 (check_retired (authenticated (auth mc)) mc4 d4).1) as Hr by (unfold check_retired; repeat case_match; done).
  destruct (check_retired _ mc4 d4) as [mc5 d5]. simpl in Hr. apply (keeps_from _ _ mc5 _ Hr). apply keeps_Ok, Hf.
Qed.
End kept.

(** ** What the events announce *)

(** The identifiers that a consumer of the events may route to the engine: a published one
    until it is retired, a batch from the moment it is offered, nothing once closed. *)
Definition announce (visible : gset bytes) (event : QuicEngineEvent) : gset bytes :=
  match event with
  | DcidPublished d => {[d]} ∪ visible
  | DcidRetired d => visible ∖ {[d]}
  | Replaced ds => list_to_set ds ∪ visible
  | EvClosed => ∅
  | _ => visible
  end.

Definition visible (evs : list QuicEngineEvent) (v : gset bytes) : gset bytes := fold_left announce evs v.

Definition neutral (event : QuicEngineEvent) : Prop :=
  match event with EvTransmit _ | EvAuthenticated | InnerPacket _ | DcidStaged _ => True | _ => False end.

Lemma visible_app l l' v : visible (l ++ l') v = visible l' (visible l v).
Proof. apply fold_left_app. Qed.

Lemma visible_neutral l v : Forall neutral l → visible l v = v.
Proof. revert v. induction l as [|e l IH]; intros v; [done|]. intros [He Hl]%Forall_cons. simpl. by destruct e; try done; apply IH. Qed.

Lemma visible_retired l v : visible (DcidRetired <$> l) v = v ∖ list_to_set l.
Proof. revert v. induction l as [|d l IH]; intros v; simpl; [set_solver|]. rewrite IH. set_solver. Qed.

Lemma neutral_fmap {A} (f : A → QuicEngineEvent) l : (∀ a, neutral (f a)) → Forall neutral (f <$> l).
Proof. intros H. apply Forall_fmap, Forall_true. intros a. apply H. Qed.

(** Reassembly only adds packets to the events. *)
Lemma accept_fragment_events id total offset fragment c c' : accept_fragment id total offset fragment c = Ok c' →
  ∃ l, events c' = events c ++ l ∧ Forall neutral l.
Proof.
  unfold accept_fragment. destruct (reassembly c !! id) as [e|]; [|intros [=<-]; exists []; by rewrite app_nil_r].
  case_decide; [intros [=<-]; exists []; by rewrite app_nil_r|]. destruct (place fragment offset e) as [e'| |]; cbn [obind]; try done.
  repeat case_decide; try done; intros [=<-]; simpl; [eexists; split; [done|by repeat constructor]|exists []; by rewrite app_nil_r].
Qed.

Lemma datagram_events authenticated now d c c' : handle_application_datagram authenticated now d c = Ok c' →
  ∃ l, events c' = events c ++ l ∧ Forall neutral l.
Proof.
  unfold handle_application_datagram. destruct d as [|kind payload]; [intros [=<-]; exists []; by rewrite app_nil_r|].
  case_decide; [intros [=<-]; simpl; eexists; split; [done|by repeat constructor]|].
  case_decide; [|intros [=<-]; exists []; by rewrite app_nil_r]. unfold handle_inner_fragment.
  case_decide; [intros [=<-]; exists []; by rewrite app_nil_r|].
  repeat (match goal with |- obind ?x _ = _ → _ => destruct x; cbn [obind]; try done end). cbv zeta.
  case_decide; [intros [=<-]; exists []; by rewrite app_nil_r|]. case_match; [apply accept_fragment_events|].
  case_decide; [intros [=<-]; exists []; by rewrite app_nil_r|]. intros H'%accept_fragment_events. done.
Qed.

Section accounted.
Context {Conn EndpointEvent ConnectionEvent Endpoint : Type}.
Context `{!Transport Conn EndpointEvent} `{!EndpointOps Conn EndpointEvent ConnectionEvent Endpoint}.
Abbreviation Managed := (ManagedConnection Conn).
Abbreviation Engine := (@QuicEngine Conn Endpoint).

(** What the engine holds: its published identifiers, and the offered batch. *)
Definition offered (en : Engine) : gset bytes :=
  if en_promotion_pending en then match en_candidate en with Some mc => dcids mc | None => ∅ end else ∅.
Definition bound (en : Engine) : gset bytes := en_published en ∪ offered en.
Definition now_visible (v : gset bytes) (en : Engine) : gset bytes := visible (events (en_core en)) v.
Definition accounted (v : gset bytes) (en : Engine) : Prop := now_visible v en ⊆ bound en.

(** Only the endpoint and its queue differ. *)
Definition quiet_engine (en en' : Engine) : Prop := en' = set_endpoint (en_endpoint en') (en_generated en') en.

Lemma now_visible_push evs v en : now_visible v (push_events evs en) = visible evs (now_visible v en).
Proof using Type. unfold now_visible. simpl. by rewrite visible_app. Qed.

Lemma accounted_push evs v en : visible evs (now_visible v en) ⊆ bound en → accounted v (push_events evs en).
Proof using Type. unfold accounted. by rewrite now_visible_push. Qed.

Lemma accounted_neutral evs v en : Forall neutral evs → accounted v en → accounted v (push_events evs en).
Proof using Type. intros Hn Ha. apply accounted_push. by rewrite visible_neutral. Qed.

Lemma quiet_refl en : quiet_engine en en.
Proof using Type. by destruct en. Qed.

Lemma quiet_trans en1 en2 en3 : quiet_engine en1 en2 → quiet_engine en2 en3 → quiet_engine en1 en3.
Proof using Type. unfold quiet_engine. intros H1 H2. rewrite H2 at 1. by rewrite H1. Qed.

Lemma quiet_accounted v en en' : quiet_engine en en' → accounted v en → accounted v en'.
Proof using Type. unfold quiet_engine. by intros ->. Qed.

Lemma dispose_event_quiet h event en : quiet_engine en (dispose_event h event en).
Proof using Type. unfold dispose_event. cbv zeta. by destruct (endpoint_handle_event _ _ _) as [[? ?] ?]. Qed.

Lemma dispose_quiet mc now reason en : quiet_engine en (dispose_managed_connection mc now reason en).
Proof using Type.
  unfold dispose_managed_connection. destruct (poll_endpoint_events _) as [evs conn]. cbv zeta.
  assert (quiet_engine en (fold_left (λ en event, dispose_event (handle mc) event en) evs en)) as Hq.
  { revert en. induction evs as [|e evs IH]; intros en; [apply quiet_refl|]. simpl. eapply quiet_trans; [apply dispose_event_quiet|apply IH]. }
  case_match; [|done]. eapply quiet_trans; [exact Hq|apply dispose_event_quiet].
Qed.

Lemma dispose_slot_quiet slot now reason en : quiet_engine en (dispose_slot slot now reason en).
Proof using Type. destruct slot; [apply dispose_quiet|apply quiet_refl]. Qed.

(** ** Steps that keep the accounts *)

Lemma update_accounted v h f en : (∀ mc, dcids mc ⊆ dcids (f mc)) → accounted v en → accounted v (update_for_handle h f en).
Proof using Type.
  intros Hf. unfold update_for_handle. repeat case_match; try done. unfold accounted, bound, offered. simpl. intros Ha.
  destruct (en_candidate en) as [mc|]; [|done]. specialize (Hf mc). destruct (en_promotion_pending en); simpl; set_solver.
Qed.

Lemma publish_dcid_accounted v d en : accounted v en → accounted v (publish_dcid d en).
Proof using Type.
  intros Ha. unfold publish_dcid. case_decide; [done|]. apply accounted_push. simpl.
  unfold accounted, bound, now_visible, offered in *. simpl. set_solver.
Qed.

Lemma publish_dcids_accounted v ds : ∀ en, accounted v en → accounted v (publish_dcids ds en).
Proof using Type. unfold publish_dcids. induction ds as [|d ds IH]; intros en Ha; simpl; [done|]. by apply IH, publish_dcid_accounted. Qed.

Lemma track_grows d (mc : Managed) : dcids mc ⊆ dcids (track_dcid d mc).
Proof using Type. unfold track_dcid. repeat case_decide; simpl; set_solver. Qed.

Lemma track_all_grows ds : ∀ mc : Managed, dcids mc ⊆ dcids (fold_left (λ mc d, track_dcid d mc) ds mc).
Proof using Type. induction ds as [|d ds IH]; intros mc; simpl; [done|]. etrans; [apply (track_grows d)|apply IH]. Qed.

Lemma replace_accounted v h mc mc' en : connection_for_handle h en = Some mc → dcids mc ⊆ dcids mc' → accounted v en →
  accounted v (update_for_handle h (λ _, mc') en).
Proof using Type.
  unfold connection_for_handle, update_for_handle. intros Hmc Hsub. repeat case_match; try done.
  unfold accounted, bound, offered. simpl. rewrite Hmc. simpl. destruct (en_promotion_pending en); set_solver.
Qed.

Lemma stage_accounted v h ds en : accounted v en → accounted v (stage_dcids_for_handle h ds en).
Proof using Type.
  intros Ha. unfold stage_dcids_for_handle. destruct (connection_for_handle h en) as [mc|] eqn:Hmc; [|done]. cbv zeta.
  pose proof (replace_accounted v h mc _ en Hmc (track_all_grows ds mc) Ha) as Ha'.
  case_match; [done|]. case_match; [by apply publish_dcids_accounted|]. apply accounted_neutral; [by apply neutral_fmap|done].
Qed.

Lemma publish_active_accounted v en : accounted v en → accounted v (publish_active_dcids en).
Proof using Type. intros Ha. unfold publish_active_dcids. case_match; [by apply publish_dcids_accounted|done]. Qed.

(** Without a candidate only published identifiers remain. *)
Lemma drop_candidate_accounted v now reason en : accounted v en →
  accounted v (drop_candidate now reason en) ∧ en_candidate (drop_candidate now reason en) = None.
Proof using Type.
  intros Ha. unfold drop_candidate. destruct (en_candidate en) as [mc|] eqn:Hc; [|done]. cbv zeta.
  pose proof (dispose_quiet mc now reason (retire_staged_dcids (dcids mc) (set_connections (en_connection en) None en))) as Hq.
  split; [|by rewrite Hq]. eapply quiet_accounted; [exact Hq|]. apply accounted_push. rewrite visible_retired.
  unfold accounted, bound, offered, now_visible in *. rewrite Hc in Ha. simpl in *. destruct (en_promotion_pending en).
  - intros d [Hd Hn]%elem_of_difference. rewrite elem_of_list_to_set, list_elem_of_filter, elem_of_elements in Hn.
    apply Ha, elem_of_union in Hd as [Hd|Hd]; [set_solver|]. destruct (decide (d ∈ en_published en)); [set_solver|tauto].
  - set_solver.
Qed.

Lemma promote_accounted v en : accounted v en → accounted v (promote_candidate en).
Proof using Type.
  intros Ha. unfold promote_candidate. destruct (en_candidate en) as [mc|] eqn:Hc; [|done]. destruct (en_connection en).
  - apply accounted_push. unfold accounted, bound, offered, now_visible in *. simpl. rewrite Hc, list_to_set_elements_L in *.
    destruct (en_promotion_pending en); set_solver.
  - cbv zeta. apply accounted_neutral; [by repeat constructor|].
    (* the batch of a promoted candidate is published at once *)
    set (en1 := set_connections (Some mc) None en).
    assert (∀ ds en2, en_candidate en2 = None → now_visible v en2 ⊆ en_published en2 ∪ list_to_set ds → accounted v (publish_dcids ds en2)) as Hpub.
    { clear. unfold publish_dcids. induction ds as [|d ds IH]; intros en2 Hn Hv; simpl.
      - unfold accounted, bound. set_solver.
      - apply IH; unfold publish_dcid; case_decide; simpl; try done; [set_solver|].
        rewrite now_visible_push. unfold now_visible in *. simpl. set_solver. }
    apply Hpub; [done|]. rewrite list_to_set_elements_L. unfold accounted, bound, offered, now_visible in *. rewrite Hc in Ha. simpl.
    destruct (en_promotion_pending en); set_solver.
Qed.

Lemma closed_accounted v en : accounted v (push_events [EvClosed] en).
Proof using Type. apply accounted_push. simpl. set_solver. Qed.

Lemma core_accounted v c en : events c = events (en_core en) → accounted v en → accounted v (set_core c en).
Proof using Type. intros He. unfold accounted, now_visible. simpl. by rewrite He. Qed.

Lemma commit_accounted v now en : now_visible v en ⊆ en_published en ∪ match en_candidate en with Some mc => dcids mc | None => ∅ end →
  accounted v (commit_candidate_replacement now en).
Proof using Type.
  intros Ha. unfold commit_candidate_replacement. destruct (en_candidate en) as [mc|] eqn:Hc.
  - cbv zeta. apply accounted_neutral; [by repeat constructor|].
    set (en1 := dispose_slot _ _ _ _). pose proof (dispose_slot_quiet (en_connection en) now (Some (b "peer restarted")) (set_connections (Some mc) None en)) as Hq.
    fold en1 in Hq. apply accounted_push. rewrite visible_retired.
    assert (now_visible v (set_published (dcids mc) (clear_engine_reassembly en1)) = now_visible v en) as -> by (rewrite Hq; done).
    assert (en_published (clear_engine_reassembly en1) = en_published en) as -> by (rewrite Hq; done).
    unfold bound. simpl. intros d [Hd Hn]%elem_of_difference. rewrite elem_of_list_to_set, list_elem_of_filter, elem_of_elements in Hn.
    apply Ha, elem_of_union in Hd as [Hd|Hd]; [|set_solver]. destruct (decide (d ∈ dcids mc)); [set_solver|tauto].
  - unfold accounted, bound. set_solver.
Qed.

Lemma resolve_accounted v now ok en : accounted v en → accounted v (resolve_candidate_replacement now ok en).
Proof using Type.
  intros Ha. unfold resolve_candidate_replacement. destruct (en_promotion_pending en) eqn:Hp; simpl; [|done].
  unfold accounted, bound, offered in Ha. rewrite Hp in Ha. destruct ok; [by apply commit_accounted|].
  (* a rejected batch is retired with its candidate *)
  unfold drop_candidate. simpl. destruct (en_candidate en) as [mc|] eqn:Hc.
  - eapply quiet_accounted; [apply dispose_quiet|]. apply accounted_push. rewrite visible_retired. unfold bound, offered, now_visible in *. simpl in *.
    intros d [Hd Hn]%elem_of_difference. rewrite elem_of_list_to_set, list_elem_of_filter, elem_of_elements in Hn.
    apply Ha, elem_of_union in Hd as [Hd|Hd]; [set_solver|]. destruct (decide (d ∈ en_published en)); [set_solver|tauto].
  - unfold accounted, bound, offered, now_visible in *. simpl in *. set_solver.
Qed.

Lemma settle_accounted v now a l c cl en : accounted v en → accounted v (settle_connections now a l c cl en).
Proof using Type.
  intros Ha. unfold settle_connections. cbv zeta. set (en1 := if a then _ else _).
  assert (accounted v en1) as Ha1.
  { unfold en1. destruct a; [|done]. apply accounted_neutral; [by repeat constructor|]. by apply publish_active_accounted. }
  clearbody en1. set (en2 := if c then _ else _). assert (accounted v en2) as Ha2.
  { unfold en2. destruct c; [by apply promote_accounted|]. destruct cl; [by apply drop_candidate_accounted|done]. }
  case_match; [apply closed_accounted|done].
Qed.

Lemma close_accounted v now en : accounted v (close now en).
Proof using Type. apply closed_accounted. Qed.

(** ** Driving *)

Context (hmac_sha256 : bytes → bytes → bytes).

Lemma drive_slot_dcids fuel (en : Engine) now slot slot' d : drive_slot hmac_sha256 fuel en now slot = Ok (slot', d) →
  dcids <$> slot' = dcids <$> slot.
Proof using Type.
  unfold drive_slot. destruct slot as [mc|]; [|by intros [=<- <-]]. intros ([mc' d'] & Hd & [=<- <-])%obind_Ok.
  destruct (drive_connection_keeps _ _ _ _ _ _ _ Hd) as [_ Hk]. simpl in *. by rewrite Hk.
Qed.

Lemma connections_accounted v a c en : dcids <$> c = dcids <$> en_candidate en → accounted v en → accounted v (set_connections a c en).
Proof using Type.
  intros Hc. unfold accounted, bound, offered. simpl. intros Ha. destruct c, (en_candidate en); simplify_eq/=; [|done].
  destruct (en_promotion_pending en); [|done]. unfold now_visible in *. simpl. clear hmac_sha256. set_solver.
Qed.

Lemma route_accounted v en he : accounted v en → accounted v (route_endpoint_event en he).
Proof using Type.
  intros Ha. destruct he as [h event]. unfold route_endpoint_event. cbv zeta. set (en1 := if is_drained event then _ else _).
  assert (accounted v en1) as Ha1 by (unfold en1; destruct (is_drained event); [by apply update_accounted|done]). clearbody en1.
  destruct (endpoint_handle_event _ _ _) as [[answer generated] ep]. cbv beta iota. apply stage_accounted.
  destruct answer; [apply update_accounted; [done|]|]; done.
Qed.

Lemma routes_accounted v hes : ∀ en, accounted v en → accounted v (fold_left route_endpoint_event hes en).
Proof using Type. induction hes as [|he hes IH]; intros en Ha; simpl; [done|]. by apply IH, route_accounted. Qed.

Lemma datagrams_accounted v now ds : ∀ en en', handle_application_datagrams now ds en = Ok en' → accounted v en → accounted v en'.
Proof using Type.
  induction ds as [|d ds IH]; intros en en'; cbn [handle_application_datagrams]; [by intros [=<-]|].
  intros (c & Hc & Hrun)%obind_Ok Ha. eapply IH; [done|]. destruct (datagram_events _ _ _ _ _ Hc) as (l & Hl & Hn).
  unfold accounted, now_visible. simpl. rewrite Hl, visible_app, visible_neutral by done. done.
Qed.

Lemma drive_accounted v fuel now en en' : drive hmac_sha256 fuel now en = Ok en' → accounted v en → accounted v en'.
Proof using Type.
  unfold drive. intros ([active d1] & H1 & H2)%obind_Ok Ha. apply obind_Ok in H2 as ([candidate d2] & H2 & H3).
  cbv zeta in H3. apply drive_slot_dcids in H2. revert H3. set (en1 := fold_left _ _ _).
  assert (accounted v en1) as Ha1 by (apply routes_accounted; by apply connections_accounted). clearbody en1.
  destruct (endpoint_transmits (en_endpoint en1)) as [more ep]. cbv beta iota. intros (en2 & Hd & [=<-])%obind_Ok.
  apply accounted_neutral; [by apply neutral_fmap|]. eapply datagrams_accounted; [exact Hd|].
  apply core_accounted; [done|]. by apply settle_accounted.
Qed.

Lemma take_event_accounted v now h event en : accounted v en → accounted v (take_datagram_event now h event en).
Proof using Type.
  intros Ha. unfold take_datagram_event. destruct event as [conn|event]; [|by apply update_accounted].
  cbv zeta. destruct (en_candidate en) as [mc|] eqn:Hc; [eapply quiet_accounted; [apply dispose_quiet|done]|].
  unfold accounted, bound, offered in *. simpl. rewrite Hc in Ha. by destruct (en_promotion_pending en).
Qed.

Lemma handle_outer_accounted v fuel now remote local packet en en' :
  handle_outer hmac_sha256 fuel now remote local packet en = Ok en' → accounted v en → accounted v en'.
Proof using Type.
  unfold handle_outer. cbv zeta. destruct (endpoint_handle _ _ _ _ _) as [[handled generated] ep]. unfold take_generated_dcids. cbv beta iota.
  intros Hrun Ha. destruct handled as [[h event]|]; [|by eapply drive_accounted].
  eapply drive_accounted; [exact Hrun|]. apply stage_accounted.
  case_match; [apply update_accounted; [intros mc; apply track_grows|]|]; by apply take_event_accounted.
Qed.

Lemma queue_inner_events au packet core (conn : option Conn) r core' conn' :
  queue_inner datagrams_max_size datagrams_send au packet core conn = (r, (core', conn')) → events core' = events core.
Proof using Type.
  unfold queue_inner, send_fragmented_inner. repeat case_match; intros; simplify_eq/=; try done.
Qed.

Lemma send_inner_accounted v fuel now packet en : accounted v en → accounted v (send_inner hmac_sha256 fuel now packet en).2.
Proof using Type.
  intros Ha. unfold send_inner. destruct (queue_inner _ _ _ _ _ _) as [r [core conn]] eqn:Hq. apply queue_inner_events in Hq.
  cbv zeta. set (en1 := set_connections _ _ _). assert (accounted v en1) as Ha1.
  { apply connections_accounted; [done|]. by apply core_accounted. }
  clearbody en1. destruct r as [[]| |]; [|done..]. destruct (drive hmac_sha256 fuel now en1) as [en2| |] eqn:Hd; [|done..].
  by eapply drive_accounted.
Qed.

Lemma poll_accounted v fuel now en event en' : poll hmac_sha256 fuel now en = Ok (event, en') → accounted v en →
  accounted (match event with Some e => announce v e | None => v end) en'.
Proof using Type.
  unfold poll. intros (en1 & Hd & Hp)%obind_Ok Ha. apply (drive_accounted v) in Hd; [|done].
  cbv zeta in Hp. destruct (events (en_core en1)) as [|e evs] eqn:He; simplify_eq; [done|].
  unfold accounted, now_visible in *. rewrite He in Hd. done.
Qed.
End accounted.
