(* ===== verification/EngineSteady.v ===== *)
(** A healthy active connection of the QUIC engine stays: an unauthenticated candidate can
    neither displace it nor take its connection identifiers. *)
From S2P Require Import Prelude Net Inner Auth AuthProps AuthClaims QuicFlow QuicFlowProps Engine EngineProps.

(** An event that leaves the active connection and the identifiers [p] alone. *)
Definition calm (p : gset bytes) (event : QuicEngineEvent) : Prop :=
  match event with EvClosed | Replaced _ => False | DcidRetired d => d ∉ p | _ => True end.

Lemma calm_weaken p p' event : p ⊆ p' → calm p' event → calm p event.
Proof. intros Hp. destruct event; simpl; try done. set_solver. Qed.

Lemma neutral_calm p event : neutral event → calm p event.
Proof. by destruct event. Qed.

Section steady.
Context {Conn EndpointEvent ConnectionEvent Endpoint : Type}.
Context `{!Transport Conn EndpointEvent} `{!EndpointOps Conn EndpointEvent ConnectionEvent Endpoint}.
Abbreviation Managed := (ManagedConnection Conn).
Abbreviation Engine := (@QuicEngine Conn Endpoint).

Definition same_peer (mc mc' : Managed) : Prop := handle mc' = handle mc ∧ auth mc' = auth mc.

Record steady (mc : Managed) (en en' : Engine) : Prop := {
  st_active : ∃ mc', en_connection en' = Some mc' ∧ same_peer mc mc';
  st_published : en_published en ⊆ en_published en';
  st_events : ∃ l, events (en_core en') = events (en_core en) ++ l ∧ Forall (calm (en_published en)) l;
}.

Definition active_is (mc : Managed) (en : Engine) : Prop := ∃ mc', en_connection en = Some mc' ∧ same_peer mc mc'.

Lemma steady_refl mc en : active_is mc en → steady mc en en.
Proof using Type. intros Ha. split; [done|done|]. exists []. by rewrite app_nil_r. Qed.

Lemma steady_trans mc en1 en2 en3 : steady mc en1 en2 → (active_is mc en2 → steady mc en2 en3) → steady mc en1 en3.
Proof using Type.
  intros [A1 P1 (l1 & E1 & C1)] H2. destruct (H2 A1) as [A2 P2 (l2 & E2 & C2)]. split; [done|by etrans|].
  exists (l1 ++ l2). rewrite E2, E1, <- app_assoc. split; [done|]. apply Forall_app. split; [done|].
  eapply Forall_impl; [exact C2|]. intros e. by apply calm_weaken.
Qed.

(** Steps that touch neither the active connection, the identifiers nor the events. *)
Lemma steady_same mc en en' : active_is mc en → en_connection en' = en_connection en → en_published en' = en_published en →
  events (en_core en') = events (en_core en) → steady mc en en'.
Proof using Type.
  intros (mc' & Hc & Hs) H1 H2 H3. split; [exists mc'; by rewrite H1|by rewrite H2|]. exists []. by rewrite H3, app_nil_r.
Qed.

Lemma steady_push mc en evs : active_is mc en → Forall (calm (en_published en)) evs → steady mc en (push_events evs en).
Proof using Type. intros Ha Hc. split; [done|done|]. by exists evs. Qed.

Lemma steady_publish mc d en : active_is mc en → steady mc en (publish_dcid d en).
Proof using Type.
  intros Ha. unfold publish_dcid. case_decide; [by apply steady_refl|]. split; simpl; [done|set_solver|].
  exists [DcidPublished d]. split; [done|by repeat constructor].
Qed.

Lemma steady_publish_all mc ds : ∀ en, active_is mc en → steady mc en (publish_dcids ds en).
Proof using Type.
  unfold publish_dcids. induction ds as [|d ds IH]; intros en Ha; simpl; [by apply steady_refl|].
  eapply steady_trans; [by apply steady_publish|]. apply IH.
Qed.

Lemma steady_update mc h f en : active_is mc en → (∀ x, same_peer x (f x)) → steady mc en (update_for_handle h f en).
Proof using Type.
  intros Ha Hf. unfold update_for_handle. case_match; [|case_match; [by apply steady_same|by apply steady_refl]].
  destruct Ha as (mc' & Hc & [H1 H2]). rewrite Hc. simpl. split; simpl; [|done|exists []; by rewrite app_nil_r].
  exists (f mc'). split; [done|]. destruct (Hf mc') as [H3 H4]. split; congruence.
Qed.

Lemma track_same d (mc : Managed) : same_peer mc (track_dcid d mc).
Proof using Type. unfold track_dcid. repeat case_decide; done. Qed.

Lemma track_all_same ds : ∀ mc : Managed, same_peer mc (fold_left (λ mc d, track_dcid d mc) ds mc).
Proof using Type.
  induction ds as [|d ds IH]; intros mc; simpl; [done|]. destruct (IH (track_dcid d mc)) as [H1 H2], (track_same d mc) as [H3 H4].
  split; congruence.
Qed.

Lemma steady_stage mc h ds en : active_is mc en → steady mc en (stage_dcids_for_handle h ds en).
Proof using Type.
  intros Ha. unfold stage_dcids_for_handle. destruct (connection_for_handle h en) as [x|] eqn:Hx; [|by apply steady_refl]. cbv zeta.
  set (x' := fold_left _ ds x). assert (same_peer x x') as Hs by apply track_all_same. clearbody x'.
  assert (steady mc en (update_for_handle h (λ _, x') en)) as Hu.
  { unfold update_for_handle. unfold connection_for_handle in Hx. destruct (has_handle h (en_connection en)).
    - destruct Ha as (mc' & Hc & [H1 H2]). rewrite Hx in Hc. simplify_eq. rewrite Hx. simpl.
      split; simpl; [|done|exists []; by rewrite app_nil_r]. exists x'. destruct Hs. split; [done|]. split; congruence.
    - destruct (has_handle h (en_candidate en)); [by apply steady_same|done]. }
  case_match; [done|]. case_match.
  - eapply steady_trans; [done|]. apply steady_publish_all.
  - eapply steady_trans; [done|]. intros Ha'. apply steady_push; [done|]. apply Forall_fmap, Forall_true. done.
Qed.

Lemma steady_route mc en he : active_is mc en → steady mc en (route_endpoint_event en he).
Proof using Type.
  intros Ha. destruct he as [h event]. unfold route_endpoint_event. cbv zeta. set (en1 := if is_drained event then _ else _).
  assert (steady mc en en1) as H1 by (unfold en1; destruct (is_drained event); [by apply steady_update|by apply steady_refl]).
  clearbody en1. eapply steady_trans; [exact H1|]. clear H1. intros Ha1.
  destruct (endpoint_handle_event _ _ _) as [[answer generated] ep]. cbv beta iota.
  eapply steady_trans; [|intros Ha3; apply steady_stage; exact Ha3]. destruct answer as [e|]; [|by apply steady_same].
  eapply steady_trans; [|intros Ha2; apply steady_update; [exact Ha2|done]]. by apply steady_same.
Qed.

Lemma steady_routes mc hes : ∀ en, active_is mc en → steady mc en (fold_left route_endpoint_event hes en).
Proof using Type.
  induction hes as [|he hes IH]; intros en Ha; simpl; [by apply steady_refl|]. eapply steady_trans; [by apply steady_route|]. apply IH.
Qed.

Lemma steady_quiet mc en en' : active_is mc en → quiet_engine en en' → steady mc en en'.
Proof using Type. intros Ha Hq. unfold quiet_engine in Hq. apply steady_same; [done|by rewrite Hq..]. Qed.

Lemma steady_drop mc now reason en : active_is mc en → steady mc en (drop_candidate now reason en).
Proof using Type.
  intros Ha. unfold drop_candidate. destruct (en_candidate en) as [x|]; [|by apply steady_refl]. cbv zeta.
  eapply steady_trans; [|intros Ha'; apply steady_quiet; [exact Ha'|apply dispose_quiet]].
  split; [done|done|]. eexists. split; [done|]. simpl. apply Forall_fmap, Forall_forall. intros d [Hd _]%list_elem_of_filter. done.
Qed.

Lemma steady_settle mc now a cl en : active_is mc en → steady mc en (settle_connections now a false false cl en).
Proof using Type.
  intros Ha. unfold settle_connections. cbv zeta. simpl. set (en1 := if a then _ else _).
  assert (steady mc en en1) as H1.
  { unfold en1. destruct a; [|by apply steady_refl]. unfold publish_active_dcids.
    eapply steady_trans; [|intros Ha'; apply steady_push; [exact Ha'|by repeat constructor]].
    destruct (en_connection en); [by apply steady_publish_all|by apply steady_refl]. }
  clearbody en1. eapply steady_trans; [exact H1|]. intros Ha1. destruct cl; [by apply steady_drop|by apply steady_refl].
Qed.

Lemma steady_datagrams mc now ds : ∀ en en', handle_application_datagrams now ds en = Ok en' → active_is mc en → steady mc en en'.
Proof using Type.
  induction ds as [|d ds IH]; intros en en'; cbn [handle_application_datagrams]; [intros [=<-]; apply steady_refl|].
  intros (c & Hc & Hrun)%obind_Ok Ha. destruct (datagram_events _ _ _ _ _ Hc) as (l & Hl & Hn).
  eapply (steady_trans _ _ (set_core c en)); [|by apply IH].
  split; [done|done|]. exists l. split; [done|]. eapply Forall_impl; [exact Hn|]. intros e. apply neutral_calm.
Qed.
End steady.

(** ** A sample engine *)

(** An endpoint for which the first datagram opens a connection that carries the request,
    and every later one delivers the confirmation. *)
#[export] Instance pipe_endpoint : EndpointOps pipe unit unit nat := {|
  endpoint_handle _ _ _ _ ep :=
    match ep with
    | O => (Some (7, NewConnection (sample_deliver (sample_frame AUTH_REQUEST (b "client") EMPTY_NONCE) (StreamEv (Opened Bi)) (sample_pipe 2 []))),
            [[1; 2; 3; 4]], 1%nat)
    | S _ => (Some (7, ConnectionEv tt), [], ep)
    end;
  endpoint_handle_event _ _ ep := (None, [], ep);
  endpoint_transmits ep := ([], ep);
  is_drained _ := false;
  drained := tt;
  handle_event _ c := sample_deliver (sample_frame AUTH_CONFIRM (b "confirm") (replicate 16 2)) (StreamEv (Readable 0)) c;
  close_connection _ _ c := c;
  datagrams_max_size _ := Some 1200%nat;
  datagrams_send _ c := (true, c);
|}.

(** An authenticated connection beside a candidate that has only sent its request. *)
Definition sample_pair : @QuicEngine pipe nat :=
  mkEngine Server 1%nat (Some (sample_drive sample_confirmed))
    (Some (mkManaged 9 (connection sample_fresh) (auth sample_fresh) ∅ AUTH_TIMEOUT true false 0))
    sample_key 4 [] {[ [1; 2; 3; 4] ]} false (mkCore 0 ∅ 0 []).

(** C33: An unauthenticated candidate cannot disturb a healthy connection. When the engine is
    driven and the active connection is not lost, then, unless the candidate has just
    proved that it holds the key, the active connection stays in place with its
    authentication, no published connection identifier is retired or forgotten, and the
    engine reports neither a replacement nor a close. *)
Theorem candidate_cannot_disturb {Conn EndpointEvent ConnectionEvent Endpoint : Type} `{!Transport Conn EndpointEvent}
    `{!EndpointOps Conn EndpointEvent ConnectionEvent Endpoint} hmac_sha256 fuel now (en en' : @QuicEngine Conn Endpoint) mc mc' d :
  drive hmac_sha256 fuel now en = Ok en' → en_connection en = Some mc →
  drive_connection hmac_sha256 fuel (en_role en) (en_shared_key en) now mc = Ok (mc', d) → lost d = false →
  (∀ c c' d', en_candidate en = Some c →
     drive_connection hmac_sha256 fuel (en_role en) (en_shared_key en) now c = Ok (c', d') → authenticated_now d' = false) →
  (∃ mc'', en_connection en' = Some mc'' ∧ handle mc'' = handle mc ∧ auth mc'' = auth mc')
  ∧ en_published en ⊆ en_published en'
  ∧ ∃ l, events (en_core en') = events (en_core en) ++ l ∧ Forall (calm (en_published en)) l.
Proof.
  intros Hrun Hmc Hactive Hlost Hcand. unfold drive in Hrun. apply obind_Ok in Hrun as ([a d1] & H1 & Hrun).
  apply obind_Ok in Hrun as ([c d2] & H2 & Hrun). unfold drive_slot in H1. rewrite Hmc, Hactive in H1. simpl in H1. injection H1 as <- <-.
  assert (from_drive authenticated_now false d2 = false) as Hnow.
  { unfold drive_slot in H2. destruct (en_candidate en) as [x|] eqn:Hx; [|by injection H2 as _ <-].
    apply obind_Ok in H2 as ([x' dx] & Hx' & [=_ <-]). by eapply Hcand. }
  destruct (drive_connection_keeps _ _ _ _ _ _ _ Hactive) as [Hh _]. simpl in Hh.
  cbv zeta in Hrun. revert Hrun. set (en1 := fold_left _ _ _).
  assert (steady mc' en en1) as S1.
  { eapply steady_trans; [|apply steady_routes]. split; simpl; [by exists mc'|done|exists []; by rewrite app_nil_r]. }
  clearbody en1. destruct (endpoint_transmits (en_endpoint en1)) as [more ep]. cbv beta iota. intros (en2 & Hd & [=<-])%obind_Ok.
  rewrite Hnow in Hd. simpl in Hd. rewrite Hlost in Hd.
  assert (steady mc' en (push_events (EvTransmit <$> (transmits d ++ from_drive transmits [] d2) ++ more) en2)) as [A P E].
  { eapply steady_trans; [exact S1|]. intros Ha1. eapply (steady_trans _ _ (set_endpoint ep (en_generated en1) en1)); [by apply steady_same|].
    intros Ha2. eapply steady_trans; [by apply (steady_settle _ now (authenticated_now d) (from_drive lost false d2))|].
    intros Ha3. eapply steady_trans; [|intros Ha4; apply steady_push; [exact Ha4|by apply Forall_fmap, Forall_true]].
    eapply steady_trans; [|by apply (steady_datagrams _ _ _ _ _ Hd)]. by apply steady_same. }
  destruct A as (mc'' & Hc'' & [H3 H4]). split; [|by split]. exists mc''. split; [done|]. split; congruence.
Qed.

Lemma candidate_cannot_disturb_witness : ∃ en' mc'', drive sample_hmac 5 0 sample_pair = Ok en'
  ∧ en_connection en' = Some mc'' ∧ authenticated (auth mc'') = true ∧ en_published sample_pair ⊆ en_published en'.
Proof.
  destruct (drive sample_hmac 5 0 sample_pair) as [en'| |] eqn:Hrun; [|exfalso; vm_compute in Hrun; congruence..].
  destruct (drive_connection sample_hmac 5 Server sample_key 0 (sample_drive sample_confirmed)) as [[mc' d]| |] eqn:Ha;
    [|exfalso; vm_compute in Ha; congruence..].
  destruct (candidate_cannot_disturb sample_hmac 5 0 sample_pair en' (sample_drive sample_confirmed) mc' d Hrun eq_refl Ha)
    as ((mc'' & Hc & _ & Hauth) & Hp & _).
  - vm_compute in Ha. injection Ha as _ <-. reflexivity.
  - intros c c' d' [=<-] Hd. vm_compute in Hd. injection Hd as _ <-. reflexivity.
  - exists en', mc''. split; [done|]. split; [exact Hc|]. split; [|exact Hp]. rewrite Hauth. vm_compute in Ha. injection Ha as <- _. reflexivity.
Defined.
