(* ===== verification/Routing.v ===== *)
(** The server's flow loop as the consumer of its engine's events ([drain_engine] in
    [src/src/xdp_datapath/runtime.rs]): how connection identifiers get into the index that
    the I/O threads consult, and that the index routes to a worker only identifiers that
    the worker's engine holds. *)
From S2P Require Import Prelude Net Inner Auth QuicFlow QuicFlowProps Engine EngineProps AuthProps AuthClaims EngineSteady.

(** ** The index, as seen by one worker *)

Section index_facts.
Context (worker_id : nat).

(** The active identifiers of this worker belong to the current flow and are among [v]. *)
Definition routed_within (v : gset bytes) (i : ActiveDcidIndex) (flow : QuicFlow) : Prop :=
  ∀ d o, by_dcid i !! d = Some o → do_flow_worker_id o = worker_id → o = owner_of flow ∧ d ∈ v.

Lemma resolve_active i d o : by_dcid i !! d = Some o → dcid_resolve i d = Some o.
Proof using Type. intros H. unfold dcid_resolve. by rewrite H. Qed.

Lemma publish_routed v d flow i : routed_within v i flow → routed_within ({[d]} ∪ v) (publish_for_flow d flow i).2 flow.
Proof using Type.
  intros Hr x o Hx Hw. unfold publish_for_flow in Hx.
  destruct (dcid_publish_cases d (owner_of flow) i) as [(_ & _ & _ & [[Hi _]|Hi])|(e & Hi)]; rewrite ?Hi in Hx.
  - destruct (Hr x o Hx Hw). set_solver.
  - simpl in Hx. apply lookup_insert_Some in Hx as [[<- <-]|[_ Hx]]; [set_solver|]. destruct (Hr x o Hx Hw). set_solver.
  - destruct (Hr x o Hx Hw). set_solver.
Qed.

Lemma stage_active d flow i : by_dcid (stage_for_flow d flow i).2 = by_dcid i.
Proof using Type. unfold stage_for_flow. repeat case_match; done. Qed.

Lemma retire_active d i : by_dcid (dcid_retire d i).2 = delete d (by_dcid i).
Proof using Type.
  unfold dcid_retire. destruct (dcid_resolve i d) eqn:Hr; [done|]. simpl. rewrite delete_id; [done|].
  unfold dcid_resolve in Hr. by destruct (by_dcid i !! d).
Qed.

Lemma retire_routed v d flow i : routed_within v i flow → routed_within (v ∖ {[d]}) (retire_for_flow d flow i).2 flow.
Proof using Type.
  intros Hr x o Hx Hw. unfold retire_for_flow in Hx. case_decide as Hd.
  - destruct (Hr x o Hx Hw) as [-> Hv]. split; [done|]. apply elem_of_difference. split; [done|].
    intros ->%elem_of_singleton. by apply resolve_active in Hx.
  - rewrite retire_active in Hx. apply lookup_delete_Some in Hx as [Hne Hx]. destruct (Hr x o Hx Hw). set_solver.
Qed.

Lemma checked_active owner l : ∀ i d o, by_dcid (fold_left (publish_checked owner) l i) !! d = Some o →
  by_dcid i !! d = Some o ∨ o = owner ∧ d ∈ l.
Proof using Type.
  induction l as [|x l IH]; intros i d o Hd; simpl in Hd; [by left|].
  apply IH in Hd as [Hd|[-> Hd]]; [|right; split; [done|by apply list_elem_of_further]].
  simpl in Hd. apply lookup_insert_Some in Hd as [[<- <-]|[_ Hd]]; [right; split; [done|apply list_elem_of_here]|by left].
Qed.

Lemma batch_routed v ds flow i : routed_within v i flow → routed_within (list_to_set ds ∪ v) (publish_batch_for_flow ds flow i).2 flow.
Proof using Type.
  intros Hr x o Hx Hw. unfold publish_batch_for_flow in Hx.
  destruct (check_batch i (owner_of flow) ds []) as [l| |] eqn:Hc; simpl in Hx; [|destruct (Hr x o Hx Hw); set_solver..].
  apply check_batch_spec in Hc as (Hl & _ & _). apply checked_active in Hx as [Hx|[-> Hx]]; [destruct (Hr x o Hx Hw); set_solver|].
  split; [done|]. apply Hl in Hx as [?%not_elem_of_nil|Hx]; [done|]. set_solver.
Qed.

Lemma close_routed v flow flow' i : dcid_inv i → routed_within v i flow → routed_within ∅ (close_flow (qf_id flow) i).2 flow'.
Proof using Type.
  intros Hi Hr x o Hx Hw. rewrite close_flow_active in Hx by done. destruct (by_dcid i !! x) as [o'|] eqn:Ho; [|done].
  case_decide as Hf; simplify_eq. destruct (Hr x o Ho Hw) as [-> _]. done.
Qed.

End index_facts.

Section routing.
Context {Conn EndpointEvent ConnectionEvent Endpoint : Type}.
Context `{!Transport Conn EndpointEvent} `{!EndpointOps Conn EndpointEvent ConnectionEvent Endpoint}.
Context (hmac_sha256 : bytes → bytes → bytes) (worker_id : nat) (flow_worker_count tunnel_queue_count : Z).
Abbreviation Engine := (@QuicEngine Conn Endpoint).

(** The part of [FlowLoopContext] that the identifier events touch. *)
Record FlowLoop : Type := mkFlowLoop {
  fl_engine : Engine;
  fl_active_dcids : ActiveDcidIndex;
  fl_quic_flow : QuicFlow;
}.

(** The flow that follows a closed one. *)
Definition next_quic_flow (flow : QuicFlow) : QuicFlow :=
  let next := wrap 64 (quic_flow_raw (qf_id flow) + flow_worker_count) in
  match quic_flow_new (mkQuicFlowId next) worker_id (be_bytes 8 next) tunnel_queue_count with
  | Ok flow' => flow'
  | _ => flow
  end.

(** The branches of [drain_engine] on identifiers and on [Closed], for the server: what
    [Closed] does to pending packets and DNS transactions touches neither the index nor
    the engine.  [exiting] is [EXIT_REQUESTED]. *)
Definition consume_event (exiting : bool) (now : Z) (event : QuicEngineEvent) (fl : FlowLoop) : FlowLoop :=
  let en := fl_engine fl in
  let i := fl_active_dcids fl in
  let flow := fl_quic_flow fl in
  match event with
  | DcidPublished dcid =>
      let '(r, i') := publish_for_flow dcid flow i in
      mkFlowLoop (if is_ok r then en else close now en) i' flow
  | DcidStaged dcid =>
      let '(r, i') := stage_for_flow dcid flow i in
      mkFlowLoop (if is_ok r then en else close now en) i' flow
  | DcidRetired dcid => mkFlowLoop en (retire_for_flow dcid flow i).2 flow
  | Replaced dcids =>
      let '(r, i') := publish_batch_for_flow dcids flow i in
      mkFlowLoop (resolve_candidate_replacement now (is_ok r) en) i' flow
  | EvClosed => mkFlowLoop en (close_flow (qf_id flow) i).2 (if exiting then flow else next_quic_flow flow)
  | _ => fl
  end.

(** One step of the worker, or of the others on the shared index, which never give an
    identifier to this worker. *)
Inductive loop_step : FlowLoop → FlowLoop → Prop :=
| step_outer fuel now remote local packet fl en : handle_outer hmac_sha256 fuel now remote local packet (fl_engine fl) = Ok en →
    loop_step fl (mkFlowLoop en (fl_active_dcids fl) (fl_quic_flow fl))
| step_inner fuel now packet fl :
    loop_step fl (mkFlowLoop (send_inner hmac_sha256 fuel now packet (fl_engine fl)).2 (fl_active_dcids fl) (fl_quic_flow fl))
| step_event fuel now exiting now' fl event en : poll hmac_sha256 fuel now (fl_engine fl) = Ok (Some event, en) →
    loop_step fl (consume_event exiting now' event (mkFlowLoop en (fl_active_dcids fl) (fl_quic_flow fl)))
| step_idle fuel now fl en : poll hmac_sha256 fuel now (fl_engine fl) = Ok (None, en) →
    loop_step fl (mkFlowLoop en (fl_active_dcids fl) (fl_quic_flow fl))
| step_close now fl : loop_step fl (mkFlowLoop (close now (fl_engine fl)) (fl_active_dcids fl) (fl_quic_flow fl))
| step_others fl i : dcid_inv i →
    (∀ d o, by_dcid i !! d = Some o → do_flow_worker_id o = worker_id → by_dcid (fl_active_dcids fl) !! d = Some o) →
    loop_step fl (mkFlowLoop (fl_engine fl) i (fl_quic_flow fl)).

(** A new server engine, beside an index that has nothing for this worker. *)
Record fresh_loop (fl : FlowLoop) : Prop := {
  fr_engine : ∃ endpoint key dcid_len, server_for_worker endpoint key dcid_len = Ok (fl_engine fl);
  fr_index : dcid_inv (fl_active_dcids fl);
  fr_none : ∀ d o, by_dcid (fl_active_dcids fl) !! d = Some o → do_flow_worker_id o ≠ worker_id;
  fr_flow : qf_flow_worker_id (fl_quic_flow fl) = worker_id;
}.

(** ** The invariant *)

Record loop_inv (fl : FlowLoop) : Prop := {
  li_index : dcid_inv (fl_active_dcids fl);
  li_flow : qf_flow_worker_id (fl_quic_flow fl) = worker_id;
  li_routed : ∃ v, accounted v (fl_engine fl) ∧ routed_within worker_id v (fl_active_dcids fl) (fl_quic_flow fl);
}.

Lemma next_flow_worker flow : qf_flow_worker_id flow = worker_id → qf_flow_worker_id (next_quic_flow flow) = worker_id.
Proof using Type.
  intros Hf. unfold next_quic_flow, quic_flow_new. cbv zeta. repeat case_decide; done.
Qed.

Lemma retire_for_flow_inv d flow i : dcid_inv i → dcid_inv (retire_for_flow d flow i).2.
Proof using Type. intros Hi. unfold retire_for_flow. case_decide; [done|by apply dcid_retire_inv]. Qed.

Lemma consume_inv exiting now event fl v : dcid_inv (fl_active_dcids fl) → qf_flow_worker_id (fl_quic_flow fl) = worker_id →
  routed_within worker_id v (fl_active_dcids fl) (fl_quic_flow fl) → accounted (announce v event) (fl_engine fl) →
  loop_inv (consume_event exiting now event fl).
Proof using Type.
  intros Hi Hf Hr Ha. destruct fl as [en i flow]. unfold consume_event. cbn [fl_engine fl_active_dcids fl_quic_flow] in *.
  destruct event as [t| |p|d|d|d|ds|]; simpl in Ha; try (split; [done|done|by exists v]).
  - pose proof (stage_inv d flow i Hi) as Hi'. pose proof (stage_active d flow i) as Hact. destruct (stage_for_flow d flow i) as [r i']. simpl in *.
    split; [done|done|]. exists v. split; [destruct (is_ok r); [done|apply close_accounted]|].
    intros x o Hx. simpl in Hx. rewrite Hact in Hx. by apply Hr.
  - pose proof (dcid_publish_inv d (owner_of flow) i Hi) as Hi'. pose proof (publish_routed worker_id v d flow i Hr) as Hr'.
    unfold publish_for_flow in *. destruct (dcid_publish d (owner_of flow) i) as [r i']. simpl in *.
    split; [done|done|]. exists ({[d]} ∪ v). split; [destruct (is_ok r); [done|apply close_accounted]|done].
  - split; [by apply retire_for_flow_inv|done|]. exists (v ∖ {[d]}). split; [done|by apply retire_routed].
  - pose proof (publish_batch_inv ds flow i Hi) as Hi'. pose proof (batch_routed worker_id v ds flow i Hr) as Hr'.
    destruct (publish_batch_for_flow ds flow i) as [r i']. simpl in *. split; [done|done|].
    exists (list_to_set ds ∪ v). split; [by apply resolve_accounted|done].
  - split; [by apply close_flow_inv|destruct exiting; [done|by apply next_flow_worker]|]. exists ∅. split; [done|by eapply close_routed].
Qed.

Lemma loop_step_inv fl fl' : loop_step fl fl' → loop_inv fl → loop_inv fl'.
Proof using Type.
  intros Hstep [Hi Hf (v & Ha & Hr)].
  destruct Hstep as [fuel now remote local packet fl en Hrun|fuel now packet fl|fuel now exiting now' fl event en Hrun|fuel now fl en Hrun|now fl|fl i Hi' Hsub];
    simpl in *.
  - split; [done|done|]. exists v. split; [by eapply handle_outer_accounted|done].
  - split; [done|done|]. exists v. split; [by apply send_inner_accounted|done].
  - by eapply consume_inv; [..|by apply (poll_accounted _ v) in Hrun].
  - split; [done|done|]. exists v. split; [by apply (poll_accounted _ v) in Hrun|done].
  - split; [done|done|]. exists v. split; [apply close_accounted|done].
  - split; [done|done|]. exists v. split; [done|]. intros d o Hd Hw. apply Hr; [by apply Hsub|done].
Qed.

Lemma fresh_inv fl : fresh_loop fl → loop_inv fl.
Proof using Type.
  intros [(ep & key & len & He) Hi Hn Hf]. split; [done|done|]. exists ∅. split.
  - unfold server_for_worker, validate_dcid_len in He. case_decide; [|done]. injection He as <-. done.
  - intros d o Hd Hw. by destruct (Hn d o Hd).
Qed.

Lemma loop_reachable_inv fl fl' : rtc loop_step fl fl' → loop_inv fl → loop_inv fl'.
Proof using Type. induction 1 as [|fl1 fl2 fl3 Hs _ IH]; [done|]. intros Hi. by apply IH, (loop_step_inv fl1). Qed.
End routing.

(** ** Claims *)

(** C8: The index routes to a worker only what its engine holds. Take a server's flow loop from
    its start through any sequence of received datagrams, sent packets, polled and
    consumed events and closes, with other workers changing the shared index in between.
    Once the engine's events are consumed, every active connection identifier that the
    index maps to this worker belongs to its current flow and is held by the engine: it
    is published there, or it is part of the batch offered for the candidate. *)
Theorem routing_matches_engine {Conn EndpointEvent ConnectionEvent Endpoint : Type} `{!Transport Conn EndpointEvent}
    `{!EndpointOps Conn EndpointEvent ConnectionEvent Endpoint} hmac_sha256 worker_id flow_worker_count tunnel_queue_count
    (fl fl' : @FlowLoop Conn Endpoint) :
  fresh_loop worker_id fl → rtc (loop_step hmac_sha256 worker_id flow_worker_count tunnel_queue_count) fl fl' →
  events (en_core (fl_engine fl')) = [] →
  ∀ d o, by_dcid (fl_active_dcids fl') !! d = Some o → do_flow_worker_id o = worker_id →
    o = owner_of (fl_quic_flow fl') ∧ d ∈ en_published (fl_engine fl') ∪ offered (fl_engine fl').
Proof.
  intros Hfresh Hrun Hnil d o Hd Hw. apply fresh_inv, (loop_reachable_inv _ _ _ _ _ _ Hrun) in Hfresh as [_ _ (v & Ha & Hr)].
  destruct (Hr d o Hd Hw) as [Ho Hv]. split; [done|]. unfold accounted, now_visible in Ha. rewrite Hnil in Ha. by apply Ha.
Qed.

(** A server that accepts a connection, authenticates it and publishes its identifier. *)
Definition sample_engine : @QuicEngine pipe nat := mkEngine Server 0%nat None None sample_key 4 [] ∅ false (mkCore 0 ∅ 0 []).
Definition sample_loop : @FlowLoop pipe nat := mkFlowLoop sample_engine dcid_empty (mkQuicFlow (mkQuicFlowId 3) 3 0).
Definition sample_remote : SocketAddr := mkSocketAddr (V4 1) 443.

Definition sample_outer (fl : @FlowLoop pipe nat) : @FlowLoop pipe nat :=
  match handle_outer sample_hmac 5 0 sample_remote None [0; 1; 2; 3; 4] (fl_engine fl) with
  | Ok en => mkFlowLoop en (fl_active_dcids fl) (fl_quic_flow fl)
  | _ => fl
  end.
Definition sample_poll (fl : @FlowLoop pipe nat) : @FlowLoop pipe nat :=
  match poll sample_hmac 5 0 (fl_engine fl) with
  | Ok (Some event, en) => consume_event 3 4 2 false 0 event (mkFlowLoop en (fl_active_dcids fl) (fl_quic_flow fl))
  | _ => fl
  end.

Abbreviation sample_step := (loop_step sample_hmac 3 4 2).

Lemma sample_outer_step fl : rtc sample_step fl (sample_outer fl).
Proof.
  unfold sample_outer. destruct (handle_outer _ _ _ _ _ _ _) eqn:H; [|apply rtc_refl..]. apply rtc_once. by eapply step_outer.
Qed.

Lemma sample_poll_step fl : rtc sample_step fl (sample_poll fl).
Proof.
  unfold sample_poll. destruct (poll _ _ _ _) as [[[e|] en]| |] eqn:H; [|apply rtc_refl..]. apply rtc_once. by eapply step_event.
Qed.

Definition sample_final : @FlowLoop pipe nat := sample_poll (sample_poll (sample_poll (sample_outer (sample_outer sample_loop)))).

Lemma sample_final_run : rtc sample_step sample_loop sample_final.
Proof.
  unfold sample_final. etrans; [|apply sample_poll_step]. etrans; [|apply sample_poll_step].
  etrans; [|apply sample_poll_step]. etrans; apply sample_outer_step.
Qed.

Lemma sample_fresh_loop : fresh_loop 3 sample_loop.
Proof. split; [by exists 0%nat, sample_key, 4%nat|apply dcid_empty_inv|by intros d o Hd|done]. Qed.

Lemma routing_matches_engine_witness :
  dcid_resolve (fl_active_dcids sample_final) [1; 2; 3; 4] = Some (owner_of (fl_quic_flow sample_final))
  ∧ [1; 2; 3; 4] ∈ en_published (fl_engine sample_final) ∪ offered (fl_engine sample_final).
Proof.
  split; [vm_compute; reflexivity|].
  apply (routing_matches_engine sample_hmac 3 4 2 sample_loop sample_final sample_fresh_loop sample_final_run) with (o := mkDcidOwner 3 (mkQuicFlowId 3)).
  - vm_compute. reflexivity.
  - vm_compute. reflexivity.
  - reflexivity.
Defined.
