(* ===== verification/DnsProps.v ===== *)
(** DNS properties: the message walker is total and panic free, names round trip,
    rule lookup is suffix matching, the EDNS clamp changes only what it says, and
    the transaction table keeps its four indexes consistent. *)
From S2P Require Import Prelude Net NatTable NatProps QuicFlow Dns PacketFacts PacketRewrite.

#[local] Arguments Nat.add : simpl never.

(** ** No panics *)

Lemma get_byte_no_panic p o : no_panic (get_byte p o).
Proof. apply no_panic_ok_or. Qed.
Lemma get_byte_Ok p o b : get_byte p o = Ok b → (o < length p)%nat ∧ b = byte_at p o.
Proof.
  unfold get_byte. rewrite ok_or_Ok. intros H. split; [by eapply lookup_lt_Some|]. unfold byte_at. by rewrite H.
Qed.

Lemma parse_name_loop_no_panic n p : ∀ o ls e seen, no_panic (parse_name_loop n p o ls e seen).
Proof.
  induction n as [|n IH]; intros o ls e seen; simpl; [done|]. case_decide; [done|].
  apply no_panic_obind; [apply get_byte_no_panic|]. intros b _. case_decide.
  { apply no_panic_obind; [apply get_byte_no_panic|]. intros nx _. case_decide; [done|apply IH]. }
  case_decide; [done|]. case_decide; [by case_decide|]. case_decide; [done|].
  apply no_panic_obind; [apply no_panic_ok_or|]. intros l _.
  apply no_panic_obind; [unfold normalize_label; by case_decide|]. intros; apply IH.
Qed.

Lemma validate_name_pointer_no_panic p o s : no_panic (validate_name_pointer p o s).
Proof.
  unfold validate_name_pointer. apply no_panic_obind; [apply get_byte_no_panic|]. intros b [Hb _]%get_byte_Ok.
  rewrite idx_ok by lia. cbn [obind]. cbv zeta. case_decide; [done|].
  apply no_panic_obind; [apply parse_name_loop_no_panic|done].
Qed.

Lemma skip_name_no_panic p o : no_panic (skip_name p o).
Proof.
  unfold skip_name. generalize o at 1. generalize 128%nat. intros n start. revert o.
  induction n as [|n IH]; intros o; simpl; [done|].
  apply no_panic_obind; [apply get_byte_no_panic|]. intros b _. case_decide.
  { apply no_panic_obind; [apply validate_name_pointer_no_panic|done]. }
  case_decide; [done|]. case_decide; [done|]. cbv zeta. case_decide; [done|apply IH].
Qed.

Lemma rd16_range_no_panic {E} (p s : bytes) a b i : get_range p a b = Some s → (i + 1 < b - a)%nat →
  no_panic (rd16 (E := E) s i).
Proof. intros (? & ? & ->)%get_range_Some ?. by rewrite rd16_ok by (rewrite length_sub; lia). Qed.

Lemma skip_resource_record_no_panic p o : no_panic (skip_resource_record p o).
Proof.
  unfold skip_resource_record. apply no_panic_obind; [apply skip_name_no_panic|]. intros o' _.
  apply no_panic_obind; [apply no_panic_ok_or|]. intros rr Hrr%ok_or_Ok.
  apply no_panic_obind; [eapply rd16_range_no_panic; [done|lia]|]. intros. by case_decide.
Qed.

Lemma skip_records_no_panic n p : ∀ o, no_panic (skip_records n p o).
Proof.
  induction n as [|n IH]; intros o; simpl; [done|].
  apply no_panic_obind; [apply skip_resource_record_no_panic|]. intros; apply IH.
Qed.

Lemma skip_questions_no_panic n p : ∀ o, no_panic (skip_questions n p o).
Proof.
  induction n as [|n IH]; intros o; simpl; [done|].
  apply no_panic_obind; [apply skip_name_no_panic|]. intros. case_decide; [done|apply IH].
Qed.

Lemma parse_question_fields_no_panic p : no_panic (parse_question_fields p).
Proof.
  unfold parse_question_fields, dns_header.
  apply no_panic_obind; [apply no_panic_ok_or|]. intros h Hh%ok_or_Ok.
  apply no_panic_obind; [eapply rd16_range_no_panic; [done|lia]|]. intros q _. case_decide; [done|].
  apply no_panic_obind; [apply parse_name_loop_no_panic|]. intros [name o] _.
  apply no_panic_obind; [apply no_panic_ok_or|]. intros fs Hf%ok_or_Ok.
  apply no_panic_obind; [eapply rd16_range_no_panic; [done|lia]|]. intros t _.
  apply no_panic_obind; [eapply rd16_range_no_panic; [done|lia]|]. done.
Qed.

Lemma parse_question_no_panic p : no_panic (parse_question p).
Proof.
  unfold parse_question, dns_header. apply no_panic_obind; [apply no_panic_ok_or|]. intros h Hh%ok_or_Ok.
  apply no_panic_obind; [eapply rd16_range_no_panic; [done|lia]|]. intros f _.
  case_decide; [done|]. case_decide; [done|apply parse_question_fields_no_panic].
Qed.

Lemma validate_message_no_panic p r : no_panic (validate_message p r).
Proof.
  unfold validate_message, dns_header. apply no_panic_obind; [apply no_panic_ok_or|]. intros h Hh%ok_or_Ok.
  apply no_panic_obind; [eapply rd16_range_no_panic; [done|lia]|]. intros f _.
  destruct (decide (bool_decide _ ≠ r)); [by destruct r|]. destruct (decide (Z.land f 0x7800 ≠ 0)); [done|].
  apply no_panic_obind; [apply parse_question_fields_no_panic|]. intros q _.
  do 3 (apply no_panic_obind; [eapply rd16_range_no_panic; [done|lia]|]; intros ? _).
  apply no_panic_obind; [apply skip_name_no_panic|]. intros o _. cbv zeta.
  apply no_panic_obind; [apply skip_records_no_panic|]. intros o2 _. by destruct (decide (o2 ≠ length p)).
Qed.

Lemma validated_has_id p q r : validate_message p r = Ok q → is_Some (dns_id p).
Proof.
  intros H. unfold validate_message, dns_header in H. apply obind_Ok in H as (h & Hh & _).
  apply ok_or_Ok, get_range_Some in Hh as (_ & Hl & _). unfold dns_id. by rewrite get_range_ok by lia.
Qed.

Lemma response_matches_no_panic q r : no_panic (response_matches_query q r).
Proof.
  unfold response_matches_query, dns_header. apply no_panic_obind; [apply no_panic_ok_or|]. intros i _.
  apply no_panic_obind; [apply no_panic_ok_or|]. intros j _. case_decide; [done|].
  apply no_panic_obind; [apply no_panic_ok_or|]. intros h Hh%ok_or_Ok.
  apply no_panic_obind; [eapply rd16_range_no_panic; [done|lia]|]. intros f _. case_decide; [done|].
  pose proof (parse_question_no_panic q). pose proof (validate_message_no_panic r true).
  destruct (parse_question q); simpl; [|done|done]. destruct (validate_message r true); simpl; [|done|done]. by case_decide.
Qed.

Lemma transaction_key_no_panic c p : no_panic (transaction_key c p).
Proof.
  unfold transaction_key, validate_query. pose proof (validate_message_no_panic p false).
  destruct (validate_message p false) as [q| |] eqn:Hv; [|done|done].
  apply validated_has_id in Hv as [i Hi]. by rewrite Hi.
Qed.

(** ** Suffix rules *)

Lemma suffixes_after_dots_iff name s : s ∈ suffixes_after_dots name ↔ ∃ pre, name = pre ++ dot :: s.
Proof.
  induction name as [|b name IH]; simpl.
  - split; [by intros ?%not_elem_of_nil|]. by intros [[] ?].
  - assert ((∃ pre, b :: name = pre ++ dot :: s) ↔ (b = dot ∧ name = s) ∨ s ∈ suffixes_after_dots name) as ->.
    { rewrite IH. split.
      - intros [[|x pre] [= -> ->]]; [by left|right; by exists pre].
      - intros [[-> ->]|[pre ->]]; [by exists []|by exists (b :: pre)]. }
    case_decide; [rewrite elem_of_cons|]; naive_solver.
Qed.

Lemma strip_suffix_iff rule name pre : strip_suffix rule name = Some pre ↔ name = pre ++ rule.
Proof.
  unfold strip_suffix. split.
  - case_decide as Hd; [|done]. intros [= <-]. destruct Hd as [_ Hd]. rewrite <- Hd at 2. by rewrite take_drop.
  - intros ->. rewrite length_app, decide_True.
    + f_equal. rewrite Nat.add_sub, take_app_length. done.
    + split; [lia|]. by rewrite Nat.add_sub, drop_app_length.
Qed.

Lemma domain_matches_iff rule name :
  domain_matches rule name = true ↔ name = rule ∨ ∃ pre, name = pre ++ dot :: rule.
Proof.
  unfold domain_matches. rewrite orb_true_iff, bool_decide_eq_true. apply or_iff_compat_l. split.
  - destruct (strip_suffix rule name) as [pre|] eqn:Hs; [|done]. apply strip_suffix_iff in Hs as ->.
    rewrite bool_decide_eq_true. intros (l & ->)%last_Some. exists l. by rewrite <- app_assoc.
  - intros [pre ->]. assert (strip_suffix rule (pre ++ dot :: rule) = Some (pre ++ [dot])) as ->.
    { apply strip_suffix_iff. by rewrite <- app_assoc. }
    by rewrite bool_decide_eq_true, last_snoc.
Qed.

Lemma rules_match_iff rules name :
  rules_match rules name = true ↔ ∃ rule, rule ∈ suffixes rules ∧ domain_matches rule name = true.
Proof.
  unfold rules_match. setoid_rewrite domain_matches_iff.
  rewrite orb_true_iff, bool_decide_eq_true, existsb_exists. setoid_rewrite <- list_elem_of_In.
  setoid_rewrite suffixes_after_dots_iff. setoid_rewrite bool_decide_eq_true. split.
  - intros [?|(s & ? & ?)]; [by exists name; split; [|left]|exists s; split; [|right]; done].
  - intros (s & Hs & [-> | ?]); [by left|right; by exists s].
Qed.

(** ** Names on the wire *)

(** The uncompressed encoding of a name (RFC 1035, section 3.1). *)
Fixpoint encode_name (labels : list bytes) : bytes :=
  match labels with
  | [] => [0]
  | l :: ls => Z.of_nat (length l) :: l ++ encode_name ls
  end.

Definition valid_label (l : bytes) : Prop :=
  l ≠ [] ∧ (length l ≤ 63)%nat ∧ head l ≠ Some hyphen ∧ last l ≠ Some hyphen ∧ Forall label_byte l.
#[global] Instance valid_label_dec l : Decision (valid_label l).
Proof. unfold valid_label. apply _. Defined.

Definition lower_label (l : bytes) : bytes := to_ascii_lowercase <$> l.

Lemma normalize_valid l : valid_label l → normalize_label l = Ok (lower_label l).
Proof. intros (? & ? & ? & ? & ?). unfold normalize_label. rewrite decide_False; [done|]. tauto. Qed.

Lemma length_bits n : (n ≤ 63)%nat → Z.land (Z.of_nat n) 0xc0 = 0.
Proof.
  intros Hn. apply Z.bits_inj'. intros k Hk. rewrite Z.land_spec, Z.bits_0.
  destruct (decide (k < 6)) as [Hlt|Hge].
  - assert (k = 0 ∨ k = 1 ∨ k = 2 ∨ k = 3 ∨ k = 4 ∨ k = 5) as Hc by lia.
    destruct Hc as [-> |[-> |[-> |[-> |[-> | ->]]]]]; by rewrite andb_false_r.
  - rewrite <- (Z.mod_small (Z.of_nat n) (2 ^ 6)) by lia. by rewrite Z.mod_pow2_bits_high by lia.
Qed.

Lemma get_byte_app pre b rest : get_byte (pre ++ b :: rest) (length pre) = Ok b.
Proof. unfold get_byte. by rewrite list_lookup_middle. Qed.

Lemma parse_name_loop_encode rest labels : Forall valid_label labels → ∀ n pre acc seen,
  (length labels < n)%nat → (∀ s, s ∈ seen → (s < length pre)%nat) → acc ++ labels ≠ [] →
  parse_name_loop n (pre ++ encode_name labels ++ rest) (length pre) acc None seen
  = Ok (join_labels (acc ++ map lower_label labels), (length pre + length (encode_name labels))%nat).
Proof.
  induction 1 as [|l ls Hl Hls IH]; intros n pre acc seen Hn Hseen Hne; (destruct n as [|n]; [simpl in Hn; lia|]); simpl.
  - rewrite decide_False by (intros ?%Hseen; lia). rewrite get_byte_app. cbn [obind].
    rewrite decide_False by (by vm_compute). rewrite decide_False by (vm_compute; tauto). rewrite decide_True by done.
    rewrite app_nil_r in Hne |- *. by rewrite decide_False.
  - rewrite decide_False by (intros ?%Hseen; lia). rewrite get_byte_app. cbn [obind].
    pose proof Hl as (Hl0 & Hl63 & _). assert (0 < length l)%nat as Hpos by (destruct l; [done|simpl; lia]).
    rewrite length_bits by done. rewrite decide_False by done. rewrite decide_False by tauto.
    rewrite decide_False by lia. rewrite Nat2Z.id. rewrite decide_False by lia.
    replace (pre ++ Z.of_nat (length l) :: (l ++ encode_name ls) ++ rest)
      with ((pre ++ [Z.of_nat (length l)]) ++ l ++ (encode_name ls ++ rest)) by (by rewrite <- !app_assoc).
    replace (length pre + 1)%nat with (length (pre ++ [Z.of_nat (length l)])) by (rewrite length_app; done).
    rewrite get_range_app. cbn [ok_or obind]. rewrite normalize_valid by done. cbn [obind].
    rewrite <- length_app, (app_assoc _ l).
    rewrite IH; [|simpl in Hn; lia| |by destruct acc].
    + rewrite <- app_assoc. simpl. do 2 f_equal. rewrite !length_app. simpl. lia.
    + intros s. rewrite !length_app. simpl. rewrite elem_of_cons. intros [-> |?%Hseen]; lia.
Qed.

(** Once a compression pointer was followed, the end of the name is fixed. *)
Lemma parse_name_loop_end n p : ∀ o ls x seen name e,
  parse_name_loop n p o ls (Some x) seen = Ok (name, e) → e = x.
Proof.
  induction n as [|n IH]; intros o ls x seen name e; simpl; [done|]. case_decide; [done|].
  destruct (get_byte p o) as [b| |]; simpl; [|done..]. case_decide.
  { destruct (get_byte p (o + 1)) as [c| |]; simpl; [|done..]. case_decide; [done|]. apply IH. }
  case_decide; [done|]. case_decide; [case_decide; [done|]; by intros [= _ <-]|]. case_decide; [done|].
  destruct (get_range p (o + 1) _) as [l|]; simpl; [|done]. destruct (normalize_label l); simpl; [|done..]. apply IH.
Qed.

(** The two walkers agree on where a name ends. *)
Lemma parse_skip_agree n p start : ∀ o ls seen name e e',
  parse_name_loop n p o ls None seen = Ok (name, e) → skip_name_loop n p start o = Ok e' → e = e'.
Proof.
  induction n as [|n IH]; intros o ls seen name e e'; simpl; [done|]. case_decide; [done|].
  destruct (get_byte p o) as [b| |]; simpl; [|done..].
  destruct (decide (Z.land b 0xc0 = 0xc0)).
  { destruct (get_byte p (o + 1)) as [c| |]; simpl; [|done..]. case_decide; [done|]. intros ->%parse_name_loop_end.
    destruct (validate_name_pointer p o start); simpl; [|done..]. by intros [= <-]. }
  destruct (decide (Z.land b 0xc0 ≠ 0)); [done|]. destruct (decide (b = 0)).
  { case_decide; [done|]. by intros [= _ <-] [= <-]. }
  case_decide; [done|]. destruct (get_range p (o + 1) _) as [l|]; simpl; [|done].
  destruct (normalize_label l); simpl; [|done..]. case_decide; [done|]. apply IH.
Qed.

(** ** The EDNS clamp *)

Lemma skip_name_advances p o e : skip_name p o = Ok e → (o < e)%nat.
Proof.
  unfold skip_name. generalize o at 1. generalize 128%nat. intros n start. revert o.
  induction n as [|n IH]; intros o; simpl; [done|]. destruct (get_byte p o) as [b| |]; simpl; [|done..].
  case_decide. { destruct (validate_name_pointer p o start); simpl; [|done..]. intros [= <-]. lia. }
  case_decide; [done|]. case_decide; [intros [= <-]; lia|]. case_decide; [done|]. intros ?%IH. lia.
Qed.

(** A byte the clamp may change: the class field of an OPT record that starts,
    after its owner name, at [r >= off]. *)
Definition opt_class_change (p p' : bytes) (off i : nat) : Prop :=
  ∃ r, (off ≤ r)%nat ∧ (i = r + 2 ∨ i = r + 3)%nat ∧ be16 (byte_at p r) (byte_at p (r + 1)) = 41
    ∧ DNS_PAYLOAD_MAX < be16 (byte_at p (r + 2)) (byte_at p (r + 3))
    ∧ be16 (byte_at p' (r + 2)) (byte_at p' (r + 3)) = DNS_PAYLOAD_MAX.

Record clamped_from (off : nat) (p p' : bytes) : Prop := {
  cf_ok : bytes_ok p';
  cf_length : length p' = length p;
  cf_change : ∀ i, byte_at p' i ≠ byte_at p i → opt_class_change p p' off i;
}.

Lemma clamped_from_refl off p : bytes_ok p → clamped_from off p p.
Proof. by split. Qed.

Lemma clamped_from_low off p p' i : clamped_from off p p' → (i < off + 2)%nat → byte_at p' i = byte_at p i.
Proof.
  intros [_ _ Hc] Hi. destruct (decide (byte_at p' i = byte_at p i)) as [|Hne]; [done|].
  destruct (Hc i Hne) as (r & ? & ? & _). lia.
Qed.

(** One OPT record clamped at [o], then the records from [o2] on. *)
Lemma clamped_from_step off o o2 p p' : bytes_ok p → (off ≤ o)%nat → (o + 10 ≤ o2)%nat → (o + 10 ≤ length p)%nat →
  be16 (byte_at p o) (byte_at p (o + 1)) = 41 → DNS_PAYLOAD_MAX < be16 (byte_at p (o + 2)) (byte_at p (o + 3)) →
  clamped_from o2 (patch (o + 2) (be_bytes 2 DNS_PAYLOAD_MAX) p) p' → clamped_from off p p'.
Proof.
  intros Hok Hoff Ho2 Hlen H41 Hmax Hc. pose proof Hc as [Hok' Hl Hch].
  set (q := patch (o + 2) (be_bytes 2 DNS_PAYLOAD_MAX) p) in *.
  assert (length q = length p) as Hlq by (subst q; plen).
  assert (∀ i, ¬ (o + 2 ≤ i < o + 4)%nat → byte_at q i = byte_at p i) as Hq by (intros; subst q; by bat).
  split; [done|by rewrite Hl|]. intros i Hi. destruct (decide (i < o2)%nat) as [Hlow|Hhigh].
  - assert (i = o + 2 ∨ i = o + 3)%nat as Hio.
    { rewrite (clamped_from_low _ _ _ i Hc) in Hi by lia. destruct (decide (o + 2 ≤ i < o + 4)%nat); [lia|].
      by rewrite Hq in Hi. }
    exists o. split_and!; [done|done|done|done|].
    rewrite !(clamped_from_low _ _ _ _ Hc) by lia. subst q. bat.
    replace (o + 2 - (o + 2))%nat with 0%nat by lia. replace (o + 3 - (o + 2))%nat with 1%nat by lia.
    apply be16_be_bytes. by vm_compute.
  - destruct (Hch i) as (r & Hr & Hir & H1 & H2 & H3); [rewrite Hq by lia; done|].
    exists r. rewrite !Hq in H1, H2 by lia. split_and!; done || lia.
Qed.

Lemma clamped_from_weaken off off' p p' : (off ≤ off')%nat → clamped_from off' p p' → clamped_from off p p'.
Proof.
  intros Hle [Hok Hl Hc]. split; [done|done|]. intros i (r & ? & Hr)%Hc. exists r. split; [lia|done].
Qed.

(** What one pass over the additional section establishes. *)
Definition clamp_post (off : nat) (c : bool) (p : bytes) (run : outcome DnsError (nat * bool) * bytes) : Prop :=
  run.1 ≠ Panic ∧ clamped_from off p run.2 ∧
  ∀ off' c', run.1 = Ok (off', c') → (c = true → c' = true) ∧ (c' = false → run.2 = p).

Lemma clamp_post_err off c p e : bytes_ok p → clamp_post off c p (Err e, p).
Proof. intros. split; [done|]. split; [by apply clamped_from_refl|done]. Qed.

Lemma clamp_records_spec count : ∀ off c p, bytes_ok p → clamp_post off c p (clamp_records count off c p).
Proof.
  induction count as [|count IH]; intros off c p Hok; simpl.
  { split; [done|]. split; [by apply clamped_from_refl|]. by intros off' c' [= <- <-]. }
  unfold sbind at 1, sreads at 1. destruct (skip_name p off) as [o|e|] eqn:Hsk; [|by apply clamp_post_err|].
  2: { by destruct (skip_name_no_panic p off). }
  apply skip_name_advances in Hsk. unfold sbind at 1, sreads at 1.
  destruct (get_range p o (o + 10)) as [rr|] eqn:Hg; cbn [ok_or]; [|by apply clamp_post_err].
  apply get_range_Some in Hg as (_ & Hlen & ->).
  unfold sbind at 1, slift at 1. rewrite rd16_sub_ok by lia. unfold sbind at 1, slift at 1. rewrite rd16_sub_ok by lia.
  set (o2 := (o + 10 + Z.to_nat _)%nat).
  assert (∀ q c1, bytes_ok q → length q = length p →
    (∀ p', clamped_from o2 q p' → clamped_from off p p') → (c = true → c1 = true) → (c1 = false → q = p) →
    clamp_post off c p
      ((if decide (length q < o2)%nat then serr Truncated else clamp_records count o2 c1) q)) as Hrest.
  { intros q c1 Hq Hlq Hcl Hc1 Hqp. case_decide; simpl.
    - split; [done|]. split; [by apply Hcl, clamped_from_refl|done].
    - destruct (IH o2 c1 q Hq) as (H1 & H2 & H3). split; [done|]. split; [by apply Hcl|].
      intros off' c' Hrun. destruct (H3 off' c' Hrun) as [H4 H5]. split; [auto|]. intros ->.
      destruct c1; [by specialize (H4 eq_refl)|]. rewrite <- Hqp by done. auto. }
  replace (o + 0)%nat with o by lia. unfold sbind at 1.
  destruct (decide (be16 (byte_at p o) (byte_at p (o + 1)) = 41)) as [H41|H41].
  - unfold sbind at 1, slift at 1. rewrite rd16_sub_ok by lia. case_decide as Hmax.
    + unfold sbind at 1. rewrite write_at_run by plen. unfold sret at 1. unfold sbind, sget.
      apply Hrest; [auto with rust|plen|  |done|done].
      intros p' Hp'. eapply clamped_from_step; [done| | | |done|done|exact Hp']; lia.
    + unfold sret at 1, sbind, sget. apply Hrest; try done. intros p'. apply clamped_from_weaken. lia.
  - unfold sret at 1, sbind, sget. apply Hrest; try done. intros p'. apply clamped_from_weaken. lia.
Qed.

Lemma skip_questions_advances n p : ∀ o e, skip_questions n p o = Ok e → (o ≤ e)%nat.
Proof.
  induction n as [|n IH]; intros o e; simpl; [intros [= <-]; lia|].
  destruct (skip_name p o) as [o'| |] eqn:Hs; simpl; [|done..]. apply skip_name_advances in Hs.
  case_decide; [done|]. intros ?%IH. lia.
Qed.

Lemma skip_records_advances n p : ∀ o e, skip_records n p o = Ok e → (o ≤ e)%nat.
Proof.
  induction n as [|n IH]; intros o e; simpl; [intros [= <-]; lia|]. unfold skip_resource_record.
  destruct (skip_name p o) as [o'| |] eqn:Hs; simpl; [|done..]. apply skip_name_advances in Hs.
  destruct (ok_or _ _) as [rr| |]; simpl; [|done..]. destruct (rd16 rr 8); simpl; [|done..].
  case_decide; simpl; [done|]. intros ?%IH. lia.
Qed.

Lemma clamp_edns_run p : bytes_ok p →
  let run := clamp_edns_udp_payload p in
  no_panic run.1 ∧ clamped_from 12 p run.2 ∧ (run.1 = Ok false → run.2 = p).
Proof.
  intros Hok. unfold clamp_edns_udp_payload, sbind, sreads, slift, sget, serr, sret, dns_header.
  assert (∀ e : DnsError, no_panic (Err (A := bool) e) ∧ clamped_from 12 p p ∧ (Err (A := bool) e = Ok false → p = p)) as Herr.
  { intros. split; [done|]. split; [by apply clamped_from_refl|done]. }
  destruct (get_range p 0 12) as [h|] eqn:Hg; cbn [ok_or]; [|apply Herr].
  apply get_range_Some in Hg as (_ & Hl & ->). rewrite !rd16_sub_ok by lia.
  destruct (skip_questions _ p 12) as [o|e|] eqn:Hq; [|apply Herr|by destruct (skip_questions_no_panic (Z.to_nat (be16 (byte_at p (0 + 4)) (byte_at p (0 + 5)))) p 12)].
  destruct (skip_records _ p o) as [o1|e|] eqn:Hr; [|apply Herr|].
  2: { exfalso. revert Hr. apply skip_records_no_panic. }
  apply skip_questions_advances in Hq. apply skip_records_advances in Hr.
  destruct (clamp_records_spec (Z.to_nat (be16 (byte_at p (0 + 10)) (byte_at p (0 + 11)))) o1 false p Hok)
    as (Hnp & Hc & Hf).
  destruct (clamp_records _ o1 false p) as [[[o2 c]|e|] p'] eqn:Hrun; simpl in *; [|split; [done|]|done].
  - apply (clamped_from_weaken 12) in Hc; [|lia]. case_decide; simpl; (split; [done|]); (split; [done|]); [done|].
    intros [= ->]. by apply (Hf o2 false).
  - split; [|done]. eapply clamped_from_weaken; [|done]. lia.
Qed.

(** ** The transaction table *)

Definition tx_reverse (tx : DnsTransaction) : DnsReverseKey :=
  mkDnsReverseKey (tx_resolver tx) (tx_nat_ip tx) (tx_nat_port tx).

Record dns_inv (ports : gset Z) (t : DnsTransactionTable) : Prop := {
  dn_next : 1 ≤ dt_next_id t < 2 ^ 64;
  dn_capacity : (size (dt_by_key t) ≤ dt_capacity t)%nat;
  dn_tx : ∀ k tx, dt_by_key t !! k = Some tx → tx_key tx = k ∧ tx_nat_ip tx = dt_nat_ip t
    ∧ 1 ≤ tx_id tx < dt_next_id t ∧ tx_nat_port tx ∈ ports ∧ tx_nat_port tx ∉ dt_available_ports t;
  dn_id : ∀ id k, dt_by_id t !! id = Some k ↔ ∃ tx, dt_by_key t !! k = Some tx ∧ tx_id tx = id;
  dn_reverse : ∀ rk id, dt_reverse t !! rk = Some id ↔
    ∃ k tx, dt_by_key t !! k = Some tx ∧ tx_id tx = id ∧ rk = tx_reverse tx;
  dn_port : ∀ k k' tx tx', dt_by_key t !! k = Some tx → dt_by_key t !! k' = Some tx' →
    tx_nat_port tx = tx_nat_port tx' → k = k';
  dn_available : dt_available_ports t ⊆ ports;
  dn_used : ∀ p, p ∈ ports → p ∉ dt_available_ports t → ∃ k tx, dt_by_key t !! k = Some tx ∧ tx_nat_port tx = p;
}.

Lemma dns_table_new_inv capacity ip lo hi t : dns_table_new capacity ip lo hi = Ok t → dns_inv (port_range lo hi) t.
Proof.
  unfold dns_table_new. case_decide; [done|]. intros [= <-]. split; simpl; try done.
  - rewrite map_size_empty. lia.
  - intros id k. split; [done|by intros (? & ? & _)].
  - intros rk id. split; [done|by intros (? & ? & ? & _)].
Qed.

Lemma dns_create_inv ports t key client resolver r t' : dns_inv ports t → dt_next_id t + 1 < 2 ^ 64 →
  dns_get_or_create key client resolver t = (r, t') → dns_inv ports t'.
Proof.
  intros Hinv Hlt. unfold dns_get_or_create. destruct (dt_by_key t !! key) eqn:Hk; [by intros [= <- <-]|].
  case_decide as Hcap; [by intros [= <- <-]|]. destruct (ascending (dt_available_ports t)) as [|port rest] eqn:Ha; [by intros [= <- <-]|].
  assert (port ∈ dt_available_ports t) as Hport by (rewrite <- elem_of_ascending, Ha; apply list_elem_of_here).
  intros [= <- <-]. destruct Hinv as [Hn Hc Ht Hi Hr Hp Hav Hu].
  assert (wrap 64 (dt_next_id t + 1) = dt_next_id t + 1) as Hw by (unfold wrap; apply Z.mod_small; lia).
  assert (∀ k tx, dt_by_key t !! k = Some tx → tx_nat_port tx ≠ port ∧ k ≠ key ∧ tx_id tx ≠ dt_next_id t) as Hne.
  { intros k tx Htx. destruct (Ht k tx Htx) as (_ & _ & Hid & _ & Hna). split_and!; [set_solver|congruence|lia]. }
  split; simpl; rewrite ?Hw.
  - lia.
  - rewrite map_size_insert_None by done. lia.
  - intros k tx [[<- <-]|[? Htx]]%lookup_insert_Some; simpl; [split_and!; [done|done|lia|lia|set_solver|set_solver]|].
    destruct (Ht k tx Htx) as (? & ? & ? & ? & ?). split_and!; [done|done|lia|lia|done|set_solver].
  - intros id k. rewrite lookup_insert_Some, Hi. setoid_rewrite lookup_insert_Some. split.
    + intros [[<- <-]|[Hid (tx & Htx & <-)]]; [eexists; split; [by left|done]|].
      exists tx. split; [|done]. right. split; [|done]. destruct (Hne k tx Htx) as (? & ? & ?); congruence.
    + intros (tx & [[<- <-]|[? Htx]] & <-); [by left|]. right. split; [|by exists tx].
      destruct (Hne k tx Htx) as (? & ? & ?); congruence.
  - intros rk id. rewrite lookup_insert_Some, Hr. setoid_rewrite lookup_insert_Some. split.
    + intros [[<- <-]|[Hrk (k & tx & Htx & <- & ->)]]; [do 2 eexists; split; [by left|done]|].
      exists k, tx. split; [|done]. right. split; [|done]. destruct (Hne k tx Htx) as (? & ? & ?); congruence.
    + intros (k & tx & [[<- <-]|[? Htx]] & <- & ->); [by left|]. right. split; [|by exists k, tx].
      intros Heq. apply (f_equal rk_nat_port) in Heq. simpl in Heq. by destruct (Hne k tx Htx) as (? & _).
  - intros k k' tx tx' [[<- <-]|[? Htx]]%lookup_insert_Some [[<- <-]|[? Htx']]%lookup_insert_Some; simpl; [done|..|eauto].
    + intros Heq. by destruct (proj1 (Hne k' tx' Htx')).
    + intros Heq. by destruct (proj1 (Hne k tx Htx)).
  - set_solver.
  - intros p Hpp Hna. setoid_rewrite lookup_insert_Some. destruct (decide (p = port)) as [->|].
    + do 2 eexists. split; [by left|done].
    + destruct (Hu p Hpp) as (k & tx & Htx & <-); [set_solver|]. exists k, tx. split; [|done]. right. split; [|done].
      destruct (Hne k tx Htx) as (? & ? & ?); congruence.
Qed.

Lemma dns_ids_inj ports t k k' tx tx' : dns_inv ports t → dt_by_key t !! k = Some tx → dt_by_key t !! k' = Some tx' →
  tx_id tx = tx_id tx' → k = k'.
Proof.
  intros Hinv Hk Hk' Hid. assert (dt_by_id t !! tx_id tx = Some k) as H1 by (apply (dn_id _ _ Hinv); eauto).
  assert (dt_by_id t !! tx_id tx = Some k') as H2 by (apply (dn_id _ _ Hinv); eauto). congruence.
Qed.

Lemma dns_complete_inv ports t id : dns_inv ports t → dns_inv ports (dns_complete id t).2.
Proof.
  intros Hinv. unfold dns_complete. destruct (dt_by_id t !! id) as [key|] eqn:Hid; [|done].
  pose proof Hid as (tx & Htx & Hidtx)%(dn_id _ _ Hinv). rewrite Htx. simpl.
  pose proof (dns_ids_inj ports t) as Hinj. destruct (dn_tx _ _ Hinv key tx Htx) as (_ & _ & _ & Hpp & Hpa).
  pose proof Hinv as [Hn Hc Ht Hi Hr Hp Hav Hu]. split; simpl.
  - done.
  - rewrite map_size_delete_Some by (by eexists). lia.
  - intros k x [Hne Hx]%lookup_delete_Some. destruct (Ht k x Hx) as (? & ? & ? & ? & ?).
    split_and!; [done|done|lia|lia|done|]. rewrite not_elem_of_union, not_elem_of_singleton. split; [done|].
    intros Heq. destruct Hne. by eapply Hp.
  - intros i k. rewrite lookup_delete_Some, Hi. setoid_rewrite lookup_delete_Some. split.
    + intros (Hne & x & Hx & <-). exists x. split_and!; [|done|done]. intros <-. simplify_eq.
    + intros (x & [Hne Hx] & <-). split; [|by exists x]. intros Heq. destruct Hne. eapply Hinj; [done..|]. congruence.
  - intros rk i. rewrite lookup_delete_Some, Hr. setoid_rewrite lookup_delete_Some. split.
    + intros (Hne & k & x & Hx & <- & ->). exists k, x. split_and!; [|done|done|done]. intros <-. by simplify_eq.
    + intros (k & x & [Hne Hx] & <- & ->). split; [|by exists k, x]. intros Heq. apply (f_equal rk_nat_port) in Heq.
      destruct Hne. by eapply Hp.
  - intros k k' x x' [_ Hx]%lookup_delete_Some [_ Hx']%lookup_delete_Some. eauto.
  - set_solver.
  - intros p Hp0 [Hna Hnp%not_elem_of_singleton]%not_elem_of_union. destruct (Hu p Hp0 Hna) as (k & x & Hx & <-).
    exists k, x. rewrite lookup_delete_ne; [done|]. intros <-. by simplify_eq.
Qed.

Lemma dns_lookup_reverse_iff ports t rk tx : dns_inv ports t →
  dns_lookup_reverse t rk = Some tx ↔ (∃ k, dt_by_key t !! k = Some tx) ∧ rk = tx_reverse tx.
Proof.
  intros Hinv. unfold dns_lookup_reverse. rewrite bind_Some. split.
  - intros (id & (k & x & Hx & <- & ->)%(dn_reverse _ _ Hinv) & Hrest). apply bind_Some in Hrest as (k' & Hk' & Htx).
    apply (dn_id _ _ Hinv) in Hk' as (x' & Hx' & Hid).
    assert (k' = k) as -> by (by apply (dns_ids_inj ports t k' k x' x)).
    rewrite Hx in Htx. injection Htx as ->. split; [by exists k|done].
  - intros [[k Hk] ->]. exists (tx_id tx). split; [apply (dn_reverse _ _ Hinv); by exists k, tx|].
    apply bind_Some. exists k. split; [apply (dn_id _ _ Hinv); by exists tx|done].
Qed.

(** ** Sequences of transactions *)

Inductive dns_op : Type :=
| DnsCreate (key : DnsTransactionKey) (client resolver : SocketAddr)
| DnsComplete (id : Z).

Definition dns_step (t : DnsTransactionTable) (op : dns_op) : DnsTransactionTable :=
  match op with
  | DnsCreate key client resolver => (dns_get_or_create key client resolver t).2
  | DnsComplete id => (dns_complete id t).2
  end.
Definition dns_run (ops : list dns_op) (t : DnsTransactionTable) : DnsTransactionTable := fold_left dns_step ops t.

Lemma dns_step_next t op : dt_next_id t + 1 < 2 ^ 64 → 0 ≤ dt_next_id t → dt_next_id (dns_step t op) ≤ dt_next_id t + 1.
Proof.
  intros Hlt H0. destruct op as [key c r|id]; simpl.
  - unfold dns_get_or_create. repeat case_match; simpl; try lia. unfold wrap. rewrite Z.mod_small; lia.
  - unfold dns_complete. repeat case_match; simpl; lia.
Qed.

Lemma dns_run_inv ports ops : ∀ t, dns_inv ports t → dt_next_id t + Z.of_nat (length ops) < 2 ^ 64 →
  dns_inv ports (dns_run ops t).
Proof.
  induction ops as [|op ops IH]; intros t Ht Hlen; [done|]. cbn [length] in Hlen. unfold dns_run. simpl.
  pose proof (dn_next _ _ Ht). pose proof (dns_step_next t op). apply IH; [|lia].
  destruct op as [key c r|id]; simpl; [|by apply dns_complete_inv].
  eapply dns_create_inv; [done| |apply surjective_pairing]. lia.
Qed.

(** ** The DNS properties *)

Definition sample_query : bytes :=
  [0xab; 0xcd; 1; 0; 0; 1; 0; 0; 0; 0; 0; 1] ++ [3; 87; 119; 119; 7; 101; 120; 97; 109; 112; 108; 101; 0; 0; 1; 0; 1]
  ++ [0; 0; 41; 0x10; 0; 0; 0; 0; 0; 0; 0].
Definition sample_client : SocketAddr := mkSocketAddr (V4 1) 5353.
Definition sample_dns_table : DnsTransactionTable := mkDnsTable 2 (V4 9) (port_range 50000 50001) 1 ∅ ∅ ∅.
Definition sample_dns_ops : list dns_op :=
  [DnsCreate (Opaque sample_client None 1) sample_client (mkSocketAddr (V4 8) 53);
   DnsCreate (Opaque sample_client None 2) sample_client (mkSocketAddr (V4 8) 53);
   DnsComplete 1].

(** C40: No DNS payload, however malformed, makes the message walker panic or
    loop: parsing, validation, classification, keying, response matching and the
    EDNS clamp all return. *)
Theorem dns_never_panics (p q : bytes) (rules : RemoteDomainRules) (client : SocketAddr) :
  bytes_ok p →
  no_panic (parse_question p) ∧ no_panic (validate_query p) ∧ no_panic (classify_query p rules)
  ∧ no_panic (transaction_key client p) ∧ no_panic (response_matches_query q p)
  ∧ no_panic (clamp_edns_udp_payload p).1.
Proof.
  intros Hok. pose proof (validate_message_no_panic p false) as Hv. split_and!.
  - apply parse_question_no_panic.
  - apply validate_message_no_panic.
  - unfold classify_query, validate_query. destruct (validate_message p false); [by case_match|done|done].
  - apply transaction_key_no_panic.
  - apply response_matches_no_panic.
  - by apply clamp_edns_run.
Qed.

Lemma dns_never_panics_witness : no_panic (clamp_edns_udp_payload [1; 2; 3; 4; 0; 1; 0; 0; 0; 0; 0; 0; 0xc0; 0x0c]).1.
Proof. apply (dns_never_panics _ [] (rules_new []) sample_client). vmdec. Defined.

(** A name written without compression. *)
Lemma parse_name_encode (pre rest : bytes) (labels : list bytes) :
  Forall valid_label labels → labels ≠ [] → (length labels < 128)%nat →
  parse_name (pre ++ encode_name labels ++ rest) (length pre)
  = Ok (join_labels (map lower_label labels), (length pre + length (encode_name labels))%nat).
Proof.
  intros Hl Hne Hn. unfold parse_name. rewrite parse_name_loop_encode; [done|done|lia| |done].
  by intros s ?%not_elem_of_nil.
Qed.

(** Names round trip: parsing the uncompressed encoding of a name of valid
    labels returns the labels in lower case joined with dots and the offset just
    after the name. *)
Theorem parse_name_roundtrip (pre rest : bytes) (labels : list bytes) :
  Forall valid_label labels → labels ≠ [] → (length labels < 128)%nat →
  parse_name (pre ++ encode_name labels ++ rest) (length pre)
  = Ok (join_labels (map lower_label labels), (length pre + length (encode_name labels))%nat).
Proof.
  apply parse_name_encode.
Qed.

Lemma parse_name_roundtrip_witness :
  parse_name ([9] ++ encode_name [[87; 119]; [101; 45; 49]] ++ [0; 1]) 1
  = Ok ([119; 119; 46; 101; 45; 49], 9%nat).
Proof. apply (parse_name_roundtrip [9] [0; 1] [[87; 119]; [101; 45; 49]]); [vmdec|done|simpl; lia]. Defined.

(** The two walkers of a message agree: when a name parses and can be
    skipped, both report the same end, with or without compression. *)
Theorem parse_and_skip_agree (p : bytes) (o e e' : nat) (name : bytes) :
  parse_name p o = Ok (name, e) → skip_name p o = Ok e' → e = e'.
Proof. unfold parse_name, skip_name. apply parse_skip_agree. Qed.

Lemma parse_and_skip_agree_witness : parse_name ([3; 119; 119; 119; 0; 1; 97; 0xc0; 0]) 5 = Ok ([97; 46; 119; 119; 119], 9%nat)
  ∧ 9%nat = 9%nat.
Proof.
  split; [vm_compute; reflexivity|].
  apply (parse_and_skip_agree [3; 119; 119; 119; 0; 1; 97; 0xc0; 0] 5 9 9 [97; 46; 119; 119; 119]); vm_compute; reflexivity.
Defined.

(** The hashed rule lookup is suffix matching: a name matches the rule set
    exactly when some configured domain equals it or is a suffix of it at a label
    boundary. *)
Theorem rules_match_reference (rules : RemoteDomainRules) (name : bytes) :
  rules_match rules name = true ↔ ∃ rule, rule ∈ suffixes rules ∧ domain_matches rule name = true.
Proof. apply rules_match_iff. Qed.

(** The EDNS clamp keeps the payload length and changes only the class field
    of OPT records: each byte it changes belongs to such a field, which
    advertised more than 1232 bytes and now advertises exactly 1232; when it
    reports no change there is none. *)
Theorem clamp_edns_correct (p : bytes) :
  bytes_ok p →
  let '(r, p') := clamp_edns_udp_payload p in
  length p' = length p ∧ (r = Ok false → p' = p)
  ∧ ∀ i, byte_at p' i ≠ byte_at p i → opt_class_change p p' 12 i.
Proof.
  intros Hok. destruct (clamp_edns_run p Hok) as (_ & [_ Hl Hc] & Hf).
  destruct (clamp_edns_udp_payload p) as [r p']. done.
Qed.

Lemma clamp_edns_correct_witness :
  clamp_edns_udp_payload sample_query = (Ok true, patch 32 [4; 208] sample_query)
  ∧ length (patch 32 [4; 208] sample_query) = length sample_query.
Proof.
  assert (clamp_edns_udp_payload sample_query = (Ok true, patch 32 [4; 208] sample_query)) as Hrun by (vm_compute; reflexivity).
  split; [exact Hrun|]. pose proof (clamp_edns_correct sample_query ltac:(vmdec)) as H. rewrite Hrun in H. exact (proj1 H).
Defined.

(** A response is accepted only if it carries the query's identifier, is a
    standard-opcode response, and asks the same question as a well-formed query. *)
Theorem response_matches_sound (query response : bytes) :
  response_matches_query query response = Ok tt →
  (∃ id, dns_id query = Some id ∧ dns_id response = Some id)
  ∧ (∃ q, parse_question query = Ok q ∧ validate_message response true = Ok q)
  ∧ Z.land (be16 (byte_at response 2) (byte_at response 3)) 0x8000 ≠ 0
  ∧ Z.land (be16 (byte_at response 2) (byte_at response 3)) 0x7800 = 0.
Proof.
  unfold response_matches_query, dns_header. destruct (dns_id query) as [i|]; simpl; [|done].
  destruct (dns_id response) as [j|]; simpl; [|done]. destruct (decide (j ≠ i)) as [|Hij%dec_stable]; [done|].
  destruct (get_range response 0 12) as [h|] eqn:Hg; simpl; [|done]. apply get_range_Some in Hg as (_ & Hl & ->).
  rewrite rd16_sub_ok by lia. simpl obind. change (0 + 2)%nat with 2%nat. change (0 + 3)%nat with 3%nat.
  case_decide as Hf; [done|]. destruct (parse_question query) as [q| |]; simpl; [|done..].
  destruct (validate_message response true) as [q'| |]; simpl; [|done..].
  destruct (decide (q' ≠ q)) as [|Hq%dec_stable]; [done|]. intros _. subst. split_and!; [by exists i|by exists q|tauto|].
  destruct (decide (Z.land (be16 (byte_at response 2) (byte_at response 3)) 0x7800 = 0)); tauto.
Qed.

Lemma response_matches_sound_witness :
  let response := patch 2 [0x81; 0x80] sample_query in
  ∃ q, parse_question sample_query = Ok q ∧ validate_message response true = Ok q.
Proof.
  cbv zeta. apply (response_matches_sound sample_query (patch 2 [0x81; 0x80] sample_query)). vm_compute. reflexivity.
Defined.

(** The transaction table under any sequence of creations and completions:
    it never holds more transactions than its capacity, no two share an
    identifier or a NAT port, and a reverse lookup finds exactly the transaction
    that has that resolver, address and port. *)
Theorem dns_table_consistent (capacity : nat) (ip : IpAddr) (lo hi : Z) (t0 : DnsTransactionTable) (ops : list dns_op) :
  dns_table_new capacity ip lo hi = Ok t0 → Z.of_nat (length ops) < 2 ^ 64 - 1 →
  let t := dns_run ops t0 in
  (dns_table_len t ≤ dt_capacity t)%nat
  ∧ (∀ k k' tx tx', dt_by_key t !! k = Some tx → dt_by_key t !! k' = Some tx' →
       tx_nat_port tx = tx_nat_port tx' ∨ tx_id tx = tx_id tx' → k = k')
  ∧ (∀ rk tx, dns_lookup_reverse t rk = Some tx ↔ (∃ k, dt_by_key t !! k = Some tx) ∧ rk = tx_reverse tx).
Proof.
  intros Hnew Hlen t. assert (dns_inv (port_range lo hi) t) as Hinv.
  { apply dns_run_inv; [by eapply dns_table_new_inv|]. unfold dns_table_new in Hnew. case_decide; [done|].
    injection Hnew as <-. simpl. lia. }
  split_and!.
  - apply Hinv.
  - intros k k' tx tx' Hk Hk' [?|?]; [by eapply dn_port|by eapply dns_ids_inj].
  - intros rk tx. by apply (dns_lookup_reverse_iff (port_range lo hi)).
Qed.

Lemma dns_table_consistent_witness : (dns_table_len (dns_run sample_dns_ops sample_dns_table) ≤ 2)%nat.
Proof. apply (dns_table_consistent 2 (V4 9) 50000 50001 sample_dns_table sample_dns_ops); [reflexivity|simpl; lia]. Defined.
