(* ===== verification/Worker.v ===== *)
(** The state of a flow worker ([src/src/flow_plane/worker.rs]): interception of
    client packets, the reverse path, and the DNS transactions that share the
    worker's NAT.

    A packet ([Bytes], or the [Vec] copied from it) is a local variable, so the
    in-place packet operations run on it with [on_packet].  [now] is the
    [Instant::now()] a handler reads, [clock] the one its NAT call reads.
    The statistics are counters indexed by [Stat]. *)
From S2P Require Import Prelude Net Packet NatTable Session QuicFlow Dns.

Record OuterRoute : Type := mkOuterRoute {
  or_source_ip : option IpAddr;
  or_source_port : Z;
  or_destination : SocketAddr;
}.

Record IoTransmit : Type := mkIoTransmit {
  io_target : IoOwnerKey;
  io_packet : bytes;
  io_outer : option OuterRoute;
}.

(** The fields of [FlowWorkerStats]. *)
Inductive Stat : Type :=
| queue_mismatch_drops | unknown_dcid_drops | session_nat_exhausted | dns_query_local | dns_query_remote
| dns_response_local | dns_response_remote | dns_servfail | dns_capacity_exhausted | dns_nat_exhausted
| dns_malformed_local_fallback | dns_spoofed_response_drop | dns_late_response_drop | dns_edns_clamped
| dns_timeout | dns_transactions_active.
#[global] Instance Stat_eq_dec : EqDecision Stat.
Proof. solve_decision. Defined.

Definition FlowWorkerStats : Type := Stat → Z.
Definition set_stat (s : Stat) (v : Z) (f : FlowWorkerStats) : FlowWorkerStats := λ x, if decide (x = s) then v else f x.

Record HandledIntercept : Type := mkHandledIntercept { hi_session_id : SessionId; hi_transmit : IoTransmit }.

Record HandledReverse : Type := mkHandledReverse {
  hr_session_id : SessionId;
  hr_quic_flow_id : QuicFlowId;
  hr_local_target : IoOwnerKey;
  hr_packet : bytes;
}.

Record DnsFlowConfig : Type := mkDnsFlowConfig {
  cfg_listen : SocketAddr;
  cfg_local_resolver : SocketAddr;
  cfg_remote_resolver : SocketAddr;
  cfg_remote_domains : RemoteDomainRules;
  cfg_transaction_capacity : nat;
  cfg_timeout : Z;
  cfg_remote_available : bool;
}.

Inductive HandledDnsQuery : Type :=
| DnsLocal (transmit : IoTransmit) (binding : NatBinding) (transaction_id : SessionId)
| DnsRemote (packet : bytes) (binding : NatBinding) (transaction_id : SessionId)
| Servfail (transmit : IoTransmit).

Record HandledDnsResponse : Type := mkHandledDnsResponse {
  hd_local_target : IoOwnerKey;
  hd_packet : bytes;
  hd_binding : NatBinding;
  hd_transaction_id : SessionId;
}.

Record ExpiredDnsTransaction : Type := mkExpiredDns {
  ex_transmit : IoTransmit;
  ex_binding : NatBinding;
  ex_transaction_id : SessionId;
}.

Record DnsFlowTransaction : Type := mkDnsFlowTransaction {
  ft_token : SessionId;
  ft_client : SocketAddr;
  ft_dns_vip : SocketAddr;
  ft_binding : NatBinding;
  ft_local_target : IoOwnerKey;
  ft_remote : bool;
  ft_created_at : Z;
  ft_expires_at : Z;
  ft_original_packet : bytes;
}.

Record DnsFlowTransactionKey : Type := mkDnsFlowKey { fk_io_owner : IoOwnerKey; fk_dns : DnsTransactionKey }.
#[global] Instance DnsFlowTransactionKey_eq_dec : EqDecision DnsFlowTransactionKey.
Proof. solve_decision. Defined.
#[global] Instance DnsFlowTransactionKey_countable : Countable DnsFlowTransactionKey.
Proof.
  refine (inj_countable' (λ k, (fk_io_owner k, fk_dns k)) (λ '(i, d), mkDnsFlowKey i d) _). by intros [].
Defined.

Definition DNS_COMPLETED_REVERSE_CAPACITY : nat := Z.to_nat 65536.

Inductive DnsFlowError : Type := NotDnsQuery | DnsFlowCapacityExhausted.

Inductive FlowWorkerError : Type :=
| PacketErr (error : PacketError)
| SessionErr (error : SessionError)
| DnsErr (error : DnsFlowError)
| WrongQuicFlowOwner (expected actual : nat).

Record FlowWorkerState : Type := mkWorker {
  worker_id : nat;
  w_sessions : SessionTable;
  next_dns_token : Z;
  dns_by_key : gmap DnsFlowTransactionKey DnsFlowTransaction;
  dns_by_reverse : gmap FlowKey DnsFlowTransactionKey;
  dns_deadlines : gmap Z (gset DnsFlowTransactionKey);
  dns_completed_reverse : gmap FlowKey Z;
  dns_completed_order : gmap Z FlowKey;
  next_dns_completed_sequence : Z;
  w_stats : FlowWorkerStats;
}.

Definition worker_new_dual (id : nat) (ipv4 ipv6 : option Z) (lo hi : Z) : outcome SessionError FlowWorkerState :=
  let? sessions := session_new_dual id ipv4 ipv6 lo hi in
  Ok (mkWorker id sessions 1 ∅ ∅ ∅ ∅ ∅ 1 (λ _, 0)).

Definition worker_new (id : nat) (snat_ip : IpAddr) (lo hi : Z) : outcome SessionError FlowWorkerState :=
  match snat_ip with
  | V4 address => worker_new_dual id (Some address) None lo hi
  | V6 address => worker_new_dual id None (Some address) lo hi
  end.

(** ** Plumbing *)

Definition set_w_sessions (s : SessionTable) (w : FlowWorkerState) : FlowWorkerState :=
  mkWorker (worker_id w) s (next_dns_token w) (dns_by_key w) (dns_by_reverse w) (dns_deadlines w)
    (dns_completed_reverse w) (dns_completed_order w) (next_dns_completed_sequence w) (w_stats w).
Definition set_w_stats (f : FlowWorkerStats) (w : FlowWorkerState) : FlowWorkerState :=
  mkWorker (worker_id w) (w_sessions w) (next_dns_token w) (dns_by_key w) (dns_by_reverse w) (dns_deadlines w)
    (dns_completed_reverse w) (dns_completed_order w) (next_dns_completed_sequence w) f.
Definition set_w_dns (by_key : gmap DnsFlowTransactionKey DnsFlowTransaction) (by_reverse : gmap FlowKey DnsFlowTransactionKey)
    (deadlines : gmap Z (gset DnsFlowTransactionKey)) (w : FlowWorkerState) : FlowWorkerState :=
  mkWorker (worker_id w) (w_sessions w) (next_dns_token w) by_key by_reverse deadlines
    (dns_completed_reverse w) (dns_completed_order w) (next_dns_completed_sequence w) (w_stats w).
Definition set_w_completed (reverse : gmap FlowKey Z) (order : gmap Z FlowKey) (next : Z) (w : FlowWorkerState) : FlowWorkerState :=
  mkWorker (worker_id w) (w_sessions w) (next_dns_token w) (dns_by_key w) (dns_by_reverse w) (dns_deadlines w)
    reverse order next (w_stats w).

(** [self.stats.x += 1]. *)
Definition bump {E : Type} (s : Stat) : ST FlowWorkerState E unit := λ w,
  (Ok tt, set_w_stats (set_stat s (w_stats w s + 1) (w_stats w)) w).

(** [self.stats.dns_transactions_active = self.dns_by_key.len() as u64]. *)
Definition record_active {E : Type} : ST FlowWorkerState E unit := λ w,
  (Ok tt, set_w_stats (set_stat dns_transactions_active (Z.of_nat (size (dns_by_key w))) (w_stats w)) w).

(** A call on [self.sessions]. *)
Definition on_sessions {A : Type} (c : ST SessionTable SessionError A) : ST FlowWorkerState SessionError A :=
  szoom w_sessions set_w_sessions c.

(** An in-place packet operation on a local buffer; the new buffer is returned. *)
Definition on_packet {A : Type} (c : ST bytes PacketError A) (packet : bytes) : outcome PacketError (A * bytes) :=
  match c packet with
  | (Ok a, packet') => Ok (a, packet')
  | (Err e, _) => Err e
  | (Panic, _) => Panic
  end.

(** [?] on a packet result or a session result. *)
Definition packet_try {A : Type} (c : outcome PacketError A) : ST FlowWorkerState FlowWorkerError A :=
  slift (map_err PacketErr c).
Definition session_try {A : Type} (c : ST FlowWorkerState SessionError A) : ST FlowWorkerState FlowWorkerError A :=
  smap_err SessionErr c.

(** ** Interception *)

(** The packet preparation shared by the forward handlers. *)
Definition prepare_client_packet (packet : bytes) : outcome PacketError (bytes * FlowKey * option Z) :=
  let? prepared := on_packet prepare_forwarded_packet packet in
  let? flow := parse_flow_key prepared.2 in
  let? clamped := on_packet (clamp_tcp_mss TCP_MAX_SAFE_MSS) prepared.2 in
  let? tcp_flags := parse_tcp_flags clamped.2 in
  Ok (clamped.2, flow, tcp_flags).

(** [get_or_create_with_flags_at] with the accounting of an exhausted NAT. *)
Definition session_for (flow : FlowKey) (io : IoOwnerKey) (quic_flow : QuicFlow) (tcp_flags : option Z) (now clock : Z)
    : ST FlowWorkerState FlowWorkerError SessionId := λ w,
  match on_sessions (get_or_create_with_flags_at (worker_id w) flow io (qf_id quic_flow) tcp_flags false now clock) w with
  | (Ok session_id, w') => (Ok session_id, w')
  | (Err (Nat PortRangeExhausted), w') =>
      (Err (SessionErr (Nat PortRangeExhausted)), (bump (E := FlowWorkerError) session_nat_exhausted w').2)
  | (Err e, w') => (Err (SessionErr e), w')
  | (Panic, w') => (Panic, w')
  end.

Definition handle_intercept (io_owner : IoOwnerKey) (packet : bytes) (quic_flow : QuicFlow)
    (tunnel_target : IoOwnerKey) (now clock : Z) : ST FlowWorkerState FlowWorkerError HandledIntercept :=
  let! w := sget in
  if decide (qf_flow_worker_id quic_flow ≠ worker_id w)
  then serr (WrongQuicFlowOwner (worker_id w) (qf_flow_worker_id quic_flow)) else
  let! prepared := packet_try (prepare_client_packet packet) in
  let '(packet, flow, tcp_flags) := prepared in
  let! session_id := session_for flow io_owner quic_flow tcp_flags now clock in
  let! session := sreads (λ w, expect (session_get (w_sessions w) session_id)) in
  let! rewritten := packet_try (on_packet (rewrite_packet (nb_translated (s_nat session))) packet) in
  sret (mkHandledIntercept session_id (mkIoTransmit tunnel_target rewritten.2 None)).

Definition handle_server_inner (default_intercept : IoOwnerKey) (packet : bytes) (quic_flow : QuicFlow) (now clock : Z)
    : ST FlowWorkerState FlowWorkerError HandledIntercept :=
  let! w := sget in
  if decide (qf_flow_worker_id quic_flow ≠ worker_id w)
  then serr (WrongQuicFlowOwner (worker_id w) (qf_flow_worker_id quic_flow)) else
  let! prepared := packet_try (prepare_client_packet packet) in
  let '(packet, flow, tcp_flags) := prepared in
  let! session_id := session_for flow default_intercept quic_flow tcp_flags now clock in
  let! session := sreads (λ w, expect (session_get (w_sessions w) session_id)) in
  let! rewritten := packet_try (on_packet (rewrite_packet (nb_translated (s_nat session))) packet) in
  sret (mkHandledIntercept session_id (mkIoTransmit (s_intercept_io session) rewritten.2 None)).

(** ** The reverse path *)

Definition correct_server_return_io (session_id : SessionId) (observed : IoOwnerKey) (w : FlowWorkerState)
    : bool * FlowWorkerState :=
  match on_sessions (correct_intercept_io (worker_id w) session_id observed) w with
  | (Ok Unchanged, w') | (Ok Corrected, w') => (true, w')
  | (Ok Mismatch, w') | (Err _, w') | (Panic, w') => (false, (bump (E := FlowWorkerError) queue_mismatch_drops w').2)
  end.

(** The flow a reply is restored to. *)
Definition restored_flow (original return_flow : FlowKey) : FlowKey :=
  match fk_protocol original with
  | Tcp | Udp => reverse original
  | Icmp | Icmpv6 =>
      mkFlowKey (fk_destination original) (fk_source original) (fk_source_port original)
                (fk_destination_port return_flow) (fk_protocol original)
  end.

Definition handle_reverse_for_inner (packet : bytes) (expected_locator : SessionLocator) (observed : option IoOwnerKey)
    (now : Z) : ST FlowWorkerState FlowWorkerError (option HandledReverse) :=
  let! prepared := packet_try (on_packet prepare_forwarded_packet packet) in
  let! return_flow := packet_try (parse_flow_key prepared.2) in
  let! w := sget in
  match lookup_reverse_locator (w_sessions w) return_flow with
  | None => sret None
  | Some locator =>
      if decide (locator ≠ expected_locator ∨ flow_worker_id locator ≠ worker_id w) then sret None else
      let! clamped := packet_try (on_packet (clamp_tcp_mss TCP_MAX_SAFE_MSS) prepared.2) in
      let! tcp_flags := packet_try (parse_tcp_flags clamped.2) in
      let session_id := locator_session_id locator in
      let! accepted :=
        (match observed with
         | Some owner => λ w, let '(ok, w') := correct_server_return_io session_id owner w in (Ok ok, w')
         | None => sret true
         end) in
      if negb accepted then sret None else
      session_try (on_sessions (session_touch_tcp (worker_id w) session_id tcp_flags true now)) ;;;
      let! session := sreads (λ w, expect (session_get (w_sessions w) session_id)) in
      let! rewritten := packet_try (on_packet (rewrite_packet (restored_flow (s_original session) return_flow)) clamped.2) in
      sret (Some (mkHandledReverse session_id (s_quic_flow_id session) (s_intercept_io session) rewritten.2))
  end.

Definition handle_reverse_for (packet : bytes) (expected_locator : SessionLocator) (now : Z)
    : ST FlowWorkerState FlowWorkerError (option HandledReverse) :=
  handle_reverse_for_inner packet expected_locator None now.

Definition handle_server_reverse (observed : IoOwnerKey) (packet : bytes) (expected_locator : SessionLocator) (now : Z)
    : ST FlowWorkerState FlowWorkerError (option HandledReverse) :=
  handle_reverse_for_inner packet expected_locator (Some observed) now.

Definition handle_reverse (packet : bytes) (now : Z) : ST FlowWorkerState FlowWorkerError (option HandledReverse) :=
  let! flow := packet_try (parse_flow_key packet) in
  let! w := sget in
  match lookup_reverse_locator (w_sessions w) flow with
  | None => sret None
  | Some locator => handle_reverse_for packet locator now
  end.

(** ** DNS responses the worker writes itself *)

Definition ensure_minimum_dns_response : ST bytes PacketError unit := ensure_udp_payload_len 12.

(** The edit of the DNS header of a SERVFAIL. *)
Definition servfail_header : ST bytes PacketError unit :=
  let! flags := sreads (λ payload, rd16 payload 2) in
  let flags := Z.lor flags 0x8000 in
  let flags := Z.lor (Z.land flags 0xfff0) 0x0002 in
  write_at 2 (be_bytes 2 flags) ;;;
  write_at 6 (replicate 6 0).

Definition dns_servfail_transmit_to_listen (target : IoOwnerKey) (packet : bytes) (flow : FlowKey) (listen : SocketAddr)
    : outcome PacketError IoTransmit :=
  let? grown := on_packet ensure_minimum_dns_response packet in
  let? edited := on_packet (udp_payload_mut servfail_header) grown.2 in
  let? rewritten := on_packet (rewrite_packet (mkFlowKey (sa_ip listen) (fk_source flow) (sa_port listen)
                                 (fk_source_port flow) Udp)) edited.2 in
  Ok (mkIoTransmit target rewritten.2 None).

Definition dns_servfail_transmit (target : IoOwnerKey) (packet : bytes) (flow : FlowKey) (config : DnsFlowConfig)
    : outcome PacketError IoTransmit :=
  dns_servfail_transmit_to_listen target packet flow (cfg_listen config).

(** [clamp_edns_udp_payload(payload).ok()] on the borrowed payload. *)
Definition edns_clamp_ok : ST bytes PacketError (option bool) := λ payload,
  match clamp_edns_udp_payload payload with
  | (Ok b, payload') => (Ok (Some b), payload')
  | (Err _, payload') => (Ok None, payload')
  | (Panic, payload') => (Panic, payload')
  end.

Definition edns_clamp_packet (packet : bytes) : outcome PacketError (option bool * bytes) :=
  let? flow := parse_flow_key packet in
  let? buffer := on_packet (udp_payload_mut edns_clamp_ok) packet in
  if decide (buffer.1 = Some true) then
    let? rewritten := on_packet (rewrite_packet flow) buffer.2 in
    Ok (buffer.1, rewritten.2)
  else Ok (buffer.1, packet).

(** ** DNS transactions *)

Definition next_dns_session_token {E : Type} : ST FlowWorkerState E SessionId := λ w,
  (Ok (mkSessionId (Z.lor (2 ^ 63) (next_dns_token w))),
   mkWorker (worker_id w) (w_sessions w) (Z.max (wrap 64 (next_dns_token w + 1)) 1) (dns_by_key w) (dns_by_reverse w)
     (dns_deadlines w) (dns_completed_reverse w) (dns_completed_order w) (next_dns_completed_sequence w) (w_stats w)).

Definition forget_completed_dns_reverse {E : Type} (flow : FlowKey) : ST FlowWorkerState E unit := λ w,
  match dns_completed_reverse w !! flow with
  | Some sequence =>
      (Ok tt, set_w_completed (delete flow (dns_completed_reverse w)) (delete sequence (dns_completed_order w))
                (next_dns_completed_sequence w) w)
  | None => (Ok tt, w)
  end.

(** The eviction loop of [remember_completed_dns_reverse].  With an empty order
    index and a full map the source would spin; that is the [Panic] case. *)
Fixpoint evict_completed {E : Type} (fuel : nat) (reverse : gmap FlowKey Z) (order : gmap Z FlowKey)
    : outcome E (gmap FlowKey Z * gmap Z FlowKey) :=
  if decide (size reverse ≤ DNS_COMPLETED_REVERSE_CAPACITY)%nat then Ok (reverse, order) else
  match fuel with
  | O => Panic
  | S fuel =>
      match ascending (dom order) with
      | [] => Panic
      | sequence :: _ =>
          let? expired := expect (order !! sequence) in
          let order := delete sequence order in
          if decide (reverse !! expired = Some sequence)
          then evict_completed fuel (delete expired reverse) order
          else evict_completed fuel reverse order
      end
  end.

Definition remember_completed_dns_reverse {E : Type} (flow : FlowKey) : ST FlowWorkerState E unit := λ w,
  let sequence := next_dns_completed_sequence w in
  let next := Z.max (wrap 64 (sequence + 1)) 1 in
  let order := match dns_completed_reverse w !! flow with
               | Some previous => delete previous (dns_completed_order w)
               | None => dns_completed_order w
               end in
  let reverse := <[flow := sequence]> (dns_completed_reverse w) in
  let order := <[sequence := flow]> order in
  match evict_completed (size order) reverse order with
  | Ok (reverse, order) => (Ok tt, set_w_completed reverse order next w)
  | Err e => (Err e, set_w_completed reverse order next w)
  | Panic => (Panic, set_w_completed reverse order next w)
  end.

Definition remove_dns_transaction (key : DnsFlowTransactionKey) (clock : Z)
    : ST FlowWorkerState SessionError (option DnsFlowTransaction) := λ w,
  match dns_by_key w !! key with
  | None => (Ok None, w)
  | Some transaction =>
      (sput (set_w_dns (delete key (dns_by_key w)) (delete (reverse (nb_translated (ft_binding transaction))) (dns_by_reverse w))
               (remove_deadline (ft_expires_at transaction) key (dns_deadlines w)) w) ;;;
       on_sessions (release_ephemeral_nat (worker_id w) (ft_token transaction) clock) ;;;
       record_active ;;;
       sret (Some transaction)) w
  end.

Definition rewrite_dns_query (packet : bytes) (transaction : DnsFlowTransaction) : outcome PacketError HandledDnsQuery :=
  let? rewritten := on_packet (rewrite_packet (nb_translated (ft_binding transaction))) packet in
  if ft_remote transaction then Ok (DnsRemote rewritten.2 (ft_binding transaction) (ft_token transaction))
  else Ok (DnsLocal (mkIoTransmit (ft_local_target transaction) rewritten.2 None) (ft_binding transaction) (ft_token transaction)).

Definition servfail_for_transaction (transaction : DnsFlowTransaction) (config : DnsFlowConfig)
    : outcome PacketError ExpiredDnsTransaction :=
  let? flow := parse_flow_key (ft_original_packet transaction) in
  let? transmit := dns_servfail_transmit (ft_local_target transaction) (ft_original_packet transaction) flow config in
  Ok (mkExpiredDns transmit (ft_binding transaction) (ft_token transaction)).

(** The refusals of [handle_dns_query_at]: count and answer SERVFAIL. *)
Definition refuse_query (io_owner : IoOwnerKey) (packet : bytes) (flow : FlowKey) (config : DnsFlowConfig)
    : ST FlowWorkerState FlowWorkerError HandledDnsQuery :=
  bump dns_servfail ;;;
  let! transmit := packet_try (dns_servfail_transmit io_owner packet flow config) in
  sret (Servfail transmit).

(** The DNS part: a failed [map_err] cannot happen, the parsers do not panic. *)
Definition dns_try {A : Type} (c : outcome DnsError A) (e : FlowWorkerError) : ST FlowWorkerState FlowWorkerError A :=
  slift (map_err (λ _, e) c).

(** The end of [handle_dns_query_at]: the query has an allocated binding. *)
Definition open_transaction (io_owner : IoOwnerKey) (packet : bytes) (config : DnsFlowConfig) (key : DnsFlowTransactionKey)
    (client : SocketAddr) (token : SessionId) (binding : NatBinding) (remote : bool) (now : Z)
    : ST FlowWorkerState FlowWorkerError HandledDnsQuery :=
  let reverse_key := reverse (nb_translated binding) in
  let expires_at := now + cfg_timeout config in
  let transaction := mkDnsFlowTransaction token client (cfg_listen config) binding io_owner remote now expires_at packet in
  forget_completed_dns_reverse reverse_key ;;;
  let! w := sget in
  sput (set_w_dns (<[key := transaction]> (dns_by_key w)) (<[reverse_key := key]> (dns_by_reverse w))
          (insert_deadline expires_at key (dns_deadlines w)) w) ;;;
  record_active ;;;
  bump (if remote then dns_query_remote else dns_query_local) ;;;
  packet_try (rewrite_dns_query packet transaction).

(** The part of [handle_dns_query_at] after the route is known. *)
Definition route_query (io_owner : IoOwnerKey) (packet : bytes) (flow : FlowKey) (config : DnsFlowConfig)
    (key : DnsFlowTransactionKey) (client : SocketAddr) (resolver : SocketAddr) (remote : bool) (now clock : Z)
    : ST FlowWorkerState FlowWorkerError HandledDnsQuery :=
  if remote && negb (cfg_remote_available config) then refuse_query io_owner packet flow config else
  let! w := sget in
  if decide (cfg_transaction_capacity config ≤ size (dns_by_key w))%nat then
    bump dns_capacity_exhausted ;;; refuse_query io_owner packet flow config
  else
    let! token := next_dns_session_token in
    let selected_flow := mkFlowKey (fk_source flow) (sa_ip resolver) (fk_source_port flow) (sa_port resolver) Udp in
    λ w,
      match on_sessions (allocate_ephemeral_nat (worker_id w) token selected_flow clock) w with
      | (Ok binding, w') => open_transaction io_owner packet config key client token binding remote now w'
      | (Err (Nat PortRangeExhausted), w') =>
          (bump dns_nat_exhausted ;;; refuse_query io_owner packet flow config) w'
      | (Err e, w') => (Err (SessionErr e), w')
      | (Panic, w') => (Panic, w')
      end.

Definition handle_dns_query_at (io_owner : IoOwnerKey) (packet : bytes) (config : DnsFlowConfig) (now clock : Z)
    : ST FlowWorkerState FlowWorkerError HandledDnsQuery :=
  let! prepared := packet_try (on_packet prepare_forwarded_packet packet) in
  let packet := prepared.2 in
  let! flow := packet_try (parse_flow_key packet) in
  if decide (fk_protocol flow ≠ Udp ∨ fk_destination flow ≠ sa_ip (cfg_listen config)
             ∨ fk_destination_port flow ≠ sa_port (cfg_listen config))
  then serr (DnsErr NotDnsQuery) else
  let! fragmented := packet_try (ip_packet_is_fragmented packet) in
  if (fragmented : bool) then refuse_query io_owner packet flow config else
  let! payload := packet_try (udp_payload packet) in
  if decide (DNS_PAYLOAD_MAX < Z.of_nat (length payload)) then refuse_query io_owner packet flow config else
  let! edns := packet_try (edns_clamp_packet packet) in
  let packet := edns.2 in
  (if decide (edns.1 = Some true) then bump dns_edns_clamped else sret tt) ;;;
  let malformed_sections := bool_decide (edns.1 = None) in
  let! payload := packet_try (udp_payload packet) in
  if negb (is_ok (parse_question payload)) then refuse_query io_owner packet flow config else
  let client := mkSocketAddr (fk_source flow) (fk_source_port flow) in
  let! dns_key := dns_try (transaction_key client payload) (DnsErr NotDnsQuery) in
  let key := mkDnsFlowKey io_owner dns_key in
  let! w := sget in
  match dns_by_key w !! key with
  | Some transaction => packet_try (rewrite_dns_query packet transaction)
  | None =>
      let! route := (if malformed_sections then sret LocalFallback
                     else dns_try (classify_query payload (cfg_remote_domains config)) (DnsErr NotDnsQuery)) in
      match route with
      | Remote _ => route_query io_owner packet flow config key client (cfg_remote_resolver config) true now clock
      | Local _ => route_query io_owner packet flow config key client (cfg_local_resolver config) false now clock
      | LocalFallback =>
          bump dns_malformed_local_fallback ;;;
          route_query io_owner packet flow config key client (cfg_local_resolver config) false now clock
      end
  end.

Definition handle_dns_response (packet : bytes) (clock : Z) : ST FlowWorkerState FlowWorkerError (option HandledDnsResponse) :=
  let! fragmented := packet_try (ip_packet_is_fragmented packet) in
  if (fragmented : bool) then bump dns_spoofed_response_drop ;;; sret None else
  let! prepared := packet_try (on_packet prepare_forwarded_packet packet) in
  let packet := prepared.2 in
  let! flow := packet_try (parse_flow_key packet) in
  let! w := sget in
  match dns_by_reverse w !! flow with
  | None =>
      bump (if decide (is_Some (dns_completed_reverse w !! flow)) then dns_late_response_drop
            else dns_spoofed_response_drop) ;;;
      sret None
  | Some key =>
  match dns_by_key w !! key with
  | None => bump dns_spoofed_response_drop ;;; sret None
  | Some transaction =>
      let! payload := packet_try (udp_payload packet) in
      let! query := packet_try (udp_payload (ft_original_packet transaction)) in
      if negb (is_ok (response_matches_query query payload)) then bump dns_spoofed_response_drop ;;; sret None else
      let! removed := session_try (remove_dns_transaction key clock) in
      let! transaction := slift (expect removed) in
      remember_completed_dns_reverse flow ;;;
      record_active ;;;
      if decide (DNS_PAYLOAD_MAX < Z.of_nat (length payload)) then
        let! original_flow := packet_try (parse_flow_key (ft_original_packet transaction)) in
        bump dns_servfail ;;;
        let! transmit := packet_try (dns_servfail_transmit_to_listen (ft_local_target transaction)
                           (ft_original_packet transaction) original_flow (ft_dns_vip transaction)) in
        sret (Some (mkHandledDnsResponse (ft_local_target transaction) (io_packet transmit) (ft_binding transaction)
                      (ft_token transaction)))
      else
        bump (if ft_remote transaction then dns_response_remote else dns_response_local) ;;;
        let! rewritten := packet_try (on_packet (rewrite_packet
          (mkFlowKey (sa_ip (ft_dns_vip transaction)) (sa_ip (ft_client transaction))
             (sa_port (ft_dns_vip transaction)) (sa_port (ft_client transaction)) Udp)) packet) in
        sret (Some (mkHandledDnsResponse (ft_local_target transaction) rewritten.2 (ft_binding transaction)
                      (ft_token transaction)))
  end end.

(** The loop body of [expire_dns_transactions]. *)
Fixpoint expire_dns_keys (config : DnsFlowConfig) (clock : DnsFlowTransactionKey → Z) (keys : list DnsFlowTransactionKey)
    : ST FlowWorkerState FlowWorkerError (list ExpiredDnsTransaction) :=
  match keys with
  | [] => sret []
  | key :: keys =>
      let! removed := session_try (remove_dns_transaction key (clock key)) in
      match removed with
      | None => expire_dns_keys config clock keys
      | Some transaction =>
          let! expired := packet_try (servfail_for_transaction transaction config) in
          bump dns_timeout ;;;
          bump dns_servfail ;;;
          let! rest := expire_dns_keys config clock keys in
          sret (expired :: rest)
      end
  end.

Definition expire_dns_transactions (now : Z) (config : DnsFlowConfig) (clock : DnsFlowTransactionKey → Z)
    : ST FlowWorkerState FlowWorkerError (list ExpiredDnsTransaction) :=
  let! w := sget in
  let! popped := slift (pop_due (size (dns_deadlines w)) now (dns_deadlines w) []) in
  sput (set_w_dns (dns_by_key w) (dns_by_reverse w) popped.2 w) ;;;
  let! transmits := expire_dns_keys config clock popped.1 in
  record_active ;;;
  sret transmits.

Definition abort_dns_transaction (binding : NatBinding) (config : DnsFlowConfig) (clock : Z)
    : ST FlowWorkerState FlowWorkerError (option ExpiredDnsTransaction) :=
  let! w := sget in
  match dns_by_reverse w !! reverse (nb_translated binding) with
  | None => sret None
  | Some key =>
      let! removed := session_try (remove_dns_transaction key clock) in
      let! transaction := slift (expect removed) in
      bump dns_servfail ;;;
      let! aborted := packet_try (servfail_for_transaction transaction config) in
      sret (Some aborted)
  end.

(** The loop body of [abort_remote_dns_transactions]. *)
Fixpoint abort_dns_keys (config : DnsFlowConfig) (clock : DnsFlowTransactionKey → Z) (keys : list DnsFlowTransactionKey)
    : ST FlowWorkerState FlowWorkerError (list ExpiredDnsTransaction) :=
  match keys with
  | [] => sret []
  | key :: keys =>
      let! removed := session_try (remove_dns_transaction key (clock key)) in
      match removed with
      | None => abort_dns_keys config clock keys
      | Some transaction =>
          let! aborted := packet_try (servfail_for_transaction transaction config) in
          bump dns_servfail ;;;
          let! rest := abort_dns_keys config clock keys in
          sret (aborted :: rest)
      end
  end.

Definition abort_remote_dns_transactions (config : DnsFlowConfig) (clock : DnsFlowTransactionKey → Z)
    : ST FlowWorkerState FlowWorkerError (list ExpiredDnsTransaction) :=
  let! w := sget in
  abort_dns_keys config clock (fst <$> filter (λ kv, ft_remote kv.2 = true) (map_to_list (dns_by_key w))).

(** ** Session management and queries *)

Definition worker_session (w : FlowWorkerState) (session_id : SessionId) : option Session := session_get (w_sessions w) session_id.

Definition worker_rebind_quic_flow (old new : QuicFlowId) : ST FlowWorkerState SessionError nat := λ w,
  on_sessions (rebind_quic_flow (worker_id w) old new) w.

Definition worker_remove_by_quic_flow (quic_flow_id : QuicFlowId) (clock : SessionId → Z)
    : ST FlowWorkerState SessionError (list Session) := λ w,
  let removed := snd <$> filter (λ kv, s_quic_flow_id kv.2 = quic_flow_id) (map_to_list (sessions (w_sessions w))) in
  (on_sessions (remove_by_quic_flow (worker_id w) quic_flow_id clock) ;;; sret removed) w.

(** The release loop of [remove_dns_transactions]. *)
Fixpoint release_transactions (worker : nat) (clock : SessionId → Z) (transactions : list DnsFlowTransaction)
    : ST FlowWorkerState SessionError (list NatBinding) :=
  match transactions with
  | [] => sret []
  | transaction :: transactions =>
      on_sessions (release_ephemeral_nat worker (ft_token transaction) (clock (ft_token transaction))) ;;;
      let! bindings := release_transactions worker clock transactions in
      sret (ft_binding transaction :: bindings)
  end.

Definition remove_dns_transactions (clock : SessionId → Z) : ST FlowWorkerState SessionError (list NatBinding) :=
  let! w := sget in
  let transactions := snd <$> map_to_list (dns_by_key w) in
  sput (set_w_completed ∅ ∅ (next_dns_completed_sequence w) (set_w_dns ∅ ∅ ∅ w)) ;;;
  let! bindings := release_transactions (worker_id w) clock transactions in
  (λ w, (Ok tt, set_w_stats (set_stat dns_transactions_active 0 (w_stats w)) w)) ;;;
  sret bindings.

Definition remove_session (session_id : SessionId) (clock : Z) : ST FlowWorkerState SessionError Session := λ w,
  on_sessions (session_remove (worker_id w) session_id clock) w.

Definition expire_idle_sessions (now : Z) (clock : SessionId → Z) : ST FlowWorkerState SessionError (list Session) := λ w,
  on_sessions (expire_idle (worker_id w) now clock) w.

Definition local_return_target (w : FlowWorkerState) (session_id : SessionId) : option IoOwnerKey :=
  s_intercept_io <$> session_get (w_sessions w) session_id.

Definition dns_reverse_matches (w : FlowWorkerState) (flow : FlowKey) (locator : SessionLocator) : bool :=
  bool_decide (flow_worker_id locator = worker_id w)
  && match dns_by_reverse w !! flow ≫= (λ key, dns_by_key w !! key) with
     | Some transaction => bool_decide (ft_token transaction = locator_session_id locator)
     | None => false
     end.

Definition has_dns_reverse (w : FlowWorkerState) (flow : FlowKey) : bool := bool_decide (is_Some (dns_by_reverse w !! flow)).
