(* ===== verification/WorkerProps.v ===== *)
(** The worker's packet paths: what a handled packet carries, and that a reply to
    a translated packet is restored to the client's flow. *)
From S2P Require Import Prelude Net Checksum Packet PacketFacts PacketRewrite PacketProps PacketTheorems.
From S2P Require Import NatTable NatProps Session SessionProps SessionTheorems QuicFlow Dns DnsProps Worker.

(** ** Running handlers *)

Lemma on_packet_Ok {A} (c : ST bytes PacketError A) p a q : on_packet c p = Ok (a, q) ↔ c p = (Ok a, q).
Proof. unfold on_packet. destruct (c p) as [[] ?]; naive_solver. Qed.

Lemma packet_try_Ok {A} (c : outcome PacketError A) w a w' : packet_try c w = (Ok a, w') ↔ c = Ok a ∧ w' = w.
Proof. unfold packet_try, slift. destruct c; simpl; naive_solver. Qed.

Lemma sbind_Ok {S E A B} (c : ST S E A) (k : A → ST S E B) s b s' :
  sbind c k s = (Ok b, s') ↔ ∃ a s1, c s = (Ok a, s1) ∧ k a s1 = (Ok b, s').
Proof. unfold sbind. destruct (c s) as [[] ?]; naive_solver. Qed.

(** [sinv H] opens a successful run of a handler step by step. *)
Ltac sinv H :=
  repeat (let x := fresh "x" in let w1 := fresh "w" in let Hx := fresh "Hx" in
    apply sbind_Ok in H as (x & w1 & Hx & H);
    first [ apply packet_try_Ok in Hx as [Hx ->]
          | injection Hx as <- <- | idtac ]).

Lemma prepare_client_packet_Ok p q f flags : bytes_ok p → prepare_client_packet p = Ok (q, f, flags) →
  bytes_ok q ∧ parse_flow_key p = Ok f ∧ parse_flow_key q = Ok f ∧ flow_ok f
  ∧ validate_packet_checksums p = Ok tt ∧ parse_tcp_flags q = Ok flags ∧ length q = length p.
Proof.
  intros Hok H. unfold prepare_client_packet in H.
  apply obind_Ok in H as ([[] p1] & H1%on_packet_Ok & H). apply prepare_spec in H1 as (_ & Hv & _ & _ & Hp & _ & Hl & _ & Hok1); [|done].
  apply obind_Ok in H as (f' & Hf & H). cbn [snd] in *.
  apply obind_Ok in H as ([m p2] & H2%on_packet_Ok & H). cbn [snd] in *.
  destruct (clamp_spec TCP_MAX_SAFE_MSS p1) as [(e & He)|(m' & p2' & Hc & Hl2 & _ & Hp2 & _ & _ & Hok2)]; [done|by vm_compute|congruence|].
  rewrite Hc in H2. injection H2 as <- <-. apply obind_Ok in H as (fl & Hfl & [= <- <- <-]).
  split_and!; [done|congruence|congruence|by apply (parse_flow_ok p1)|done|done|lia].
Qed.

(** ** Sessions and their translations *)

Lemma translate_ok (t : NatTable) ports f snat port : nat_ranges ports t → snat_for t f = Some snat → port ∈ ports →
  flow_ok f → translation f (translate f snat port) ∧ flow_ok (translate f snat port).
Proof.
  intros (H4 & H6 & Hp) Hs Hport (Hf1 & Hf2 & Hf3 & Hf4). unfold snat_for in Hs.
  assert (same_family (fk_source f) snat = true ∧ ip_ok snat) as [Hfam Hsn].
  { destruct (fk_source f); [destruct (snat_ipv4 t) eqn:E|destruct (snat_ipv6 t) eqn:E]; simplify_eq/=;
      (split; [done|]); [by apply H4|by apply H6]. }
  split.
  - split; simpl; [done|done| |done]. unfold same_family. apply Bool.eqb_reflx.
  - split_and!; simpl; [done|done|by apply Hp|done].
Qed.

Lemma session_translation ports t id s : session_inv ports t → sessions t !! id = Some s → flow_ok (s_original s) →
  translation (s_original s) (nb_translated (s_nat s)) ∧ flow_ok (nb_translated (s_nat s)).
Proof.
  intros Hinv Hs Hf. pose proof (si_nat _ _ _ Hinv) as Hn. pose proof (si_binding _ _ _ Hinv _ _ Hs) as Hb.
  destruct (inv_shape _ _ _ Hn _ _ Hb) as (snat & Hsn & Ht). destruct (inv_port _ _ _ Hn _ _ Hb) as [Hp _].
  rewrite (so_original _ _ _ _ (si_session _ _ _ Hinv _ _ Hs)) in Ht, Hsn. rewrite Ht.
  by eapply translate_ok; [apply Hn|..].
Qed.

(** The packet that carries a translated session leaves with valid checksums. *)
Lemma session_rewrite ports t id s q : session_inv ports t → sessions t !! id = Some s → bytes_ok q →
  parse_flow_key q = Ok (s_original s) →
  ∃ q', rewrite_packet (nb_translated (s_nat s)) q = (Ok tt, q') ∧ rewritten q q' (nb_translated (s_nat s)).
Proof.
  intros Hinv Hs Hok Hq. pose proof (parse_flow_ok _ _ Hok Hq) as Hf.
  destruct (session_translation _ _ _ _ Hinv Hs Hf) as [Htr Hft]. by apply (rewrite_packet_run q (s_original s)).
Qed.

(** A worker whose table is its own. *)
Record owns (ports : gset Z) (w : FlowWorkerState) : Prop := {
  ow_id : owner_worker_id (w_sessions w) = worker_id w;
  ow_inv : session_inv ports (w_sessions w);
  ow_flows : ∀ id s, sessions (w_sessions w) !! id = Some s → flow_ok (s_original s);
}.

(** The session a client packet is assigned. *)
Lemma session_for_Ok ports w flow io qf flags now clock id w' : owns ports w → next_session_id (w_sessions w) < 2 ^ 63 →
  flow_ok flow → session_for flow io qf flags now clock w = (Ok id, w') →
  owns ports w' ∧ ∃ s, session_get (w_sessions w') id = Some s ∧ s_original s = flow ∧ s_flow_worker_id s = worker_id w
    ∧ ifindex (s_intercept_io s) = ifindex io ∧ worker_id w' = worker_id w.
Proof.
  intros [Ho Hinv Hfl] Hlt Hflow. unfold session_for, on_sessions, szoom. rewrite <- Ho.
  pose proof (refine_all ports _ Hinv (OpPacket flow io (qf_id qf) flags false now clock) Hlt I) as (Hinv' & Ho' & _ & _).
  simpl in Hinv', Ho'. destruct (by_key (w_sessions w) !! mkSessionKey flow (ifindex io)) as [i|] eqn:Hk.
  - pose proof Hk as (s & Hs & Hks)%(si_key _ _ _ Hinv).
    destruct (touch_tcp_run ports _ i s flags false now Hinv Hs) as (t' & Hrun & Hi & _ & _ & _ & _ & Hsess).
    assert (get_or_create_with_flags_at (owner_worker_id (w_sessions w)) flow io (qf_id qf) flags false now clock (w_sessions w)
            = (Ok i, t')) as Hg.
    { unfold get_or_create_with_flags_at, sbind, sreads, sret. rewrite ensure_owner_ok. cbv zeta. by rewrite Hk, Hrun. }
    rewrite Hg in Hinv', Ho' |- *. cbn [snd] in Hinv', Ho'. intros [= <- <-].
    split; [split; simpl; [congruence|done|]|].
    { rewrite Hsess. intros j x [[<- <-]|[_ Hx]]%lookup_insert_Some; [|by eapply Hfl].
      destruct (touched_fields s flags false now) as (_ & -> & _). by eapply Hfl. }
    exists (touched s flags false now). destruct (touched_fields s flags false now) as (H1 & H2 & H3 & H4 & H5 & _).
    unfold session_get. simpl. rewrite Hsess, lookup_insert_eq. injection Hks as Hks1 Hks2.
    split_and!; [done|congruence| |congruence|done].
    rewrite H4. by rewrite (so_owner _ _ _ _ (si_session _ _ _ Hinv _ _ Hs)).
  - destruct (create_run ports _ flow io (qf_id qf) flags false now clock Hinv Hlt Hk) as (r & t' & Hg & _ & _ & Hc).
    rewrite Hg in Hinv', Ho' |- *. cbn [snd] in Hinv', Ho'.
    destruct Hc as [(-> & _)|(snat & _ & [(-> & _)|(port & -> & _ & _ & Hs & _)])]; [done|done|].
    intros [= <- <-]. split; [split; simpl; [congruence|done|]|].
    { rewrite Hs. intros j x [[<- <-]|[_ Hx]]%lookup_insert_Some; [done|by eapply Hfl]. }
    eexists. unfold session_get. simpl.
    rewrite Hs, lookup_insert_eq. split_and!; [done|done|simpl; congruence|done|done].
Qed.

Lemma handle_intercept_spec ports w io packet qf target now clock h w' : owns ports w →
  next_session_id (w_sessions w) < 2 ^ 63 → bytes_ok packet →
  handle_intercept io packet qf target now clock w = (Ok h, w') →
  owns ports w' ∧ io_target (hi_transmit h) = target ∧ qf_flow_worker_id qf = worker_id w
  ∧ ∃ s, session_get (w_sessions w') (hi_session_id h) = Some s ∧ s_flow_worker_id s = worker_id w
    ∧ parse_flow_key packet = Ok (s_original s) ∧ length (io_packet (hi_transmit h)) = length packet
    ∧ parse_flow_key (io_packet (hi_transmit h)) = Ok (nb_translated (s_nat s))
    ∧ validate_packet_checksums (io_packet (hi_transmit h)) = Ok tt ∧ bytes_ok (io_packet (hi_transmit h)).
Proof.
  intros How Hlt Hok H. unfold handle_intercept in H. apply sbind_Ok in H as (x & w1 & [= <- <-] & H).
  case_decide as Hq; [done|]. apply sbind_Ok in H as ([[q f] flags] & w1 & [Hp ->]%packet_try_Ok & H).
  apply prepare_client_packet_Ok in Hp as (Hokq & Hpp & Hpq & Hf & _ & _ & Hlen); [|done].
  apply sbind_Ok in H as (id & w1 & Hsf & H).
  destruct (session_for_Ok _ _ _ _ _ _ _ _ _ _ How Hlt Hf Hsf) as (How1 & s & Hs & Hso & Hsw & _ & Hwid).
  apply sbind_Ok in H as (s' & w2 & Hs' & H). unfold sreads in Hs'. rewrite Hs in Hs'. injection Hs' as <- <-.
  destruct (session_rewrite ports _ _ _ q (ow_inv _ _ How1) Hs) as (q' & Hrw & [Hl Hok' Hpq' Hv _]); [done|congruence|].
  apply sbind_Ok in H as ([[] q2] & w2 & [Hr%on_packet_Ok ->]%packet_try_Ok & [= <- <-]).
  rewrite Hrw in Hr. injection Hr as <-. split_and!; [done..|]. exists s. simpl.
  split_and!; [done|done|congruence|congruence|done|done|done].
Qed.

(** ** The reverse path *)

Lemma restored_translation ports t id s r : session_inv ports t → sessions t !! id = Some s → flow_ok (s_original s) →
  is_reply (nb_translated (s_nat s)) r → flow_ok r →
  translation r (restored_flow (s_original s) r) ∧ flow_ok (restored_flow (s_original s) r).
Proof.
  intros Hinv Hs Hf Hr Hfr. destruct (session_translation _ _ _ _ Hinv Hs Hf) as [[Htp Hts Htd Hti] _].
  pose proof (si_binding _ _ _ Hinv _ _ Hs) as Hb. destruct (inv_shape _ _ _ (si_nat _ _ _ Hinv) _ _ Hb) as (snat & _ & Ht).
  rewrite (so_original _ _ _ _ (si_session _ _ _ Hinv _ _ Hs)) in Ht.
  destruct (s_original s) as [os od osp odp op]. destruct r as [rs rd rsp rdp rp].
  rewrite Ht in Hr, Hts. unfold is_reply, restored_flow, translate, reverse, flow_ok in *. cbn in *.
  destruct Hr as (-> & -> & -> & Hp). destruct Hf as (? & ? & ? & ?), Hfr as (? & ? & ? & ?).
  assert (same_family snat os = true) as Hfam.
  { unfold same_family in *. apply Bool.eqb_prop in Hts. rewrite Hts. apply Bool.eqb_reflx. }
  assert (same_family od od = true) as Hod by (unfold same_family; apply Bool.eqb_reflx).
  destruct op; cbn in *; (split; [split; cbn; [done|done|done|by intros [?|?]]|by split_and!]).
Qed.

Lemma io_corrected_fields id observed s : let s' := io_corrected id observed s in
  s_id s' = s_id s ∧ s_original s' = s_original s ∧ s_nat s' = s_nat s ∧ s_quic_flow_id s' = s_quic_flow_id s.
Proof. unfold io_corrected. by case_decide. Qed.

Lemma correct_server_return_io_spec ports w id observed ok w' : owns ports w →
  correct_server_return_io id observed w = (ok, w') →
  owns ports w' ∧ worker_id w' = worker_id w ∧ sessions (w_sessions w') = io_corrected id observed <$> sessions (w_sessions w).
Proof.
  intros [Ho Hinv Hfl]. unfold correct_server_return_io, on_sessions, szoom. rewrite <- Ho.
  destruct (correct_intercept_io _ id observed (w_sessions w)) as [r t'] eqn:Hrun.
  pose proof (correct_io_sessions ports _ Hinv _ _ _ _ Hrun) as Hs.
  apply (correct_intercept_io_inv ports) in Hrun as (Hinv' & Ho' & _); [|done]. intros Heq.
  assert (w_sessions w' = t' ∧ worker_id w' = worker_id w) as [Hw1 Hw2] by (destruct r as [[]| |]; simplify_eq/=; done).
  rewrite Hw1, Hw2, Hs. split_and!; [|done|done].
  split; rewrite ?Hw1, ?Hw2; [congruence|done|]. rewrite Hs. intros i x (y & <- & Hy)%lookup_fmap_Some.
  destruct (io_corrected_fields id observed y) as (_ & -> & _). by eapply Hfl.
Qed.

(** The touch of an accepted reply. *)
Lemma reverse_touch_spec ports w id s flags now w' : owns ports w → sessions (w_sessions w) !! id = Some s →
  on_sessions (session_touch_tcp (worker_id w) id flags true now) w = (Ok tt, w') →
  owns ports w' ∧ worker_id w' = worker_id w
  ∧ sessions (w_sessions w') = <[id := touched s flags true now]> (sessions (w_sessions w)).
Proof.
  intros [Ho Hinv Hfl] Hs. unfold on_sessions, szoom. rewrite <- Ho.
  destruct (touch_tcp_run ports _ id s flags true now Hinv Hs) as (t' & -> & Hinv' & Ho' & _ & _ & _ & Hsess).
  intros [= <-]. split_and!; [|done|done]. split; simpl; [congruence|done|]. rewrite Hsess.
  intros i x [[<- <-]|[_ Hx]]%lookup_insert_Some; [|by eapply Hfl].
  destruct (touched_fields s flags true now) as (_ & -> & _). by eapply Hfl.
Qed.

(** A reply that was accepted belongs to a live session of this worker and leaves
    restored to the client's flow. *)
Lemma handle_reverse_inner_spec ports w packet expected observed now h w' : owns ports w → bytes_ok packet →
  handle_reverse_for_inner packet expected observed now w = (Ok (Some h), w') →
  owns ports w' ∧ ∃ s r, session_get (w_sessions w') (hr_session_id h) = Some s
    ∧ expected = own_locator (worker_id w) (hr_session_id h)
    ∧ parse_flow_key packet = Ok r ∧ is_reply (nb_translated (s_nat s)) r
    ∧ parse_flow_key (hr_packet h) = Ok (restored_flow (s_original s) r)
    ∧ validate_packet_checksums (hr_packet h) = Ok tt ∧ length (hr_packet h) = length packet
    ∧ hr_local_target h = s_intercept_io s ∧ hr_quic_flow_id h = s_quic_flow_id s.
Proof.
  intros How Hok H. unfold handle_reverse_for_inner in H.
  apply sbind_Ok in H as ([[] p1] & w1 & [Hp1%on_packet_Ok ->]%packet_try_Ok & H).
  apply prepare_spec in Hp1 as (_ & _ & _ & _ & Hpp & _ & Hl1 & _ & Hok1); [|done].
  apply sbind_Ok in H as (r & w1 & [Hr ->]%packet_try_Ok & H). cbn [snd] in *.
  apply sbind_Ok in H as (x & w1 & [= <- <-] & H).
  destruct (lookup_reverse_locator (w_sessions w) r) as [l|] eqn:Hlk; [|done].
  case_decide as Hd; [done|]. apply (lookup_reverse_locator_iff ports) in Hlk as (id & s0 & Hs0 & Hrep & Hl); [|apply How].
  assert (l = expected) as -> by (destruct (decide (l = expected)); tauto).
  apply sbind_Ok in H as ([m p2] & w1 & [Hc%on_packet_Ok ->]%packet_try_Ok & H). cbn [snd] in *.
  destruct (clamp_spec TCP_MAX_SAFE_MSS p1) as [(e & He)|(m' & p2' & Hc' & Hl2 & _ & Hp2 & _ & _ & Hok2)];
    [done|by vm_compute|congruence|]. rewrite Hc' in Hc. injection Hc as -> ->.
  apply sbind_Ok in H as (flags & w1 & [Hfl ->]%packet_try_Ok & H). cbv zeta in H.
  apply sbind_Ok in H as (ok & w1 & Hacc & H). destruct ok; [|done].
  assert (owns ports w1 ∧ worker_id w1 = worker_id w ∧ ∃ s1, sessions (w_sessions w1) !! id = Some s1
    ∧ s_original s1 = s_original s0 ∧ s_nat s1 = s_nat s0) as (How1 & Hwid & s1 & Hs1 & Ho1 & Hn1).
  { destruct observed as [o|]; [|injection Hacc as <-; split_and!; [done|done|by exists s0]].
    destruct (correct_server_return_io _ o w) as [b w1'] eqn:Hcs. injection Hacc as -> ->.
    apply (correct_server_return_io_spec ports) in Hcs as (? & ? & Hss); [|done]. split_and!; [done|done|].
    exists (io_corrected (locator_session_id expected) o s0). rewrite Hss, lookup_fmap. unfold session_get in Hs0. rewrite Hs0.
    destruct (io_corrected_fields (locator_session_id expected) o s0) as (_ & ? & ? & _). done. }
  rewrite (ow_id _ _ How) in Hl. rewrite <- Hwid in H, Hl |- *. subst expected. cbn [locator_session_id] in H.
  apply sbind_Ok in H as ([] & w2 & Ht & H). unfold session_try, smap_err in Ht.
  destruct (on_sessions _ w1) as [[[]| |] w2'] eqn:Ht'; simplify_eq/=.
  apply (reverse_touch_spec ports w1 id s1) in Ht' as (How2 & Hwid2 & Hss2); [|done..].
  apply sbind_Ok in H as (s2 & w3 & Hs2 & H). unfold sreads, session_get in Hs2. rewrite Hss2, lookup_insert_eq in Hs2.
  injection Hs2 as <- <-. set (s2 := touched s1 flags true now) in *.
  destruct (touched_fields s1 flags true now) as (_ & Ho2 & Hn2 & _). fold s2 in Ho2, Hn2.
  assert (sessions (w_sessions w2) !! id = Some s2) as Hs2 by (by rewrite Hss2, lookup_insert_eq).
  destruct (restored_translation ports _ id s2 r (ow_inv _ _ How2) Hs2) as [Htr Hfo].
  { by eapply (ow_flows _ _ How2). } { by rewrite Hn2, Hn1. } { by apply (parse_flow_ok p1). }
  destruct (rewrite_packet_run p2 r _ Hok2 ltac:(congruence) Hfo Htr) as (q & Hrw & [Hlq _ Hpq Hvq _]).
  apply sbind_Ok in H as ([[] q'] & w3 & [Hq%on_packet_Ok ->]%packet_try_Ok & [= <- <-]).
  rewrite Hrw in Hq. injection Hq as <-. split; [done|]. exists s2, r. simpl. unfold session_get.
  split_and!; [done|done|congruence|by rewrite Hn2, Hn1|done|done|congruence|done|done].
Qed.
