(* ===== verification/WorkerDns.v ===== *)
(** The worker's DNS path: edits of a UDP payload keep the flow, the answers the
    worker writes itself are well formed, and the transaction indexes, the
    deadlines and the NAT bindings stay consistent. *)
From S2P Require Import Prelude Net Checksum Packet PacketFacts PacketRewrite PacketProps PacketTheorems.
From S2P Require Import NatTable NatProps Session SessionProps SessionTheorems QuicFlow Dns DnsProps Worker WorkerProps.

#[local] Arguments Nat.add : simpl never.
#[local] Arguments Nat.mul : simpl never.

(** ** Edits inside a UDP payload *)

Lemma udp_edit_parse p q f off tl : bytes_ok p → bytes_ok q → length q = length p →
  layout p IP_PROTOCOL_UDP off tl → parse_flow_key p = Ok f → (∀ i, (i < off + 8)%nat → byte_at q i = byte_at p i) →
  parse_flow_key q = Ok f ∧ layout q IP_PROTOCOL_UDP off tl.
Proof.
  intros Hok Hokq Hlen Hl Hf He. pose proof Hl as [Ho Ht _ _ H4 H6].
  apply parse_flow_key_iff in Hf as (x & o & l & sp & dp & pr & Hl' & Hfr & Hs & ->); [|done].
  pose proof (proj2 (transport_metadata_layout p _ _ _ Hok) Hl) as Hm.
  pose proof (proj2 (transport_metadata_layout p _ _ _ Hok) Hl') as Hm'. rewrite Hm in Hm'. injection Hm' as <- <- <-.
  assert (layout q IP_PROTOCOL_UDP off tl) as Hlq.
  { eapply layout_frame; [done|done|]. unfold meta_byte. intros; apply He; lia. }
  split; [|done]. inversion Hs as [? | _ H8 Hu | ? | ?]; try done. subst. rewrite length_sub in H8, Hu by lia.
  assert (∀ i, (i < 8)%nat → byte_at (sub p off tl) i = byte_at (sub q off tl) i) as Hsub.
  { intros i Hi. rewrite !byte_at_sub by lia. symmetry. apply He. lia. }
  apply parse_flow_key_iff; [done|]. exists IP_PROTOCOL_UDP, off, tl. do 3 eexists. split; [done|].
  assert (is_v4 q ↔ is_v4 p) as Hiff by (unfold is_v4; rewrite He by lia; done). split.
  { intros Hv. unfold ipv4_fragment_bits. rewrite !He by lia. apply Hfr. tauto. }
  split.
  { apply shape_udp; [done|rewrite length_sub; lia|]. rewrite length_sub by lia. rewrite <- !Hsub by lia. lia. }
  rewrite !Hsub by lia. f_equal; unfold ip_source, ip_destination; destruct (decide (is_v4 p)) as [Hv|Hv];
    [rewrite decide_True by tauto|rewrite decide_False by tauto|rewrite decide_True by tauto|rewrite decide_False by tauto];
    f_equal; f_equal; (apply bytes_ext; [rewrite !length_sub by (lia || (specialize (H6 Hv); lia)); done|]); intros i Hi;
    rewrite length_sub in Hi by (lia || (specialize (H6 Hv); lia)); rewrite !byte_at_sub by lia;
    symmetry; apply He; lia || (specialize (H6 Hv); lia).
Qed.

(** Running an edit of the borrowed payload. *)
Lemma udp_payload_mut_run {A} (use : ST bytes PacketError A) p pl a pl' : bytes_ok p → udp_payload p = Ok pl →
  use pl = (Ok a, pl') → length pl' = length pl → bytes_ok pl' →
  ∃ off tl q, layout p IP_PROTOCOL_UDP off tl ∧ (off + 8 ≤ tl)%nat ∧ pl = sub p (off + 8) tl
    ∧ udp_payload_mut use p = (Ok a, q) ∧ q = patch (off + 8) pl' p ∧ bytes_ok q ∧ length q = length p
    ∧ (∀ i, (i < off + 8)%nat → byte_at q i = byte_at p i).
Proof.
  intros Hok Hpl Hrun Hlen Hok'. apply udp_payload_layout in Hpl as (off & tl & Hl & H8 & -> & Hv); [|done].
  pose proof Hl as [Ho Ht _ _ _ _]. rewrite length_sub in Hlen by lia.
  exists off, tl, (patch (off + 8) pl' p). split_and!; try done.
  - unfold udp_payload_mut, sbind, sreads, udp_payload_range.
    rewrite (proj2 (transport_metadata_layout p _ off tl Hok) Hl). cbn [obind]. rewrite decide_False by tauto.
    rewrite Hv. cbn [obind fst snd]. replace (off + (tl - off))%nat with tl by lia.
    by apply on_slice_run; [lia|lia|].
  - auto with rust.
  - apply length_patch. lia.
  - intros i Hi. apply byte_at_patch_out; lia.
Qed.

(** ** SERVFAIL answers *)

Definition socket_ok (a : SocketAddr) : Prop := ip_ok (sa_ip a) ∧ fits 16 (sa_port a).

Lemma servfail_header_run pl : bytes_ok pl → (12 ≤ length pl)%nat →
  ∃ pl', servfail_header pl = (Ok tt, pl') ∧ length pl' = length pl ∧ bytes_ok pl'.
Proof.
  intros Hok Hl. unfold servfail_header, sbind, sreads. rewrite rd16_ok by lia. cbv zeta.
  rewrite write_at_run by plen. rewrite write_at_run by (rewrite length_replicate; plen).
  eexists. split; [done|]. split; [rewrite length_patch; [plen|rewrite length_replicate; plen]|].
  apply bytes_ok_patch; [auto with rust|]. apply Forall_replicate. unfold is_byte. lia.
Qed.

Lemma ensure_noop p pl minimum : bytes_ok p → udp_payload p = Ok pl → (minimum ≤ length pl)%nat →
  ensure_udp_payload_len minimum p = (Ok tt, p).
Proof.
  intros Hok Hpl Hle. apply udp_payload_layout in Hpl as (off & tl & Hl & H8 & -> & Hv); [|done].
  pose proof Hl as [Ho Ht _ _ _ _]. rewrite length_sub in Hle by lia.
  unfold ensure_udp_payload_len, sbind, sreads, slift, sret.
  rewrite (proj2 (transport_metadata_layout p _ off tl Hok) Hl). rewrite decide_False by tauto.
  rewrite Hv, usub_ok by lia. by rewrite decide_True by lia.
Qed.

(** The flow of an answer from [listen] to the client of [f]. *)
Definition answer_flow (listen : SocketAddr) (f : FlowKey) : FlowKey :=
  mkFlowKey (sa_ip listen) (fk_source f) (sa_port listen) (fk_source_port f) Udp.

(** A packet that carries a DNS question as the worker accepts it. *)
Record query_packet (p : bytes) (f : FlowKey) : Prop := {
  qp_ok : bytes_ok p;
  qp_parse : parse_flow_key p = Ok f;
  qp_udp : fk_protocol f = Udp;
  qp_payload : ∃ pl, udp_payload p = Ok pl ∧ (12 ≤ length pl)%nat;
}.

Lemma flow_families p f : bytes_ok p → parse_flow_key p = Ok f → same_family (fk_source f) (fk_destination f) = true.
Proof.
  intros Hok (x & o & l & sp & dp & pr & _ & _ & _ & ->)%parse_flow_key_iff; [|done].
  unfold ip_source, ip_destination, same_family. simpl. by case_decide.
Qed.

Lemma servfail_ok target p f listen : query_packet p f → socket_ok listen →
  same_family (sa_ip listen) (fk_source f) = true →
  ∃ q, dns_servfail_transmit_to_listen target p f listen = Ok (mkIoTransmit target q None)
    ∧ parse_flow_key q = Ok (answer_flow listen f) ∧ validate_packet_checksums q = Ok tt ∧ length q = length p.
Proof.
  intros [Hok Hp Hudp (pl & Hpl & H12)] [Hl1 Hl2] Hfam.
  pose proof (flow_families _ _ Hok Hp) as Hff. pose proof (parse_flow_ok _ _ Hok Hp) as (Hf1 & Hf2 & Hf3 & Hf4).
  unfold dns_servfail_transmit_to_listen, ensure_minimum_dns_response.
  rewrite (proj2 (on_packet_Ok _ _ tt p) (ensure_noop p pl 12 Hok Hpl H12)). cbn [obind snd].
  assert (bytes_ok pl) as Hokpl.
  { apply udp_payload_layout in Hpl as (? & ? & _ & _ & -> & _); [|done]. auto with rust. }
  destruct (servfail_header_run pl Hokpl H12) as (pl' & Hsf & Hlpl & Hokpl').
  destruct (udp_payload_mut_run servfail_header p pl tt pl' Hok Hpl Hsf Hlpl Hokpl')
    as (off & tl & q & Hl & H8 & _ & Hmut & _ & Hokq & Hlq & Hlow).
  rewrite (proj2 (on_packet_Ok _ _ _ _) Hmut). cbn [obind snd].
  destruct (udp_edit_parse p q f off tl Hok Hokq Hlq Hl Hp Hlow) as [Hpq _].
  unfold same_family in *. apply Bool.eqb_prop in Hfam, Hff.
  destruct (rewrite_packet_run q f (answer_flow listen f)) as (q' & Hrw & [Hlq' _ Hpq' Hvq' _]); [done|done| | |].
  { split_and!; done. }
  { split; simpl; [done| | |by rewrite Hudp; intros [?|?]]; unfold same_family.
    - by rewrite Hfam, Bool.eqb_reflx.
    - by rewrite Hff, Bool.eqb_reflx. }
  unfold answer_flow in Hrw. rewrite (proj2 (on_packet_Ok _ _ _ _) Hrw). cbn [obind snd].
  exists q'. split_and!; [done|done|done|lia].
Qed.

(** ** The worker invariant *)

Abbreviation wnat w := (nat_table (w_sessions w)).

(** A live transaction: its token is in the DNS half of the identifier space, its
    binding is live in the NAT table, its stored packet is a query of its
    client. *)
Record tx_ok (w : FlowWorkerState) (tx : DnsFlowTransaction) : Prop := {
  to_token : 2 ^ 63 < session_raw (ft_token tx) < 2 ^ 63 + next_dns_token w;
  to_binding : forward (wnat w) !! ft_token tx = Some (ft_binding tx);
  to_packet : ∃ f, query_packet (ft_original_packet tx) f
    ∧ ft_client tx = mkSocketAddr (fk_source f) (fk_source_port f);
  to_flow : flow_ok (nb_original (ft_binding tx)) ∧ fk_protocol (nb_original (ft_binding tx)) = Udp;
}.

(** The transactions of [X] are out of the deadline index, which happens only
    inside [expire_dns_transactions]. *)
Record worker_inv_but (X : gset DnsFlowTransactionKey) (ports : gset Z) (w : FlowWorkerState) : Prop := {
  wi_owns : owns ports w;
  wi_next : 1 ≤ next_dns_token w ≤ 2 ^ 62;
  wi_tx : ∀ k tx, dns_by_key w !! k = Some tx → tx_ok w tx;
  wi_token : ∀ k k' tx tx', dns_by_key w !! k = Some tx → dns_by_key w !! k' = Some tx' →
    ft_token tx = ft_token tx' → k = k';
  wi_reverse : ∀ r k, dns_by_reverse w !! r = Some k ↔
    ∃ tx, dns_by_key w !! k = Some tx ∧ r = reverse (nb_translated (ft_binding tx));
  wi_deadline : ∀ d k, dl_mem (dns_deadlines w) d k ↔ ∃ tx, dns_by_key w !! k = Some tx ∧ ft_expires_at tx = d ∧ k ∉ X;
  wi_bucket : dl_nonempty (dns_deadlines w);
  wi_leak : ∀ id b, forward (wnat w) !! id = Some b → ephemeral id → ∃ k tx, dns_by_key w !! k = Some tx ∧ ft_token tx = id;
}.
Abbreviation worker_inv := (worker_inv_but ∅).

Lemma worker_new_dual_inv id ipv4 ipv6 lo hi w : snat_config_ok ipv4 ipv6 lo hi →
  worker_new_dual id ipv4 ipv6 lo hi = Ok w → worker_inv (port_range lo hi) w.
Proof.
  intros Hcfg H. unfold worker_new_dual in H. apply obind_Ok in H as (t & Ht & [= <-]).
  pose proof Ht as [Hinv Ho]%session_new_dual_inv; [|done].
  assert (sessions t = ∅ ∧ forward (nat_table t) = ∅) as [Hs Hf].
  { unfold session_new_dual, nat_new_dual in Ht. case_decide; [done|]. by injection Ht as <-. }
  split; simpl; try done.
  - split; simpl; [done|done|]. rewrite Hs. done.
  - intros r k. split; [done|by intros (? & ? & _)].
  - intros d k. split; [by intros (? & ? & _)|by intros (? & ? & _)].
  - rewrite Hf. done.
Qed.

(** Two reverse flows are the same only for the same transaction. *)
Lemma wi_reverse_inj X ports w k k' tx tx' : worker_inv_but X ports w →
  dns_by_key w !! k = Some tx → dns_by_key w !! k' = Some tx' →
  reverse (nb_translated (ft_binding tx)) = reverse (nb_translated (ft_binding tx')) → k = k'.
Proof.
  intros Hw Hk Hk' Heq%reverse_inj. eapply wi_token; [done..|].
  eapply (inv_unique _ _ _ (si_nat _ _ _ (ow_inv _ _ (wi_owns _ _ _ Hw)))).
  - by apply (to_binding _ _ (wi_tx _ _ _ Hw k tx Hk)).
  - by apply (to_binding _ _ (wi_tx _ _ _ Hw k' tx' Hk')).
  - by rewrite Heq.
Qed.

(** Statistics and the late-response memory are independent of the rest. *)
Lemma set_w_stats_inv X ports f w : worker_inv_but X ports w → worker_inv_but X ports (set_w_stats f w).
Proof. intros [[Ho Hi Hf] H2 H3 H4 H5 H6 H7 H8]. split; try done. intros k tx Hk. by destruct (H3 k tx Hk). Qed.

Lemma set_w_completed_inv X ports r o n w : worker_inv_but X ports w → worker_inv_but X ports (set_w_completed r o n w).
Proof. intros [[Ho Hi Hf] H2 H3 H4 H5 H6 H7 H8]. split; try done. intros k tx Hk. by destruct (H3 k tx Hk). Qed.

(** What ending transactions leaves alone. *)
Record dns_only (w w' : FlowWorkerState) : Prop := {
  dy_id : worker_id w' = worker_id w;
  dy_sessions : sessions (w_sessions w') = sessions (w_sessions w);
  dy_next : next_session_id (w_sessions w') = next_session_id (w_sessions w);
  dy_token : next_dns_token w' = next_dns_token w;
  dy_reverse : dns_completed_reverse w' = dns_completed_reverse w;
  dy_order : dns_completed_order w' = dns_completed_order w;
  dy_sequence : next_dns_completed_sequence w' = next_dns_completed_sequence w;
}.

#[global] Instance dns_only_preorder : PreOrder dns_only.
Proof. split; [intros w; by split|]. intros w1 w2 w3 [] []. split; congruence. Qed.

Lemma dns_only_stats f w : dns_only w (set_w_stats f w).
Proof. by split. Qed.

(** ** Removing a transaction *)

Lemma release_run ports t token clock b : session_inv ports t → forward (nat_table t) !! token = Some b →
  release_ephemeral_nat (owner_worker_id t) token clock t
  = (Ok b, set_nat (nat_remove_at token clock (nat_table t)).2 t).
Proof.
  intros Hinv Hb. unfold release_ephemeral_nat, sbind, sreads, on_nat, smap_err, szoom. rewrite ensure_owner_ok.
  unfold nat_remove_at. by rewrite Hb.
Qed.

Lemma remove_tx_run X ports w key tx clock : worker_inv_but X ports w → dns_by_key w !! key = Some tx →
  ∃ w', remove_dns_transaction key clock w = (Ok (Some tx), w') ∧ worker_inv_but (X ∖ {[key]}) ports w'
    ∧ dns_by_key w' = delete key (dns_by_key w) ∧ worker_id w' = worker_id w
    ∧ forward (wnat w') = delete (ft_token tx) (forward (wnat w)) ∧ dns_only w w'.
Proof.
  intros Hw Hk. pose proof (wi_tx _ _ _ Hw _ _ Hk) as [Htok Hbind _ _]. pose proof (wi_owns _ _ _ Hw) as [Ho Hinv Hfl].
  assert (ephemeral (ft_token tx)) as Heph by (unfold ephemeral; lia).
  pose proof (release_run ports _ _ clock _ Hinv Hbind) as Hrel.
  destruct (release_ephemeral_inv ports _ _ _ _ _ Hinv Heph Hrel) as [Hinv' _].
  assert (forward (nat_remove_at (ft_token tx) clock (wnat w)).2 = delete (ft_token tx) (forward (wnat w))) as Hfwd.
  { unfold nat_remove_at. by rewrite Hbind. }
  unfold remove_dns_transaction. rewrite Hk. unfold sbind, sput, on_sessions, szoom, record_active, sret. simpl.
  rewrite <- Ho, Hrel. simpl. eexists. split; [done|].
  split_and!; [|done|done|done|by split]. apply set_w_stats_inv.
  pose proof Hw as [_ Hn Htx Hto Hrv Hdl Hbk Hlk].
  split; simpl; try done; rewrite ?Hfwd.
  - intros k x [Hne Hx]%lookup_delete_Some. destruct (Htx k x Hx) as [H1 H2 H3 H3']. split; [done| |done|done]. simpl. rewrite Hfwd.
    rewrite lookup_delete_ne; [done|]. intros Heq. destruct Hne. by eapply Hto.
  - intros k k' x x' [_ Hx]%lookup_delete_Some [_ Hx']%lookup_delete_Some. by apply Hto.
  - intros r k. rewrite lookup_delete_Some, Hrv. setoid_rewrite lookup_delete_Some. split.
    + intros (Hne & x & Hx & ->). exists x. split_and!; [|done|done]. intros <-. by simplify_eq.
    + intros (x & [Hne Hx] & ->). split; [|by exists x]. intros Heq. destruct Hne. by eapply wi_reverse_inj.
  - intros d k. rewrite dl_mem_remove, Hdl. setoid_rewrite lookup_delete_Some. split.
    + intros [(x & Hx & <- & HX) Hn']. exists x. split_and!; [|done|done|set_solver]. intros <-. simplify_eq. naive_solver.
    + intros (x & [Hne Hx] & <- & HX). split; [exists x; set_solver|naive_solver].
  - by apply dl_nonempty_remove.
  - intros id b [Hne Hb]%lookup_delete_Some He. destruct (Hlk id b Hb He) as (k & x & Hx & <-).
    exists k, x. rewrite lookup_delete_ne; [done|]. intros <-. by simplify_eq.
Qed.

(** ** Expiry and abort *)

(** The listen address answers in the family of every waiting client. *)
Definition listen_ok (config : DnsFlowConfig) (w : FlowWorkerState) : Prop :=
  socket_ok (cfg_listen config) ∧
  ∀ k tx, dns_by_key w !! k = Some tx → same_family (sa_ip (cfg_listen config)) (sa_ip (ft_client tx)) = true.

(** The answer a client gets for a transaction that ended without a response. *)
Definition servfail_of (config : DnsFlowConfig) (tx : DnsFlowTransaction) (e : ExpiredDnsTransaction) : Prop :=
  ex_transaction_id e = ft_token tx ∧ ex_binding e = ft_binding tx
  ∧ io_target (ex_transmit e) = ft_local_target tx
  ∧ parse_flow_key (io_packet (ex_transmit e))
    = Ok (mkFlowKey (sa_ip (cfg_listen config)) (sa_ip (ft_client tx)) (sa_port (cfg_listen config)) (sa_port (ft_client tx)) Udp)
  ∧ validate_packet_checksums (io_packet (ex_transmit e)) = Ok tt.

Lemma servfail_for_transaction_ok config w k tx : listen_ok config w → dns_by_key w !! k = Some tx → tx_ok w tx →
  ∃ e, servfail_for_transaction tx config = Ok e ∧ servfail_of config tx e.
Proof.
  intros [Hsock Hfam] Hk [_ _ (f & Hq & Hc) _]. specialize (Hfam k tx Hk). rewrite Hc in Hfam.
  destruct (servfail_ok (ft_local_target tx) _ f (cfg_listen config) Hq Hsock Hfam) as (q & Hrun & Hp & Hv & _).
  unfold servfail_for_transaction, dns_servfail_transmit. rewrite (qp_parse _ _ Hq). cbn [obind]. rewrite Hrun. cbn [obind].
  eexists. split; [done|]. unfold servfail_of. rewrite Hc. done.
Qed.

Lemma listen_ok_sub config w w' : dns_by_key w' ⊆ dns_by_key w → listen_ok config w → listen_ok config w'.
Proof. intros Hsub [Hs Hf]. split; [done|]. intros k tx Hk. eapply Hf. by eapply lookup_weaken. Qed.

Lemma bump_run {E} s w : bump (E := E) s w = (Ok tt, set_w_stats (set_stat s (w_stats w s + 1) (w_stats w)) w).
Proof. done. Qed.

(** Both loops over expired or aborted keys: every transaction is removed and
    answered. *)
Section drain.
Context (ports : gset Z) (config : DnsFlowConfig).

Definition drained (X : gset DnsFlowTransactionKey) (keys : list DnsFlowTransactionKey) (w : FlowWorkerState)
    (run : outcome FlowWorkerError (list ExpiredDnsTransaction) * FlowWorkerState) : Prop :=
  ∃ es w', run = (Ok es, w') ∧ worker_inv_but (X ∖ list_to_set keys) ports w'
    ∧ (∀ k, dns_by_key w' !! k = if decide (k ∈ keys) then None else dns_by_key w !! k)
    ∧ dns_only w w' ∧ Forall2 (λ k e, ∃ tx, dns_by_key w !! k = Some tx ∧ servfail_of config tx e) keys es.

Lemma drained_cons X k keys w tx w1 w2 run e : dns_by_key w !! k = Some tx → k ∉ keys →
  dns_by_key w1 = delete k (dns_by_key w) → dns_only w w1 → dns_by_key w2 = dns_by_key w1 → dns_only w1 w2 →
  servfail_of config tx e → drained (X ∖ {[k]}) keys w2 run →
  drained X (k :: keys) w (sbind (λ _, run) (λ rest, sret (e :: rest)) w2).
Proof.
  intros Hk Hnk Hb1 H1 Hb2 H2 He (es & w' & -> & Hinv & Hkeys & Hdo & Hes).
  exists (e :: es), w'. split_and!; [done| | |by rewrite H1, H2|].
  - simpl list_to_set. by replace (X ∖ ({[k]} ∪ list_to_set keys)) with (X ∖ {[k]} ∖ list_to_set keys) by set_solver.
  - intros k'. rewrite Hkeys, Hb2, Hb1. destruct (decide (k' ∈ keys)) as [Hin|Hin].
    { rewrite decide_True; [done|]. by apply list_elem_of_further. }
    destruct (decide (k' = k)) as [->|Hne].
    + rewrite decide_True by apply list_elem_of_here. by rewrite lookup_delete_eq.
    + rewrite decide_False by (rewrite elem_of_cons; tauto). by rewrite lookup_delete_ne.
  - constructor; [by exists tx|]. eapply Forall2_impl; [exact Hes|]. intros k' e' (x & Hx & ?). exists x.
    split; [|done]. rewrite Hb2, Hb1 in Hx. by apply lookup_delete_Some in Hx as [_ ?].
Qed.

Lemma expire_dns_keys_run clock : ∀ keys X w, worker_inv_but X ports w → listen_ok config w → NoDup keys →
  (∀ k, k ∈ keys → is_Some (dns_by_key w !! k)) → drained X keys w (expire_dns_keys config clock keys w).
Proof.
  induction keys as [|k keys IH]; intros X w Hw Hlis Hnd Hall.
  { exists [], w. split_and!; try done. simpl. by rewrite difference_empty_L. }
  apply NoDup_cons in Hnd as [Hk Hnd]. destruct (Hall k) as [tx Htx]; [apply list_elem_of_here|].
  destruct (remove_tx_run X ports w k tx (clock k) Hw Htx) as (w1 & Hrun & Hw1 & Hb1 & Hid1 & _ & Hdo1).
  destruct (servfail_for_transaction_ok config w k tx Hlis Htx (wi_tx _ _ _ Hw _ _ Htx)) as (e & He & Hsf).
  simpl expire_dns_keys. unfold sbind at 1, session_try, smap_err. rewrite Hrun. cbn [map_err].
  unfold sbind at 1, packet_try at 1, slift at 1. rewrite He. cbn [map_err].
  unfold sbind at 1. rewrite bump_run. unfold sbind at 1. rewrite bump_run. set (w2 := set_w_stats _ _).
  eapply (drained_cons X k keys w tx w1 w2); try done. apply IH; [|eapply listen_ok_sub; [|done]|done|].
  - by do 2 apply set_w_stats_inv.
  - simpl. rewrite Hb1. apply delete_subseteq.
  - intros k' Hk'. simpl. rewrite Hb1, lookup_delete_ne by (by intros ->). apply Hall. by apply list_elem_of_further.
Qed.

Lemma abort_dns_keys_run clock : ∀ keys X w, worker_inv_but X ports w → listen_ok config w → NoDup keys →
  (∀ k, k ∈ keys → is_Some (dns_by_key w !! k)) → drained X keys w (abort_dns_keys config clock keys w).
Proof.
  induction keys as [|k keys IH]; intros X w Hw Hlis Hnd Hall.
  { exists [], w. split_and!; try done. simpl. by rewrite difference_empty_L. }
  apply NoDup_cons in Hnd as [Hk Hnd]. destruct (Hall k) as [tx Htx]; [apply list_elem_of_here|].
  destruct (remove_tx_run X ports w k tx (clock k) Hw Htx) as (w1 & Hrun & Hw1 & Hb1 & Hid1 & _ & Hdo1).
  destruct (servfail_for_transaction_ok config w k tx Hlis Htx (wi_tx _ _ _ Hw _ _ Htx)) as (e & He & Hsf).
  simpl abort_dns_keys. unfold sbind at 1, session_try, smap_err. rewrite Hrun. cbn [map_err].
  unfold sbind at 1, packet_try at 1, slift at 1. rewrite He. cbn [map_err].
  unfold sbind at 1. rewrite bump_run. set (w2 := set_w_stats _ _).
  eapply (drained_cons X k keys w tx w1 w2); try done. apply IH; [|eapply listen_ok_sub; [|done]|done|].
  - by apply set_w_stats_inv.
  - simpl. rewrite Hb1. apply delete_subseteq.
  - intros k' Hk'. simpl. rewrite Hb1, lookup_delete_ne by (by intros ->). apply Hall. by apply list_elem_of_further.
Qed.
End drain.

Lemma dns_popped_inv ports w now l : worker_inv ports w →
  (∀ k, k ∈ l ↔ ∃ tx, dns_by_key w !! k = Some tx ∧ ft_expires_at tx ≤ now) →
  worker_inv_but (list_to_set l) ports
    (set_w_dns (dns_by_key w) (dns_by_reverse w) (filter (λ kv, now < kv.1) (dns_deadlines w)) w).
Proof.
  intros [[Ho Hi Hfl] Hn Htx Hto Hrv Hdl Hbk Hlk] Hin. split; simpl; try done.
  - intros k tx Hk. by destruct (Htx k tx Hk).
  - intros d k. unfold dl_mem. setoid_rewrite map_lookup_filter_Some. simpl. split.
    + intros (ks & [Hks Hlt] & Hk). destruct (proj1 (Hdl d k)) as (tx & Htx' & <- & _); [by exists ks|].
      exists tx. split_and!; [done..|]. rewrite elem_of_list_to_set, Hin. intros (x & ? & ?). simplify_eq. lia.
    + intros (tx & Hk & <- & Hni). rewrite elem_of_list_to_set, Hin in Hni.
      destruct (proj2 (Hdl (ft_expires_at tx) k)) as (ks & Hks & Hkk); [by exists tx; split_and!; [..|set_solver]|].
      exists ks. split_and!; [done| |done]. apply dec_stable. intros ?. destruct Hni. exists tx. split; [done|lia].
  - intros d ks [Hks _]%map_lookup_filter_Some. eauto.
Qed.

Lemma record_active_run {E} w : ∃ f, record_active (E := E) w = (Ok tt, set_w_stats f w).
Proof. by eexists. Qed.

Lemma expire_dns_run ports w now config clock : worker_inv ports w → listen_ok config w →
  ∃ keys es w', expire_dns_transactions now config clock w = (Ok es, w') ∧ worker_inv ports w' ∧ NoDup keys
    ∧ (∀ k, k ∈ keys ↔ ∃ tx, dns_by_key w !! k = Some tx ∧ ft_expires_at tx ≤ now)
    ∧ (∀ k, dns_by_key w' !! k = if decide (k ∈ keys) then None else dns_by_key w !! k)
    ∧ dns_only w w' ∧ Forall2 (λ k e, ∃ tx, dns_by_key w !! k = Some tx ∧ servfail_of config tx e) keys es.
Proof.
  intros Hw Hlis. pose proof (wi_deadline _ _ _ Hw) as Hdl.
  destruct (pop_due_spec (E := FlowWorkerError) now (size (dns_deadlines w)) (dns_deadlines w) []) as (l & Hpop & Hl & Hnd); [done|].
  specialize (Hnd ltac:(intros d d' k (x & Hx & <- & _)%Hdl (x' & Hx' & <- & _)%Hdl; by simplify_eq)).
  assert (∀ k, k ∈ l ↔ ∃ tx, dns_by_key w !! k = Some tx ∧ ft_expires_at tx ≤ now) as Hin.
  { intros k. rewrite Hl. setoid_rewrite Hdl. split.
    - intros (d & ? & tx & ? & <- & _). by exists tx.
    - intros (tx & ? & ?). exists (ft_expires_at tx). split; [done|]. by exists tx; split_and!; [..|set_solver]. }
  destruct (expire_dns_keys_run ports config clock l _ _ (dns_popped_inv ports w now l Hw Hin)) as
    (es & w' & Hrun & Hw' & Hkeys & Hs & Hes); [done|done|intros k (tx & Hk & _)%Hin; by exists tx|].
  replace (list_to_set l ∖ list_to_set l) with (∅ : gset DnsFlowTransactionKey) in Hw' by set_solver.
  destruct (record_active_run (E := FlowWorkerError) w') as [f Hf].
  exists l, es, (set_w_stats f w'). split_and!; try done; [|by apply set_w_stats_inv|by destruct Hs; split].
  unfold expire_dns_transactions. unfold sbind at 1, sget at 1. unfold sbind at 1, slift at 1. rewrite Hpop.
  unfold sbind at 1, sput at 1. cbn [fst snd]. unfold sbind at 1. rewrite app_nil_l, Hrun. unfold sbind. by rewrite Hf.
Qed.

Lemma abort_remote_run ports w config clock : worker_inv ports w → listen_ok config w →
  ∃ keys es w', abort_remote_dns_transactions config clock w = (Ok es, w') ∧ worker_inv ports w' ∧ NoDup keys
    ∧ (∀ k, k ∈ keys ↔ ∃ tx, dns_by_key w !! k = Some tx ∧ ft_remote tx = true)
    ∧ (∀ k, dns_by_key w' !! k = if decide (k ∈ keys) then None else dns_by_key w !! k)
    ∧ dns_only w w' ∧ Forall2 (λ k e, ∃ tx, dns_by_key w !! k = Some tx ∧ servfail_of config tx e) keys es.
Proof.
  intros Hw Hlis. set (l := fst <$> filter (λ kv, ft_remote kv.2 = true) (map_to_list (dns_by_key w))).
  assert (∀ k, k ∈ l ↔ ∃ tx, dns_by_key w !! k = Some tx ∧ ft_remote tx = true) as Hl.
  { intros k. unfold l. rewrite list_elem_of_fmap. setoid_rewrite list_elem_of_filter. split.
    - intros ([k' tx] & -> & Hr & Hk%elem_of_map_to_list). by exists tx.
    - intros (tx & Hk & Hr). exists (k, tx). by rewrite elem_of_map_to_list. }
  assert (NoDup l) as Hnd.
  { unfold l. apply NoDup_fmap_2_strong.
    - intros [k tx] [k' tx'] [_ H1%elem_of_map_to_list]%list_elem_of_filter [_ H2%elem_of_map_to_list]%list_elem_of_filter.
      simpl. intros ->. by simplify_eq.
    - apply NoDup_filter, NoDup_map_to_list. }
  destruct (abort_dns_keys_run ports config clock l ∅ w Hw Hlis Hnd) as (es & w' & Hrun & Hw' & Hkeys & Hs & Hes).
  { by intros k (tx & -> & _)%Hl. }
  replace (∅ ∖ list_to_set l) with (∅ : gset DnsFlowTransactionKey) in Hw' by set_solver.
  exists l, es, w'. by split_and!.
Qed.

(** ** Opening a transaction *)

(** The token of a new transaction is fresh. *)
Lemma fresh_token w : 1 ≤ next_dns_token w ≤ 2 ^ 62 → Z.lor (2 ^ 63) (next_dns_token w) = 2 ^ 63 + next_dns_token w.
Proof.
  intros Hn. rewrite Z.add_nocarry_lxor.
  - symmetry. apply Z.lxor_lor. apply Z.bits_inj'. intros i Hi. rewrite Z.land_spec, Z.bits_0, Z.pow2_bits_eqb by lia.
    destruct (Z.eqb_spec 63 i) as [<-|]; [|done]. rewrite <- (Z.mod_small (next_dns_token w) (2 ^ 63)) by lia.
    by rewrite Z.mod_pow2_bits_high by lia.
  - apply Z.bits_inj'. intros i Hi. rewrite Z.land_spec, Z.bits_0, Z.pow2_bits_eqb by lia.
    destruct (Z.eqb_spec 63 i) as [<-|]; [|done]. rewrite <- (Z.mod_small (next_dns_token w) (2 ^ 63)) by lia.
    by rewrite Z.mod_pow2_bits_high by lia.
Qed.

Definition bump_token (w : FlowWorkerState) : FlowWorkerState :=
  mkWorker (worker_id w) (w_sessions w) (next_dns_token w + 1) (dns_by_key w) (dns_by_reverse w)
     (dns_deadlines w) (dns_completed_reverse w) (dns_completed_order w) (next_dns_completed_sequence w) (w_stats w).

Lemma next_token_run {E} w : 1 ≤ next_dns_token w < 2 ^ 62 →
  next_dns_session_token (E := E) w = (Ok (mkSessionId (2 ^ 63 + next_dns_token w)), bump_token w).
Proof.
  intros Hn. unfold next_dns_session_token, bump_token. rewrite fresh_token by lia.
  replace (Z.max (wrap 64 (next_dns_token w + 1)) 1) with (next_dns_token w + 1); [done|].
  unfold wrap. rewrite Z.mod_small by lia. lia.
Qed.

Lemma bump_token_inv ports w : worker_inv ports w → next_dns_token w < 2 ^ 62 → worker_inv ports (bump_token w).
Proof.
  intros [[Ho Hi Hfl] Hn Htx Hto Hrv Hdl Hbk Hlk] Hlt. split; simpl; try done; [lia|].
  intros k tx Hk. destruct (Htx k tx Hk) as [? ? ? ?]. split; simpl; [lia|done|done|done].
Qed.

(** Registering a transaction whose binding was just allocated for its token. *)
Lemma register_inv ports w key tx t' : worker_inv ports w → dns_by_key w !! key = None →
  session_raw (ft_token tx) = 2 ^ 63 + next_dns_token w - 1 → 1 < next_dns_token w →
  (∀ k x, dns_by_key w !! k = Some x → session_raw (ft_token x) < 2 ^ 63 + next_dns_token w - 1) →
  owns ports (set_w_sessions t' w) →
  forward (nat_table t') = <[ft_token tx := ft_binding tx]> (forward (wnat w)) →
  (∃ f, query_packet (ft_original_packet tx) f ∧ ft_client tx = mkSocketAddr (fk_source f) (fk_source_port f)) →
  flow_ok (nb_original (ft_binding tx)) ∧ fk_protocol (nb_original (ft_binding tx)) = Udp →
  worker_inv ports (set_w_dns (<[key := tx]> (dns_by_key w)) (<[reverse (nb_translated (ft_binding tx)) := key]> (dns_by_reverse w))
    (insert_deadline (ft_expires_at tx) key (dns_deadlines w)) (set_w_sessions t' w)).
Proof.
  intros Hw Hk0 Htok H1 Hold Hown Hfwd Hpk Hfo. pose proof Hw as [_ Hn Htx Hto Hrv Hdl Hbk Hlk].
  assert (∀ k x, dns_by_key w !! k = Some x → ft_token x ≠ ft_token tx) as Hne.
  { intros k x Hx Heq. specialize (Hold k x Hx). rewrite Heq in Hold. lia. }
  assert (∀ k x, dns_by_key w !! k = Some x →
    reverse (nb_translated (ft_binding x)) ≠ reverse (nb_translated (ft_binding tx))) as Hrne.
  { intros k x Hx Heq%reverse_inj. destruct (Hne k x Hx).
    eapply (inv_unique _ _ _ (si_nat _ _ _ (ow_inv _ _ Hown))); simpl; rewrite ?Hfwd.
    - rewrite lookup_insert_ne by (apply not_eq_sym; by eapply Hne). apply (to_binding _ _ (Htx k x Hx)).
    - by rewrite lookup_insert_eq.
    - by rewrite Heq. }
  destruct Hown as [Ho Hi Hfl]. split; simpl in *; try done.
  - intros k x [[<- <-]|[? Hx]]%lookup_insert_Some; [split; simpl; [lia|by rewrite Hfwd, lookup_insert_eq|done|done]|].
    destruct (Htx k x Hx) as [H2 H3 H4 H5]. split; simpl; [done| |done|done]. rewrite Hfwd, lookup_insert_ne; [done|].
    apply not_eq_sym. by eapply Hne.
  - intros k k' x x' [[<- <-]|[? Hx]]%lookup_insert_Some [[<- <-]|[? Hx']]%lookup_insert_Some; [done|..|by apply Hto].
    + intros Heq. by destruct (Hne k' x' Hx').
    + intros Heq. by destruct (Hne k x Hx).
  - intros r k. rewrite lookup_insert_Some, Hrv. setoid_rewrite lookup_insert_Some. split.
    + intros [[<- <-]|[Hr (x & Hx & ->)]]; [exists tx; split; [by left|done]|].
      exists x. split; [|done]. right. split; [|done]. intros <-. congruence.
    + intros (x & [[<- <-]|[? Hx]] & ->); [by left|]. right. split; [|by exists x]. apply not_eq_sym. by eapply Hrne.
  - intros d k. rewrite dl_mem_insert, Hdl. setoid_rewrite lookup_insert_Some. split.
    + intros [[-> ->]|(x & Hx & <- & ?)]; [exists tx; split_and!; [by left|done|set_solver]|].
      exists x. split; [|done]. right. split; [|done]. intros <-. congruence.
    + intros (x & [[<- <-]|[? Hx]] & <- & ?); [by left|]. right. by exists x.
  - by apply dl_nonempty_insert.
  - intros id b Hb He. rewrite Hfwd in Hb. setoid_rewrite lookup_insert_Some.
    apply lookup_insert_Some in Hb as [[<- <-]|[? Hb]]; [exists key, tx; split; [by left|done]|].
    destruct (Hlk id b Hb He) as (k & x & Hx & <-). exists k, x. split; [|done]. right. split; [|done]. intros <-. congruence.
Qed.

(** ** Handling a query *)

Lemma rewrite_Ok_inv p p' f t : bytes_ok p → parse_flow_key p = Ok f → fk_protocol f = Udp → flow_ok t →
  rewrite_packet t p = (Ok tt, p') → rewritten p p' t.
Proof.
  intros Hok Hp Hudp Ht Hrun. pose proof Hrun as Hrun'. unfold rewrite_packet, sbind, sreads in Hrun'. rewrite Hp in Hrun'.
  case_decide as Hd; [done|].
  destruct (rewrite_packet_run p f t Hok Hp Ht) as (q & Hq & Hr).
  - split; [destruct (decide (fk_protocol f = fk_protocol t)); tauto| | |by rewrite Hudp; intros [?|?]].
    + destruct (same_family (fk_source f) (fk_source t)); tauto.
    + destruct (same_family (fk_destination f) (fk_destination t)); tauto.
  - rewrite Hrun in Hq. by injection Hq as ->.
Qed.

(** A binding of the NAT table translates to a flow in range. *)
Lemma binding_flow_ok owner ports n id b : nat_inv owner ports n → forward n !! id = Some b → flow_ok (nb_original b) →
  flow_ok (nb_translated b).
Proof.
  intros Hn Hb Hf. destruct (inv_shape _ _ _ Hn _ _ Hb) as (snat & Hs & Ht). destruct (inv_port _ _ _ Hn _ _ Hb) as [Hp _].
  rewrite Ht. by eapply translate_ok; [apply Hn|..].
Qed.

(** What the worker hands on for a query of transaction [tx]. *)
Definition forwarded (tx : DnsFlowTransaction) (q : HandledDnsQuery) : Prop :=
  match q with
  | DnsLocal t b id => ft_remote tx = false ∧ b = ft_binding tx ∧ id = ft_token tx ∧ io_target t = ft_local_target tx
      ∧ parse_flow_key (io_packet t) = Ok (nb_translated b) ∧ validate_packet_checksums (io_packet t) = Ok tt
  | DnsRemote p b id => ft_remote tx = true ∧ b = ft_binding tx ∧ id = ft_token tx
      ∧ parse_flow_key p = Ok (nb_translated b) ∧ validate_packet_checksums p = Ok tt
  | Servfail _ => False
  end.

Lemma rewrite_dns_query_spec packet f tx q : query_packet packet f → flow_ok (nb_translated (ft_binding tx)) →
  rewrite_dns_query packet tx = Ok q → forwarded tx q.
Proof.
  intros [Hok Hp Hudp _] Hf H. unfold rewrite_dns_query in H. apply obind_Ok in H as ([[] p'] & Hr%on_packet_Ok & H).
  apply (rewrite_Ok_inv _ _ f) in Hr as [_ _ Hp' Hv _]; [|done..].
  destruct (ft_remote tx) eqn:Hrem; injection H as <-; simpl; by split_and!.
Qed.

Lemma rewrite_dns_query_no_panic packet tx : bytes_ok packet → flow_ok (nb_translated (ft_binding tx)) →
  no_panic (rewrite_dns_query packet tx).
Proof.
  intros Hok Hf. unfold rewrite_dns_query. pose proof (rewrite_packet_no_panic _ packet Hok Hf) as Hnp.
  unfold on_packet. destruct (rewrite_packet _ packet) as [[[]| |] p']; simpl in *; [|done|done]. by destruct (ft_remote tx).
Qed.

Lemma ensure_post minimum p p' : bytes_ok p → ensure_udp_payload_len minimum p = (Ok tt, p') →
  bytes_ok p' ∧ ∃ pl, udp_payload p' = Ok pl ∧ (minimum ≤ length pl)%nat.
Proof.
  intros Hok Hrun. pose proof Hrun as Hrun'. unfold ensure_udp_payload_len, sbind, sreads in Hrun'.
  destruct (transport_metadata p) as [[[proto off] tl]| |] eqn:Hm; [|done..]. case_decide as Hp; [done|].
  subst proto. destruct (validate_udp_layout p off tl) as [n| |] eqn:Hv; [|done..]. clear Hrun'.
  apply validate_udp_layout_len in Hv as Hn. assert (n = (tl - off)%nat) as -> by lia.
  apply transport_metadata_layout in Hm as Hl; [|done]. pose proof Hl as [Ho Ht _ _ _ _].
  assert (udp_payload p = Ok (sub p (off + 8) tl)) as Hpl.
  { unfold udp_payload, udp_payload_range. rewrite Hm. cbn [obind]. rewrite decide_False by tauto. rewrite Hv. cbn [obind].
    rewrite slice_ok by lia. f_equal. f_equal; lia. }
  destruct (decide (minimum ≤ tl - off - 8)%nat) as [Hle|Hgt].
  - rewrite (ensure_noop p _ minimum Hok Hpl) in Hrun by (rewrite length_sub; lia). injection Hrun as <-.
    split; [done|]. eexists. split; [done|]. rewrite length_sub; lia.
  - apply ensure_udp_payload_len_run with (off := off) (tl := tl) in Hrun; [|done|done|done|lia]. split; [apply Hrun|].
    rewrite (grows_payload p p' off tl (off + 8 + minimum) Hrun) by lia. eexists. split; [done|]. rewrite length_resize. lia.
Qed.

Lemma udp_payload_bytes_ok p pl : bytes_ok p → udp_payload p = Ok pl → bytes_ok pl.
Proof. intros Hok (? & ? & _ & _ & -> & _)%udp_payload_layout; [|done]. auto with rust. Qed.

Lemma answer_flow_ok listen f : socket_ok listen → flow_ok f → flow_ok (answer_flow listen f).
Proof. intros [? ?] (? & ? & ? & ?). by split_and!. Qed.

(** A SERVFAIL never panics, and one that is produced answers the client from the
    listen address with valid checksums. *)
Lemma servfail_spec target p f listen : bytes_ok p → socket_ok listen → flow_ok f →
  match dns_servfail_transmit_to_listen target p f listen with
  | Ok t => io_target t = target ∧ parse_flow_key (io_packet t) = Ok (answer_flow listen f)
      ∧ validate_packet_checksums (io_packet t) = Ok tt
  | Err _ => True
  | Panic => False
  end.
Proof.
  intros Hok Hs Hf. pose proof (answer_flow_ok listen f Hs Hf) as Haf.
  unfold dns_servfail_transmit_to_listen, ensure_minimum_dns_response, on_packet at 1.
  pose proof (ensure_udp_payload_len_no_panic 12 p Hok) as Hnp.
  destruct (ensure_udp_payload_len 12 p) as [[[]| |] p1] eqn:He; [|done|done].
  apply ensure_post in He as (Hok1 & pl & Hpl & H12); [|done]. cbn [obind snd].
  destruct (servfail_header_run pl (udp_payload_bytes_ok _ _ Hok1 Hpl) H12) as (pl' & Hsf & Hlpl & Hokpl').
  destruct (udp_payload_mut_run servfail_header p1 pl tt pl' Hok1 Hpl Hsf Hlpl Hokpl')
    as (off & tl & q & _ & _ & _ & Hmut & _ & Hokq & Hlq & _).
  rewrite (proj2 (on_packet_Ok _ _ _ _) Hmut). cbn [obind snd]. fold (answer_flow listen f).
  pose proof (rewrite_packet_no_panic (answer_flow listen f) q Hokq Haf) as Hnp2.
  unfold on_packet. destruct (rewrite_packet (answer_flow listen f) q) as [[[]| |] q'] eqn:Hrw; [|done|done]. cbn [obind snd io_target io_packet].
  assert (∃ g, parse_flow_key q = Ok g ∧ fk_protocol g = Udp) as (g & Hg & Hgu).
  { unfold rewrite_packet, sbind, sreads in Hrw. destruct (parse_flow_key q) as [g| |]; [|done..]. exists g. split; [done|].
    case_decide as Hd; [done|]. destruct (decide (fk_protocol g = Udp)); [done|]. destruct Hd. by left. }
  apply (rewrite_Ok_inv _ _ g) in Hrw as [_ _ Hp Hv _]; [|done..]. done.
Qed.

(** The invariant is kept by what changes only the sessions' NAT for a token. *)
Lemma allocate_token_cases ports w token selected clock : worker_inv ports w → ephemeral token →
  forward (wnat w) !! token = None →
  ∃ r t', on_sessions (allocate_ephemeral_nat (worker_id w) token selected clock) w = (r, set_w_sessions t' w)
    ∧ owns ports (set_w_sessions t' w) ∧ sessions t' = sessions (w_sessions w)
    ∧ next_session_id t' = next_session_id (w_sessions w)
    ∧ match r with
      | Ok b => forward (nat_table t') = <[token := b]> (forward (wnat w)) ∧ nb_original b = selected
      | Err _ => forward (nat_table t') = forward (wnat w)
      | Panic => False
      end.
Proof.
  intros Hw Heph Hnone. pose proof (wi_owns _ _ _ Hw) as [Ho Hinv Hfl]. unfold on_sessions, szoom. rewrite <- Ho.
  destruct (allocate_ephemeral_nat _ token selected clock (w_sessions w)) as [r t'] eqn:Hrun. exists r, t'.
  pose proof (allocate_ephemeral_inv ports _ _ _ _ _ _ Hinv Heph Hrun) as [Hinv' Heq].
  assert (sessions t' = sessions (w_sessions w)) as Hs by (by rewrite Heq).
  split_and!; [done| |done|by rewrite Heq|].
  - split; simpl; [by rewrite Heq|done|]. rewrite Hs. done.
  - unfold allocate_ephemeral_nat, sbind, sreads, sget, on_nat, smap_err, szoom in Hrun. rewrite ensure_owner_ok in Hrun.
    unfold nat_allocate_at in Hrun. rewrite Hnone in Hrun.
    destruct (snat_for _ selected) as [snat|]; [|by injection Hrun as <- <-].
    destruct (find_first _ _) as [port|]; injection Hrun as <- <-; done.
Qed.

(** A worker whose NAT bindings did not change. *)
Lemma set_sessions_inv ports w t' : worker_inv ports w → owns ports (set_w_sessions t' w) →
  forward (nat_table t') = forward (wnat w) → worker_inv ports (set_w_sessions t' w).
Proof.
  intros [_ Hn Htx Hto Hrv Hdl Hbk Hlk] Hown Hfwd. split; simpl; try done; [|by rewrite Hfwd].
  intros k tx Hk. destruct (Htx k tx Hk) as [? ? ? ?]. split; simpl; [done|by rewrite Hfwd|done|done].
Qed.

(** The resolver a transaction is sent to. *)
Definition resolver_of (config : DnsFlowConfig) (remote : bool) : SocketAddr :=
  if remote then cfg_remote_resolver config else cfg_local_resolver config.

(** A transaction just opened for [packet] on the decided route. *)
Definition opened (config : DnsFlowConfig) (flow : FlowKey) (packet : bytes) (remote : bool) (tx : DnsFlowTransaction) : Prop :=
  ft_remote tx = remote ∧ ft_original_packet tx = packet
  ∧ ft_client tx = mkSocketAddr (fk_source flow) (fk_source_port flow) ∧ ft_dns_vip tx = cfg_listen config
  ∧ fk_destination (nb_translated (ft_binding tx)) = sa_ip (resolver_of config remote)
  ∧ fk_destination_port (nb_translated (ft_binding tx)) = sa_port (resolver_of config remote).

(** The late-response memory: the two maps are inverse, its sequence numbers are
    in the past, and it is bounded. *)
Record completed_inv (w : FlowWorkerState) : Prop := {
  ci_inverse : ∀ f n, dns_completed_reverse w !! f = Some n ↔ dns_completed_order w !! n = Some f;
  ci_past : ∀ n f, dns_completed_order w !! n = Some f → n < next_dns_completed_sequence w;
  ci_bound : (size (dns_completed_reverse w) ≤ DNS_COMPLETED_REVERSE_CAPACITY)%nat;
}.

Lemma forget_run {E} f w : ∃ r o, forget_completed_dns_reverse (E := E) f w
    = (Ok tt, set_w_completed r o (next_dns_completed_sequence w) w)
  ∧ (completed_inv w → completed_inv (set_w_completed r o (next_dns_completed_sequence w) w)).
Proof.
  unfold forget_completed_dns_reverse. destruct (dns_completed_reverse w !! f) as [n|] eqn:Hn.
  - do 2 eexists. split; [done|]. intros [Hi Hp Hb]. split; simpl.
    + intros g m. rewrite !lookup_delete_Some, Hi. apply Hi in Hn. split; intros [Hne Hg]; (split; [|done]).
      * intros <-. congruence.
      * intros <-. apply Hi in Hn, Hg. congruence.
    + intros m g [_ Hg]%lookup_delete_Some. by eapply Hp.
    + pose proof (delete_size_le (dns_completed_reverse w) f). lia.
  - exists (dns_completed_reverse w), (dns_completed_order w). split; [by destruct w|by destruct w].
Qed.

(** What a query may change outside the DNS indexes, and which transactions it
    may add. *)
Record query_frame (new : DnsFlowTransactionKey → DnsFlowTransaction → Prop) (w0 w : FlowWorkerState) : Prop := {
  fr_id : worker_id w = worker_id w0;
  fr_sessions : sessions (w_sessions w) = sessions (w_sessions w0);
  fr_next : next_session_id (w_sessions w) = next_session_id (w_sessions w0);
  fr_token : next_dns_token w0 ≤ next_dns_token w ≤ next_dns_token w0 + 1;
  fr_sequence : next_dns_completed_sequence w = next_dns_completed_sequence w0;
  fr_completed : completed_inv w0 → completed_inv w;
  fr_new : ∀ k tx, dns_by_key w !! k = Some tx → dns_by_key w0 !! k = Some tx ∨ new k tx;
}.

Lemma query_frame_refl new w : query_frame new w w.
Proof. split; auto; lia. Qed.

Lemma query_frame_stats new w0 w f : query_frame new w0 w → query_frame new w0 (set_w_stats f w).
Proof. intros [? ? ? ? ? Hc ?]. split; try done. intros H. by destruct (Hc H). Qed.

(** What happened to a query. *)
Definition query_outcome (ports : gset Z) (config : DnsFlowConfig) (key : DnsFlowTransactionKey) (flow : FlowKey)
    (packet : bytes) (remote : bool) (w : FlowWorkerState) (run : outcome FlowWorkerError HandledDnsQuery * FlowWorkerState) : Prop :=
  worker_inv ports run.2 ∧ query_frame (λ k tx, k = key ∧ opened config flow packet remote tx) w run.2
  ∧ match run.1 with
    | Panic => False
    | Err _ => True
    | Ok (Servfail t) => dns_by_key run.2 = dns_by_key w
        ∧ parse_flow_key (io_packet t) = Ok (answer_flow (cfg_listen config) flow)
        ∧ validate_packet_checksums (io_packet t) = Ok tt
    | Ok q => ∃ tx, dns_by_key run.2 !! key = Some tx ∧ forwarded tx q
        ∧ (dns_by_key run.2 = dns_by_key w
           ∨ dns_by_key run.2 = <[key := tx]> (dns_by_key w)
             ∧ dns_by_key w !! key = None ∧ opened config flow packet remote tx
             ∧ (size (dns_by_key run.2) ≤ cfg_transaction_capacity config)%nat)
    end.

(** A refusal only counts and answers. *)
Lemma refuse_query_run config flow w io packet : bytes_ok packet → socket_ok (cfg_listen config) → flow_ok flow →
  ∃ r f, refuse_query io packet flow config w = (r, set_w_stats f w)
    ∧ match r with
      | Ok (Servfail t) => parse_flow_key (io_packet t) = Ok (answer_flow (cfg_listen config) flow)
          ∧ validate_packet_checksums (io_packet t) = Ok tt
      | Err _ => True
      | _ => False
      end.
Proof.
  intros Hok Hsock Hf. unfold refuse_query, sbind. rewrite bump_run. unfold packet_try, slift, sret, dns_servfail_transmit.
  pose proof (servfail_spec io packet flow (cfg_listen config) Hok Hsock Hf) as Hsf.
  destruct (dns_servfail_transmit_to_listen io packet flow (cfg_listen config)) as [t| |]; simpl;
    [|by do 2 eexists|done]. do 2 eexists. split; [done|]. split; apply Hsf.
Qed.

Lemma refuse_query_spec ports config key flow remote w0 w io packet : worker_inv ports w →
  query_frame (λ k tx, k = key ∧ opened config flow packet remote tx) w0 w → dns_by_key w = dns_by_key w0 →
  bytes_ok packet → socket_ok (cfg_listen config) → flow_ok flow →
  query_outcome ports config key flow packet remote w0 (refuse_query io packet flow config w).
Proof.
  intros Hw Hfr Hk Hok Hsock Hf. destruct (refuse_query_run config flow w io packet Hok Hsock Hf) as (r & f & -> & Hr).
  unfold query_outcome. cbn [fst snd]. split_and!; [by apply set_w_stats_inv|by apply query_frame_stats|].
  by destruct r as [[]| |].
Qed.

(** The worker after the bookkeeping of a new transaction. *)
Lemma open_transaction_spec ports config key flow w0 w io packet client token b remote now t' :
  worker_inv ports w → dns_by_key w !! key = None →
  session_raw token = 2 ^ 63 + next_dns_token w - 1 → 1 < next_dns_token w →
  (∀ k x, dns_by_key w !! k = Some x → session_raw (ft_token x) < 2 ^ 63 + next_dns_token w - 1) →
  owns ports (set_w_sessions t' w) → forward (nat_table t') = <[token := b]> (forward (wnat w)) →
  query_packet packet flow → client = mkSocketAddr (fk_source flow) (fk_source_port flow) →
  flow_ok (nb_original b) → fk_protocol (nb_original b) = Udp →
  fk_destination (nb_original b) = sa_ip (resolver_of config remote) →
  fk_destination_port (nb_original b) = sa_port (resolver_of config remote) →
  query_frame (λ k tx, k = key ∧ opened config flow packet remote tx) w0 (set_w_sessions t' w) →
  dns_by_key w = dns_by_key w0 → (size (dns_by_key w) < cfg_transaction_capacity config)%nat →
  query_outcome ports config key flow packet remote w0
    (open_transaction io packet config key client token b remote now (set_w_sessions t' w)).
Proof.
  intros Hw Hk0 Htok H1 Hold Hown Hfwd Hq Hcl Hfo Hudp Hd1 Hd2 Hfr Hk Hcap.
  set (tx := mkDnsFlowTransaction token client (cfg_listen config) b io remote now (now + cfg_timeout config) packet).
  pose proof (register_inv ports w key tx t' Hw Hk0 Htok H1 Hold Hown Hfwd
    (ex_intro _ flow (conj Hq Hcl)) (conj Hfo Hudp)) as Hinv.
  assert (flow_ok (nb_translated b)) as Hft.
  { eapply (binding_flow_ok _ _ (nat_table t') token); [apply (si_nat _ _ _ (ow_inv _ _ Hown))| |done].
    by rewrite Hfwd, lookup_insert_eq. }
  assert (opened config flow packet remote tx) as Hop.
  { destruct (inv_shape _ _ _ (si_nat _ _ _ (ow_inv _ _ Hown)) token b) as (snat & _ & Ht);
      [simpl; by rewrite Hfwd, lookup_insert_eq|]. unfold opened. simpl. rewrite Ht. unfold translate. by split_and!. }
  unfold open_transaction. cbv zeta. fold tx. unfold sbind at 1.
  destruct (forget_run (E := FlowWorkerError) (reverse (nb_translated b)) (set_w_sessions t' w)) as (r & o & -> & Hci).
  unfold sbind at 1, sget at 1. unfold sbind at 1, sput at 1. unfold sbind at 1, record_active at 1.
  unfold sbind at 1. rewrite bump_run. unfold packet_try, slift.
  set (w' := set_w_stats _ _).
  assert (worker_inv ports w') as Hw'.
  { do 2 apply set_w_stats_inv. apply (set_w_completed_inv _ _ r o (next_dns_completed_sequence w)) in Hinv. exact Hinv. }
  assert (query_frame (λ k tx, k = key ∧ opened config flow packet remote tx) w0 w') as Hfr'.
  { do 2 apply query_frame_stats. destruct Hfr as [? ? ? ? ? Hc Hnew]. split; simpl; try done.
    - intros H0. by destruct (Hci (Hc H0)).
    - intros k x [[<- <-]|[_ Hx]]%lookup_insert_Some; [by right|]. left. congruence. }
  pose proof (rewrite_dns_query_no_panic packet tx (qp_ok _ _ Hq) Hft) as Hnp.
  unfold query_outcome. cbn [fst snd]. split; [done|]. split; [done|].
  destruct (rewrite_dns_query packet tx) as [q| |] eqn:Hrw; simpl; [|done|done].
  apply (rewrite_dns_query_spec _ flow) in Hrw; [|done|done].
  assert (∃ tx', <[key:=tx]> (dns_by_key w) !! key = Some tx' ∧ forwarded tx' q ∧
    (<[key:=tx]> (dns_by_key w) = dns_by_key w0 ∨ <[key:=tx]> (dns_by_key w) = <[key:=tx']> (dns_by_key w0)
      ∧ dns_by_key w0 !! key = None ∧ opened config flow packet remote tx'
      ∧ (size (<[key:=tx]> (dns_by_key w)) ≤ cfg_transaction_capacity config)%nat)) as Hres.
  { exists tx. rewrite lookup_insert_eq. split_and!; [done|done|right]. rewrite Hk. split_and!; [done|congruence|done|].
    rewrite <- Hk, map_size_insert_None by done. lia. }
  destruct q; [exact Hres|exact Hres|done].
Qed.

Lemma route_query_spec ports config key flow w0 w io packet client remote now clock :
  worker_inv ports w → next_dns_token w < 2 ^ 62 → dns_by_key w !! key = None →
  query_packet packet flow → client = mkSocketAddr (fk_source flow) (fk_source_port flow) →
  socket_ok (resolver_of config remote) → socket_ok (cfg_listen config) →
  (∃ f, w = set_w_stats f w0) →
  query_outcome ports config key flow packet remote w0
    (route_query io packet flow config key client (resolver_of config remote) remote now clock w).
Proof.
  intros Hw Hlt Hk0 Hq Hcl [Hr1 Hr2] Hls [f0 Hw0]. pose proof Hq as [Hok Hp _ _].
  pose proof (parse_flow_ok _ _ Hok Hp) as Hfl. pose proof (wi_next _ _ _ Hw) as Hn. unfold route_query.
  set (new := λ k tx, k = key ∧ opened config flow packet remote tx).
  assert (query_frame new w0 w) as Hfr by (rewrite Hw0; apply query_frame_stats, query_frame_refl).
  assert (dns_by_key w = dns_by_key w0) as Hk by (by rewrite Hw0).
  destruct (remote && negb (cfg_remote_available config)); [by apply refuse_query_spec|].
  unfold sbind at 1, sget at 1. destruct (decide (cfg_transaction_capacity config ≤ size (dns_by_key w))%nat) as [Hc|Hc].
  { unfold sbind at 1. rewrite bump_run. apply refuse_query_spec; try done; [by apply set_w_stats_inv|by apply query_frame_stats]. }
  unfold sbind at 1. rewrite next_token_run by lia. cbv zeta.
  set (token := mkSessionId (2 ^ 63 + next_dns_token w)). set (selected := mkFlowKey _ _ _ _ Udp).
  pose proof (bump_token_inv ports w Hw Hlt) as Hw1.
  assert (ephemeral token) as Heph by (unfold ephemeral, token; simpl; lia).
  assert (forward (wnat (bump_token w)) !! token = None) as Hnone.
  { apply eq_None_not_Some. intros [b Hb]. destruct (wi_leak _ _ _ Hw token b Hb Heph) as (k & x & Hx & Htok).
    pose proof (to_token _ _ (wi_tx _ _ _ Hw k x Hx)) as Ht. rewrite Htok in Ht. simpl in Ht. lia. }
  destruct (allocate_token_cases ports (bump_token w) token selected clock Hw1 Heph Hnone)
    as (r & t' & -> & Hown & Hst & Hnx & Hr).
  assert (query_frame new w0 (set_w_sessions t' (bump_token w))) as Hfr1.
  { destruct Hfr as [? ? ? ? ? Hci ?]. subst w. split; simpl in *; try done; [lia|].
    intros H. by destruct (Hci H). }
  destruct r as [b|e|]; [| |done].
  - destruct Hr as [Hfwd Hbo]. eapply (open_transaction_spec ports config key flow w0 (bump_token w)); try done;
      simpl; rewrite ?Hbo; simpl; try lia; try done.
    + intros k x Hx. pose proof (to_token _ _ (wi_tx _ _ _ Hw k x Hx)). lia.
    + destruct Hfl as (? & ? & ? & ?). by split_and!.
  - assert (query_outcome ports config key flow packet remote w0 (Err (SessionErr e), set_w_sessions t' (bump_token w))) as Herr.
    { split_and!; [by apply set_sessions_inv|done|done]. }
    destruct e as [| |[]]; try exact Herr. clear Herr.
    unfold sbind at 1. rewrite bump_run. apply refuse_query_spec; try done.
    + by apply set_w_stats_inv, set_sessions_inv.
    + by apply query_frame_stats.
Qed.
