(* ===== verification/WorkerTheorems.v ===== *)
(** The worker's handlers as a whole: a client packet, its reply, a DNS query, its
    response and the timeouts, with the late-response memory and its bound. *)
From S2P Require Import Prelude Net Checksum Packet PacketFacts PacketRewrite PacketProps PacketTheorems.
From S2P Require Import NatTable NatProps Session SessionProps SessionTheorems QuicFlow Dns DnsProps Worker WorkerProps WorkerDns.

#[local] Arguments Nat.add : simpl never.
#[local] Arguments Nat.mul : simpl never.

(** ** A DNS query *)

Lemma on_packet_no_panic {A} (c : ST bytes PacketError A) p : no_panic (c p).1 → no_panic (on_packet c p).
Proof. unfold on_packet. by destruct (c p) as [[] ?]. Qed.

Lemma edns_clamp_ok_run pl : bytes_ok pl →
  ∃ c pl', edns_clamp_ok pl = (Ok c, pl') ∧ length pl' = length pl ∧ bytes_ok pl'.
Proof.
  intros Hok. destruct (clamp_edns_run pl Hok) as (Hnp & [Hok' Hl _] & _). unfold edns_clamp_ok.
  destruct (clamp_edns_udp_payload pl) as [[]]; simpl in *; [by do 2 eexists|by do 2 eexists|done].
Qed.

(** The EDNS clamp of a packet keeps its flow. *)
Lemma edns_clamp_packet_spec p f pl : bytes_ok p → parse_flow_key p = Ok f → fk_protocol f = Udp → udp_payload p = Ok pl →
  match edns_clamp_packet p with
  | Ok (_, q) => bytes_ok q ∧ parse_flow_key q = Ok f
  | Err _ => True
  | Panic => False
  end.
Proof.
  intros Hok Hp Hudp Hpl. unfold edns_clamp_packet. rewrite Hp. cbn [obind].
  destruct (edns_clamp_ok_run pl (udp_payload_bytes_ok _ _ Hok Hpl)) as (c & pl' & Hc & Hl & Hok').
  destruct (udp_payload_mut_run edns_clamp_ok p pl c pl' Hok Hpl Hc Hl Hok')
    as (off & tl & q & Hlay & _ & _ & Hmut & _ & Hokq & Hlq & Hlow).
  rewrite (proj2 (on_packet_Ok _ _ _ _) Hmut). cbn [obind fst snd].
  destruct (decide (c = Some true)); [|done].
  destruct (udp_edit_parse p q f off tl Hok Hokq Hlq Hlay Hp Hlow) as [Hpq _].
  pose proof (parse_flow_ok _ _ Hok Hp) as Hf. pose proof (rewrite_packet_no_panic f q Hokq Hf) as Hnp.
  unfold on_packet. destruct (rewrite_packet f q) as [[[]| |] q'] eqn:Hrw; cbn [obind snd]; [|done|done].
  apply (rewrite_Ok_inv _ _ f) in Hrw as [_ ? ? _ _]; done.
Qed.

Lemma parse_question_length pl : is_ok (parse_question pl) = true → (12 ≤ length pl)%nat.
Proof.
  unfold parse_question, dns_header. destruct (get_range pl 0 12) eqn:Hg; [|done]. apply get_range_Some in Hg. lia.
Qed.

(** A query the configuration sends to the remote resolver: its sections are well
    formed and its name is under one of the remote domains. *)
Definition remote_query (config : DnsFlowConfig) (packet : bytes) : Prop :=
  ∃ pl question, udp_payload packet = Ok pl ∧ validate_query pl = Ok question
    ∧ rules_match (cfg_remote_domains config) (qname question) = true.

(** A transaction opened for the client of [packet], which was sent to the listen
    address. *)
Definition opened_for (config : DnsFlowConfig) (packet : bytes) (tx : DnsFlowTransaction) : Prop :=
  ∃ flow, parse_flow_key packet = Ok flow ∧ fk_destination flow = sa_ip (cfg_listen config)
    ∧ ft_client tx = mkSocketAddr (fk_source flow) (fk_source_port flow) ∧ ft_dns_vip tx = cfg_listen config.

(** What [handle_dns_query_at] did with [packet]. *)
Definition query_handled (ports : gset Z) (config : DnsFlowConfig) (io : IoOwnerKey) (packet : bytes)
    (w : FlowWorkerState) (run : outcome FlowWorkerError HandledDnsQuery * FlowWorkerState) : Prop :=
  worker_inv ports run.2 ∧ query_frame (λ _, opened_for config packet) w run.2
  ∧ match run.1 with
    | Panic => False
    | Err _ => True
    | Ok (Servfail t) => dns_by_key run.2 = dns_by_key w ∧ ∃ flow, parse_flow_key packet = Ok flow
        ∧ parse_flow_key (io_packet t) = Ok (answer_flow (cfg_listen config) flow)
        ∧ validate_packet_checksums (io_packet t) = Ok tt
    | Ok q => ∃ flow prepared edns packet' pl key tx, parse_flow_key packet = Ok flow
        ∧ on_packet prepare_forwarded_packet packet = Ok (tt, prepared)
        ∧ edns_clamp_packet prepared = Ok (edns, packet') ∧ udp_payload packet' = Ok pl
        ∧ fk_io_owner key = io
        ∧ transaction_key (mkSocketAddr (fk_source flow) (fk_source_port flow)) pl = Ok (fk_dns key)
        ∧ dns_by_key run.2 !! key = Some tx ∧ forwarded tx q
        ∧ (dns_by_key run.2 = dns_by_key w
           ∨ dns_by_key w !! key = None ∧ dns_by_key run.2 = <[key := tx]> (dns_by_key w)
             ∧ (size (dns_by_key run.2) ≤ cfg_transaction_capacity config)%nat
             ∧ opened config flow packet' (ft_remote tx) tx
             ∧ (ft_remote tx = true ↔ edns ≠ None ∧ remote_query config packet'))
    end.

Lemma query_err ports config io packet w w1 e : worker_inv ports w1 → query_frame (λ _, opened_for config packet) w w1 →
  query_handled ports config io packet w (Err e, w1).
Proof. intros. by split_and!. Qed.

Lemma query_refused ports config io packet p1 flow w w1 : worker_inv ports w1 →
  query_frame (λ _, opened_for config packet) w w1 → dns_by_key w1 = dns_by_key w →
  bytes_ok p1 → socket_ok (cfg_listen config) → parse_flow_key packet = Ok flow → flow_ok flow →
  query_handled ports config io packet w (refuse_query io p1 flow config w1).
Proof.
  intros Hw Hfr Hk Hok Hsock Hp Hf. destruct (refuse_query_run config flow w1 io p1 Hok Hsock Hf) as (r & f & -> & Hr).
  unfold query_handled. cbn [fst snd]. split_and!; [by apply set_w_stats_inv|by apply query_frame_stats|].
  destruct r as [[]| |]; [done|done|split; [done|by exists flow]|done|done].
Qed.

Lemma query_frame_impl (new new' : DnsFlowTransactionKey → DnsFlowTransaction → Prop) w0 w :
  (∀ k tx, new k tx → new' k tx) → query_frame new w0 w → query_frame new' w0 w.
Proof. intros Himpl [? ? ? ? ? ? Hnew]. split; try done. intros k tx [?|?]%Hnew; auto. Qed.

(** The route taken agrees with the configured domains. *)
Lemma query_routed ports config io packet p1 p2 edns flow pl dns_key remote w run :
  parse_flow_key packet = Ok flow → fk_destination flow = sa_ip (cfg_listen config) →
  on_packet prepare_forwarded_packet packet = Ok (tt, p1) →
  edns_clamp_packet p1 = Ok (edns, p2) → udp_payload p2 = Ok pl →
  transaction_key (mkSocketAddr (fk_source flow) (fk_source_port flow)) pl = Ok dns_key →
  (remote = true ↔ edns ≠ None ∧ remote_query config p2) →
  query_outcome ports config (mkDnsFlowKey io dns_key) flow p2 remote w run → query_handled ports config io packet w run.
Proof.
  intros Hp Hdst Hprep Hed Hpl Hkey Hrem (Hinv & Hfr & Hq).
  split_and!; [done| |].
  { eapply query_frame_impl, Hfr. intros k tx (_ & _ & _ & Hc & Hv & _). by exists flow. }
  set (key := mkDnsFlowKey io dns_key) in *.
  assert (∀ tx, (dns_by_key run.2 = dns_by_key w ∨ dns_by_key run.2 = <[key := tx]> (dns_by_key w)
      ∧ dns_by_key w !! key = None ∧ opened config flow p2 remote tx
      ∧ (size (dns_by_key run.2) ≤ cfg_transaction_capacity config)%nat) →
    (dns_by_key run.2 = dns_by_key w
       ∨ dns_by_key w !! key = None ∧ dns_by_key run.2 = <[key := tx]> (dns_by_key w)
         ∧ (size (dns_by_key run.2) ≤ cfg_transaction_capacity config)%nat
         ∧ opened config flow p2 (ft_remote tx) tx ∧ (ft_remote tx = true ↔ edns ≠ None ∧ remote_query config p2))) as Hcase.
  { intros tx [?|(H1 & H2 & H3 & H4)]; [by left|right]. pose proof H3 as [-> _]. by split_and!. }
  destruct run as [[q| |] w']; cbn [fst snd] in *; [|done|done].
  destruct q as [t b i|pk b i|t].
  - destruct Hq as (tx & Htx & Hfw & Hd). exists flow, p1, edns, p2, pl, key, tx. split_and!; try done. by apply Hcase.
  - destruct Hq as (tx & Htx & Hfw & Hd). exists flow, p1, edns, p2, pl, key, tx. split_and!; try done. by apply Hcase.
  - destruct Hq as (Hd & Hpt & Hv). split; [done|]. by exists flow.
Qed.

(** A retransmission is forwarded under its transaction. *)
Lemma query_repeated ports config key flow packet remote w0 w tx : worker_inv ports w → dns_by_key w !! key = Some tx →
  query_frame (λ k tx, k = key ∧ opened config flow packet remote tx) w0 w → dns_by_key w = dns_by_key w0 →
  query_packet packet flow → query_outcome ports config key flow packet remote w0 (packet_try (rewrite_dns_query packet tx) w).
Proof.
  intros Hw Hk Hfr Hk0 Hq. pose proof (wi_tx _ _ _ Hw _ _ Hk) as [_ Hb _ [Hfo _]].
  pose proof (binding_flow_ok _ _ _ _ _ (si_nat _ _ _ (ow_inv _ _ (wi_owns _ _ _ Hw))) Hb Hfo) as Hft.
  pose proof (rewrite_dns_query_no_panic packet tx (qp_ok _ _ Hq) Hft) as Hnp. unfold packet_try, slift, query_outcome.
  cbn [fst snd]. split_and!; [done..|]. destruct (rewrite_dns_query packet tx) as [q| |] eqn:Hrw; simpl; [|done|done].
  apply (rewrite_dns_query_spec _ flow) in Hrw; [|done|done].
  destruct q; [exists tx; split_and!; [done|done|by left]..|done].
Qed.

(** The decision of [classify_query]. *)
Lemma classify_cases pl rules : ∃ r, classify_query pl rules = Ok r
  ∧ match r with
    | Remote _ => ∃ q, validate_query pl = Ok q ∧ rules_match rules (qname q) = true
    | _ => ∀ q, validate_query pl = Ok q → rules_match rules (qname q) = false
    end.
Proof.
  unfold classify_query. pose proof (validate_message_no_panic pl false) as Hnp. unfold validate_query in *.
  destruct (validate_message pl false) as [q| |]; [|by eexists|done].
  destruct (rules_match rules (qname q)) eqn:Hm; eexists; (split; [done|]); [by exists q|by intros ? [= <-]].
Qed.

Section query.
Context (ports : gset Z) (config : DnsFlowConfig) (io : IoOwnerKey) (packet : bytes) (now clock : Z) (w : FlowWorkerState).
Hypotheses (Hw : worker_inv ports w) (Hlt : next_dns_token w < 2 ^ 62) (Hok : bytes_ok packet)
  (Hlisten : socket_ok (cfg_listen config)) (Hlocal : socket_ok (cfg_local_resolver config))
  (Hremote : socket_ok (cfg_remote_resolver config)).

(** The end of the handler, where the question is known. *)
Lemma query_tail p1 edns p2 flow pl dns_key w1 : (∃ f, w1 = set_w_stats f w) →
  parse_flow_key packet = Ok flow → fk_destination flow = sa_ip (cfg_listen config) →
  on_packet prepare_forwarded_packet packet = Ok (tt, p1) →
  edns_clamp_packet p1 = Ok (edns, p2) → udp_payload p2 = Ok pl → query_packet p2 flow →
  transaction_key (mkSocketAddr (fk_source flow) (fk_source_port flow)) pl = Ok dns_key →
  query_handled ports config io packet w
    (match dns_by_key w1 !! mkDnsFlowKey io dns_key with
     | Some transaction => packet_try (rewrite_dns_query p2 transaction)
     | None =>
         let! route := (if bool_decide (edns = None) then sret LocalFallback
                        else dns_try (classify_query pl (cfg_remote_domains config)) (DnsErr NotDnsQuery)) in
         match route with
         | Remote _ => route_query io p2 flow config (mkDnsFlowKey io dns_key) (mkSocketAddr (fk_source flow) (fk_source_port flow))
                         (cfg_remote_resolver config) true now clock
         | Local _ => route_query io p2 flow config (mkDnsFlowKey io dns_key) (mkSocketAddr (fk_source flow) (fk_source_port flow))
                         (cfg_local_resolver config) false now clock
         | LocalFallback =>
             bump dns_malformed_local_fallback ;;;
             route_query io p2 flow config (mkDnsFlowKey io dns_key) (mkSocketAddr (fk_source flow) (fk_source_port flow))
                         (cfg_local_resolver config) false now clock
         end
     end w1).
Proof using Hw Hlt Hlisten Hlocal Hremote.
  intros Hw1 Hp Hdst Hprep Hed Hpl Hqp Hkey.
  assert (worker_inv ports w1 ∧ dns_by_key w1 = dns_by_key w ∧ next_dns_token w1 = next_dns_token w) as (Hi1 & Hk & Hn).
  { destruct Hw1 as [f ->]; split_and!; try done. by apply set_w_stats_inv. }
  assert (∀ s, ∃ f, (bump (E := FlowWorkerError) s w1).2 = set_w_stats f w) as Hbump.
  { destruct Hw1 as [f ->]. intros s. by eexists. }
  pose proof (λ remote run, query_routed ports config io packet p1 p2 edns flow pl dns_key remote w run
    Hp Hdst Hprep Hed Hpl Hkey) as Hrouted.
  destruct (dns_by_key w1 !! mkDnsFlowKey io dns_key) as [tx|] eqn:Htx.
  { assert (∀ remote, query_outcome ports config (mkDnsFlowKey io dns_key) flow p2 remote w
      (packet_try (rewrite_dns_query p2 tx) w1)) as Hrep.
    { intros remote. apply query_repeated; try done. destruct Hw1 as [f ->]. apply query_frame_stats, query_frame_refl. }
    destruct (classify_cases pl (cfg_remote_domains config)) as (r & _ & Hr).
    destruct (decide (edns = None)) as [He|He]; [by apply (Hrouted false); [split; [done|tauto]|apply Hrep]|].
    destruct r; [apply (Hrouted false)|apply (Hrouted true)|apply (Hrouted false)]; try apply Hrep;
      unfold remote_query; rewrite Hpl; naive_solver congruence. }
  case_bool_decide as He.
  - unfold sbind at 1, sret at 1. unfold sbind at 1. rewrite bump_run. apply (Hrouted false); [split; [done|tauto]|].
    apply (route_query_spec ports config _ flow w); try done; [by apply set_w_stats_inv|simpl; lia|apply Hbump].
  - destruct (classify_cases pl (cfg_remote_domains config)) as (r & Hr & Hcase).
    unfold sbind at 1, dns_try at 1, slift at 1. rewrite Hr. cbn [map_err].
    assert (remote_query config p2 ↔ ∃ q, validate_query pl = Ok q ∧ rules_match (cfg_remote_domains config) (qname q) = true) as Hrq.
    { unfold remote_query. rewrite Hpl. naive_solver. }
    destruct r as [q|q|].
    + apply (Hrouted false); [rewrite Hrq; naive_solver congruence|].
      apply (route_query_spec ports config _ flow w); try done. lia.
    + apply (Hrouted true); [rewrite Hrq; naive_solver congruence|].
      apply (route_query_spec ports config _ flow w); try done. lia.
    + unfold sbind at 1. rewrite bump_run. apply (Hrouted false); [rewrite Hrq; naive_solver congruence|].
      apply (route_query_spec ports config _ flow w); try done; [by apply set_w_stats_inv|simpl; lia|apply Hbump].
Qed.

(** One fallible packet step of the handler. *)
Lemma query_step {A} (c : outcome PacketError A) k w1 : (∃ f, w1 = set_w_stats f w) → no_panic c →
  (∀ a, c = Ok a → query_handled ports config io packet w (k a w1)) →
  query_handled ports config io packet w (sbind (packet_try c) k w1).
Proof using Hw.
  intros [f ->] Hnp Hk. unfold sbind, packet_try, slift. destruct c as [a| |]; simpl; [by apply Hk| |done].
  apply query_err; [by apply set_w_stats_inv|apply query_frame_stats, query_frame_refl].
Qed.

Lemma handle_dns_query_spec : query_handled ports config io packet w (handle_dns_query_at io packet config now clock w).
Proof using All.
  assert (∃ f, w = set_w_stats f w) as Hself by (exists (w_stats w); by destruct w).
  pose proof (query_frame_refl (λ _, opened_for config packet) w) as Hfr.
  unfold handle_dns_query_at. apply query_step; [done|by apply on_packet_no_panic, prepare_no_panic|].
  intros [[] p1] Hprep. cbv zeta. cbn [snd]. pose proof Hprep as Hpr%on_packet_Ok.
  apply prepare_spec in Hpr as (_ & _ & _ & _ & Hpp & _ & _ & _ & Hok1); [|done].
  apply query_step; [done|by apply parse_flow_key_no_panic|]. intros flow Hflow.
  pose proof (parse_flow_ok _ _ Hok1 Hflow) as Hfo.
  assert (parse_flow_key packet = Ok flow) as Hp by congruence.
  destruct (decide (fk_protocol flow ≠ Udp ∨ _)) as [Hd|Hd]; [by apply query_err|].
  assert (fk_protocol flow = Udp ∧ fk_destination flow = sa_ip (cfg_listen config)) as [Hudp Hdst].
  { split; [destruct (decide (fk_protocol flow = Udp))|destruct (decide (fk_destination flow = sa_ip (cfg_listen config)))]; tauto. }
  clear Hd. apply query_step; [done|by apply is_fragmented_no_panic|]. intros [] _; [by apply query_refused|].
  apply query_step; [done|by apply udp_payload_no_panic|]. intros pl0 Hpl0.
  destruct (decide (DNS_PAYLOAD_MAX < Z.of_nat (length pl0))); [by apply query_refused|].
  pose proof (edns_clamp_packet_spec p1 flow pl0 Hok1 Hflow Hudp Hpl0) as Hed.
  apply query_step; [done|by destruct (edns_clamp_packet p1)|]. intros [edns p2] Hedns. rewrite Hedns in Hed.
  destruct Hed as [Hok2 Hp2]. cbn [fst snd].
  assert (∃ f, (if decide (edns = Some true) then bump (E := FlowWorkerError) dns_edns_clamped else sret tt) w
    = (Ok tt, set_w_stats f w)) as (f & Hw1).
  { destruct (decide (edns = Some true)); [by eexists|]. exists (w_stats w). by destruct w. }
  unfold sbind at 1. rewrite Hw1. clear Hw1.
  apply query_step; [by eexists|by apply udp_payload_no_panic|]. intros pl Hpl.
  destruct (is_ok (parse_question pl)) eqn:Hq; cbn [negb];
    [|by apply query_refused; [apply set_w_stats_inv|apply query_frame_stats|..]].
  apply parse_question_length in Hq.
  pose proof (transaction_key_no_panic (mkSocketAddr (fk_source flow) (fk_source_port flow)) pl) as Hnp.
  unfold sbind at 1, dns_try at 1, slift at 1.
  destruct (transaction_key _ pl) as [dns_key| |] eqn:Hkey; cbn [map_err];
    [|by apply query_err; [apply set_w_stats_inv|apply query_frame_stats]|done].
  unfold sbind at 1, sget at 1. eapply query_tail; try done; [by eexists|]. split; try done. by exists pl.
Qed.
End query.
