(* ===== verification/WorkerRun.v ===== *)
(** The worker as a whole: the late-response memory, DNS responses, and runs of any
    sequence of handlers, which keep the worker's invariant and never panic. *)
From S2P Require Import Prelude Net Checksum Packet PacketFacts PacketRewrite PacketProps PacketTheorems.
From S2P Require Import NatTable NatProps Session SessionProps SessionTheorems QuicFlow Dns DnsProps Worker WorkerProps WorkerDns WorkerTheorems.

#[local] Arguments Nat.add : simpl never.
#[local] Arguments Nat.mul : simpl never.

(** ** The late-response memory *)

Lemma evict_fits {E} fuel r o : (size r ≤ DNS_COMPLETED_REVERSE_CAPACITY)%nat → evict_completed (E := E) fuel r o = Ok (r, o).
Proof. intros Hle. destruct fuel; cbn [evict_completed]; by rewrite decide_True. Qed.

(** One entry too many: the oldest goes. *)
Lemma evict_one {E} (r : gmap FlowKey Z) (o : gmap Z FlowKey) :
  (∀ f n, r !! f = Some n ↔ o !! n = Some f) → (size r = S DNS_COMPLETED_REVERSE_CAPACITY) →
  ∃ f n, r !! f = Some n ∧ (∀ g m, r !! g = Some m → n ≤ m)
    ∧ evict_completed (E := E) (size o) r o = Ok (delete f r, delete n o).
Proof.
  intros Hinv Hsz. assert (r ≠ ∅) as [f0 [n0 Hr0]]%map_choose.
  { intros ->. rewrite map_size_empty in Hsz. discriminate. }
  assert (size o ≠ 0)%nat as Ho.
  { intros ->%map_size_empty_inv. apply Hinv in Hr0. by rewrite lookup_empty in Hr0. }
  destruct (size o) as [|fuel]; [done|]. cbn [evict_completed]. rewrite decide_False by lia.
  destruct (ascending (dom o)) as [|n rest] eqn:Ha.
  { assert (n0 ∈ dom o) as Hin by (apply elem_of_dom; exists f0; by apply Hinv).
    rewrite <- elem_of_ascending, Ha in Hin. by apply not_elem_of_nil in Hin. }
  assert (n ∈ dom o) as [f Hf]%elem_of_dom by (rewrite <- elem_of_ascending, Ha; apply list_elem_of_here).
  rewrite Hf. cbn [expect obind]. pose proof Hf as Hr%Hinv. rewrite decide_True by done.
  exists f, n. split_and!; [done| |].
  - intros g m Hg%Hinv. pose proof (ascending_sorted (dom o)) as Hs. rewrite Ha in Hs.
    apply StronglySorted_inv in Hs as [_ Hs]. assert (m ∈ ascending (dom o)) as Hm.
    { apply elem_of_ascending, elem_of_dom. by exists g. }
    rewrite Ha in Hm. apply elem_of_cons in Hm as [->|Hm]; [lia|]. by eapply Forall_forall in Hs.
  - apply evict_fits. rewrite map_size_delete, Hr, Hsz. simpl. lia.
Qed.

Lemma remember_run {E} f w : completed_inv w → 1 ≤ next_dns_completed_sequence w < 2 ^ 64 - 1 →
  ∃ r o, remember_completed_dns_reverse (E := E) f w = (Ok tt, set_w_completed r o (next_dns_completed_sequence w + 1) w)
    ∧ completed_inv (set_w_completed r o (next_dns_completed_sequence w + 1) w)
    ∧ r !! f = Some (next_dns_completed_sequence w)
    ∧ (∀ g n, g ≠ f → r !! g = Some n → dns_completed_reverse w !! g = Some n)
    ∧ (∀ g n, g ≠ f → dns_completed_reverse w !! g = Some n → r !! g = None → ∀ g' n', r !! g' = Some n' → n < n').
Proof.
  intros [Hinv Hpast Hbound] Hseq. unfold remember_completed_dns_reverse. cbv zeta.
  set (n := next_dns_completed_sequence w) in *.
  set (o1 := match dns_completed_reverse w !! f with Some previous => _ | None => _ end).
  set (r1 := <[f := n]> (dns_completed_reverse w)). set (o2 := <[n := f]> o1).
  replace (Z.max (wrap 64 (n + 1)) 1) with (n + 1) by (unfold wrap; rewrite Z.mod_small; lia).
  assert (∀ m g, o1 !! m = Some g ↔ dns_completed_order w !! m = Some g ∧ g ≠ f) as Ho1.
  { intros m g. unfold o1. destruct (dns_completed_reverse w !! f) as [prev|] eqn:Hprev.
    - rewrite lookup_delete_Some. apply Hinv in Hprev. split; intros [H1 H2]; (split; [|]); try done.
      + intros ->. apply Hinv in H2, Hprev. congruence.
      + intros <-. congruence.
    - split; [|tauto]. intros Hm. split; [done|]. intros ->. apply Hinv in Hm. congruence. }
  assert (∀ g m, r1 !! g = Some m ↔ o2 !! m = Some g) as Hinv1.
  { intros g m. unfold r1, o2. rewrite !lookup_insert_Some, Ho1, <- Hinv. split.
    - intros [[<- <-]|[Hne Hg]]; [by left|right]. split; [|done].
      intros <-. apply Hinv, Hpast in Hg. unfold n in Hg. lia.
    - intros [[<- <-]|[Hne [Hg Hgf]]]; [by left|right]. done. }
  assert (∀ m g, o2 !! m = Some g → m < n + 1) as Hpast1.
  { intros m g. unfold o2. rewrite lookup_insert_Some, Ho1. intros [[<- _]|[_ [Hm%Hpast _]]]; unfold n in *; lia. }
  destruct (decide (size r1 ≤ DNS_COMPLETED_REVERSE_CAPACITY)%nat) as [Hle|Hgt].
  - rewrite evict_fits by done. exists r1, o2. split_and!; [done|by split|unfold r1; by rewrite lookup_insert_eq| |].
    + intros g m Hg. unfold r1. by rewrite lookup_insert_ne.
    + intros g m Hg Hm. unfold r1. rewrite lookup_insert_ne by done. congruence.
  - assert (size r1 = S DNS_COMPLETED_REVERSE_CAPACITY) as Hsz.
    { unfold r1 in *. rewrite map_size_insert in *. destruct (dns_completed_reverse w !! f); simpl in *; lia. }
    destruct (evict_one (E := E) r1 o2 Hinv1 Hsz) as (e & m & He & Hmin & ->).
    assert (e ≠ f) as Hef.
    { intros ->. unfold r1 in He. rewrite lookup_insert_eq in He. injection He as <-.
      assert (size (dns_completed_reverse w) ≠ 0)%nat as Hne.
      { unfold r1 in Hsz. rewrite map_size_insert in Hsz. unfold DNS_COMPLETED_REVERSE_CAPACITY in Hsz.
        destruct (dns_completed_reverse w !! f); simpl in Hsz; lia. }
      destruct (dns_completed_reverse w !! f) as [prev|] eqn:Hp.
      { unfold r1 in Hsz. rewrite map_size_insert, Hp in Hsz. simpl in Hsz. lia. }
      apply map_size_ne_0_lookup in Hne as [g [x Hg]]. assert (g ≠ f) by congruence.
      assert (n ≤ x) by (apply (Hmin g); unfold r1; by rewrite lookup_insert_ne).
      apply Hinv, Hpast in Hg. unfold n in *. lia. }
    exists (delete e r1), (delete m o2). split_and!; [done| | | |].
    + split; simpl.
      * intros g x. rewrite !lookup_delete_Some, Hinv1. apply Hinv1 in He. split; intros [Hne Hg]; (split; [|done]).
        -- intros <-. congruence.
        -- intros <-. apply Hinv1 in He, Hg. congruence.
      * intros x g [_ Hg]%lookup_delete_Some. by eapply Hpast1.
      * rewrite map_size_delete, He, Hsz. simpl. lia.
    + rewrite lookup_delete_ne by done. unfold r1. by rewrite lookup_insert_eq.
    + intros g x Hg [_ Hx]%lookup_delete_Some. unfold r1 in Hx. by rewrite lookup_insert_ne in Hx.
    + intros g x Hg Hx Hnone. assert (r1 !! g = Some x) as Hx1 by (unfold r1; by rewrite lookup_insert_ne).
      assert (g = e) as -> by (apply dec_stable; intros Hne; rewrite lookup_delete_ne in Hnone; congruence).
      assert (x = m) as -> by congruence.
      intros g' n' [Hne Hg']%lookup_delete_Some. pose proof (Hmin g' n' Hg'). assert (m ≠ n'); [|lia].
      intros <-. apply Hinv1 in He, Hg'. congruence.
Qed.

(** ** What every handler keeps *)

Record worker_ok (ports : gset Z) (listen : SocketAddr) (w : FlowWorkerState) : Prop := {
  ok_inv : worker_inv ports w;
  ok_completed : completed_inv w;
  ok_sequence : 1 ≤ next_dns_completed_sequence w;
  ok_client : ∀ k tx, dns_by_key w !! k = Some tx →
    same_family (sa_ip listen) (sa_ip (ft_client tx)) = true ∧ ft_dns_vip tx = listen;
}.

(** How far one handler moves the counters. *)
Record grows (w w' : FlowWorkerState) : Prop := {
  gr_id : worker_id w' = worker_id w;
  gr_session : next_session_id (w_sessions w) ≤ next_session_id (w_sessions w') ≤ next_session_id (w_sessions w) + 1;
  gr_token : next_dns_token w ≤ next_dns_token w' ≤ next_dns_token w + 1;
  gr_sequence : next_dns_completed_sequence w ≤ next_dns_completed_sequence w' ≤ next_dns_completed_sequence w + 1;
}.

(** A handler that returned, in a state from which the worker can go on. *)
Definition safe {E A} (ports : gset Z) (listen : SocketAddr) (w : FlowWorkerState) (run : outcome E A * FlowWorkerState) : Prop :=
  no_panic run.1 ∧ worker_ok ports listen run.2 ∧ grows w run.2.

Lemma grows_refl w : grows w w.
Proof. split; lia || done. Qed.

Lemma worker_ok_stats ports listen w f : worker_ok ports listen w → worker_ok ports listen (set_w_stats f w).
Proof. intros [? [] ? ?]. split; try done. by apply set_w_stats_inv. Qed.

Lemma safe_same {E A} ports listen w (r : outcome E A) f : worker_ok ports listen w → no_panic r →
  safe ports listen w (r, set_w_stats f w).
Proof. intros. split_and!; [done|by apply worker_ok_stats|]. split; simpl; lia || done. Qed.

(** Ending transactions. *)
Lemma safe_dns_only {E A} ports listen w w' (r : outcome E A) : worker_ok ports listen w → no_panic r →
  worker_inv ports w' → dns_only w w' → dns_by_key w' ⊆ dns_by_key w → safe ports listen w (r, w').
Proof.
  intros [Hi [Hc1 Hc2 Hc3] Hs Hc] Hnp Hw' [E1 E2 E3 E4 E5 E6 E7] Hsub. split_and!; [done| |].
  - split; [done| |simpl; lia|].
    + split; simpl; rewrite ?E5, ?E6, ?E7; done.
    + intros k tx Hk. eapply Hc, lookup_weaken; done.
  - split; simpl; lia || congruence.
Qed.

(** ** A DNS response *)

(** A response that was accepted: it came back on the reverse of a transaction's
    translated flow, it answers the stored query, the transaction is over, its
    NAT binding is free, its flow is remembered, and the client is answered from
    the address it asked. *)
Definition response_accepted (packet : bytes) (w w' : FlowWorkerState) (h : HandledDnsResponse) : Prop :=
  ∃ key tx prepared query payload, dns_by_key w !! key = Some tx
    ∧ on_packet prepare_forwarded_packet packet = Ok (tt, prepared)
    ∧ parse_flow_key packet = Ok (reverse (nb_translated (ft_binding tx)))
    ∧ udp_payload (ft_original_packet tx) = Ok query ∧ udp_payload prepared = Ok payload
    ∧ response_matches_query query payload = Ok tt
    ∧ dns_by_key w' = delete key (dns_by_key w) ∧ forward (wnat w') = delete (ft_token tx) (forward (wnat w))
    ∧ is_Some (dns_completed_reverse w' !! reverse (nb_translated (ft_binding tx)))
    ∧ hd_binding h = ft_binding tx ∧ hd_transaction_id h = ft_token tx ∧ hd_local_target h = ft_local_target tx
    ∧ parse_flow_key (hd_packet h) = Ok (mkFlowKey (sa_ip (ft_dns_vip tx)) (sa_ip (ft_client tx))
                                           (sa_port (ft_dns_vip tx)) (sa_port (ft_client tx)) Udp)
    ∧ validate_packet_checksums (hd_packet h) = Ok tt.

Definition response_handled (ports : gset Z) (listen : SocketAddr) (packet : bytes) (w : FlowWorkerState)
    (run : outcome FlowWorkerError (option HandledDnsResponse) * FlowWorkerState) : Prop :=
  safe ports listen w run
  ∧ match run.1 with
    | Ok (Some h) => response_accepted packet w run.2 h
    | Ok None => dns_by_key run.2 = dns_by_key w ∧ w_sessions run.2 = w_sessions w
    | _ => True
    end.

Section response.
Context (ports : gset Z) (listen : SocketAddr) (packet : bytes) (clock : Z) (w : FlowWorkerState).
Hypotheses (Hw : worker_ok ports listen w) (Hseq : next_dns_completed_sequence w < 2 ^ 64 - 1) (Hok : bytes_ok packet)
  (Hlisten : socket_ok listen).

Lemma response_step {A} (c : outcome PacketError A) k : no_panic c →
  (∀ a, c = Ok a → response_handled ports listen packet w (k a w)) →
  response_handled ports listen packet w (sbind (packet_try c) k w).
Proof using Hw.
  intros Hnp Hk. unfold sbind, packet_try, slift. destruct c as [a| |]; simpl; [by apply Hk| |done].
  split; [|done]. split_and!; [done|done|apply grows_refl].
Qed.

Lemma response_drop s : response_handled ports listen packet w ((bump s ;;; sret None) w).
Proof using Hw. unfold sbind. rewrite bump_run. split; [by apply safe_same|done]. Qed.

(** The worker after a matching response, before the answer is written. *)
Lemma response_end key tx flow : dns_by_key w !! key = Some tx →
  ∃ w1 w2 r o, remove_dns_transaction key clock w = (Ok (Some tx), w1)
    ∧ remember_completed_dns_reverse (E := FlowWorkerError) flow w1 = (Ok tt, w2)
    ∧ w2 = set_w_completed r o (next_dns_completed_sequence w + 1) w1
    ∧ worker_ok ports listen w2 ∧ grows w w2 ∧ is_Some (r !! flow)
    ∧ dns_by_key w2 = delete key (dns_by_key w) ∧ forward (wnat w2) = delete (ft_token tx) (forward (wnat w)).
Proof using Hw Hseq.
  clear Hlisten Hok. intros Hk. pose proof Hw as [Hi Hc Hs Hcl].
  destruct (remove_tx_run ∅ ports w key tx clock Hi Hk) as (w1 & Hrun & Hi1 & Hb1 & Hid1 & Hf1 & Hdo).
  replace (∅ ∖ {[key]}) with (∅ : gset DnsFlowTransactionKey) in Hi1 by set_solver.
  destruct (safe_dns_only (E := unit) ports listen w w1 (Ok tt) Hw) as (_ & Hok1 & Hgr1); [done..|rewrite Hb1; apply delete_subseteq|].
  simpl in Hok1, Hgr1. pose proof (dy_sequence _ _ Hdo) as Hsq.
  destruct (remember_run (E := FlowWorkerError) flow w1 (ok_completed _ _ _ Hok1)) as (r & o & Hrem & Hci & Hr & _ & _); [lia|].
  rewrite Hsq in Hrem, Hci, Hr.
  exists w1, (set_w_completed r o (next_dns_completed_sequence w + 1) w1), r, o.
  split_and!; [done|done|done| | |by exists (next_dns_completed_sequence w)|done|done].
  - destruct Hok1 as [? _ _ ?]. split; [by apply set_w_completed_inv|done|simpl; lia|done].
  - destruct Hgr1 as [? ? ? _]. split; simpl; [done|done|done|lia].
Qed.

Lemma handle_dns_response_spec : response_handled ports listen packet w (handle_dns_response packet clock w).
Proof using All.
  pose proof Hw as [Hi Hc Hs Hcl]. unfold handle_dns_response.
  apply response_step; [by apply is_fragmented_no_panic|]. intros [] _; [apply response_drop|].
  apply response_step; [by apply on_packet_no_panic, prepare_no_panic|]. intros [[] p1] Hprep. cbv zeta. cbn [snd].
  pose proof Hprep as Hpr%on_packet_Ok. apply prepare_spec in Hpr as (_ & _ & _ & _ & Hpp & _ & _ & _ & Hok1); [|done].
  apply response_step; [by apply parse_flow_key_no_panic|]. intros flow Hflow.
  unfold sbind at 1, sget at 1. destruct (dns_by_reverse w !! flow) as [key|] eqn:Hrv; [|apply response_drop].
  apply (wi_reverse _ _ _ Hi) in Hrv as (tx & Hk & ->). rewrite Hk.
  pose proof (wi_tx _ _ _ Hi _ _ Hk) as [_ Hb (f & Hq & Hcli) [Hfo Hudp]].
  apply response_step; [by apply udp_payload_no_panic|]. intros payload Hpl.
  apply response_step; [by apply udp_payload_no_panic|]. intros query Hquery.
  pose proof (response_matches_no_panic query payload) as Hnp.
  destruct (response_matches_query query payload) as [[]| |] eqn:Hmatch; cbn [is_ok negb]; [|apply response_drop|done].
  destruct (response_end key tx (reverse (nb_translated (ft_binding tx))) Hk)
    as (w1 & w2 & r & o & Hrun & Hrem & Hw2 & Hok2 & Hgr2 & Hr & Hb2 & Hf2).
  unfold sbind at 1, session_try, smap_err. rewrite Hrun. cbn [map_err]. unfold sbind at 1, slift at 1. cbn [expect].
  unfold sbind at 1. rewrite Hrem. unfold sbind at 1, record_active at 1. set (w3 := set_w_stats _ w2).
  assert (∀ x (f : FlowWorkerStats), no_panic x → (∀ h, x = Ok (Some h) → hd_binding h = ft_binding tx
      ∧ hd_transaction_id h = ft_token tx ∧ hd_local_target h = ft_local_target tx
      ∧ parse_flow_key (hd_packet h) = Ok (answer_flow (ft_dns_vip tx) (mkFlowKey (sa_ip (ft_client tx)) (sa_ip (ft_client tx)) (sa_port (ft_client tx)) 0 Udp))
      ∧ validate_packet_checksums (hd_packet h) = Ok tt) → x ≠ Ok None →
    response_handled ports listen packet w (x, set_w_stats f w3)) as Hend.
  { intros x f' Hx Hh Hnn. split.
    - split_and!; [done|by do 2 apply worker_ok_stats|]. destruct Hgr2. by split.
    - cbn [fst snd]. destruct x as [[h|]| |]; [|done|done|done]. destruct (Hh h eq_refl) as (? & ? & ? & ? & ?).
      exists key, tx, p1, query, payload. split_and!; try done; [congruence|]. simpl. rewrite Hw2. done. }
  assert (flow_ok (reverse (nb_translated (ft_binding tx)))) as Hflok by (by apply (parse_flow_ok p1)).
  destruct (Hcl _ _ Hk) as [_ Hvip]. pose proof (parse_flow_ok _ _ (qp_ok _ _ Hq) (qp_parse _ _ Hq)) as Hfok.
  case_decide as Hbig.
  - unfold sbind at 1, packet_try at 1, slift at 1. rewrite (qp_parse _ _ Hq). cbn [map_err]. unfold sbind at 1. rewrite bump_run.
    unfold sbind, packet_try, slift, sret.
    pose proof (servfail_spec (ft_local_target tx) _ f (ft_dns_vip tx) (qp_ok _ _ Hq) ltac:(by rewrite Hvip) Hfok) as Hsf.
    destruct (dns_servfail_transmit_to_listen _ _ _ _) as [t| |]; cbn [map_err]; [|by apply Hend|done].
    apply Hend; [done| |done]. intros h [= <-]. simpl. rewrite Hcli. destruct Hsf as (_ & ? & ?). by split_and!.
  - unfold sbind at 1. rewrite bump_run. unfold sbind, packet_try, slift, sret.
    set (back := mkFlowKey _ _ _ _ Udp).
    assert (flow_ok back) as Hback.
    { destruct Hlisten, Hfok as (? & ? & ? & ?). unfold back. rewrite Hcli, Hvip. by split_and!. }
    pose proof (rewrite_packet_no_panic back p1 Hok1 Hback) as Hnp2. unfold on_packet.
    destruct (rewrite_packet back p1) as [[[]| |] p2] eqn:Hrw; cbn [map_err]; [|by apply Hend|done].
    apply (rewrite_Ok_inv _ _ _ _ Hok1 Hflow) in Hrw as [_ _ Hp2 Hv2 _]; [| |done].
    2: { destruct (inv_shape _ _ _ (si_nat _ _ _ (ow_inv _ _ (wi_owns _ _ _ Hi))) _ _ Hb) as (snat & _ & ->). by rewrite <- Hudp. }
    apply Hend; [done| |done]. intros h [= <-]. by split_and!.
Qed.
End response.

(** ** Session operations inside a worker *)

(** [t'] may replace the worker's session table: it is the worker's own, the
    bindings of DNS transactions are as before, and at most [k] identifiers were
    spent. *)
Record moves (ports : gset Z) (k : Z) (w : FlowWorkerState) (t' : SessionTable) : Prop := {
  mv_owns : owns ports (set_w_sessions t' w);
  mv_dns : ∀ id, ephemeral id → forward (nat_table t') !! id = forward (wnat w) !! id;
  mv_next : next_session_id (w_sessions w) ≤ next_session_id t' ≤ next_session_id (w_sessions w) + k;
}.

Lemma moves_inv ports k w t' : worker_inv ports w → moves ports k w t' → worker_inv ports (set_w_sessions t' w).
Proof.
  intros [_ Hn Htx Hto Hrv Hdl Hbk Hlk] [Hown Hdns _]. split; simpl; try done.
  - intros key tx Hk. destruct (Htx key tx Hk) as [H1 H2 H3 H4]. split; simpl; [done| |done|done].
    rewrite Hdns; [done|]. unfold ephemeral. lia.
  - intros id b Hb He. rewrite Hdns in Hb by done. by eapply Hlk.
Qed.

Lemma moves_ok ports listen k w t' : worker_ok ports listen w → moves ports k w t' → worker_ok ports listen (set_w_sessions t' w).
Proof. intros [Hi [] Hs Hc] Hm. split; try done. by eapply moves_inv. Qed.

Lemma moves_safe {E A} ports listen w t' f (r : outcome E A) : worker_ok ports listen w → moves ports 1 w t' → no_panic r →
  safe ports listen w (r, set_w_stats f (set_w_sessions t' w)).
Proof.
  intros Hw Hm Hnp. split_and!; [done|by eapply worker_ok_stats, moves_ok|].
  destruct Hm as [_ _ Hn]. split; simpl; lia || done.
Qed.

Lemma moves_safe' {E A} ports listen w t' (r : outcome E A) : worker_ok ports listen w → moves ports 1 w t' → no_panic r →
  safe ports listen w (r, set_w_sessions t' w).
Proof. intros Hw Hm Hnp. by apply (moves_safe ports listen w t' (w_stats w) r Hw) in Hm. Qed.

Lemma moves_trans ports j k w t1 t2 : moves ports j w t1 → moves ports k (set_w_sessions t1 w) t2 → moves ports (j + k) w t2.
Proof.
  intros [H1 H2 H3] [H4 H5 H6]. split; [done| |simpl in *; lia]. intros id He. rewrite H5 by done. simpl. by apply H2.
Qed.

Section moves.
Context (ports : gset Z) (w : FlowWorkerState) (Hown : owns ports w).
Abbreviation t := (w_sessions w).

Lemma moves_same_nat t' : session_inv ports t' → owner_worker_id t' = owner_worker_id t → nat_table t' = nat_table t →
  next_session_id t' = next_session_id t → (∀ id s, sessions t' !! id = Some s → flow_ok (s_original s)) → moves ports 0 w t'.
Proof using Hown.
  destruct Hown as [Ho _ _]. intros Hinv Ho' Hn Hx Hfl. split; [split; simpl; [congruence|done|done]|by rewrite Hn|lia].
Qed.

Lemma moves_refl : moves ports 0 w t.
Proof using Hown. destruct Hown as [? ? ?]. by apply moves_same_nat. Qed.

Lemma moves_touch id flags rev now : let run := session_touch_tcp (worker_id w) id flags rev now t in
  no_panic run.1 ∧ moves ports 0 w run.2.
Proof using Hown.
  destruct Hown as [Ho Hinv Hfl]. cbv zeta. rewrite <- Ho. destruct (sessions t !! id) as [s|] eqn:Hs.
  - destruct (touch_tcp_run ports t id s flags rev now Hinv Hs) as (t' & -> & Hinv' & Ho' & Hn & Hx & _ & Hss).
    split; [done|]. apply moves_same_nat; try done. simpl. rewrite Hss.
    intros i x [[<- <-]|[_ Hx']]%lookup_insert_Some; [|by eapply Hfl].
    destruct (touched_fields s flags rev now) as (_ & -> & _). by eapply Hfl.
  - unfold session_touch_tcp, sbind, sreads. rewrite ensure_owner_ok, Hs. split; [done|apply moves_refl].
Qed.

Lemma moves_correct id observed : let run := correct_intercept_io (worker_id w) id observed t in
  no_panic run.1 ∧ moves ports 0 w run.2.
Proof using Hown.
  destruct Hown as [Ho Hinv Hfl]. cbv zeta. rewrite <- Ho.
  destruct (correct_intercept_io _ id observed t) as [r t'] eqn:Hrun.
  pose proof (correct_io_sessions ports _ Hinv _ _ _ _ Hrun) as Hs.
  pose proof Hrun as (Hinv' & Ho' & Hx)%(correct_intercept_io_inv ports); [|done].
  assert (no_panic r ∧ nat_table t' = nat_table t) as [Hnp Hn].
  { unfold correct_intercept_io, sbind, sreads, sget, sput, sret in Hrun. rewrite ensure_owner_ok in Hrun.
    destruct (sessions t !! id); simpl in Hrun; repeat case_decide; by simplify_eq/=. }
  split; [done|]. apply moves_same_nat; try done. simpl. rewrite Hs. intros i x (y & <- & Hy)%lookup_fmap_Some.
  destruct (io_corrected_fields id observed y) as (_ & -> & _). by eapply Hfl.
Qed.

Lemma moves_rebind old new : let run := rebind_quic_flow (worker_id w) old new t in
  no_panic run.1 ∧ moves ports 0 w run.2.
Proof using Hown.
  destruct Hown as [Ho Hinv Hfl]. cbv zeta. rewrite <- Ho.
  unfold rebind_quic_flow, sbind, sreads, sget, sput, sret. rewrite ensure_owner_ok. cbn [fst snd].
  split; [done|]. apply moves_same_nat; try done; [by apply rebind_inv|]. simpl.
  intros i x (y & <- & Hy)%lookup_fmap_Some. destruct (rebound_fields old new y) as (_ & -> & _). by eapply Hfl.
Qed.

Lemma moves_packet flow io qid flags rev now clock : flow_ok flow → next_session_id t < 2 ^ 63 →
  let run := get_or_create_with_flags_at (worker_id w) flow io qid flags rev now clock t in
  no_panic run.1 ∧ moves ports 1 w run.2.
Proof using Hown.
  destruct Hown as [Ho Hinv Hfl]. intros Hflow Hlt. cbv zeta. rewrite <- Ho.
  pose proof (refine_all ports _ Hinv (OpPacket flow io qid flags rev now clock) Hlt I) as (Hinv' & Ho' & Hx & _).
  simpl in Hinv', Ho', Hx. pose proof (si_next _ _ _ Hinv) as Hn1.
  destruct (by_key t !! mkSessionKey flow (ifindex io)) as [i|] eqn:Hk.
  - pose proof Hk as (s & Hs & Hks)%(si_key _ _ _ Hinv).
    unfold get_or_create_with_flags_at, sbind, sreads, sret in *. rewrite ensure_owner_ok in *. cbv zeta in *. rewrite Hk in *.
    rewrite Ho in *. destruct (moves_touch i flags rev now) as [Hnp [M1 M2 M3]].
    destruct (session_touch_tcp _ i flags rev now t) as [[[]| |] t']; simpl in *; (split; [done|split; [done|done|lia]]).
  - destruct (create_run ports _ flow io qid flags rev now clock Hinv Hlt Hk) as (r & t' & Hg & _ & _ & Hc).
    assert (∀ id, ephemeral id → forward (nat_table t') !! id = forward (nat_table t) !! id) as Hdns.
    { intros id He. unfold get_or_create_with_flags_at, sbind, sreads, sret, sget, sput, on_nat, smap_err, szoom in Hg.
      rewrite ensure_owner_ok in Hg. cbv zeta in Hg. rewrite Hk in Hg. unfold nat_allocate_at in Hg.
      destruct (next_id_fresh _ _ Hinv Hlt) as [_ Hnone]. rewrite Hnone in Hg.
      destruct (snat_for _ flow); [|by injection Hg as <- <-].
      destruct (find_first _ _); [|by injection Hg as <- <-].
      destruct (initial_state _ flags). injection Hg as <- <-. simpl. rewrite lookup_insert_ne; [done|].
      intros <-. unfold ephemeral in He. simpl in He. lia. }
    rewrite Hg in Hinv', Ho', Hx |- *. cbn [fst snd] in *. split; [destruct Hc as [(-> & _)|(? & _ & [(-> & _)|(? & -> & _)])]; done|].
    split; [|done|done]. split; simpl; [congruence|done|].
    destruct Hc as [(_ & _ & ->)|(snat & _ & [(_ & -> & _)|(port & _ & _ & _ & -> & _)])]; [done|done|].
    intros j x [[<- <-]|[_ Hx']]%lookup_insert_Some; [done|by eapply Hfl].
Qed.

Lemma sessions_not_ephemeral id s : sessions t !! id = Some s → ¬ ephemeral id.
Proof using Hown. intros Hs He. by rewrite (session_not_ephemeral ports) in Hs by (done || apply Hown). Qed.

Lemma moves_remove id clock : let run := session_remove (worker_id w) id clock t in
  no_panic run.1 ∧ moves ports 0 w run.2.
Proof using Hown.
  destruct Hown as [Ho Hinv Hfl]. cbv zeta. rewrite <- Ho. destruct (sessions t !! id) as [s|] eqn:Hs.
  - rewrite (session_remove_run ∅ ports _ _ s) by done. split; [done|].
    pose proof (removed_inv ∅ ports _ _ s clock Hinv Hs) as Hinv'.
    replace (∅ ∖ {[id]}) with (∅ : gset SessionId) in Hinv' by set_solver.
    split; simpl; [split; simpl; [done|done|]| |lia].
    + intros i x [_ Hx]%lookup_delete_Some. by eapply Hfl.
    + intros i Hi. unfold nat_remove_at. destruct (forward (nat_table t) !! id); [|done]. simpl.
      rewrite lookup_delete_ne; [done|]. intros <-. by eapply sessions_not_ephemeral.
  - unfold session_remove, sbind, sreads. rewrite ensure_owner_ok, Hs. split; [done|apply moves_refl].
Qed.
End moves.

(** Removing sessions leaves the bindings of DNS transactions alone. *)
Definition keeps_dns (t t' : SessionTable) : Prop :=
  (∀ id s, sessions t !! id = Some s → ¬ ephemeral id) →
  (∀ id s, sessions t' !! id = Some s → ¬ ephemeral id)
  ∧ ∀ id, ephemeral id → forward (nat_table t') !! id = forward (nat_table t) !! id.

#[global] Instance keeps_dns_preorder : PreOrder keeps_dns.
Proof.
  split; [by intros t ?|]. intros t1 t2 t3 H12 H23 H1. destruct (H12 H1) as [H2 E2], (H23 H2) as [H3 E3].
  split; [done|]. intros id He. by rewrite E3, E2.
Qed.

Lemma remove_keeps_dns caller id clock t : keeps_dns t (session_remove caller id clock t).2.
Proof.
  intros Hne. unfold session_remove, sbind, sreads, sget, sput, sret, on_nat, smap_err, szoom.
  destruct (ensure_owner caller t) as [[]| |]; [|done|done].
  destruct (sessions t !! id) as [s|] eqn:Hs; simpl; [|done].
  unfold nat_remove_at. destruct (forward (nat_table t) !! id); simpl; [split|done].
  - intros i x [_ Hx]%lookup_delete_Some. by eapply Hne.
  - intros i Hi. rewrite lookup_delete_ne; [done|]. intros <-. by eapply Hne.
Qed.

Lemma collect_keeps_dns caller clock : ∀ ids t,
  keeps_dns t (collect_results (λ id, session_remove caller id (clock id)) ids t).2.
Proof.
  induction ids as [|id ids IH]; intros t; [done|]. cbn [collect_results]. unfold sbind.
  pose proof (remove_keeps_dns caller id (clock id) t) as H1.
  destruct (session_remove caller id (clock id) t) as [[s| |] t1]; [|done|done].
  specialize (IH t1). destruct (collect_results _ ids t1) as [[] t2]; simpl in *; by etrans.
Qed.

Lemma moves_filtered ports w t' (P : Session → Prop) `{∀ s, Decision (P s)} : owns ports w → session_inv ports t' →
  owner_worker_id t' = owner_worker_id (w_sessions w) → next_session_id t' = next_session_id (w_sessions w) →
  sessions t' = filter (λ kv, P kv.2) (sessions (w_sessions w)) → keeps_dns (w_sessions w) t' → moves ports 0 w t'.
Proof.
  intros Hown Hinv' Ho' Hx Hs Hk. pose proof Hown as [Ho Hinv Hfl].
  split; [split; simpl; [congruence|done|]| |lia].
  - rewrite Hs. intros i x [Hx' _]%map_lookup_filter_Some. by eapply Hfl.
  - apply Hk. intros id s. by eapply sessions_not_ephemeral.
Qed.

Lemma moves_remove_flow ports w flow clock : owns ports w →
  let run := remove_by_quic_flow (worker_id w) flow clock (w_sessions w) in no_panic run.1 ∧ moves ports 0 w run.2.
Proof.
  intros Hown. pose proof Hown as [Ho Hinv _]. cbv zeta.
  destruct (remove_by_quic_flow_run ports _ flow clock Hinv) as (n & t' & Hrun & Hinv' & Ho' & Hx & Hs).
  rewrite Ho in Hrun. pose proof Hrun as Hrun'. rewrite Hrun. split; [done|].
  eapply (moves_filtered ports w t' (λ s, s_quic_flow_id s ≠ flow)); try done.
  unfold remove_by_quic_flow, sbind, sreads, sget, sret in Hrun'. rewrite <- Ho, ensure_owner_ok in Hrun'. cbv zeta in Hrun'.
  set (ids := (λ kv : SessionId * Session, s_id kv.2) <$> _) in Hrun'.
  pose proof (collect_keeps_dns (owner_worker_id (w_sessions w)) clock ids (w_sessions w)) as Hm.
  destruct (collect_results _ ids _) as [[]]; by simplify_eq/=.
Qed.

Lemma moves_expire ports w now clock : owns ports w →
  let run := expire_idle (worker_id w) now clock (w_sessions w) in no_panic run.1 ∧ moves ports 0 w run.2.
Proof.
  intros Hown. pose proof Hown as [Ho Hinv Hfl]. cbv zeta.
  destruct (expire_idle_run ports _ now clock Hinv) as (ss & t' & Hrun & Hinv' & Ho' & Hx & Hs & _). rewrite Ho in Hrun.
  pose proof Hrun as Hrun'. rewrite Hrun. split; [done|]. cbn [snd].
  eapply (moves_filtered ports w t' (λ s, now < s_expires_at s)); try done.
  unfold expire_idle, sbind, sreads, sget, sput, slift in Hrun'. rewrite <- Ho, ensure_owner_ok in Hrun'. cbv zeta in Hrun'.
  destruct (pop_due _ now _ []) as [[l m]| |]; simpl in Hrun'; [|done|done].
  revert Hrun'. set (t1 := mkSessionTable _ _ _ _ _ _). set (ids := filter _ l).
  pose proof (collect_keeps_dns (owner_worker_id (w_sessions w)) clock ids t1) as Hm. intros Hc. rewrite Hc in Hm. exact Hm.
Qed.

(** ** The packet handlers are safe *)

Section handlers.
Context (ports : gset Z) (listen : SocketAddr) (w : FlowWorkerState).
Hypotheses (Hw : worker_ok ports listen w) (Hlt : next_session_id (w_sessions w) < 2 ^ 63).
Abbreviation Hown := (wi_owns _ _ _ (ok_inv _ _ _ Hw)).

Lemma safe_refl {E A} (r : outcome E A) : no_panic r → safe ports listen w (r, w).
Proof using Hw. intros. split_and!; [done|done|apply grows_refl]. Qed.

(** A fallible step that does not touch the worker, in a state already safe. *)
Lemma safe_try {A B} (c : outcome PacketError A) (k : A → ST FlowWorkerState FlowWorkerError B) w1 :
  (∀ r : outcome FlowWorkerError B, no_panic r → safe ports listen w (r, w1)) → no_panic c →
  (∀ a, c = Ok a → safe ports listen w (k a w1)) → safe ports listen w (sbind (packet_try c) k w1).
Proof using Type. intros Hr Hnp Hk. unfold sbind, packet_try, slift. destruct c; simpl; [by apply Hk|by apply Hr|done]. Qed.

Lemma prepare_client_no_panic packet : bytes_ok packet → no_panic (prepare_client_packet packet).
Proof using Type.
  intros Hok. unfold prepare_client_packet. apply no_panic_obind; [by apply on_packet_no_panic, prepare_no_panic|].
  intros [[] p1] Hp1%on_packet_Ok. apply prepare_spec in Hp1 as (_ & _ & _ & _ & _ & _ & _ & _ & Hok1); [|done]. cbn [snd].
  apply no_panic_obind; [by apply parse_flow_key_no_panic|]. intros f _.
  apply no_panic_obind; [by apply on_packet_no_panic, clamp_tcp_mss_no_panic; [|vm_compute]|]. intros [m p2] _. cbn [snd].
  apply no_panic_obind; [apply parse_tcp_flags_no_panic|done].
Qed.

(** The session of a client packet. *)
Lemma safe_session_for {B} flow io qf flags now clock (k : SessionId → ST FlowWorkerState FlowWorkerError B) : flow_ok flow →
  (∀ t' id s, moves ports 1 w t' → sessions t' !! id = Some s → s_original s = flow →
    safe ports listen w (k id (set_w_sessions t' w))) →
  safe ports listen w (sbind (session_for flow io qf flags now clock) k w).
Proof using Hw Hlt.
  intros Hflow Hk. destruct (session_for flow io qf flags now clock w) as [r w'] eqn:Hrun. unfold sbind. rewrite Hrun.
  pose proof Hrun as Hrun'. unfold session_for, on_sessions, szoom in Hrun'.
  destruct (moves_packet ports w Hown flow io (qf_id qf) flags false now clock Hflow Hlt) as [Hnp Hm].
  destruct (get_or_create_with_flags_at _ _ _ _ _ _ _ _ (w_sessions w)) as [[id|e|] t']; simpl in Hnp, Hm; [| |done].
  - injection Hrun' as <- <-. destruct (session_for_Ok _ _ _ _ _ _ _ _ _ _ Hown Hlt Hflow Hrun) as (_ & s & Hs & Ho & _).
    by eapply Hk.
  - assert (∃ e' f, r = Err e' ∧ w' = set_w_stats f (set_w_sessions t' w)) as (e' & f & -> & ->).
    { destruct e as [| |[]]; simplify_eq/=; do 2 eexists; (split; [done|]); try done.
      all: instantiate (1 := w_stats w); done. }
    by apply moves_safe.
Qed.

(** The end of both forward handlers. *)
Lemma safe_rewritten {B} q t' id s (k : Session → bytes → B) : moves ports 1 w t' → bytes_ok q →
  sessions t' !! id = Some s → parse_flow_key q = Ok (s_original s) →
  safe ports listen w
    ((let! session := sreads (λ w, expect (session_get (w_sessions w) id)) in
      let! rewritten := packet_try (on_packet (rewrite_packet (nb_translated (s_nat session))) q) in
      sret (k session rewritten.2)) (set_w_sessions t' w)).
Proof using Hw.
  intros Hm Hok Hs Hq. unfold sbind at 1, sreads, session_get. simpl. rewrite Hs. cbn [expect].
  apply safe_try; [intros; by apply moves_safe'| |intros; by apply moves_safe'].
  destruct (session_rewrite ports t' id s q (ow_inv _ _ (mv_owns _ _ _ _ Hm)) Hs Hok Hq) as (q' & Hrw & _).
  apply on_packet_no_panic. by rewrite Hrw.
Qed.

Lemma handle_intercept_safe io packet qf target now clock : bytes_ok packet →
  safe ports listen w (handle_intercept io packet qf target now clock w).
Proof using Hw Hlt.
  intros Hok. unfold handle_intercept. unfold sbind at 1, sget at 1. case_decide; [by apply safe_refl|].
  apply safe_try; [intros; by apply safe_refl|by apply prepare_client_no_panic|]. intros [[q f] flags] Hp.
  apply prepare_client_packet_Ok in Hp as (Hokq & _ & Hpq & Hf & _ & _ & _); [|done].
  apply safe_session_for; [done|]. intros t' id s Hm Hs Ho.
  apply (safe_rewritten q t' id s (λ s q, mkHandledIntercept id (mkIoTransmit target q None))); try done. by rewrite Ho.
Qed.

Lemma handle_server_inner_safe io packet qf now clock : bytes_ok packet →
  safe ports listen w (handle_server_inner io packet qf now clock w).
Proof using Hw Hlt.
  intros Hok. unfold handle_server_inner. unfold sbind at 1, sget at 1. case_decide; [by apply safe_refl|].
  apply safe_try; [intros; by apply safe_refl|by apply prepare_client_no_panic|]. intros [[q f] flags] Hp.
  apply prepare_client_packet_Ok in Hp as (Hokq & _ & Hpq & Hf & _ & _ & _); [|done].
  apply safe_session_for; [done|]. intros t' id s Hm Hs Ho.
  apply (safe_rewritten q t' id s (λ s q, mkHandledIntercept id (mkIoTransmit (s_intercept_io s) q None))); try done. by rewrite Ho.
Qed.

(** The reply's session, after the optional correction of its ingress. *)
Lemma safe_touched {B} w1 t1 id s flags now (k : unit → ST FlowWorkerState FlowWorkerError B) :
  w1 = set_w_sessions t1 w → moves ports 0 w t1 → sessions t1 !! id = Some s →
  (∀ t2, moves ports 1 w t2 → sessions t2 !! id = Some (touched s flags true now) → safe ports listen w (k tt (set_w_sessions t2 w))) →
  safe ports listen w (sbind (session_try (on_sessions (session_touch_tcp (worker_id w) id flags true now))) k w1).
Proof using Hw.
  intros -> Hm Hs Hk. pose proof (mv_owns _ _ _ _ Hm) as Hown1. pose proof Hown1 as [Ho Hinv _]. simpl in Ho, Hinv.
  destruct (moves_touch ports _ Hown1 id flags true now) as [_ Hm2]. simpl in Hm2.
  destruct (touch_tcp_run ports t1 id s flags true now Hinv Hs) as (t2 & Hrun & _ & _ & _ & _ & _ & Hss). rewrite Ho in Hrun.
  rewrite Hrun in Hm2. unfold sbind, session_try, smap_err, on_sessions, szoom. simpl. rewrite Hrun. cbn [map_err].
  apply (Hk t2); [|by rewrite Hss, lookup_insert_eq]. pose proof (moves_trans ports 0 0 w t1 t2 Hm Hm2) as [M1 M2 M3].
  split; [done|done|lia].
Qed.

Lemma handle_reverse_inner_safe packet expected observed now : bytes_ok packet →
  safe ports listen w (handle_reverse_for_inner packet expected observed now w).
Proof using Hw.
  clear Hlt. intros Hok. unfold handle_reverse_for_inner. pose proof Hown as Hown0.
  apply safe_try; [intros; by apply safe_refl|by apply on_packet_no_panic, prepare_no_panic|]. intros [[] p1] Hp1%on_packet_Ok.
  apply prepare_spec in Hp1 as (_ & _ & _ & _ & _ & _ & _ & _ & Hok1); [|done]. cbn [snd].
  apply safe_try; [intros; by apply safe_refl|by apply parse_flow_key_no_panic|]. intros r Hr.
  unfold sbind at 1, sget at 1.
  destruct (lookup_reverse_locator (w_sessions w) r) as [l|] eqn:Hlk; [|by apply safe_refl].
  case_decide as Hd; [by apply safe_refl|].
  apply (lookup_reverse_locator_iff ports) in Hlk as (id & s0 & Hs0 & Hrep & ->); [|apply Hown0]. cbn [locator_session_id].
  apply safe_try; [intros; by apply safe_refl|by apply on_packet_no_panic, clamp_tcp_mss_no_panic; [|vm_compute]|].
  intros [m p2] Hc%on_packet_Ok. cbn [snd].
  destruct (clamp_spec TCP_MAX_SAFE_MSS p1) as [(e & He)|(m' & p2' & Hc' & Hl2 & _ & Hp2 & _ & _ & Hok2)];
    [done|by vm_compute|congruence|]. rewrite Hc' in Hc. injection Hc as -> ->.
  apply safe_try; [intros; by apply safe_refl|apply parse_tcp_flags_no_panic|]. intros flags _. cbv zeta. unfold own_locator. cbn [locator_session_id].
  set (k := λ accepted : bool, _) at 1.
  assert (∀ t1 s1, moves ports 0 w t1 → sessions t1 !! id = Some s1 → s_original s1 = s_original s0 → s_nat s1 = s_nat s0 →
    safe ports listen w (k true (set_w_sessions t1 w))) as Hk.
  { intros t1 s1 Hm Hs1 Ho1 Hn1. unfold k. cbn [negb]. eapply safe_touched; [done|done|done|]. intros t2 Hm2 Hs2.
    set (s2 := touched s1 flags true now) in *. destruct (touched_fields s1 flags true now) as (_ & Ho2 & Hn2 & _).
    fold s2 in Ho2, Hn2. pose proof (mv_owns _ _ _ _ Hm2) as [_ Hi2 Hf2].
    unfold sbind at 1, sreads, session_get. simpl. rewrite Hs2. cbn [expect].
    destruct (restored_translation ports _ id s2 r Hi2 Hs2) as [Htr Hfo].
    { by eapply Hf2. } { by rewrite Hn2, Hn1. } { by apply (parse_flow_ok p1). }
    apply safe_try; [intros; by apply moves_safe'| |intros; by apply moves_safe'].
    apply on_packet_no_panic, rewrite_packet_no_panic; done. }
  destruct observed as [o|].
  - unfold sbind at 1. unfold correct_server_return_io at 1, on_sessions, szoom.
    destruct (moves_correct ports w Hown0 id o) as [Hnp Hm].
    destruct (correct_intercept_io (worker_id w) id o (w_sessions w)) as [res t1] eqn:Hrun. simpl in Hnp, Hm.
    pose proof Hrun as Hss. rewrite <- (ow_id _ _ Hown0) in Hss. apply (correct_io_sessions ports) in Hss; [|apply Hown0].
    destruct (io_corrected_fields id o s0) as (_ & Hio & Hin & _).
    assert (sessions t1 !! id = Some (io_corrected id o s0)) as Hs1.
    { rewrite Hss, lookup_fmap. unfold session_get in Hs0. by rewrite Hs0. }
    assert (moves ports 1 w t1) as Hm1 by (destruct Hm as [? ? ?]; split; [done|done|lia]).
    destruct res as [[]|e|]; [by apply (Hk t1 (io_corrected id o s0))|by apply (Hk t1 (io_corrected id o s0))| | |done];
      (unfold k; cbn [negb]; by apply moves_safe).
  - pose proof (moves_refl ports w Hown0) as Hm. apply (Hk (w_sessions w) s0) in Hm; [|done..].
    unfold sbind at 1, sret at 1. destruct w; exact Hm.
Qed.
End handlers.

(** ** The DNS handlers are safe *)

Definition config_ok (listen : SocketAddr) (config : DnsFlowConfig) : Prop :=
  cfg_listen config = listen ∧ socket_ok listen ∧ socket_ok (cfg_local_resolver config) ∧ socket_ok (cfg_remote_resolver config).

Lemma same_family_sym a b : same_family a b = same_family b a.
Proof. unfold same_family. by destruct a, b. Qed.

Lemma handle_dns_query_safe ports listen w io packet config now clock : worker_ok ports listen w → config_ok listen config →
  next_dns_token w < 2 ^ 62 → bytes_ok packet → safe ports listen w (handle_dns_query_at io packet config now clock w).
Proof.
  intros [Hi Hc Hs Hcl] (Hl & Hls & Hlo & Hre) Hlt Hok. rewrite <- Hl in Hls, Hcl |- *.
  pose proof (handle_dns_query_spec ports config io packet now clock w Hi Hlt Hok Hls Hlo Hre) as (Hinv & Hfr & Hm).
  destruct Hfr as [F1 F2 F3 F4 F5 F6 F7]. split_and!.
  - destruct (handle_dns_query_at io packet config now clock w) as [[[]| |] ?]; done.
  - split; [done|by apply F6|lia|]. intros k tx [Hk|(flow & Hp & Hd & -> & ->)]%F7; [by eapply Hcl|]. split; [|done]. simpl.
    rewrite <- Hd, same_family_sym. by apply (flow_families packet).
  - split; [done|lia|done|lia].
Qed.

Lemma ok_listen ports listen w config : worker_ok ports listen w → config_ok listen config → listen_ok config w.
Proof. intros [_ _ _ Hcl] (<- & Hls & _). split; [done|]. intros k tx Hk. by apply (Hcl k tx Hk). Qed.

Lemma removed_subset {A} (m m' : gmap DnsFlowTransactionKey A) (keys : list DnsFlowTransactionKey) :
  (∀ k, m' !! k = if decide (k ∈ keys) then None else m !! k) → m' ⊆ m.
Proof. intros Hm. apply map_subseteq_spec. intros k x. rewrite Hm. by case_decide. Qed.

Lemma expire_dns_safe ports listen w now config clock : worker_ok ports listen w → config_ok listen config →
  safe ports listen w (expire_dns_transactions now config clock w).
Proof.
  intros Hw Hcfg. destruct (expire_dns_run ports w now config clock (ok_inv _ _ _ Hw) (ok_listen _ _ _ _ Hw Hcfg))
    as (keys & es & w' & -> & Hi & _ & _ & Hk & Hdo & _). apply safe_dns_only; try done. by eapply removed_subset.
Qed.

Lemma abort_remote_safe ports listen w config clock : worker_ok ports listen w → config_ok listen config →
  safe ports listen w (abort_remote_dns_transactions config clock w).
Proof.
  intros Hw Hcfg. destruct (abort_remote_run ports w config clock (ok_inv _ _ _ Hw) (ok_listen _ _ _ _ Hw Hcfg))
    as (keys & es & w' & -> & Hi & _ & _ & Hk & Hdo & _). apply safe_dns_only; try done. by eapply removed_subset.
Qed.

Lemma abort_dns_run ports w binding config clock : worker_inv ports w → listen_ok config w →
  match dns_by_reverse w !! reverse (nb_translated binding) with
  | None => abort_dns_transaction binding config clock w = (Ok None, w)
  | Some key => ∃ tx e w', dns_by_key w !! key = Some tx ∧ nb_translated (ft_binding tx) = nb_translated binding
      ∧ abort_dns_transaction binding config clock w = (Ok (Some e), w') ∧ servfail_of config tx e
      ∧ worker_inv ports w' ∧ dns_by_key w' = delete key (dns_by_key w) ∧ dns_only w w'
  end.
Proof.
  intros Hi Hlis. unfold abort_dns_transaction.
  destruct (dns_by_reverse w !! reverse (nb_translated binding)) as [key|] eqn:Hrv; unfold sbind at 1, sget at 1; rewrite Hrv; [|done].
  apply (wi_reverse _ _ _ Hi) in Hrv as (tx & Hk & Hr%reverse_inj).
  destruct (remove_tx_run ∅ ports w key tx clock Hi Hk) as (w1 & Hrun & Hi1 & Hb1 & _ & _ & Hdo).
  replace (∅ ∖ {[key]}) with (∅ : gset DnsFlowTransactionKey) in Hi1 by set_solver.
  destruct (servfail_for_transaction_ok config w key tx Hlis Hk (wi_tx _ _ _ Hi _ _ Hk)) as (e & He & Hsf).
  unfold sbind at 1, session_try, smap_err. rewrite Hrun. cbn [map_err]. unfold sbind at 1, slift at 1. cbn [expect].
  unfold sbind at 1. rewrite bump_run. unfold sbind, packet_try, slift. rewrite He. cbn [map_err]. unfold sret.
  exists tx, e. eexists. split_and!; [done|done|done|done|by apply set_w_stats_inv|done|].
  etrans; [exact Hdo|apply dns_only_stats].
Qed.

Lemma abort_dns_safe ports listen w binding config clock : worker_ok ports listen w → config_ok listen config →
  safe ports listen w (abort_dns_transaction binding config clock w).
Proof.
  intros Hw Hcfg. pose proof (abort_dns_run ports w binding config clock (ok_inv _ _ _ Hw) (ok_listen _ _ _ _ Hw Hcfg)) as Hab.
  destruct (dns_by_reverse w !! _) as [key|]; [|rewrite Hab; by apply safe_refl].
  destruct Hab as (tx & e & w' & _ & _ & -> & _ & Hi & Hb & Hdo). apply safe_dns_only; try done.
  rewrite Hb. apply delete_subseteq.
Qed.

(** Releasing the bindings of all transactions. *)
Lemma release_transactions_run ports clock : ∀ txs w, owns ports w → NoDup (ft_token <$> txs) →
  (∀ tx, tx ∈ txs → ephemeral (ft_token tx) ∧ forward (wnat w) !! ft_token tx = Some (ft_binding tx)) →
  ∃ t', release_transactions (worker_id w) clock txs w = (Ok (ft_binding <$> txs), set_w_sessions t' w)
    ∧ owns ports (set_w_sessions t' w) ∧ sessions t' = sessions (w_sessions w)
    ∧ next_session_id t' = next_session_id (w_sessions w)
    ∧ ∀ id, forward (nat_table t') !! id = if decide (id ∈ ft_token <$> txs) then None else forward (wnat w) !! id.
Proof.
  induction txs as [|tx txs IH]; intros w Hown Hnd Hall.
  { exists (w_sessions w). split_and!; [by destruct w|by destruct w, Hown; split|done|done|done]. }
  cbn [fmap list_fmap] in Hnd. apply NoDup_cons in Hnd as [Hni Hnd].
  destruct (Hall tx) as [He Hb]; [apply list_elem_of_here|]. pose proof Hown as [Ho Hinv Hfl].
  pose proof (release_run ports _ _ (clock (ft_token tx)) _ Hinv Hb) as Hrel. rewrite Ho in Hrel.
  set (n1 := (nat_remove_at (ft_token tx) (clock (ft_token tx)) (wnat w)).2) in Hrel.
  assert (forward n1 = delete (ft_token tx) (forward (wnat w))) as Hf1 by (unfold n1, nat_remove_at; by rewrite Hb).
  pose proof Hrel as Hrel'. rewrite <- Ho in Hrel'. apply (release_ephemeral_inv ports) in Hrel' as [Hinv1 _]; [|done|done].
  destruct (IH (set_w_sessions (set_nat n1 (w_sessions w)) w)) as (t' & Hrun & Hown' & Hs & Hn & Hf).
  - by split.
  - done.
  - intros x Hx. destruct (Hall x) as [Hex Hbx]; [by apply list_elem_of_further|]. split; [done|]. simpl. rewrite Hf1.
    rewrite lookup_delete_ne; [done|]. intros Heq. destruct Hni. rewrite Heq. by apply list_elem_of_fmap_2.
  - exists t'. split_and!; [|done|done|done|].
    + cbn [release_transactions]. unfold sbind at 1, on_sessions, szoom. rewrite Hrel. unfold sbind. simpl in Hrun. by rewrite Hrun.
    + intros id. rewrite Hf. simpl. rewrite Hf1. destruct (decide (id ∈ ft_token <$> txs)) as [Hin|Hin].
      * rewrite decide_True; [done|]. by apply list_elem_of_further.
      * destruct (decide (id = ft_token tx)) as [->|Hne].
        -- rewrite decide_True by apply list_elem_of_here. by rewrite lookup_delete_eq.
        -- rewrite decide_False by (rewrite elem_of_cons; tauto). by rewrite lookup_delete_ne.
Qed.

Lemma remove_dns_run ports w clock : worker_inv ports w →
  ∃ bs w', remove_dns_transactions clock w = (Ok bs, w') ∧ worker_inv ports w' ∧ dns_by_key w' = ∅
    ∧ (∀ id, ephemeral id → forward (wnat w') !! id = None)
    ∧ (∀ b, b ∈ bs ↔ ∃ k tx, dns_by_key w !! k = Some tx ∧ ft_binding tx = b)
    ∧ completed_inv w' ∧ worker_id w' = worker_id w ∧ sessions (w_sessions w') = sessions (w_sessions w)
    ∧ next_session_id (w_sessions w') = next_session_id (w_sessions w) ∧ next_dns_token w' = next_dns_token w
    ∧ next_dns_completed_sequence w' = next_dns_completed_sequence w.
Proof.
  intros Hi. pose proof Hi as [[Ho Hinv Hfl] Hn Htx Hto Hrv Hdl Hbk Hlk]. unfold remove_dns_transactions.
  unfold sbind at 1, sget at 1. cbv zeta. unfold sbind at 1, sput at 1.
  set (txs := snd <$> map_to_list (dns_by_key w)). set (w1 := set_w_completed _ _ _ _).
  assert (∀ tx, tx ∈ txs ↔ ∃ k, dns_by_key w !! k = Some tx) as Htxs.
  { intros tx. unfold txs. rewrite list_elem_of_fmap. split.
    - intros ([k x] & -> & Hk%elem_of_map_to_list). by exists k.
    - intros (k & Hk). exists (k, tx). by rewrite elem_of_map_to_list. }
  destruct (release_transactions_run ports clock txs w1) as (t' & Hrun & Hown' & Hs & Hx & Hf).
  - by split.
  - unfold txs. rewrite <- list_fmap_compose. apply NoDup_fmap_2_strong; [|apply NoDup_map_to_list].
    intros [k x] [k' x'] H1%elem_of_map_to_list H2%elem_of_map_to_list Heq. simpl in *.
    assert (k = k') as -> by (by eapply Hto). by simplify_eq.
  - intros tx (k & Hk)%Htxs. destruct (Htx k tx Hk) as [H1 H2 _ _]. split; [unfold ephemeral; lia|done].
  - unfold sbind at 1. change (worker_id w) with (worker_id w1) at 1. rewrite Hrun. unfold sbind, sret.
    do 2 eexists. split; [done|].
    assert (∀ id, ephemeral id → forward (nat_table t') !! id = None) as Hnone.
    { intros id He. rewrite Hf. case_decide as Hd; [done|]. apply eq_None_not_Some. intros [b Hb].
      destruct (Hlk id b Hb He) as (k & tx & Hk & <-). destruct Hd. apply list_elem_of_fmap_2, Htxs. by exists k. }
    split_and!; try done.
    + apply set_w_stats_inv. split; simpl; try done.
      * intros r k. split; [by rewrite lookup_empty|by intros (? & ? & _)].
      * intros d k. split; [by intros (? & ? & _)|by intros (? & ? & _)].
      * intros id b Hb He. by rewrite Hnone in Hb.
    + intros b. rewrite list_elem_of_fmap. setoid_rewrite Htxs. naive_solver.
    + split; simpl; [by intros f n; rewrite !lookup_empty|done|]. rewrite map_size_empty. lia.
Qed.
