(* ===== verification/WorkerClaims.v ===== *)
(** The theorems about the flow worker ([src/src/flow_plane/worker.rs]): runs of
    handlers, the path of a client packet and of its reply, and the life of a DNS
    transaction. *)
From S2P Require Import Prelude Net Checksum Packet PacketFacts PacketRewrite PacketProps PacketTheorems.
From S2P Require Import NatTable NatProps Session SessionProps SessionTheorems QuicFlow Dns DnsProps Worker WorkerProps WorkerDns WorkerTheorems WorkerRun.

#[local] Arguments Nat.add : simpl never.
#[local] Arguments Nat.mul : simpl never.

(** ** Runs of handlers *)

(** A call of one of the worker's operations. *)
Inductive worker_op : Type :=
| WIntercept (io : IoOwnerKey) (packet : bytes) (quic_flow : QuicFlow) (target : IoOwnerKey) (now clock : Z)
| WServerInner (io : IoOwnerKey) (packet : bytes) (quic_flow : QuicFlow) (now clock : Z)
| WReverse (packet : bytes) (now : Z)
| WReverseFor (packet : bytes) (expected : SessionLocator) (now : Z)
| WServerReverse (observed : IoOwnerKey) (packet : bytes) (expected : SessionLocator) (now : Z)
| WDnsQuery (io : IoOwnerKey) (packet : bytes) (config : DnsFlowConfig) (now clock : Z)
| WDnsResponse (packet : bytes) (clock : Z)
| WExpireDns (now : Z) (config : DnsFlowConfig) (clock : DnsFlowTransactionKey → Z)
| WAbortDns (binding : NatBinding) (config : DnsFlowConfig) (clock : Z)
| WAbortRemote (config : DnsFlowConfig) (clock : DnsFlowTransactionKey → Z)
| WRemoveDns (clock : SessionId → Z)
| WRemoveSession (session_id : SessionId) (clock : Z)
| WRemoveFlow (quic_flow_id : QuicFlowId) (clock : SessionId → Z)
| WExpireSessions (now : Z) (clock : SessionId → Z)
| WRebind (old new : QuicFlowId).

(** What the caller sees of a result: that the call returned, or that it panicked. *)
Definition returned {E A : Type} (run : outcome E A * FlowWorkerState) : option FlowWorkerState :=
  match run.1 with Panic => None | _ => Some run.2 end.

Definition worker_step (op : worker_op) (w : FlowWorkerState) : option FlowWorkerState :=
  match op with
  | WIntercept io packet qf target now clock => returned (handle_intercept io packet qf target now clock w)
  | WServerInner io packet qf now clock => returned (handle_server_inner io packet qf now clock w)
  | WReverse packet now => returned (handle_reverse packet now w)
  | WReverseFor packet expected now => returned (handle_reverse_for packet expected now w)
  | WServerReverse observed packet expected now => returned (handle_server_reverse observed packet expected now w)
  | WDnsQuery io packet config now clock => returned (handle_dns_query_at io packet config now clock w)
  | WDnsResponse packet clock => returned (handle_dns_response packet clock w)
  | WExpireDns now config clock => returned (expire_dns_transactions now config clock w)
  | WAbortDns binding config clock => returned (abort_dns_transaction binding config clock w)
  | WAbortRemote config clock => returned (abort_remote_dns_transactions config clock w)
  | WRemoveDns clock => returned (remove_dns_transactions clock w)
  | WRemoveSession id clock => returned (remove_session id clock w)
  | WRemoveFlow flow clock => returned (worker_remove_by_quic_flow flow clock w)
  | WExpireSessions now clock => returned (expire_idle_sessions now clock w)
  | WRebind old new => returned (worker_rebind_quic_flow old new w)
  end.

(** A sequence of calls; [None] when one of them panics. *)
Fixpoint worker_run (ops : list worker_op) (w : FlowWorkerState) : option FlowWorkerState :=
  match ops with
  | [] => Some w
  | op :: ops => worker_step op w ≫= worker_run ops
  end.

(** Packets are byte strings, and the configuration listens on [listen]. *)
Definition op_ready (listen : SocketAddr) (op : worker_op) : Prop :=
  match op with
  | WIntercept _ packet _ _ _ _ | WServerInner _ packet _ _ _ | WReverse packet _ | WReverseFor packet _ _
  | WServerReverse _ packet _ _ | WDnsResponse packet _ => bytes_ok packet
  | WDnsQuery _ packet config _ _ => bytes_ok packet ∧ config_ok listen config
  | WExpireDns _ config _ | WAbortDns _ config _ | WAbortRemote config _ => config_ok listen config
  | _ => True
  end.

Lemma safe_returned {E A} ports listen w (run : outcome E A * FlowWorkerState) : safe ports listen w run →
  ∃ w', returned run = Some w' ∧ worker_ok ports listen w' ∧ grows w w'.
Proof. intros (Hnp & Hok & Hg). exists run.2. unfold returned. by destruct run.1. Qed.

Lemma session_op_safe {A} ports listen w (c : ST SessionTable SessionError A) : worker_ok ports listen w →
  no_panic (c (w_sessions w)).1 ∧ moves ports 0 w (c (w_sessions w)).2 → safe ports listen w (on_sessions c w).
Proof.
  intros Hw [Hnp Hm]. unfold on_sessions, szoom. destruct (c (w_sessions w)) as [r t']. simpl in *.
  apply moves_safe'; [done| |done]. destruct Hm. split; [done|done|lia].
Qed.

Lemma remove_dns_safe ports listen w clock : worker_ok ports listen w → safe ports listen w (remove_dns_transactions clock w).
Proof.
  intros [Hi Hc Hs Hcl]. destruct (remove_dns_run ports w clock Hi)
    as (bs & w' & -> & Hi' & Hb & _ & _ & Hc' & E1 & _ & E3 & E4 & E5).
  split_and!; [done| |split; simpl; lia || done]. split; simpl; [done|done|lia|]. by rewrite Hb.
Qed.

Lemma remove_flow_safe ports listen w flow clock : worker_ok ports listen w →
  safe ports listen w (worker_remove_by_quic_flow flow clock w).
Proof.
  intros Hw. pose proof (session_op_safe ports listen w _ Hw
    (moves_remove_flow ports w flow clock (wi_owns _ _ _ (ok_inv _ _ _ Hw)))) as Hsafe.
  unfold worker_remove_by_quic_flow. cbv zeta. unfold sbind.
  destruct (on_sessions (remove_by_quic_flow (worker_id w) flow clock) w) as [[] ?]; destruct Hsafe as (? & ? & ?); by split_and!.
Qed.

Lemma handle_reverse_safe ports listen w packet now : worker_ok ports listen w → bytes_ok packet →
  safe ports listen w (handle_reverse packet now w).
Proof.
  intros Hw Hok. unfold handle_reverse. apply safe_try; [intros; by apply safe_refl|by apply parse_flow_key_no_panic|].
  intros f _. unfold sbind, sget. destruct (lookup_reverse_locator _ f); [|by apply safe_refl].
  by apply handle_reverse_inner_safe.
Qed.

Lemma worker_step_safe ports listen op w : worker_ok ports listen w → socket_ok listen → op_ready listen op →
  next_session_id (w_sessions w) < 2 ^ 63 → next_dns_token w < 2 ^ 62 → next_dns_completed_sequence w < 2 ^ 64 - 1 →
  ∃ w', worker_step op w = Some w' ∧ worker_ok ports listen w' ∧ grows w w'.
Proof.
  intros Hw Hl Hop H1 H2 H3. pose proof (wi_owns _ _ _ (ok_inv _ _ _ Hw)) as Hown.
  destruct op; simpl in Hop |- *; apply safe_returned.
  - by apply handle_intercept_safe.
  - by apply handle_server_inner_safe.
  - by apply handle_reverse_safe.
  - by apply handle_reverse_inner_safe.
  - by apply handle_reverse_inner_safe.
  - destruct Hop; by apply handle_dns_query_safe.
  - by apply (handle_dns_response_spec ports listen packet clock w Hw H3 Hop Hl).
  - by apply expire_dns_safe.
  - by apply abort_dns_safe.
  - by apply abort_remote_safe.
  - by apply remove_dns_safe.
  - by apply session_op_safe, moves_remove.
  - by apply remove_flow_safe.
  - by apply session_op_safe, moves_expire.
  - by apply session_op_safe, moves_rebind.
Qed.

Lemma worker_run_safe ports listen ops : ∀ w, worker_ok ports listen w → socket_ok listen → Forall (op_ready listen) ops →
  next_session_id (w_sessions w) + Z.of_nat (length ops) < 2 ^ 62 → next_dns_token w + Z.of_nat (length ops) < 2 ^ 62 →
  next_dns_completed_sequence w + Z.of_nat (length ops) < 2 ^ 62 →
  ∃ w', worker_run ops w = Some w' ∧ worker_ok ports listen w'.
Proof.
  induction ops as [|op ops IH]; intros w Hw Hl Hops H1 H2 H3; [by exists w|]. simpl length in *.
  apply Forall_cons in Hops as [Hop Hops].
  destruct (worker_step_safe ports listen op w Hw Hl Hop) as (w1 & Hs & Hok & [_ G1 G2 G3]); [lia|lia|lia|].
  simpl. rewrite Hs. simpl. apply IH; try done; lia.
Qed.

Lemma worker_new_ok id ipv4 ipv6 lo hi listen w : snat_config_ok ipv4 ipv6 lo hi → worker_new_dual id ipv4 ipv6 lo hi = Ok w →
  worker_ok (port_range lo hi) listen w ∧ next_session_id (w_sessions w) = 1 ∧ next_dns_token w = 1
  ∧ next_dns_completed_sequence w = 1.
Proof.
  intros Hcfg Hnew. pose proof (worker_new_dual_inv _ _ _ _ _ _ Hcfg Hnew) as Hi. revert Hnew.
  unfold worker_new_dual. destruct (session_new_dual id ipv4 ipv6 lo hi) as [t| |] eqn:Ht; [|done..]. intros [= <-].
  split_and!; [|unfold session_new_dual, nat_new_dual in Ht; case_decide; [done|]; by injection Ht as <-|done|done].
  split; [done| |simpl; lia|done]. split; simpl; [by intros f n; rewrite !lookup_empty|done|]. rewrite map_size_empty. lia.
Qed.

(** ** A client packet and its reply *)

Lemma session_for_Err ports w flow io qf flags now clock e w' : owns ports w → next_session_id (w_sessions w) < 2 ^ 63 →
  session_for flow io qf flags now clock w = (Err e, w') →
  e = SessionErr (Nat AddressFamilyMismatch) ∨ e = SessionErr (Nat PortRangeExhausted).
Proof.
  intros [Ho Hinv Hfl] Hlt. unfold session_for, on_sessions, szoom. rewrite <- Ho.
  destruct (by_key (w_sessions w) !! mkSessionKey flow (ifindex io)) as [i|] eqn:Hk.
  - pose proof Hk as (s & Hs & Hks)%(si_key _ _ _ Hinv).
    destruct (touch_tcp_run ports _ i s flags false now Hinv Hs) as (t' & Hrun & _).
    unfold get_or_create_with_flags_at, sbind, sreads, sret. rewrite ensure_owner_ok. cbv zeta. by rewrite Hk, Hrun.
  - destruct (create_run ports _ flow io (qf_id qf) flags false now clock Hinv Hlt Hk) as (r & t' & -> & _ & _ & Hc).
    destruct Hc as [(-> & _)|(snat & _ & [(-> & _)|(port & -> & _)])]; [intros [= <- _]; by left|intros [= <- _]; by right|done].
Qed.

(** Every way [handle_intercept] can end. *)
Definition intercept_ends (io : IoOwnerKey) (packet : bytes) (qf : QuicFlow) (target : IoOwnerKey) (w : FlowWorkerState)
    (run : outcome FlowWorkerError HandledIntercept * FlowWorkerState) : Prop :=
  match run with
  | (Ok h, w') => qf_flow_worker_id qf = worker_id w ∧ io_target (hi_transmit h) = target
      ∧ ∃ s, session_get (w_sessions w') (hi_session_id h) = Some s ∧ s_flow_worker_id s = worker_id w
        ∧ ifindex (s_intercept_io s) = ifindex io
        ∧ parse_flow_key packet = Ok (s_original s) ∧ length (io_packet (hi_transmit h)) = length packet
        ∧ parse_flow_key (io_packet (hi_transmit h)) = Ok (nb_translated (s_nat s))
        ∧ validate_packet_checksums (io_packet (hi_transmit h)) = Ok tt
  | (Err e, w') => (qf_flow_worker_id qf ≠ worker_id w ∧ e = WrongQuicFlowOwner (worker_id w) (qf_flow_worker_id qf) ∧ w' = w)
      ∨ (∃ pe, prepare_client_packet packet = Err pe ∧ e = PacketErr pe ∧ w' = w)
      ∨ e = SessionErr (Nat AddressFamilyMismatch) ∨ e = SessionErr (Nat PortRangeExhausted)
  | (Panic, _) => False
  end.

Lemma handle_intercept_ends ports listen w io packet qf target now clock : worker_ok ports listen w →
  next_session_id (w_sessions w) < 2 ^ 63 → bytes_ok packet →
  intercept_ends io packet qf target w (handle_intercept io packet qf target now clock w).
Proof.
  intros Hw Hlt Hok. pose proof (wi_owns _ _ _ (ok_inv _ _ _ Hw)) as Hown. unfold handle_intercept.
  unfold sbind at 1, sget at 1. case_decide as Hq; [left; done|].
  pose proof (prepare_client_no_panic packet Hok) as Hnp. unfold sbind at 1, packet_try at 1, slift at 1.
  destruct (prepare_client_packet packet) as [[[q f] flags]|pe|] eqn:Hp; cbn [map_err]; [|right; left; by exists pe|done].
  apply prepare_client_packet_Ok in Hp as (Hokq & Hpp & Hpq & Hf & _ & _ & Hlen); [|done].
  unfold sbind at 1. destruct (session_for f io qf flags now clock w) as [r1 w1] eqn:Hsf. destruct r1 as [id|e|].
  - destruct (session_for_Ok _ _ _ _ _ _ _ _ _ _ Hown Hlt Hf Hsf) as (How1 & s & Hs & Hso & Hsw & Hio & _).
    unfold sbind, sreads. rewrite Hs. cbn [expect].
    destruct (session_rewrite ports _ _ _ q (ow_inv _ _ How1) Hs) as (q' & Hrw & [Hl _ Hpq' Hv _]); [done|congruence|].
    unfold packet_try, slift. rewrite (proj2 (on_packet_Ok _ _ _ _) Hrw). cbn [map_err snd]. unfold sret, intercept_ends.
    split; [destruct (decide (qf_flow_worker_id qf = worker_id w)); tauto|]. split; [done|]. exists s.
    split_and!; [done|done|done|congruence|simpl; congruence|done|done].
  - right; right. by eapply session_for_Err.
  - destruct (safe_session_for ports listen w Hw Hlt f io qf flags now clock sret Hf) as [Hnp' _].
    + intros t' i s Hm _ _. by apply moves_safe'.
    + unfold sbind in Hnp'. by rewrite Hsf in Hnp'.
Qed.

(** A reply to a live session that passes the packet checks is accepted. *)
Lemma handle_reverse_accepts ports w packet p1 m p2 flags id s r now : owns ports w → bytes_ok packet →
  sessions (w_sessions w) !! id = Some s → parse_flow_key packet = Ok r → is_reply (nb_translated (s_nat s)) r →
  on_packet prepare_forwarded_packet packet = Ok (tt, p1) → on_packet (clamp_tcp_mss TCP_MAX_SAFE_MSS) p1 = Ok (m, p2) →
  parse_tcp_flags p2 = Ok flags → 
  ∃ h w', handle_reverse packet now w = (Ok (Some h), w') ∧ hr_session_id h = id
    ∧ parse_flow_key (hr_packet h) = Ok (restored_flow (s_original s) r) ∧ validate_packet_checksums (hr_packet h) = Ok tt
    ∧ length (hr_packet h) = length packet ∧ hr_local_target h = s_intercept_io s.
Proof.
  intros How Hok Hs Hr Hrep Hp1 Hp2 Hfl. pose proof How as [Ho Hinv Hflow].
  pose proof Hp1 as Hpr%on_packet_Ok. apply prepare_spec in Hpr as (_ & _ & _ & _ & Hpp & _ & Hl1 & _ & Hok1); [|done].
  assert (lookup_reverse_locator (w_sessions w) r = Some (own_locator (worker_id w) id)) as Hlk.
  { rewrite <- Ho. apply (lookup_reverse_locator_iff ports); [done|]. by exists id, s. }
  unfold handle_reverse. unfold sbind at 1, packet_try at 1, slift at 1. rewrite Hr. cbn [map_err]. unfold sbind at 1, sget at 1.
  rewrite Hlk. unfold handle_reverse_for, handle_reverse_for_inner.
  unfold sbind at 1, packet_try at 1, slift at 1. rewrite Hp1. cbn [map_err snd].
  unfold sbind at 1, packet_try at 1, slift at 1. rewrite Hpp, Hr. cbn [map_err]. unfold sbind at 1, sget at 1. rewrite Hlk.
  rewrite decide_False by (intros [H|H]; by apply H). unfold sbind at 1, packet_try at 1, slift at 1. rewrite Hp2. cbn [map_err snd].
  unfold sbind at 1, packet_try at 1, slift at 1. rewrite Hfl. cbn [map_err]. cbv zeta. unfold own_locator. cbn [locator_session_id].
  unfold sbind at 1, sret at 1. cbn [negb].
  destruct (touch_tcp_run ports _ id s flags true now Hinv Hs) as (t2 & Hrun & Hi2 & Ho2 & _ & _ & _ & Hss). rewrite Ho in Hrun.
  unfold sbind at 1, session_try, smap_err, on_sessions, szoom. rewrite Hrun. cbn [map_err].
  set (s2 := touched s flags true now) in *. destruct (touched_fields s flags true now) as (_ & Hso & Hsn & _ & Hio & _). fold s2 in Hso, Hsn, Hio.
  assert (sessions t2 !! id = Some s2) as Hs2 by (by rewrite Hss, lookup_insert_eq).
  unfold sbind at 1, sreads, session_get. simpl. rewrite Hs2. cbn [expect].
  apply on_packet_Ok in Hp2. destruct (clamp_spec TCP_MAX_SAFE_MSS p1) as [(e & He)|(m' & p2' & Hc' & Hl2 & _ & Hpc & _ & _ & Hok2)];
    [done|by vm_compute|congruence|]. rewrite Hc' in Hp2. injection Hp2 as -> ->.
  destruct (restored_translation ports t2 id s2 r Hi2 Hs2) as [Htr Hfo].
  { rewrite Hso. by eapply Hflow. } { by rewrite Hsn. } { by apply (parse_flow_ok packet). }
  destruct (rewrite_packet_run p2 r _ Hok2 ltac:(congruence) Hfo Htr) as (q & Hrw & [Hlq _ Hpq Hvq _]).
  unfold sbind, packet_try, slift. rewrite (proj2 (on_packet_Ok _ _ _ _) Hrw). cbn [map_err]. unfold sret. do 2 eexists.
  split; [done|]. simpl. rewrite <- Hso. split_and!; [done|done|done|congruence|done].
Qed.

(** ** A concrete worker *)

Definition sample_worker : FlowWorkerState :=
  mkWorker 3 sample_table 1 ∅ ∅ ∅ ∅ ∅ 1 (λ _, 0).
Definition sample_listen : SocketAddr := mkSocketAddr (V4 0x0a000035) 53.
Definition sample_config : DnsFlowConfig :=
  mkDnsFlowConfig sample_listen (mkSocketAddr (V4 0x08080808) 53) (mkSocketAddr (V4 0x09090909) 53)
    (rules_new [[101; 120; 97; 109; 112; 108; 101]]) 8 5000 true.
Definition sample_quic : QuicFlow := mkQuicFlow (mkQuicFlowId 7) 3 0.
Definition sample_target : IoOwnerKey := mkIoOwnerKey 9 1.

(** A UDP packet that carries a DNS payload, with its checksums written. *)
Definition dns_packet (f : FlowKey) (payload : bytes) : bytes :=
  (rewrite_packet f ([0x45; 0] ++ be_bytes 2 (28 + Z.of_nat (length payload)) ++ [0; 0; 0; 0; 64; 17; 0; 0]
     ++ replicate 8 0 ++ be_bytes 2 (fk_source_port f) ++ be_bytes 2 (fk_destination_port f)
     ++ be_bytes 2 (8 + Z.of_nat (length payload)) ++ [0; 0] ++ payload)).2.
Definition sample_dns_query : bytes :=
  dns_packet (mkFlowKey (V4 0x0a000007) (V4 0x0a000035) 5353 53 Udp) sample_query.
Definition sample_asked : FlowWorkerState :=
  (handle_dns_query_at sample_io sample_dns_query sample_config 0 0 sample_worker).2.
Definition sample_dns_response : bytes :=
  dns_packet (mkFlowKey (V4 0x09090909) (V4 0xc0000201) 53 40000 Udp) (patch 2 [0x81] sample_query).

Definition sample_request : FlowWorkerState :=
  (handle_intercept sample_io sample_syn_sealed sample_quic sample_target 0 0 sample_worker).2.
Definition sample_sent : HandledIntercept :=
  match (handle_intercept sample_io sample_syn_sealed sample_quic sample_target 0 0 sample_worker).1 with
  | Ok h => h
  | _ => mkHandledIntercept (mkSessionId 0) (mkIoTransmit sample_io [] None)
  end.
Definition sample_reply_flow : FlowKey := mkFlowKey (V4 0xc6336414) (V4 0xc0000201) 443 40000 Tcp.
Definition sample_reply : bytes := (rewrite_packet sample_reply_flow sample_syn).2.
Definition sample_reply_prepared : bytes := (prepare_forwarded_packet sample_reply).2.
Definition sample_reply_clamped : bytes := (clamp_tcp_mss TCP_MAX_SAFE_MSS sample_reply_prepared).2.

Lemma sample_worker_ok : worker_ok (port_range 40000 40003) sample_listen sample_worker.
Proof. by apply (worker_new_ok 3 (Some 0xc0000201) None 40000 40003 sample_listen sample_worker sample_range_ok). Qed.

Lemma sample_listen_ok : socket_ok sample_listen.
Proof. split; vmdec. Qed.

Lemma sample_config_ok : config_ok sample_listen sample_config.
Proof. split_and!; [done|split; vmdec..]. Qed.

Lemma sample_asked_ok : worker_ok (port_range 40000 40003) sample_listen sample_asked.
Proof.
  apply (handle_dns_query_safe _ _ sample_worker sample_io sample_dns_query sample_config 0 0 sample_worker_ok sample_config_ok);
    [vm_compute; reflexivity|vmdec].
Qed.

(** ** The worker properties *)



(** C9: A client packet handled by [handle_intercept] either leaves toward the
    tunnel with the translated flow of its session, valid checksums and its
    length unchanged, the session being this worker's and keyed by the ingress
    interface; or it is refused for one of the four reasons of the code, a wrong
    owner or an unacceptable packet without any change of state.  Nothing else
    can happen. *)
Theorem intercept_outcome (ports : gset Z) (listen : SocketAddr) (w : FlowWorkerState) (io : IoOwnerKey) (packet : bytes)
    (qf : QuicFlow) (target : IoOwnerKey) (now clock : Z) :
  worker_ok ports listen w → next_session_id (w_sessions w) < 2 ^ 63 → bytes_ok packet →
  intercept_ends io packet qf target w (handle_intercept io packet qf target now clock w).
Proof. apply handle_intercept_ends. Qed.

Lemma intercept_outcome_witness :
  intercept_ends sample_io sample_syn_sealed sample_quic sample_target sample_worker
    (handle_intercept sample_io sample_syn_sealed sample_quic sample_target 0 0 sample_worker).
Proof.
  apply (intercept_outcome (port_range 40000 40003) sample_listen); [exact sample_worker_ok|reflexivity|vmdec].
Defined.

(** The restored flow answers the original one. *)
Lemma restored_is_reply flow r : is_reply flow (restored_flow flow r).
Proof. unfold is_reply, restored_flow. by destruct (fk_protocol flow) eqn:Hp; simpl; rewrite ?Hp. Qed.

(** C10: The path back: after a client packet was intercepted, a packet that
    answers the translated flow and passes the packet checks is accepted for the
    same session and leaves, with valid checksums, as the reply to the client's
    own flow, toward the interface the client came from. *)
Theorem reply_reaches_client (ports : gset Z) (listen : SocketAddr) (w w1 : FlowWorkerState) (io : IoOwnerKey)
    (packet reply p1 p2 : bytes) (qf : QuicFlow) (target : IoOwnerKey) (now clock now' : Z) (h : HandledIntercept)
    (flow translated r : FlowKey) (m : bool) (flags : option Z) :
  worker_ok ports listen w → next_session_id (w_sessions w) < 2 ^ 63 → bytes_ok packet → bytes_ok reply →
  handle_intercept io packet qf target now clock w = (Ok h, w1) →
  parse_flow_key packet = Ok flow → parse_flow_key (io_packet (hi_transmit h)) = Ok translated →
  parse_flow_key reply = Ok r → is_reply translated r →
  on_packet prepare_forwarded_packet reply = Ok (tt, p1) → on_packet (clamp_tcp_mss TCP_MAX_SAFE_MSS) p1 = Ok (m, p2) →
  parse_tcp_flags p2 = Ok flags →
  ∃ h' w2, handle_reverse reply now' w1 = (Ok (Some h'), w2) ∧ hr_session_id h' = hi_session_id h
    ∧ (∃ f, parse_flow_key (hr_packet h') = Ok f ∧ is_reply flow f) ∧ validate_packet_checksums (hr_packet h') = Ok tt
    ∧ length (hr_packet h') = length reply ∧ ifindex (hr_local_target h') = ifindex io.
Proof.
  intros Hw Hlt Hok Hokr Hrun Hf Ht Hr Hrep Hp1 Hp2 Hfl.
  pose proof (handle_intercept_ends ports listen w io packet qf target now clock Hw Hlt Hok) as Hends.
  pose proof (handle_intercept_safe ports listen w Hw Hlt io packet qf target now clock Hok) as (_ & Hw1 & _).
  rewrite Hrun in Hends, Hw1. destruct Hends as (_ & _ & s & Hs & _ & Hio & Hpo & _ & Hpt & _).
  assert (s_original s = flow) as Hso by congruence. assert (nb_translated (s_nat s) = translated) as Hst by congruence.
  pose proof (wi_owns _ _ _ (ok_inv _ _ _ Hw1)) as Hown1. simpl in Hown1.
  destruct (handle_reverse_accepts ports w1 reply p1 m p2 flags (hi_session_id h) s r now' Hown1 Hokr Hs Hr) as (h' & w2 & Hrev & Hid & Hp' & Hv' & Hl' & Ht');
    [by rewrite Hst|done|done|done|]. exists h', w2. rewrite Ht', <- Hso. split_and!; try done.
  exists (restored_flow (s_original s) r). split; [done|]. apply restored_is_reply.
Qed.

Lemma reply_reaches_client_witness : ∃ h' w2, handle_reverse sample_reply 5 sample_request = (Ok (Some h'), w2)
  ∧ hr_session_id h' = hi_session_id sample_sent ∧ (∃ f, parse_flow_key (hr_packet h') = Ok f ∧ is_reply sample_syn_flow f)
  ∧ validate_packet_checksums (hr_packet h') = Ok tt ∧ length (hr_packet h') = length sample_reply
  ∧ ifindex (hr_local_target h') = ifindex sample_io.
Proof.
  apply (reply_reaches_client (port_range 40000 40003) sample_listen sample_worker sample_request sample_io sample_syn_sealed
    sample_reply sample_reply_prepared sample_reply_clamped sample_quic sample_target 0 0 5 sample_sent sample_syn_flow
    (mkFlowKey (V4 0xc0000201) (V4 0xc6336414) 40000 443 Tcp) sample_reply_flow true (Some 2)).
  - exact sample_worker_ok.
  - reflexivity.
  - vmdec.
  - vmdec.
  - vm_compute. reflexivity.
  - vm_compute. reflexivity.
  - vm_compute. reflexivity.
  - vm_compute. reflexivity.
  - vm_compute. split_and!; reflexivity.
  - vm_compute. reflexivity.
  - vm_compute. reflexivity.
  - vm_compute. reflexivity.
Defined.



(** C26: A packet from a resolver is accepted only as the answer of a waiting
    transaction: it arrives on the reverse of the transaction's translated flow
    and matches the stored query; then the transaction and its NAT binding are
    gone, the flow is remembered as completed, and the client gets the answer, or
    a SERVFAIL, from the address it asked, with valid checksums.  A packet that
    is dropped changes neither transactions nor sessions; no packet makes the
    handler panic. *)
Theorem dns_response_outcome (ports : gset Z) (listen : SocketAddr) (w : FlowWorkerState) (packet : bytes) (clock : Z) :
  worker_ok ports listen w → next_dns_completed_sequence w < 2 ^ 64 - 1 → bytes_ok packet → socket_ok listen →
  response_handled ports listen packet w (handle_dns_response packet clock w).
Proof. apply handle_dns_response_spec. Qed.

Lemma dns_response_outcome_witness :
  response_handled (port_range 40000 40003) sample_listen sample_dns_response sample_asked (handle_dns_response sample_dns_response 10 sample_asked).
Proof.
  apply dns_response_outcome; [exact sample_asked_ok|vm_compute; reflexivity|vmdec|exact sample_listen_ok].
Defined.

(** [expire_dns_transactions] ends exactly the transactions whose deadline has
    passed: each of them is answered once with a SERVFAIL to its own client, the
    others stay, sessions are untouched, and the worker stays consistent. *)
Theorem expire_dns_exact (ports : gset Z) (listen : SocketAddr) (w : FlowWorkerState) (now : Z) (config : DnsFlowConfig)
    (clock : DnsFlowTransactionKey → Z) :
  worker_ok ports listen w → config_ok listen config →
  ∃ keys answers w', expire_dns_transactions now config clock w = (Ok answers, w') ∧ worker_ok ports listen w' ∧ NoDup keys
    ∧ (∀ k, k ∈ keys ↔ ∃ tx, dns_by_key w !! k = Some tx ∧ ft_expires_at tx ≤ now)
    ∧ (∀ k, dns_by_key w' !! k = if decide (k ∈ keys) then None else dns_by_key w !! k)
    ∧ sessions (w_sessions w') = sessions (w_sessions w)
    ∧ Forall2 (λ k e, ∃ tx, dns_by_key w !! k = Some tx ∧ servfail_of config tx e) keys answers.
Proof.
  intros Hw Hcfg. pose proof (expire_dns_safe ports listen w now config clock Hw Hcfg) as (_ & Hok & _).
  destruct (expire_dns_run ports w now config clock (ok_inv _ _ _ Hw) (ok_listen _ _ _ _ Hw Hcfg))
    as (keys & es & w' & Hrun & _ & Hnd & Hin & Hk & Hdo & Hes). rewrite Hrun in Hok.
  exists keys, es, w'. split_and!; try done. apply (dy_sessions _ _ Hdo).
Qed.

Lemma expire_dns_exact_witness : ∃ keys answers w',
  expire_dns_transactions 6000 sample_config (λ _, 0) sample_asked = (Ok answers, w')
  ∧ worker_ok (port_range 40000 40003) sample_listen w' ∧ NoDup keys
  ∧ (∀ k, k ∈ keys ↔ ∃ tx, dns_by_key sample_asked !! k = Some tx ∧ ft_expires_at tx ≤ 6000)
  ∧ (∀ k, dns_by_key w' !! k = if decide (k ∈ keys) then None else dns_by_key sample_asked !! k)
  ∧ sessions (w_sessions w') = sessions (w_sessions sample_asked)
  ∧ Forall2 (λ k e, ∃ tx, dns_by_key sample_asked !! k = Some tx ∧ servfail_of sample_config tx e) keys answers.
Proof. apply (expire_dns_exact (port_range 40000 40003) sample_listen); [exact sample_asked_ok|exact sample_config_ok]. Defined.

(** When the tunnel goes away, [abort_remote_dns_transactions] ends exactly the
    transactions routed to the remote resolver and answers each with a SERVFAIL;
    local transactions keep waiting. *)
Theorem abort_remote_exact (ports : gset Z) (listen : SocketAddr) (w : FlowWorkerState) (config : DnsFlowConfig)
    (clock : DnsFlowTransactionKey → Z) :
  worker_ok ports listen w → config_ok listen config →
  ∃ keys answers w', abort_remote_dns_transactions config clock w = (Ok answers, w') ∧ worker_ok ports listen w' ∧ NoDup keys
    ∧ (∀ k, k ∈ keys ↔ ∃ tx, dns_by_key w !! k = Some tx ∧ ft_remote tx = true)
    ∧ (∀ k, dns_by_key w' !! k = if decide (k ∈ keys) then None else dns_by_key w !! k)
    ∧ Forall2 (λ k e, ∃ tx, dns_by_key w !! k = Some tx ∧ servfail_of config tx e) keys answers.
Proof.
  intros Hw Hcfg. pose proof (abort_remote_safe ports listen w config clock Hw Hcfg) as (_ & Hok & _).
  destruct (abort_remote_run ports w config clock (ok_inv _ _ _ Hw) (ok_listen _ _ _ _ Hw Hcfg))
    as (keys & es & w' & Hrun & _ & Hnd & Hin & Hk & _ & Hes). rewrite Hrun in Hok.
  exists keys, es, w'. by split_and!.
Qed.

Lemma abort_remote_exact_witness : ∃ keys answers w',
  abort_remote_dns_transactions sample_config (λ _, 0) sample_asked = (Ok answers, w')
  ∧ worker_ok (port_range 40000 40003) sample_listen w' ∧ NoDup keys
  ∧ (∀ k, k ∈ keys ↔ ∃ tx, dns_by_key sample_asked !! k = Some tx ∧ ft_remote tx = true)
  ∧ (∀ k, dns_by_key w' !! k = if decide (k ∈ keys) then None else dns_by_key sample_asked !! k)
  ∧ Forall2 (λ k e, ∃ tx, dns_by_key sample_asked !! k = Some tx ∧ servfail_of sample_config tx e) keys answers.
Proof. apply (abort_remote_exact (port_range 40000 40003) sample_listen); [exact sample_asked_ok|exact sample_config_ok]. Defined.

(** [remove_dns_transactions] (a worker shutting its DNS down) ends every
    transaction, returns exactly their bindings, and leaves no NAT binding of a
    DNS transaction behind; sessions are untouched. *)
Theorem remove_dns_releases_all (ports : gset Z) (listen : SocketAddr) (w : FlowWorkerState) (clock : SessionId → Z) :
  worker_ok ports listen w →
  ∃ bs w', remove_dns_transactions clock w = (Ok bs, w') ∧ dns_by_key w' = ∅
    ∧ (∀ id, ephemeral id → forward (nat_table (w_sessions w')) !! id = None)
    ∧ (∀ b, b ∈ bs ↔ ∃ k tx, dns_by_key w !! k = Some tx ∧ ft_binding tx = b)
    ∧ sessions (w_sessions w') = sessions (w_sessions w).
Proof.
  intros Hw. destruct (remove_dns_run ports w clock (ok_inv _ _ _ Hw)) as (bs & w' & Hrun & _ & Hb & Hn & Hbs & _ & _ & Hs & _).
  by exists bs, w'.
Qed.

Lemma remove_dns_releases_all_witness : ∃ bs w', remove_dns_transactions (λ _, 0) sample_asked = (Ok bs, w') ∧ dns_by_key w' = ∅
  ∧ (∀ id, ephemeral id → forward (nat_table (w_sessions w')) !! id = None)
  ∧ (∀ b, b ∈ bs ↔ ∃ k tx, dns_by_key sample_asked !! k = Some tx ∧ ft_binding tx = b)
  ∧ sessions (w_sessions w') = sessions (w_sessions sample_asked).
Proof. apply (remove_dns_releases_all (port_range 40000 40003) sample_listen). exact sample_asked_ok. Defined.

(** The late-response memory is a bounded queue: remembering a completed flow
    returns, records the flow as the newest entry, keeps at most 65536 entries,
    and an entry that was dropped for it was the oldest of all. *)
Theorem completed_memory_fifo (f : FlowKey) (w : FlowWorkerState) :
  completed_inv w → 1 ≤ next_dns_completed_sequence w < 2 ^ 64 - 1 →
  ∃ r o, remember_completed_dns_reverse (E := FlowWorkerError) f w
      = (Ok tt, set_w_completed r o (next_dns_completed_sequence w + 1) w)
    ∧ completed_inv (set_w_completed r o (next_dns_completed_sequence w + 1) w)
    ∧ Z.of_nat (size r) ≤ 65536 ∧ r !! f = Some (next_dns_completed_sequence w)
    ∧ (∀ g n, g ≠ f → r !! g = Some n → dns_completed_reverse w !! g = Some n)
    ∧ (∀ g n, g ≠ f → dns_completed_reverse w !! g = Some n → r !! g = None → ∀ g' n', r !! g' = Some n' → n < n').
Proof.
  intros Hc Hn. destruct (remember_run (E := FlowWorkerError) f w Hc Hn) as (r & o & Hrun & Hci & Hf & Ho & Hold).
  exists r, o. split_and!; try done. pose proof (ci_bound _ Hci) as Hb. simpl in Hb. unfold DNS_COMPLETED_REVERSE_CAPACITY in Hb. lia.
Qed.

Lemma completed_memory_fifo_witness : ∃ r o, remember_completed_dns_reverse (E := FlowWorkerError) sample_syn_flow sample_worker
      = (Ok tt, set_w_completed r o 2 sample_worker)
    ∧ completed_inv (set_w_completed r o 2 sample_worker)
    ∧ Z.of_nat (size r) ≤ 65536 ∧ r !! sample_syn_flow = Some 1
    ∧ (∀ g n, g ≠ sample_syn_flow → r !! g = Some n → dns_completed_reverse sample_worker !! g = Some n)
    ∧ (∀ g n, g ≠ sample_syn_flow → dns_completed_reverse sample_worker !! g = Some n → r !! g = None →
         ∀ g' n', r !! g' = Some n' → n < n').
Proof. apply (completed_memory_fifo sample_syn_flow sample_worker); [apply sample_worker_ok|simpl; lia]. Defined.
