(* ===== verification/Frame.v ===== *)
(** The I/O worker: the parser and the classifier of the Ethernet frames an
    AF_XDP queue delivers ([src/src/xdp_datapath/io_worker.rs]).

    [handle_frame] reads the shared index of connection IDs and the shared
    directory of translated flows, and steps the dispatcher of [Dispatch.v].
    Slices are checked as in [Packet.v]: a [get] that fails is a [DropReason], an
    index out of range is [Panic].  The prefixes of the policy ([ipnet::IpNet]) and
    the hash of the DNS owner ([DefaultHasher], whose keys the standard library does
    not document) are parameters.  The names of [Packet.v] that the I/O worker
    declares again carry the prefix [frame_]. *)
From S2P Require Import Prelude Net Packet NatTable QuicFlow Dns Dispatch.

Definition ETHERNET_HEADER_LEN : nat := 14.
Definition ETH_P_IPV4 : Z := 0x0800.
Definition ETH_P_IPV6 : Z := 0x86dd.

Inductive InterceptPolicy (IpNet : Type) : Type :=
| TunnelPrefixes (prefixes : list IpNet)
| DirectPrefixes (prefixes : list IpNet)
| All.
Arguments TunnelPrefixes {IpNet}.
Arguments DirectPrefixes {IpNet}.
Arguments All {IpNet}.

Record DnsLocalResponseClassifier : Type := mkDnsLocalResponse {
  dl_resolver : SocketAddr;
  dl_nat_ip : IpAddr;
  dl_nat_ports : Z * Z;
}.

Record IoClassifierConfig (IpNet : Type) : Type := mkIoConfig {
  owner : IoOwnerKey;
  tunnel : bool;
  intercept : bool;
  tunnel_port : Z;
  tunnel_local_ips : list IpAddr;
  nat_return_ips : list IpAddr;
  dns_listen : option SocketAddr;
  dns_local_response : option DnsLocalResponseClassifier;
  dcid_len : nat;
  flow_worker_count : nat;
  intercept_policy : InterceptPolicy IpNet;
}.
Arguments mkIoConfig {IpNet}.
Arguments owner {IpNet}.
Arguments tunnel {IpNet}.
Arguments intercept {IpNet}.
Arguments tunnel_port {IpNet}.
Arguments tunnel_local_ips {IpNet}.
Arguments nat_return_ips {IpNet}.
Arguments dns_listen {IpNet}.
Arguments dns_local_response {IpNet}.
Arguments dcid_len {IpNet}.
Arguments flow_worker_count {IpNet}.
Arguments intercept_policy {IpNet}.

Inductive DropReason : Type :=
| MalformedEthernet
| MalformedIp
| MalformedUdp
| InvalidQuic
| UnknownDcid
| UnknownDnsTransaction
| UnknownNatTuple
| FragmentedDns
| InvalidFlow
| DispatchRejected (o : DispatchOutcome).
#[global] Instance DropReason_eq_dec : EqDecision DropReason.
Proof. solve_decision. Defined.

Inductive IngressOutcome : Type :=
| Passed
| Dispatched (worker_id : nat)
| Dropped (reason : DropReason).
#[global] Instance IngressOutcome_eq_dec : EqDecision IngressOutcome.
Proof. solve_decision. Defined.

(** ** The frame parser *)

Record ParsedIpFrame : Type := mkParsed {
  ip_packet : bytes;
  pf_source : IpAddr;
  pf_destination : IpAddr;
  protocol : Z;
  transport_offset : nat;
  fragmented : bool;
}.

(** The body of [for _ in 0..8]; [n] iterations are left. *)
Fixpoint frame_ipv6_transport_offset_loop (n : nat) (packet : bytes) (total_len : nat)
    (next_header : Z) (offset : nat) (fragmented : bool) : outcome DropReason (Z * nat * bool) :=
  match n with
  | O => Err MalformedIp
  | S n =>
      if decide (is_option_header next_header) then
        let? header := ok_or (get_range packet offset (offset + 2)) MalformedIp in
        let? next := idx header 0 in
        let? units := idx header 1 in
        let header_len := ((Z.to_nat units + 1) * 8)%nat in
        if decide (offset + header_len ≤ total_len)%nat
        then frame_ipv6_transport_offset_loop n packet total_len next (offset + header_len) fragmented
        else Err MalformedIp
      else if decide (next_header = IP_PROTOCOL_FRAGMENT) then
        let? header := ok_or (get_range packet offset (offset + 8)) MalformedIp in
        let? next := idx header 0 in
        if decide (offset + 8 ≤ total_len)%nat
        then frame_ipv6_transport_offset_loop n packet total_len next (offset + 8) true
        else Err MalformedIp
      else if decide (next_header = IP_PROTOCOL_AH) then
        let? header := ok_or (get_range packet offset (offset + 2)) MalformedIp in
        let? next := idx header 0 in
        let? units := idx header 1 in
        let header_len := ((Z.to_nat units + 2) * 4)%nat in
        if decide (offset + header_len ≤ total_len)%nat
        then frame_ipv6_transport_offset_loop n packet total_len next (offset + header_len) fragmented
        else Err MalformedIp
      else Ok (next_header, offset, fragmented)
  end.

Definition frame_ipv6_transport_offset (packet : bytes) (total_len : nat) (next_header : Z) (offset : nat)
    : outcome DropReason (Z * nat * bool) :=
  frame_ipv6_transport_offset_loop 8 packet total_len next_header offset false.

Definition parse_ipv4_frame (packet : bytes) : outcome DropReason ParsedIpFrame :=
  let? header := ok_or (get_range packet 0 20) MalformedIp in
  let? first := idx header 0 in
  if decide (Z.shiftr first 4 ≠ 4) then Err MalformedIp else
  let header_len := (Z.to_nat (Z.land first 0x0f) * 4)%nat in
  let? total := rd16 header 2 in
  let total_len := Z.to_nat total in
  if decide (header_len < 20 ∨ total_len < header_len ∨ length packet < total_len)%nat then Err MalformedIp else
  let? fragment := rd16 header 6 in
  let? ip_packet := slice packet 0 total_len in
  let? source := slice header 12 16 in
  let? destination := slice header 16 20 in
  let? protocol := idx header 9 in
  Ok (mkParsed ip_packet (V4 (be_val source)) (V4 (be_val destination)) protocol header_len
        (bool_decide (Z.land fragment 0x3fff ≠ 0))).

Definition parse_ipv6_frame (packet : bytes) : outcome DropReason ParsedIpFrame :=
  let? header := ok_or (get_range packet 0 40) MalformedIp in
  let? first := idx header 0 in
  if decide (Z.shiftr first 4 ≠ 6) then Err MalformedIp else
  let? payload_len := rd16 header 4 in
  let total_len := (40 + Z.to_nat payload_len)%nat in
  if decide (length packet < total_len)%nat then Err MalformedIp else
  let? next_header := idx header 6 in
  let? '(protocol, transport_offset, fragmented) := frame_ipv6_transport_offset packet total_len next_header 40 in
  let? ip_packet := slice packet 0 total_len in
  let? source := slice header 8 24 in
  let? destination := slice header 24 40 in
  Ok (mkParsed ip_packet (V6 (be_val source)) (V6 (be_val destination)) protocol transport_offset fragmented).

Definition parse_ip_frame (frame : bytes) : outcome DropReason ParsedIpFrame :=
  let? ethernet := ok_or (get_range frame 0 ETHERNET_HEADER_LEN) MalformedEthernet in
  let? ether_type := rd16 ethernet 12 in
  let? packet := slice frame ETHERNET_HEADER_LEN (length frame) in
  if decide (ether_type = ETH_P_IPV4) then parse_ipv4_frame packet
  else if decide (ether_type = ETH_P_IPV6) then parse_ipv6_frame packet
  else Err MalformedIp.

(** ** The outer QUIC datagram *)

Record OuterQuic : Type := mkOuterQuic {
  oq_dcid : bytes;
  oq_remote : SocketAddr;
  oq_local_ip : IpAddr;
  oq_payload : bytes;
  bootstrap : bool;
}.

Definition parse_quic_dcid (packet : bytes) (fixed_len : nat) : outcome DropReason (bytes * bool) :=
  let? first := ok_or (head packet) InvalidQuic in
  if decide (fixed_len = 0 ∨ 20 < fixed_len)%nat then Err InvalidQuic else
  if decide (Z.land first 0x80 ≠ 0) then
    let? version := ok_or (get_range packet 1 5) InvalidQuic in
    let? len := ok_or (packet !! 5%nat) InvalidQuic in
    let dcid_len := Z.to_nat len in
    if decide (dcid_len = 0 ∨ 20 < dcid_len)%nat then Err InvalidQuic else
    let? dcid := ok_or (get_range packet 6 (6 + dcid_len)) InvalidQuic in
    let packet_type := Z.land (Z.shiftr first 4) 0x03 in
    Ok (dcid, bool_decide (packet_type = 0))
  else
    let? dcid := ok_or (get_range packet 1 (1 + fixed_len)) InvalidQuic in
    Ok (dcid, false).

(** [udp_payload] of the I/O worker: the UDP header and the payload its length
    field delimits. *)
Definition frame_udp_payload (parsed : ParsedIpFrame) : outcome DropReason bytes :=
  let? udp := ok_or (get_range (ip_packet parsed) (transport_offset parsed) (length (ip_packet parsed))) MalformedUdp in
  let? header := ok_or (get_range udp 0 8) MalformedUdp in
  let? len := rd16 header 4 in
  let udp_len := Z.to_nat len in
  ok_or (get_range udp 8 udp_len) MalformedUdp.

Definition parse_outer_quic (frame : ParsedIpFrame) (tunnel_port : Z) (fixed_dcid_len : nat)
    : outcome DropReason (option OuterQuic) :=
  if decide (protocol frame ≠ IP_PROTOCOL_UDP) then Ok None else
  let? udp := ok_or (get_range (ip_packet frame) (transport_offset frame) (length (ip_packet frame))) MalformedUdp in
  let? header := ok_or (get_range udp 0 8) MalformedUdp in
  let? source_port := rd16 header 0 in
  let? destination_port := rd16 header 2 in
  if decide (destination_port ≠ tunnel_port) then Ok None else
  let? len := rd16 header 4 in
  let udp_len := Z.to_nat len in
  let? payload := ok_or (get_range udp 8 udp_len) MalformedUdp in
  let? '(dcid, bootstrap) := parse_quic_dcid payload fixed_dcid_len in
  Ok (Some (mkOuterQuic dcid (mkSocketAddr (pf_source frame) source_port) (pf_destination frame) payload bootstrap)).

(** ** Destinations *)

Definition destination_ip (packet : bytes) : option IpAddr :=
  first ← head packet;
  if decide (Z.shiftr first 4 = 4) then (λ a, V4 (be_val a)) <$> get_range packet 16 20
  else if decide (Z.shiftr first 4 = 6) then (λ a, V6 (be_val a)) <$> get_range packet 24 40
  else None.

(** [Ipv4Addr::octets] and [Ipv6Addr::segments]. *)
Definition octet (i : Z) (a : Z) : Z := a / 2 ^ (8 * (3 - i)) mod 256.
Definition segment (i : Z) (a : Z) : Z := a / 2 ^ (16 * (7 - i)) mod 65536.

(** [Ipv4Addr::is_loopback], [is_private], [is_link_local], [is_multicast] and
    [is_broadcast] of the standard library. *)
Definition v4_is_loopback (a : Z) : bool := bool_decide (octet 0 a = 127).
Definition v4_is_private (a : Z) : bool :=
  bool_decide (octet 0 a = 10 ∨ (octet 0 a = 172 ∧ 16 ≤ octet 1 a ≤ 31) ∨ (octet 0 a = 192 ∧ octet 1 a = 168)).
Definition v4_is_link_local (a : Z) : bool := bool_decide (octet 0 a = 169 ∧ octet 1 a = 254).
Definition v4_is_multicast (a : Z) : bool := bool_decide (224 ≤ octet 0 a ≤ 239).
Definition v4_is_broadcast (a : Z) : bool := bool_decide (a = 0xffffffff).
(** [Ipv6Addr::is_unspecified], [is_loopback] and [is_multicast]. *)
Definition v6_is_unspecified (a : Z) : bool := bool_decide (a = 0).
Definition v6_is_loopback (a : Z) : bool := bool_decide (a = 1).
Definition v6_is_multicast (a : Z) : bool := bool_decide (Z.land (segment 0 a) 0xff00 = 0xff00).

Definition is_public_destination (destination : IpAddr) : bool :=
  match destination with
  | V4 address =>
      let a := octet 0 address in let b := octet 1 address in let c := octet 2 address in
      bool_decide (a ≠ 0) && negb (v4_is_loopback address) && negb (v4_is_private address)
      && negb (v4_is_link_local address) && negb (v4_is_multicast address) && negb (v4_is_broadcast address)
      && negb (bool_decide (a = 100 ∧ 64 ≤ b ≤ 127))
      && negb (bool_decide (a = 192 ∧ b = 0 ∧ c = 0))
      && negb (bool_decide (a = 192 ∧ b = 0 ∧ c = 2))
      && negb (bool_decide (a = 192 ∧ b = 31 ∧ c = 196))
      && negb (bool_decide (a = 192 ∧ b = 52 ∧ c = 193))
      && negb (bool_decide (a = 192 ∧ b = 88 ∧ c = 99))
      && negb (bool_decide (a = 192 ∧ b = 175 ∧ c = 48))
      && negb (bool_decide (a = 198 ∧ (b = 18 ∨ b = 19)))
      && negb (bool_decide (a = 198 ∧ b = 51 ∧ c = 100))
      && negb (bool_decide (a = 203 ∧ b = 0 ∧ c = 113))
      && bool_decide (a < 240)
  | V6 address =>
      let s i := segment i address in
      negb (v6_is_unspecified address) && negb (v6_is_loopback address) && negb (v6_is_multicast address)
      && bool_decide (Z.land (s 0) 0xffc0 ≠ 0xfe80)
      && bool_decide (Z.land (s 0) 0xffc0 ≠ 0xfec0)
      && bool_decide (Z.land (s 0) 0xfe00 ≠ 0xfc00)
      && negb (bool_decide (s 0 = 0 ∧ s 1 = 0 ∧ s 2 = 0 ∧ s 3 = 0 ∧ s 4 = 0 ∧ s 5 = 0xffff))
      && negb (bool_decide (s 0 = 0x0100 ∧ s 1 = 0 ∧ s 2 = 0 ∧ s 3 = 0))
      && negb (bool_decide (s 0 = 0x2001 ∧ s 1 = 0x0db8))
      && negb (bool_decide (s 0 = 0x2001 ∧ s 1 = 0x0002 ∧ s 2 = 0))
  end.

(** ** Owners *)

(** [IpAddr::octets]. *)
Definition ip_octets (a : IpAddr) : bytes :=
  match a with V4 x => be_bytes 4 x | V6 x => be_bytes 16 x end.

(** [flow.protocol as u8]: the position of the constructor. *)
Definition protocol_index (p : TransportProtocol) : Z :=
  match p with Tcp => 0 | Udp => 1 | Icmp => 2 | Icmpv6 => 3 end.

Definition flow_bytes (flow : FlowKey) : bytes :=
  ip_octets (fk_source flow) ++ ip_octets (fk_destination flow)
  ++ be_bytes 2 (fk_source_port flow) ++ be_bytes 2 (fk_destination_port flow)
  ++ [protocol_index (fk_protocol flow)].

Definition stable_flow_owner (flow : FlowKey) (worker_count : nat) : nat :=
  if decide (worker_count = 0)%nat then 0%nat
  else Z.to_nat (fnv1a (flow_bytes flow) mod Z.of_nat worker_count).

Definition dispatch_outcome (worker_id : nat) (o : DispatchOutcome) : IngressOutcome :=
  match o with
  | Accepted => Dispatched worker_id
  | other => Dropped (DispatchRejected other)
  end.

Section worker.
Context {IpNet : Type} (contains : IpNet → IpAddr → bool) (dns_hash : IoOwnerKey → DnsTransactionKey → Z).

Definition stable_dns_owner (owner : IoOwnerKey) (flow : FlowKey) (payload : bytes) (worker_count : nat)
    : outcome DropReason nat :=
  if decide (worker_count = 0)%nat then Ok 0%nat else
  match transaction_key (mkSocketAddr (fk_source flow) (fk_source_port flow)) payload with
  | Ok key => Ok (Z.to_nat (dns_hash owner key mod Z.of_nat worker_count))
  | _ => Panic
  end.

Definition intercept_allowed (c : IoClassifierConfig IpNet) (packet : bytes) : bool :=
  match intercept_policy c with
  | All => true
  | TunnelPrefixes prefixes =>
      match destination_ip packet with
      | Some destination => existsb (λ prefix, contains prefix destination) prefixes
      | None => false
      end
  | DirectPrefixes prefixes =>
      match destination_ip packet with
      | Some destination =>
          is_public_destination destination && negb (existsb (λ prefix, contains prefix destination) prefixes)
      | None => false
      end
  end.

Definition is_dns_vip_query (c : IoClassifierConfig IpNet) (parsed : ParsedIpFrame) : outcome DropReason bool :=
  match dns_listen c with
  | None => Ok false
  | Some listen =>
      if decide (pf_destination parsed ≠ sa_ip listen ∨ protocol parsed ≠ IP_PROTOCOL_UDP) then Ok false else
      match get_range (ip_packet parsed) (transport_offset parsed) (transport_offset parsed + 4) with
      | None => Ok false
      | Some udp => let? port := rd16 udp 2 in Ok (bool_decide (port = sa_port listen))
      end
  end.

Definition is_dns_local_resolver_response (c : IoClassifierConfig IpNet) (parsed : ParsedIpFrame) : outcome DropReason bool :=
  match dns_local_response c with
  | None => Ok false
  | Some classifier =>
      if decide (pf_source parsed ≠ sa_ip (dl_resolver classifier) ∨ pf_destination parsed ≠ dl_nat_ip classifier
                 ∨ protocol parsed ≠ IP_PROTOCOL_UDP) then Ok false else
      match get_range (ip_packet parsed) (transport_offset parsed) (transport_offset parsed + 4) with
      | None => Ok false
      | Some udp =>
          let? source_port := rd16 udp 0 in
          let? destination_port := rd16 udp 2 in
          Ok (bool_decide (source_port = sa_port (dl_resolver classifier)
                ∧ fst (dl_nat_ports classifier) ≤ destination_port ≤ snd (dl_nat_ports classifier)))
      end
  end.

(** The tunnel side: the worker of an outer QUIC datagram. *)
Definition tunnel_owner (c : IoClassifierConfig IpNet) (active_dcids : ActiveDcidIndex) (outer : OuterQuic)
    : outcome DropReason nat :=
  match dcid_resolve active_dcids (oq_dcid outer) with
  | Some owner => Ok (do_flow_worker_id owner)
  | None =>
      if bootstrap outer then
        match bootstrap_owner (oq_dcid outer) (Z.of_nat (flow_worker_count c)) with
        | Ok worker_id => Ok (Z.to_nat worker_id)
        | Err _ => Err InvalidQuic
        | Panic => Panic
        end
      else Err UnknownDcid
  end.

(** What the classifier decides before it touches the dispatcher: pass the frame
    on, or send a message to a worker ([return IngressOutcome::Dropped] is [Err]). *)
Inductive Verdict : Type :=
| Pass
| SendTo (worker_id : nat) (message : FlowMessage).

Definition classify_tunnel (c : IoClassifierConfig IpNet) (active_dcids : ActiveDcidIndex) (parsed : ParsedIpFrame)
    : outcome DropReason Verdict :=
  let? outer := parse_outer_quic parsed (tunnel_port c) (dcid_len c) in
  match outer with
  | Some outer =>
      let? worker_id := tunnel_owner c active_dcids outer in
      Ok (SendTo worker_id (TunnelIngress (owner c) (oq_dcid outer) (oq_remote outer) (oq_local_ip outer) (oq_payload outer)))
  | None => Ok Pass
  end.

(** [parse_flow_key] with its error mapped to [DropReason::InvalidFlow]. *)
Definition frame_flow_key (parsed : ParsedIpFrame) : outcome DropReason FlowKey :=
  map_err (λ _, InvalidFlow) (parse_flow_key (ip_packet parsed)).

Definition classify_dns_query (c : IoClassifierConfig IpNet) (parsed : ParsedIpFrame) : outcome DropReason Verdict :=
  if fragmented parsed then Err FragmentedDns else
  let? flow := frame_flow_key parsed in
  let? payload := frame_udp_payload parsed in
  let? worker_id := stable_dns_owner (owner c) flow payload (flow_worker_count c) in
  Ok (SendTo worker_id (InterceptIngress (owner c) (ip_packet parsed) None)).

Definition classify_dns_response (c : IoClassifierConfig IpNet) (reverse_nat : ReverseNatDirectory) (parsed : ParsedIpFrame)
    : outcome DropReason Verdict :=
  if fragmented parsed then Err FragmentedDns else
  let? flow := frame_flow_key parsed in
  match directory_lookup reverse_nat flow with
  | None => Err UnknownDnsTransaction
  | Some locator => Ok (SendTo (flow_worker_id locator) (InterceptIngress (owner c) (ip_packet parsed) (Some locator)))
  end.

Definition classify_flow (c : IoClassifierConfig IpNet) (reverse_nat : ReverseNatDirectory) (parsed : ParsedIpFrame)
    : outcome DropReason Verdict :=
  let? flow := frame_flow_key parsed in
  match directory_lookup reverse_nat flow with
  | Some locator => Ok (SendTo (flow_worker_id locator) (InterceptIngress (owner c) (ip_packet parsed) (Some locator)))
  | None =>
      if decide (pf_destination parsed ∈ nat_return_ips c) then Err UnknownNatTuple else
      if intercept_allowed c (ip_packet parsed) then
        Ok (SendTo (stable_flow_owner flow (flow_worker_count c)) (InterceptIngress (owner c) (ip_packet parsed) None))
      else Ok Pass
  end.

Definition classify (c : IoClassifierConfig IpNet) (frame : bytes) (active_dcids : ActiveDcidIndex)
    (reverse_nat : ReverseNatDirectory) : outcome DropReason Verdict :=
  let? parsed := parse_ip_frame frame in
  if tunnel c && bool_decide (pf_destination parsed ∈ tunnel_local_ips c) then classify_tunnel c active_dcids parsed else
  if negb (intercept c) then Ok Pass else
  let? query := is_dns_vip_query c parsed in
  if (query : bool) then classify_dns_query c parsed else
  let? response := is_dns_local_resolver_response c parsed in
  if (response : bool) then classify_dns_response c reverse_nat parsed else
  classify_flow c reverse_nat parsed.

(** [IoWorker::handle_frame] on the dispatcher's channels. *)
Definition handle_frame (c : IoClassifierConfig IpNet) (frame : bytes) (active_dcids : ActiveDcidIndex)
    (reverse_nat : ReverseNatDirectory) : ST FlowDispatcher unit IngressOutcome := λ d,
  match classify c frame active_dcids reverse_nat with
  | Ok Pass => (Ok Passed, d)
  | Ok (SendTo worker_id message) =>
      let '(o, d) := dispatch_to worker_id message d in (Ok (dispatch_outcome worker_id o), d)
  | Err reason => (Ok (Dropped reason), d)
  | Panic => (Panic, d)
  end.
End worker.
