(* ===== verification/FrameFacts.v ===== *)
(** The frame parser of [Frame.v] against the packet parser of [Packet.v]. *)
From S2P Require Import Prelude Net Packet PacketFacts PacketRewrite NatTable QuicFlow Dns DnsProps Dispatch Frame.

#[local] Arguments Nat.add : simpl never.
#[local] Arguments Nat.mul : simpl never.

(** ** No frame makes the parser panic *)

(** One step of a no-panic argument. *)
Ltac np_step :=
  first [ done | progress cbn [obind ok_or] | rewrite idx_sub_ok by lia | rewrite rd16_sub_ok by lia
        | rewrite slice_ok by plen | case_decide ].

Lemma frame_loop_no_panic n p tl nh o fr : no_panic (frame_ipv6_transport_offset_loop n p tl nh o fr).
Proof.
  revert nh o fr. induction n as [|n IH]; intros nh o fr; [done|]. cbn [frame_ipv6_transport_offset_loop].
  case_decide; [|case_decide; [|case_decide; [|done]]];
    (destruct (get_range _ _ _) as [h|] eqn:Hg; [|done]; apply get_range_Some in Hg as (_ & ? & ->);
     repeat np_step; apply IH).
Qed.

Lemma frame_loop_bounds n p tl nh o fr proto off fr' :
  frame_ipv6_transport_offset_loop n p tl nh o fr = Ok (proto, off, fr') → (o ≤ tl)%nat → (o ≤ off ≤ tl)%nat.
Proof.
  revert nh o fr. induction n as [|n IH]; intros nh o fr H Ho; [done|]. cbn [frame_ipv6_transport_offset_loop] in H.
  repeat case_decide; obinv; try lia; apply IH in H; lia.
Qed.

Lemma parse_ip_frame_no_panic frame : no_panic (parse_ip_frame frame).
Proof.
  unfold parse_ip_frame, ETHERNET_HEADER_LEN. destruct (get_range frame 0 14) as [e|] eqn:He; [|done].
  apply get_range_Some in He as (_ & ? & ->). cbn [obind ok_or]. rewrite rd16_sub_ok, slice_ok by lia. cbn [obind].
  generalize (sub frame 14 (length frame)). intros p. repeat case_decide; [| |done].
  - unfold parse_ipv4_frame. destruct (get_range p 0 20) as [h|] eqn:Hg; [|done].
    apply get_range_Some in Hg as (_ & ? & ->). repeat np_step.
  - unfold parse_ipv6_frame. destruct (get_range p 0 40) as [h|] eqn:Hg; [|done].
    apply get_range_Some in Hg as (_ & ? & ->). repeat np_step.
    unfold frame_ipv6_transport_offset. set (l := frame_ipv6_transport_offset_loop _ _ _ _ _ _).
    pose proof (frame_loop_no_panic 8 p (40 + Z.to_nat (be16 (byte_at p (0 + 4)) (byte_at p (0 + 5)))) (byte_at p (0 + 6)) 40 false : no_panic l).
    destruct l as [[[pr o] fr]| |]; [repeat np_step|done|done].
Qed.

(** ** The two parsers agree *)

(** An Ethernet header in front of a packet of its type. *)
Definition ethernet_for (eth p : bytes) : Prop :=
  length eth = ETHERNET_HEADER_LEN
  ∧ be16 (byte_at eth 12) (byte_at eth 13) = if decide (is_v4 p) then ETH_P_IPV4 else ETH_P_IPV6.
#[global] Instance ethernet_for_dec eth p : Decision (ethernet_for eth p).
Proof. unfold ethernet_for. apply _. Defined.

Lemma parse_ethernet eth p : ethernet_for eth p →
  parse_ip_frame (eth ++ p) = if decide (is_v4 p) then parse_ipv4_frame p else parse_ipv6_frame p.
Proof.
  intros [Hl He]. unfold parse_ip_frame. rewrite get_range_ok by (rewrite ?length_app; lia). cbn [obind ok_or].
  rewrite rd16_ok by (rewrite length_sub; unfold ETHERNET_HEADER_LEN; rewrite ?length_app, ?Hl; unfold ETHERNET_HEADER_LEN; lia).
  cbn [obind]. rewrite slice_ok by (rewrite ?length_app; lia). cbn [obind].
  assert (sub (eth ++ p) ETHERNET_HEADER_LEN (length (eth ++ p)) = p) as ->.
  { unfold sub. rewrite <- Hl, drop_app_length, length_app. apply take_ge. lia. }
  assert (sub (eth ++ p) 0 ETHERNET_HEADER_LEN = eth) as ->.
  { unfold sub. rewrite drop_0, Nat.sub_0_r, <- Hl. apply take_app_length. }
  rewrite He. unfold ETH_P_IPV4, ETH_P_IPV6. by repeat case_decide.
Qed.

(** Past a header walk that the packet parser accepts there is no fragment header. *)
Lemma frame_loop_agrees n p tl nh o fr proto off :
  ipv6_transport_offset_loop n p tl nh o = Ok (proto, off) →
  frame_ipv6_transport_offset_loop n p tl nh o fr = Ok (proto, off, fr).
Proof.
  revert nh o. induction n as [|n IH]; intros nh o H; [done|].
  cbn [frame_ipv6_transport_offset_loop ipv6_transport_offset_loop] in *.
  case_decide; [|case_decide; [|case_decide]].
  1, 3: destruct (get_range p o (o + 2)) as [h|] eqn:Hg; simpl in H; [|done];
    apply get_range_Some in Hg as (_ & ? & ->); rewrite !idx_sub_ok in H by lia;
    simpl; rewrite !idx_sub_ok by lia; simpl in *; case_decide; [by apply IH|done].
  - destruct (get_range p o (o + 8)); done.
  - case_decide; [done|]. by injection H as -> ->.
Qed.

Definition frame_fragmented (p : bytes) : bool := bool_decide (is_v4 p ∧ ipv4_fragment_bits p ≠ 0).

Lemma parse_frame_layout eth p proto off total : ethernet_for eth p → layout p proto off total →
  parse_ip_frame (eth ++ p)
  = Ok (mkParsed (sub p 0 total) (ip_source p) (ip_destination p) proto off (frame_fragmented p)).
Proof.
  intros Heth [Ho Ht Hs Hver H4 H6]. rewrite parse_ethernet by done. unfold ip_source, ip_destination, frame_fragmented.
  destruct (decide (is_v4 p)) as [Hv|Hv].
  - destruct (H4 Hv) as (-> & -> & ->). unfold parse_ipv4_frame. rewrite get_range_ok by lia. cbn [obind ok_or].
    rewrite idx_sub_ok by lia. cbn [obind]. rewrite Nat.add_0_l. rewrite decide_False by (intros H; exact (H Hv)).
    rewrite !rd16_sub_ok by lia. cbn [obind]. rewrite !Nat.add_0_l. rewrite decide_False by lia.
    rewrite slice_ok by lia. cbn [obind]. rewrite !slice_ok by plen. cbn [obind].
    rewrite idx_sub_ok by lia. cbn [obind]. rewrite !sub_sub by lia. do 2 f_equal.
    apply bool_decide_ext. unfold ipv4_fragment_bits. rewrite ?Nat.add_0_l. tauto.
  - destruct (H6 Hv) as (H40 & Htot & Hoff). unfold parse_ipv6_frame. rewrite get_range_ok by lia. cbn [obind ok_or].
    rewrite idx_sub_ok by lia. cbn [obind]. rewrite Nat.add_0_l.
    rewrite decide_False by (unfold is_v4 in Hv; intuition).
    rewrite rd16_sub_ok by lia. cbn [obind]. rewrite !Nat.add_0_l. rewrite <- Htot. rewrite decide_False by lia.
    rewrite idx_sub_ok by lia. cbn [obind]. rewrite Nat.add_0_l.
    unfold frame_ipv6_transport_offset. rewrite (frame_loop_agrees _ _ _ _ _ _ proto off) by done. cbn [obind].
    rewrite slice_ok by lia. cbn [obind]. rewrite !slice_ok by plen. cbn [obind]. rewrite !sub_sub by lia.
    by rewrite (bool_decide_eq_false_2 (is_v4 p ∧ _)) by tauto.
Qed.

(** Cutting a packet at its total length changes nothing for its parser. *)
Lemma byte_at_cut p total i : (i < total)%nat → byte_at (sub p 0 total) i = byte_at p i.
Proof. intros. by rewrite byte_at_sub by lia. Qed.

Lemma layout_cut p proto off total : layout p proto off total → layout (sub p 0 total) proto off total.
Proof.
  intros [Ho Ht Hs Hver H4 H6]. assert (byte_at (sub p 0 total) 0 = byte_at p 0) as H0 by (apply byte_at_cut; lia).
  split; [done|rewrite length_sub by lia; lia|done|by rewrite H0|unfold is_v4; rewrite H0..].
  - intros Hv. destruct (H4 Hv) as (? & ? & ?). by rewrite !byte_at_cut by lia.
  - intros Hv. destruct (H6 Hv) as (? & Htot & Hoff). rewrite !byte_at_cut by lia. split_and!; [done..|].
    eapply ipv6_loop_frame; [done|lia|rewrite length_sub; lia|]. intros. by apply byte_at_cut; lia.
Qed.

Lemma parse_flow_key_cut p proto off total f : bytes_ok p → layout p proto off total →
  parse_flow_key p = Ok f → parse_flow_key (sub p 0 total) = Ok f.
Proof.
  intros Hok Hl Hf. apply parse_flow_key_iff in Hf as (proto' & off' & total' & sp & dp & pr & Hl' & Hfrag & Hs & ->); [|done].
  apply (transport_metadata_layout p) in Hl as Hm; [|done]. apply (transport_metadata_layout p) in Hl' as Hm'; [|done].
  rewrite Hm in Hm'. injection Hm' as <- <- <-. pose proof Hl as [Ho Ht _ _ _ H6].
  apply parse_flow_key_iff; [auto with rust|]. exists proto, off, total, sp, dp, pr.
  assert (is_v4 (sub p 0 total) ↔ is_v4 p) as Hv by (unfold is_v4; by rewrite byte_at_cut by lia).
  split_and!; [by apply layout_cut| | |].
  - intros H. apply Hv in H. unfold ipv4_fragment_bits in *. rewrite !byte_at_cut by lia. auto.
  - rewrite sub_sub by lia. done.
  - unfold ip_source, ip_destination. destruct (decide (is_v4 p)) as [H4|H4].
    + rewrite !decide_True by tauto. by rewrite !sub_sub by lia.
    + rewrite !decide_False by tauto. destruct (H6 H4). by rewrite !sub_sub by lia.
Qed.

(** The fragment flag of the frame parser is [ip_packet_is_fragmented]. *)
Lemma frame_loop_fragment_sticky n p tl nh o proto off fr :
  frame_ipv6_transport_offset_loop n p tl nh o true = Ok (proto, off, fr) → fr = true.
Proof.
  revert nh o. induction n as [|n IH]; intros nh o H; [done|]. cbn [frame_ipv6_transport_offset_loop] in H.
  repeat case_decide; obinv; eauto; congruence.
Qed.

Lemma frame_loop_fragment n p tl nh o proto off fr :
  frame_ipv6_transport_offset_loop n p tl nh o false = Ok (proto, off, fr) →
  ipv6_has_fragment_header_loop n p tl nh o = Ok fr.
Proof.
  revert nh o. induction n as [|n IH]; intros nh o H; [done|].
  cbn [frame_ipv6_transport_offset_loop ipv6_has_fragment_header_loop] in *.
  case_decide; [|case_decide; [|case_decide]].
  1, 3: destruct (get_range p o (o + 2)) as [h|] eqn:Hg; simpl in H; [|done];
    apply get_range_Some in Hg as (_ & ? & ->); rewrite !idx_sub_ok in H by lia;
    simpl; rewrite !idx_sub_ok by lia; simpl in *; case_decide; [by apply IH|done].
  - obinv. by apply frame_loop_fragment_sticky in H as ->.
  - by injection H as _ _ <-.
Qed.

Lemma parse_frame_fragment eth p parsed : ethernet_for eth p → parse_ip_frame (eth ++ p) = Ok parsed →
  ip_packet_is_fragmented p = Ok (fragmented parsed).
Proof.
  intros Heth. rewrite parse_ethernet by done. unfold ip_packet_is_fragmented. case_decide as Hv; intros H.
  - unfold parse_ipv4_frame in H. destruct (get_range p 0 20) as [h|] eqn:Hg; [|done]. cbn [obind ok_or] in H.
    apply get_range_Some in Hg as (_ & ? & ->). rewrite ip_version_ok by lia. cbn [obind]. rewrite decide_True by done.
    rewrite decide_False, ipv4_header_len_ok by lia. cbn [obind].
    rewrite !idx_sub_ok, !rd16_sub_ok in H by lia. cbn [obind] in H. rewrite !Nat.add_0_l in H.
    case_decide; [done|]. case_decide; [done|]. rewrite !slice_ok in H by plen. cbn [obind] in H. injection H as <-.
    rewrite decide_False by lia. rewrite rd16_ok by lia. cbn [obind]. rewrite decide_False by lia.
    by rewrite rd16_ok by lia.
  - unfold parse_ipv6_frame in H. destruct (get_range p 0 40) as [h|] eqn:Hg; [|done]. cbn [obind ok_or] in H.
    apply get_range_Some in Hg as (_ & ? & ->). rewrite ip_version_ok by lia. cbn [obind]. unfold is_v4 in Hv. rewrite decide_False by done.
    rewrite !idx_sub_ok, !rd16_sub_ok in H by lia. cbn [obind] in H. rewrite !Nat.add_0_l in H.
    case_decide as H6; [done|]. rewrite decide_True by done.
    rewrite decide_False, rd16_ok by lia. cbn [obind]. case_decide; [done|]. cbn [obind] in H.
    rewrite idx_ok by lia. cbn [obind]. unfold frame_ipv6_transport_offset in H.
    destruct (frame_ipv6_transport_offset_loop _ _ _ _ _ _) as [[[pr o] fr]| |] eqn:Hloop; cbn [obind] in H; [|done..].
    rewrite !slice_ok in H by plen. cbn [obind] in H. injection H as <-. by apply frame_loop_fragment in Hloop.
Qed.
