(* ===== verification/FrameProps.v ===== *)
(** The classifier of the I/O worker: what [handle_frame] does with the frame of a
    packet whose flow is known. *)
From S2P Require Import Prelude Net Packet PacketFacts PacketRewrite PacketProps PacketTheorems NatTable NatProps QuicFlow Dns DnsProps Dispatch Frame FrameFacts.

#[local] Arguments Nat.add : simpl never.
#[local] Arguments Nat.mul : simpl never.

(** ** No frame makes the classifier panic *)

Lemma parse_quic_dcid_no_panic p n : no_panic (parse_quic_dcid p n).
Proof.
  unfold parse_quic_dcid. apply no_panic_obind; [auto with rust|]. intros first _. case_decide; [done|]. case_decide.
  - do 2 (apply no_panic_obind; [auto with rust|]; intros ? _). case_decide; [done|].
    apply no_panic_obind; [auto with rust|]. by intros.
  - apply no_panic_obind; [auto with rust|]. by intros.
Qed.

Lemma frame_udp_payload_no_panic parsed : no_panic (frame_udp_payload parsed).
Proof.
  unfold frame_udp_payload. apply no_panic_obind; [auto with rust|]. intros udp _.
  destruct (get_range udp 0 8) as [h|] eqn:Hh; [|done]. apply get_range_Some in Hh as (_ & ? & ->). cbn [obind ok_or].
  rewrite rd16_sub_ok by lia. cbn [obind]. auto with rust.
Qed.

Lemma parse_outer_quic_no_panic parsed port n : no_panic (parse_outer_quic parsed port n).
Proof.
  unfold parse_outer_quic. case_decide; [done|]. apply no_panic_obind; [auto with rust|]. intros udp _.
  destruct (get_range udp 0 8) as [h|] eqn:Hh; [|done]. apply get_range_Some in Hh as (_ & ? & ->). cbn [obind ok_or].
  rewrite !rd16_sub_ok by lia. cbn [obind]. case_decide; [done|]. apply no_panic_obind; [auto with rust|]. intros pl _.
  apply no_panic_obind; [apply parse_quic_dcid_no_panic|]. by intros [].
Qed.

Lemma transaction_key_total client p : ∃ key, transaction_key client p = Ok key.
Proof.
  pose proof (transaction_key_no_panic client p) as Hnp. unfold transaction_key in *.
  destruct (validate_query p); [|by eexists|done]. destruct (dns_id p); [by eexists|done].
Qed.

(** The packet of a parsed frame is a part of the frame. *)
Lemma parse_ip_frame_part frame parsed : parse_ip_frame frame = Ok parsed →
  ∃ total, ip_packet parsed = sub frame 14 (14 + total) ∧ (14 + total ≤ length frame)%nat.
Proof.
  unfold parse_ip_frame, ETHERNET_HEADER_LEN. destruct (get_range frame 0 14) as [e|] eqn:He; [|done].
  apply get_range_Some in He as (_ & ? & ->). cbn [obind ok_or]. rewrite rd16_sub_ok, slice_ok by lia. cbn [obind].
  assert (∀ total, (0 <= total)%nat → (total ≤ length (sub frame 14 (length frame)))%nat →
    sub (sub frame 14 (length frame)) 0 total = sub frame 14 (14 + total) ∧ (14 + total ≤ length frame)%nat) as Hsub.
  { intros total _ Ht. rewrite length_sub in Ht by lia. rewrite sub_sub by lia. split; [|lia]. by rewrite Nat.add_0_r. }
  generalize dependent (sub frame 14 (length frame)). intros p Hsub Hp.
  assert (∃ total, slice (E := DropReason) p 0 total = Ok (ip_packet parsed)) as (total & Ht).
  { repeat case_decide; [| |done].
    - unfold parse_ipv4_frame in Hp. obinv. eauto.
    - unfold parse_ipv6_frame in Hp. obinv. case_match. case_match. obinv. eauto. }
  exists total. unfold slice in Ht. apply expect_Ok, get_range_Some in Ht as (? & ? & ->). by apply Hsub.
Qed.

Section classifier.
Context {IpNet : Type} (contains : IpNet → IpAddr → bool) (dns_hash : IoOwnerKey → DnsTransactionKey → Z).
Implicit Types c : IoClassifierConfig IpNet.

Lemma is_dns_vip_query_no_panic c parsed : no_panic (is_dns_vip_query c parsed).
Proof using Type.
  unfold is_dns_vip_query. destruct (dns_listen c) as [l|]; [|done]. case_decide; [done|].
  destruct (get_range _ _ _) as [u|] eqn:Hu; [|done]. apply get_range_Some in Hu as (_ & ? & ->). by rewrite rd16_sub_ok by lia.
Qed.

Lemma is_dns_local_resolver_response_no_panic c parsed : no_panic (is_dns_local_resolver_response c parsed).
Proof using Type.
  unfold is_dns_local_resolver_response. destruct (dns_local_response c) as [l|]; [|done]. case_decide; [done|].
  destruct (get_range _ _ _) as [u|] eqn:Hu; [|done]. apply get_range_Some in Hu as (_ & ? & ->). by rewrite !rd16_sub_ok by lia.
Qed.

Lemma frame_flow_key_no_panic parsed : bytes_ok (ip_packet parsed) → no_panic (frame_flow_key parsed).
Proof using Type.
  intros Hok. unfold frame_flow_key. pose proof (parse_flow_key_no_panic _ Hok). by destruct (parse_flow_key _).
Qed.

Lemma classify_no_panic c frame active reverse_nat : bytes_ok frame →
  no_panic (classify contains dns_hash c frame active reverse_nat).
Proof using Type.
  intros Hok. unfold classify. apply no_panic_obind; [apply parse_ip_frame_no_panic|]. intros parsed Hp.
  destruct (parse_ip_frame_part _ _ Hp) as (total & Hpk & _).
  assert (no_panic (frame_flow_key parsed)) as Hflow by (apply frame_flow_key_no_panic; rewrite Hpk; auto with rust).
  destruct (tunnel c && _); [|destruct (negb (intercept c)); [done|]].
  - unfold classify_tunnel. apply no_panic_obind; [apply parse_outer_quic_no_panic|]. intros [outer|] _; [|done].
    apply no_panic_obind; [|by intros]. unfold tunnel_owner, bootstrap_owner. repeat case_match; try done;
      repeat case_decide; congruence.
  - apply no_panic_obind; [apply is_dns_vip_query_no_panic|]. intros [] _.
    { unfold classify_dns_query. case_match; [done|]. apply no_panic_obind; [done|]. intros flow _.
      apply no_panic_obind; [apply frame_udp_payload_no_panic|]. intros pl _. apply no_panic_obind; [|by intros].
      unfold stable_dns_owner. case_decide; [done|].
      by destruct (transaction_key_total (mkSocketAddr (fk_source flow) (fk_source_port flow)) pl) as [k ->]. }
    apply no_panic_obind; [apply is_dns_local_resolver_response_no_panic|]. intros [] _.
    + unfold classify_dns_response. case_match; [done|]. apply no_panic_obind; [done|]. intros flow _. by case_match.
    + unfold classify_flow. apply no_panic_obind; [done|]. intros flow _. repeat case_match; done.
Qed.

(** ** The frame of a packet with a known flow *)

(** The tests of the classifier on the flow of the packet. *)
Definition to_tunnel c (f : FlowKey) : Prop := tunnel c = true ∧ fk_destination f ∈ tunnel_local_ips c.
Definition to_dns_vip c (f : FlowKey) : Prop :=
  dns_listen c = Some (mkSocketAddr (fk_destination f) (fk_destination_port f)) ∧ fk_protocol f = Udp.
Definition from_dns_resolver c (f : FlowKey) : Prop :=
  ∃ cl, dns_local_response c = Some cl ∧ dl_resolver cl = mkSocketAddr (fk_source f) (fk_source_port f)
    ∧ dl_nat_ip cl = fk_destination f ∧ fk_protocol f = Udp
    ∧ fst (dl_nat_ports cl) ≤ fk_destination_port f ≤ snd (dl_nat_ports cl).

Section packet.
Context (c : IoClassifierConfig IpNet) (eth p : bytes) (f : FlowKey).
Hypotheses (Hok : bytes_ok p) (Heth : ethernet_for eth p) (Hf : parse_flow_key p = Ok f).

(** What the frame parser returns on it. *)
Record parsed_flow (parsed : ParsedIpFrame) : Prop := {
  pfl_parse : parse_ip_frame (eth ++ p) = Ok parsed;
  pfl_source : pf_source parsed = fk_source f;
  pfl_destination : pf_destination parsed = fk_destination f;
  pfl_meta : transport_metadata p = Ok (protocol parsed, transport_offset parsed, length (ip_packet parsed));
  pfl_cut : ip_packet parsed = sub p 0 (length (ip_packet parsed)) ∧ (length (ip_packet parsed) ≤ length p)%nat;
  pfl_fragmented : fragmented parsed = false;
  pfl_flow : parse_flow_key (ip_packet parsed) = Ok f;
}.

Lemma parsed_flow_exists : ∃ parsed, parsed_flow parsed.
Proof using Hok Heth Hf.
  apply parse_flow_key_iff in Hf as Hi; [|done]. destruct Hi as (proto & off & total & sp & dp & pr & Hl & Hfr & Hs & He).
  eexists. pose proof (layout_total _ _ _ _ Hl). split; [by eapply parse_frame_layout|..]; cbn; rewrite ?length_sub, ?Nat.sub_0_r by lia.
  - by rewrite He.
  - by rewrite He.
  - by apply transport_metadata_layout.
  - done.
  - unfold frame_fragmented. apply bool_decide_eq_false_2. tauto.
  - by eapply parse_flow_key_cut.
Qed.

Context (parsed : ParsedIpFrame) (Hp : parsed_flow parsed).

Lemma parsed_shape : layout p (protocol parsed) (transport_offset parsed) (length (ip_packet parsed))
  ∧ transport_shape (protocol parsed) (sub p (transport_offset parsed) (length (ip_packet parsed)))
      (fk_source_port f) (fk_destination_port f) (fk_protocol f).
Proof using Hok Hf Hp.
  apply parse_flow_key_iff in Hf as Hi; [|done]. destruct Hi as (proto & off & total & sp & dp & pr & Hl & _ & Hs & ->).
  apply (transport_metadata_layout p) in Hl as Hm; [|done]. rewrite (pfl_meta _ Hp) in Hm. injection Hm as -> -> ->. done.
Qed.

Lemma byte_at_packet i : (i < length (ip_packet parsed))%nat → byte_at (ip_packet parsed) i = byte_at p i.
Proof using Hp. intros Hi. destruct (pfl_cut _ Hp) as [-> _]. by apply byte_at_cut. Qed.
Lemma sub_packet a b : (b ≤ length (ip_packet parsed))%nat → sub (ip_packet parsed) a b = sub p a b.
Proof using Hp. intros Hi. destruct (pfl_cut _ Hp) as [-> _]. by rewrite sub_sub by lia. Qed.

Lemma udp_iff : protocol parsed = IP_PROTOCOL_UDP ↔ fk_protocol f = Udp.
Proof using Hok Hf Hp. destruct parsed_shape as [_ Hs]. by destruct Hs as [H|H|H|H]; rewrite H. Qed.

(** A 16-bit field of the transport header. *)
Lemma transport_field i : (i = 0 ∨ i = 2)%nat → fk_protocol f = Udp → ∃ u,
  get_range (ip_packet parsed) (transport_offset parsed) (transport_offset parsed + 4) = Some u
  ∧ rd16 (E := DropReason) u i = Ok (if decide (i = 0%nat) then fk_source_port f else fk_destination_port f).
Proof using Hok Hf Hp.
  intros Hi Hudp. destruct parsed_shape as [Hl Hs]. destruct (pfl_cut _ Hp) as [Hcut Hle]. destruct Hl as [Ho Ht _ _ _ _].
  destruct Hs as [| _ Hlen _| |]; [done| |done|done]. rewrite length_sub in Hlen by lia.
  eexists. split; [apply get_range_ok; lia|]. rewrite rd16_sub_ok, !byte_at_packet by lia. rewrite !byte_at_sub by lia. destruct Hi as [-> | ->]; rewrite ?Nat.add_0_r; done.
Qed.

Lemma vip_query_iff : ∃ b, is_dns_vip_query c parsed = Ok b ∧ (b = true ↔ to_dns_vip c f).
Proof using Hok Hf Hp.
  unfold is_dns_vip_query, to_dns_vip. destruct (dns_listen c) as [[ip port]|]; [|exists false; naive_solver].
  rewrite (pfl_destination _ Hp). cbn [sa_ip sa_port]. case_decide as Hd.
  { exists false. split; [done|]. split; [done|]. intros [? ?%udp_iff]. simplify_eq. tauto. }
  destruct (decide (fk_protocol f = Udp)) as [Hu|Hu]; [|by destruct Hd; right; rewrite udp_iff].
  destruct (transport_field 2 ltac:(auto) Hu) as (u & -> & ->). cbn [obind]. eexists. split; [done|].
  rewrite bool_decide_eq_true. rewrite decide_False by done. split; [|naive_solver]. intros <-.
  split; [|done]. do 2 f_equal. destruct (decide (fk_destination f = ip)); [done|tauto].
Qed.

Lemma resolver_response_iff : ∃ b, is_dns_local_resolver_response c parsed = Ok b ∧ (b = true ↔ from_dns_resolver c f).
Proof using Hok Hf Hp.
  unfold is_dns_local_resolver_response, from_dns_resolver. destruct (dns_local_response c) as [cl|]; [|exists false; naive_solver].
  rewrite (pfl_source _ Hp), (pfl_destination _ Hp). case_decide as Hd.
  { exists false. split; [done|]. split; [done|]. intros (cl' & ? & Hr & ? & ?%udp_iff & _). simplify_eq.
    rewrite Hr in Hd. cbn in Hd. destruct Hd as [H'|[H'|H']]; exfalso; apply H'; congruence. }
  destruct (decide (fk_protocol f = Udp)) as [Hu|Hu]; [|by destruct Hd; right; right; rewrite udp_iff].
  destruct (transport_field 0 ltac:(auto) Hu) as (u & Hg & Hr0). destruct (transport_field 2 ltac:(auto) Hu) as (u' & Hg' & Hr2).
  rewrite Hg in Hg' |- *. simplify_eq. rewrite Hr0, Hr2. cbn [obind]. eexists. split; [done|].
  rewrite decide_True, decide_False, bool_decide_eq_true by done.
  destruct cl as [[rip rport] nip nports]. cbn in *.
  assert (fk_source f = rip ∧ fk_destination f = nip) as [? ?] by (split; apply dec_stable; tauto). subst.
  naive_solver.
Qed.

Lemma frame_flow_key_ok : frame_flow_key parsed = Ok f.
Proof using Hp. unfold frame_flow_key. by rewrite (pfl_flow _ Hp). Qed.

Lemma tunnel_test_iff : tunnel c && bool_decide (pf_destination parsed ∈ tunnel_local_ips c) = true ↔ to_tunnel c f.
Proof using Hp. rewrite andb_true_iff, bool_decide_eq_true, (pfl_destination _ Hp). done. Qed.

(** The classifier, with its tests on the flow. *)
Lemma classify_frame_cases active reverse_nat : classify contains dns_hash c (eth ++ p) active reverse_nat =
  if decide (tunnel c && bool_decide (pf_destination parsed ∈ tunnel_local_ips c) = true) then classify_tunnel c active parsed
  else if negb (intercept c) then Ok Pass
  else match is_dns_vip_query c parsed, is_dns_local_resolver_response c parsed with
       | Ok true, _ => classify_dns_query dns_hash c parsed
       | Ok false, Ok true => classify_dns_response c reverse_nat parsed
       | _, _ => classify_flow contains c reverse_nat parsed
       end.
Proof using Hok Hf Hp.
  unfold classify. rewrite (pfl_parse _ Hp). cbn [obind].
  destruct (tunnel c && _); [done|]. rewrite decide_False by done. destruct (negb _); [done|].
  destruct vip_query_iff as (b & -> & _). destruct resolver_response_iff as (b' & -> & _). by destruct b, b'.
Qed.

Lemma classify_flow_case active reverse_nat : intercept c = true → ¬ to_tunnel c f → ¬ to_dns_vip c f → ¬ from_dns_resolver c f →
  classify contains dns_hash c (eth ++ p) active reverse_nat = classify_flow contains c reverse_nat parsed.
Proof using Hok Hf Hp.
  intros Hi Ht Hv Hr. rewrite classify_frame_cases. rewrite decide_False by (by rewrite tunnel_test_iff). rewrite Hi. cbn [negb].
  destruct vip_query_iff as ([] & -> & Hv'); [tauto|]. destruct resolver_response_iff as ([] & -> & Hr'); [tauto|]. done.
Qed.

Lemma classify_dns_case active reverse_nat : intercept c = true → ¬ to_tunnel c f → to_dns_vip c f →
  classify contains dns_hash c (eth ++ p) active reverse_nat = classify_dns_query dns_hash c parsed.
Proof using Hok Hf Hp.
  intros Hi Ht Hv. rewrite classify_frame_cases. rewrite decide_False by (by rewrite tunnel_test_iff). rewrite Hi. cbn [negb].
  destruct vip_query_iff as ([] & -> & Hv'); [done|]. naive_solver.
Qed.

Lemma classify_response_case active reverse_nat : intercept c = true → ¬ to_tunnel c f → ¬ to_dns_vip c f → from_dns_resolver c f →
  classify contains dns_hash c (eth ++ p) active reverse_nat = classify_dns_response c reverse_nat parsed.
Proof using Hok Hf Hp.
  intros Hi Ht Hv Hr. rewrite classify_frame_cases. rewrite decide_False by (by rewrite tunnel_test_iff). rewrite Hi. cbn [negb].
  destruct vip_query_iff as ([] & -> & Hv'); [tauto|]. destruct resolver_response_iff as ([] & -> & Hr'); [done|]. tauto.
Qed.

(** A flow that the directory knows goes to the worker of its locator, on the
    resolver's path as on the ordinary one. *)
Lemma classify_known active reverse_nat locator : intercept c = true → ¬ to_tunnel c f → ¬ to_dns_vip c f →
  directory_lookup reverse_nat f = Some locator →
  classify contains dns_hash c (eth ++ p) active reverse_nat
  = Ok (SendTo (flow_worker_id locator) (InterceptIngress (owner c) (ip_packet parsed) (Some locator))).
Proof using Hok Hf Hp.
  intros Hi Ht Hv Hd. rewrite classify_frame_cases. rewrite decide_False by (by rewrite tunnel_test_iff). rewrite Hi. cbn [negb].
  destruct vip_query_iff as ([] & -> & Hv'); [tauto|]. destruct resolver_response_iff as ([] & -> & Hr').
  - unfold classify_dns_response. rewrite (pfl_fragmented _ Hp), frame_flow_key_ok. cbn [obind]. by rewrite Hd.
  - unfold classify_flow. rewrite frame_flow_key_ok. cbn [obind]. by rewrite Hd.
Qed.

Lemma destination_ip_flow : destination_ip (ip_packet parsed) = Some (fk_destination f).
Proof using Hok Hf Hp.
  destruct (pfl_cut _ Hp) as [Hcut Hle]. destruct parsed_shape as [[Ho Ht _ Hver _ H6] _].
  assert (bytes_ok (ip_packet parsed)) as Hok' by (rewrite Hcut; auto with rust).
  pose proof (pfl_flow _ Hp) as Hf'. apply parse_flow_key_iff in Hf' as (? & ? & ? & ? & ? & ? & Hl & _ & _ & ->); [|done].
  unfold destination_ip, ip_destination, is_v4. cbn. rewrite head_lookup, lookup_byte_at by (destruct Hl; lia). cbn.
  case_decide as H4.
  - rewrite get_range_ok by (destruct Hl; lia). done.
  - destruct (layout_v6 _ _ _ _ Hl H4) as (? & _). destruct (layout_version _ _ _ _ Hl) as [?|Hv]; [done|]. rewrite decide_True by done.
    rewrite get_range_ok by (destruct Hl; lia). done.
Qed.

(** The payload the I/O worker hashes is the one the flow worker reads. *)
Lemma frame_payload_ok pl : udp_payload p = Ok pl → frame_udp_payload parsed = Ok pl.
Proof using Hok Hf Hp.
  unfold udp_payload, udp_payload_range. rewrite (pfl_meta _ Hp). cbn [obind]. case_decide as Hu; [done|].
  destruct (pfl_cut _ Hp) as [Hcut Hle]. destruct parsed_shape as [[Ho Ht _ _ _ _] Hs].
  unfold validate_udp_layout. destruct (get_range p _ _) as [h|] eqn:Hh; [|done]. apply get_range_Some in Hh as (_ & ? & ->).
  cbn [obind ok_or]. rewrite rd16_sub_ok by lia. cbn [obind]. repeat (case_decide; [done|]). cbn [obind]. rewrite slice_ok by lia.
  intros [= <-]. unfold frame_udp_payload. rewrite get_range_ok by lia. cbn [obind ok_or].
  rewrite get_range_ok by (rewrite ?length_sub by lia; lia). cbn [obind ok_or]. rewrite sub_sub by lia. rewrite rd16_sub_ok by lia.
  cbn [obind]. rewrite !byte_at_packet by lia. rewrite Nat.add_0_r in *.
  rewrite get_range_ok by (rewrite ?length_sub by lia; lia). cbn [ok_or]. rewrite sub_sub by lia.
  by rewrite sub_packet by lia.
Qed.
End packet.
End classifier.
