(* ===== verification/PublicPrefixes.v ===== *)
(** [is_public_destination] of the I/O worker against the list of the reserved
    address blocks. *)
From S2P Require Import Prelude Net Frame.

(** ** Public destinations *)

(** [lia] here decides quotients by constants. *)
#[local] Ltac Zify.zify_post_hook ::= Z.div_mod_to_equations.

(** The prefixes no public address lies in: a base address and a length. *)
Definition RESERVED_V4 : list (Z * Z) :=
  let ip a b c d := ((a * 256 + b) * 256 + c) * 256 + d in
  [ (ip 0 0 0 0, 8); (ip 10 0 0 0, 8); (ip 100 64 0 0, 10); (ip 127 0 0 0, 8); (ip 169 254 0 0, 16);
    (ip 172 16 0 0, 12); (ip 192 0 0 0, 24); (ip 192 0 2 0, 24); (ip 192 31 196 0, 24); (ip 192 52 193 0, 24);
    (ip 192 88 99 0, 24); (ip 192 168 0 0, 16); (ip 192 175 48 0, 24); (ip 198 18 0 0, 15); (ip 198 51 100 0, 24);
    (ip 203 0 113 0, 24); (ip 224 0 0 0, 4); (ip 240 0 0 0, 4) ].
Definition RESERVED_V6 : list (Z * Z) :=
  [ (0, 128); (1, 128); (Z.shiftl 0xffff 32, 96); (Z.shiftl 0x0100 112, 64); (Z.shiftl 0x20010002 96, 48);
    (Z.shiftl 0x20010db8 96, 32); (Z.shiftl 0xfc00 112, 7); (Z.shiftl 0xfe80 112, 10); (Z.shiftl 0xfec0 112, 10);
    (Z.shiftl 0xff00 112, 8) ].

(** [a] has the first [len] bits of [base], at address width [w]. *)
Definition in_prefix (w a : Z) (prefix : Z * Z) : Prop :=
  a / 2 ^ (w - prefix.2) = prefix.1 / 2 ^ (w - prefix.2).
#[global] Instance in_prefix_dec w a p : Decision (in_prefix w a p).
Proof. unfold in_prefix. apply _. Defined.

(** The quotients an address is read by. *)
Lemma div_digit a k b : 0 < b → 0 <= k → a / 2 ^ k = a / 2 ^ (k + b) * 2 ^ b + a / 2 ^ k mod 2 ^ b.
Proof.
  intros. pose proof (Z.pow_pos_nonneg 2 k). pose proof (Z.pow_pos_nonneg 2 b). rewrite Z.pow_add_r by lia. rewrite <- Z.div_div by lia. pose proof (Z.div_mod (a / 2 ^ k) (2 ^ b)). lia.
Qed.

Lemma octet_digit a i : 0 < i ≤ 3 → a / 2 ^ (8 * (3 - i)) = a / 2 ^ (8 * (3 - (i - 1))) * 256 + octet i a.
Proof. intros. pose proof (div_digit a (8 * (3 - i)) 8). by replace (8 * (3 - (i - 1))) with (8 * (3 - i) + 8) by lia; auto with lia. Qed.

Lemma octet_range a i : is_byte (octet i a).
Proof. apply Z.mod_pos_bound. lia. Qed.

Lemma segment_digit a i : 0 < i ≤ 7 → a / 2 ^ (16 * (7 - i)) = a / 2 ^ (16 * (7 - (i - 1))) * 65536 + segment i a.
Proof. intros. pose proof (div_digit a (16 * (7 - i)) 16). by replace (16 * (7 - (i - 1))) with (16 * (7 - i) + 16) by lia; auto with lia. Qed.

Lemma segment_range a i : 0 ≤ segment i a < 65536.
Proof. apply Z.mod_pos_bound. lia. Qed.

(** Masking the upper bits of a 16-bit word. *)
Lemma land_high s k : 0 ≤ s < 65536 → 0 ≤ k ≤ 16 → Z.land s (Z.shiftl (Z.ones (16 - k)) k) = s / 2 ^ k * 2 ^ k.
Proof.
  intros Hs Hk. rewrite <- Z.shiftr_div_pow2, <- Z.shiftl_mul_pow2 by lia. apply Z.bits_inj'. intros n Hn.
  rewrite Z.land_spec, !Z.shiftl_spec by lia. destruct (decide (n < k)).
  - rewrite !(Z.testbit_neg_r _ (n - k)) by lia. by rewrite andb_false_r.
  - rewrite Z.shiftr_spec by lia. replace (n - k + k) with n by lia. destruct (decide (n < 16)).
    + rewrite Z.ones_spec_low by lia. apply andb_true_r.
    + assert (Z.testbit s n = false) as ->; [|done]. destruct (decide (s = 0)) as [->|]; [apply Z.testbit_0_l|].
      apply Z.bits_above_log2; [lia|]. apply Z.log2_lt_pow2; [lia|]. apply Z.lt_le_trans with (2 ^ 16); [apply Hs|]. apply Z.pow_le_mono_r; lia.
Qed.

Lemma quotient a k j : 0 ≤ j ≤ k → a / 2 ^ k = a / 2 ^ j / 2 ^ (k - j).
Proof. intros. rewrite Z.div_div by (apply Z.pow_nonzero || apply Z.pow_pos_nonneg; lia). rewrite <- Z.pow_add_r by lia. do 2 f_equal. lia. Qed.

(** Evaluates the closed exponents and quotients of a goal. *)
#[local] Ltac closed_divs a :=
  repeat match goal with
  | |- context [2 ^ (?x - ?y)] => let v := eval vm_compute in (x - y) in progress change (x - y) with v
  end;
  repeat match goal with
  | |- context [?n / ?m] =>
      lazymatch n with a => fail | _ => let v := eval vm_compute in (n / m) in change (n / m) with v end
  end.

(** The tests of [is_public_destination] as propositions. *)
#[local] Ltac bool_props :=
  apply eq_bool_prop_intro; rewrite ?Is_true_true, ?andb_true_iff, ?negb_true_iff, ?bool_decide_eq_true, ?bool_decide_eq_false.

Lemma v4_reserved a : fits 32 a → is_public_destination (V4 a) = bool_decide (Forall (λ p, ¬ in_prefix 32 a p) RESERVED_V4).
Proof.
  intros Ha. unfold fits in Ha. pose proof (octet_digit a 1 ltac:(lia)) as H1. pose proof (octet_digit a 2 ltac:(lia)) as H2.
  pose proof (octet_range a 0) as Hr0. pose proof (octet_range a 1) as Hr1. pose proof (octet_range a 2) as Hr2. unfold is_byte in *.
  assert (a / 2 ^ 24 = octet 0 a) as H0.
  { unfold octet. change (8 * (3 - 0)) with 24. rewrite Z.mod_small; [done|]. split; [apply Z.div_pos; lia|]. apply Z.div_lt_upper_bound; lia. }
  change (a / 2 ^ 16 = a / 2 ^ 24 * 256 + octet 1 a) in H1. change (a / 2 ^ 8 = a / 2 ^ 16 * 256 + octet 2 a) in H2.
  assert (a = 0xffffffff → octet 0 a = 255) as Hb by (by intros ->).
  pose proof (quotient a 28 24 ltac:(lia)) as H28. pose proof (quotient a 22 16 ltac:(lia)) as H22.
  pose proof (quotient a 20 16 ltac:(lia)) as H20. pose proof (quotient a 17 16 ltac:(lia)) as H17.
  unfold is_public_destination, v4_is_loopback, v4_is_private, v4_is_link_local, v4_is_multicast, v4_is_broadcast, RESERVED_V4.
  bool_props. rewrite !Forall_cons, Forall_nil. unfold in_prefix. cbn [fst snd]. closed_divs a.
  rewrite H28, H22, H20, H17, H2, H1, H0. clear H28 H22 H20 H17 H2 H1 H0 Ha.
  revert Hr0 Hr1 Hr2 Hb. generalize (octet 0 a) (octet 1 a) (octet 2 a). intros x y z Hx Hy Hz Hb.
  assert (∀ k u v, k = u * 256 + v → 0 ≤ v < 256 → x * 256 + y = k ↔ x = u ∧ y = v) as E2 by (intros; lia).
  assert (∀ k u v w, k = (u * 256 + v) * 256 + w → 0 ≤ v < 256 → 0 ≤ w < 256 →
    (x * 256 + y) * 256 + z = k ↔ x = u ∧ y = v ∧ z = w) as E3 by (intros; lia).
  rewrite (E2 43518 169 254), (E2 49320 192 168) by lia.
  rewrite (E3 12582912 192 0 0), (E3 12582914 192 0 2), (E3 12591044 192 31 196), (E3 12596417 192 52 193), (E3 12605539 192 88 99), (E3 12627760 192 175 48), (E3 12989284 198 51 100), (E3 13303921 203 0 113) by lia.
  assert ((x * 256 + y) / 2 ^ (22 - 16) = 401 ↔ x = 100 ∧ 64 ≤ y ≤ 127) as -> by (change (2 ^ (22 - 16)) with 64; lia).
  assert ((x * 256 + y) / 2 ^ (20 - 16) = 2753 ↔ x = 172 ∧ 16 ≤ y ≤ 31) as -> by (change (2 ^ (20 - 16)) with 16; lia).
  assert ((x * 256 + y) / 2 ^ (17 - 16) = 25353 ↔ x = 198 ∧ (y = 18 ∨ y = 19)) as -> by (change (2 ^ (17 - 16)) with 2; lia).
  assert (x / 2 ^ (28 - 24) = 14 ↔ 224 ≤ x ≤ 239) as -> by (change (2 ^ (28 - 24)) with 16; lia).
  assert (x / 2 ^ (28 - 24) = 15 ↔ ¬ x < 240) as -> by (change (2 ^ (28 - 24)) with 16; lia).
  assert (¬ ¬ x < 240 ↔ x < 240) as -> by lia.
  assert (x < 240 → a ≠ 4294967295) by (intros ? ->; lia).
  clear E2 E3 Hx Hy Hz Hb. tauto.
Qed.

(** A chain of segments read as one number. *)
Lemma segments_eq a i k hi lo : bool_decide (0 < i ≤ 7 ∧ 0 ≤ lo < 65536 ∧ k = hi * 65536 + lo) = true →
  a / 2 ^ (16 * (7 - i)) = k ↔ a / 2 ^ (16 * (7 - (i - 1))) = hi ∧ segment i a = lo.
Proof. intros (Hi & Hlo & ->)%bool_decide_eq_true. rewrite segment_digit by done. pose proof (segment_range a i). lia. Qed.

Lemma v6_reserved a : fits 128 a → is_public_destination (V6 a) = bool_decide (Forall (λ p, ¬ in_prefix 128 a p) RESERVED_V6).
Proof.
  intros Ha. unfold fits in Ha. pose proof (segment_range a 0) as Hr.
  assert (a / 2 ^ 112 = segment 0 a) as H0.
  { unfold segment. change (16 * (7 - 0)) with 112. rewrite Z.mod_small; [done|]. split; [apply Z.div_pos; lia|]. apply Z.div_lt_upper_bound; lia. }
  pose proof (quotient a 121 112 ltac:(lia)) as H121. pose proof (quotient a 118 112 ltac:(lia)) as H118.
  pose proof (quotient a 120 112 ltac:(lia)) as H120.
  pose proof (segments_eq a 5 0xffff 0 0xffff eq_refl) as E5.
  pose proof (segments_eq a 4 0 0 0 eq_refl) as E4.
  pose proof (segments_eq a 3 0 0 0 eq_refl) as E3.
  pose proof (segments_eq a 2 0 0 0 eq_refl) as E2.
  pose proof (segments_eq a 1 0 0 0 eq_refl) as E1.
  pose proof (segments_eq a 3 (0x0100 * 2 ^ 48) (0x0100 * 2 ^ 32) 0 eq_refl) as F3.
  pose proof (segments_eq a 2 (0x0100 * 2 ^ 32) (0x0100 * 2 ^ 16) 0 eq_refl) as F2.
  pose proof (segments_eq a 1 (0x0100 * 2 ^ 16) 0x0100 0 eq_refl) as F1.
  pose proof (segments_eq a 1 0x20010db8 0x2001 0x0db8 eq_refl) as G1.
  pose proof (segments_eq a 2 0x200100020000 0x20010002 0 eq_refl) as K2.
  pose proof (segments_eq a 1 0x20010002 0x2001 0x0002 eq_refl) as K1.
  assert (a / 2 ^ 32 = 65535 ↔ segment 0 a = 0 ∧ segment 1 a = 0 ∧ segment 2 a = 0 ∧ segment 3 a = 0 ∧ segment 4 a = 0
    ∧ segment 5 a = 65535) as Hmapped by (rewrite <- H0; simpl in *; tauto).
  assert (a / 2 ^ 64 = 72057594037927936 ↔ segment 0 a = 256 ∧ segment 1 a = 0 ∧ segment 2 a = 0 ∧ segment 3 a = 0) as Hdiscard
    by (rewrite <- H0; simpl in *; tauto).
  assert (a / 2 ^ 80 = 35188667187200 ↔ segment 0 a = 8193 ∧ segment 1 a = 2 ∧ segment 2 a = 0) as Hbench
    by (rewrite <- H0; simpl in *; tauto).
  assert (a / 2 ^ 96 = 536939960 ↔ segment 0 a = 8193 ∧ segment 1 a = 3512) as Hdoc by (rewrite <- H0; simpl in *; tauto).
  clear E5 E4 E3 E2 E1 F3 F2 F1 G1 K2 K1.
  pose proof (land_high (segment 0 a) 6 Hr ltac:(lia)) as L6. pose proof (land_high (segment 0 a) 8 Hr ltac:(lia)) as L8.
  pose proof (land_high (segment 0 a) 9 Hr ltac:(lia)) as L9. 
  change (Z.land (segment 0 a) 65472 = segment 0 a / 64 * 64) in L6.
  change (Z.land (segment 0 a) 65280 = segment 0 a / 256 * 256) in L8.
  change (Z.land (segment 0 a) 65024 = segment 0 a / 512 * 512) in L9.
  rewrite H0 in H121, H118, H120. simpl (2 ^ (_ - _)) in *.
  unfold is_public_destination, v6_is_unspecified, v6_is_loopback, v6_is_multicast, RESERVED_V6.
  bool_props. rewrite !Forall_cons, Forall_nil. unfold in_prefix. cbn [fst snd]. closed_divs a.
  rewrite Hmapped, Hdiscard, Hbench, Hdoc, H121, H118, H120, L6, L8, L9. change (2 ^ 0) with 1. rewrite Z.div_1_r.
  clear -Hr. revert Hr. generalize (segment 0 a). intros s Hr.
  assert (s / 256 * 256 = 65280 ↔ s / 256 = 255) as -> by lia.
  assert (s / 64 * 64 = 65152 ↔ s / 64 = 1018) as -> by lia.
  assert (s / 64 * 64 = 65216 ↔ s / 64 = 1019) as -> by lia.
  assert (s / 512 * 512 = 64512 ↔ s / 512 = 126) as -> by lia. tauto.
Qed.

(** The destinations the appliance treats as public are exactly those outside
    the reserved prefixes: an IPv4 or IPv6 address passes [is_public_destination]
    precisely when it lies in none of the special-purpose blocks. *)
Theorem public_destination_prefixes (destination : IpAddr) : ip_ok destination →
  is_public_destination destination =
    match destination with
    | V4 a => bool_decide (Forall (λ p, ¬ in_prefix 32 a p) RESERVED_V4)
    | V6 a => bool_decide (Forall (λ p, ¬ in_prefix 128 a p) RESERVED_V6)
    end.
Proof. destruct destination; [apply v4_reserved|apply v6_reserved]. Qed.

Lemma public_destination_prefixes_witness :
  is_public_destination (V4 0xc6336414) = bool_decide (Forall (λ p, ¬ in_prefix 32 0xc6336414 p) RESERVED_V4).
Proof. apply (public_destination_prefixes (V4 0xc6336414)). vmdec. Defined.
