(* ===== verification/FrameClaims.v ===== *)
(** The properties of the I/O worker. *)
From S2P Require Import Prelude Net Packet PacketFacts PacketRewrite PacketProps PacketTheorems NatTable NatProps QuicFlow Dns DnsProps Dispatch Engine Frame FrameFacts FrameProps PublicPrefixes.

#[local] Arguments Nat.add : simpl never.
#[local] Arguments Nat.mul : simpl never.

(** ** The frame parser *)

(** C38: The I/O worker and the flow worker parse the same packets alike: when the
    flow worker's parser finds a flow in a packet, the frame parser accepts the
    frame, marks it unfragmented, finds the same addresses, protocol and transport
    offset, and hands on a packet (cut at its IP length) with the same flow; and
    whenever the frame parser accepts a frame, its fragment flag is what
    [ip_packet_is_fragmented] answers. *)
Theorem frame_parsers_agree (eth p : bytes) : bytes_ok p → ethernet_for eth p →
  (∀ f, parse_flow_key p = Ok f → ∃ parsed, parse_ip_frame (eth ++ p) = Ok parsed
     ∧ fragmented parsed = false ∧ pf_source parsed = fk_source f ∧ pf_destination parsed = fk_destination f
     ∧ transport_metadata p = Ok (protocol parsed, transport_offset parsed, length (ip_packet parsed))
     ∧ ip_packet parsed = take (length (ip_packet parsed)) p ∧ parse_flow_key (ip_packet parsed) = Ok f)
  ∧ (∀ parsed, parse_ip_frame (eth ++ p) = Ok parsed → ip_packet_is_fragmented p = Ok (fragmented parsed)).
Proof.
  intros Hok Heth. split; [|intros parsed; by apply parse_frame_fragment].
  intros f Hf. destruct (parsed_flow_exists eth p f Hok Heth Hf) as (parsed & []). exists parsed. split_and!; try done.
  destruct pfl_cut as [Hc _]. rewrite Hc at 1. unfold sub. by rewrite drop_0, Nat.sub_0_r.
Qed.

Definition sample_eth (ether_type : Z) : bytes := replicate 12 2 ++ be_bytes 2 ether_type.

Lemma frame_parsers_agree_witness : ∃ parsed, parse_ip_frame (sample_eth ETH_P_IPV4 ++ sample_syn ++ [0; 0]) = Ok parsed
  ∧ fragmented parsed = false ∧ pf_source parsed = fk_source sample_syn_flow ∧ pf_destination parsed = fk_destination sample_syn_flow
  ∧ transport_metadata (sample_syn ++ [0; 0]) = Ok (protocol parsed, transport_offset parsed, length (ip_packet parsed))
  ∧ ip_packet parsed = take (length (ip_packet parsed)) (sample_syn ++ [0; 0]) ∧ parse_flow_key (ip_packet parsed) = Ok sample_syn_flow.
Proof. apply (frame_parsers_agree (sample_eth ETH_P_IPV4) (sample_syn ++ [0; 0])); [vmdec|vmdec|reflexivity]. Defined.

(** The I/O worker and the QUIC engine read the same connection ID out of a
    datagram: for every configured length between 1 and 20 bytes,
    [parse_quic_dcid] accepts exactly the datagrams [extract_dcid] does, with the
    same bytes; it reports a bootstrap packet exactly for the long headers of type
    Initial. *)
Theorem dcid_parsers_agree (packet : bytes) (fixed_len : nat) : (1 ≤ fixed_len ≤ 20)%nat → bytes_ok packet →
  (∀ dcid, extract_dcid packet fixed_len = Some dcid ↔ ∃ initial, parse_quic_dcid packet fixed_len = Ok (dcid, initial))
  ∧ (∀ dcid initial, parse_quic_dcid packet fixed_len = Ok (dcid, initial) →
       dcid ≠ [] ∧ (initial = true ↔ Z.land (byte_at packet 0) 0x80 ≠ 0 ∧ Z.land (Z.shiftr (byte_at packet 0) 4) 3 = 0)).
Proof.
  intros Hn Hok. unfold extract_dcid, parse_quic_dcid. rewrite head_lookup.
  destruct (packet !! 0%nat) as [first|] eqn:H0; cbn; [|naive_solver].
  rewrite (decide_False (P := (fixed_len = 0 ∨ 20 < fixed_len)%nat)) by lia.
  assert (byte_at packet 0 = first) as -> by (unfold byte_at; by rewrite H0).
  destruct (decide (Z.land first 128 ≠ 0)) as [Hlong|Hshort].
  - destruct (packet !! 5%nat) as [len|] eqn:H5; cbn.
    2: { destruct (get_range packet 1 5); cbn; naive_solver. }
    apply lookup_lt_Some in H5 as Hlen. rewrite (get_range_ok packet 1 5) by lia. cbn.
    assert (is_byte len) as Hl by (by eapply Forall_lookup_1 in H5). unfold is_byte in Hl. case_decide as Hd.
    + rewrite decide_True by lia. naive_solver.
    + rewrite decide_False by lia. destruct (get_range packet 6 _) as [dcid|] eqn:Hg; cbn; [|naive_solver].
      apply get_range_Some in Hg as (? & ? & ->). split; [naive_solver|]. intros ? ? [= <- <-].
      rewrite bool_decide_eq_true. split; [|tauto]. intros Hnil. apply (f_equal length) in Hnil.
      rewrite length_sub in Hnil by lia. simpl in Hnil. lia.
  - destruct (get_range packet 1 _) as [dcid|] eqn:Hg; cbn; [|naive_solver].
    apply get_range_Some in Hg as (? & ? & ->). split; [naive_solver|]. intros ? ? [= <- <-].
    split; [|naive_solver]. intros Hnil. apply (f_equal length) in Hnil. rewrite length_sub in Hnil by lia. simpl in Hnil. lia.
Qed.

Lemma dcid_parsers_agree_witness : ∀ dcid, extract_dcid ([0xc3; 0; 0; 0; 1; 8] ++ replicate 8 7) 8 = Some dcid
  ↔ ∃ initial, parse_quic_dcid ([0xc3; 0; 0; 0; 1; 8] ++ replicate 8 7) 8 = Ok (dcid, initial).
Proof. apply (dcid_parsers_agree ([0xc3; 0; 0; 0; 1; 8] ++ replicate 8 7) 8); [lia|vmdec]. Defined.

(** ** The classifier *)

Section claims.
Context {IpNet : Type} (contains : IpNet → IpAddr → bool) (dns_hash : IoOwnerKey → DnsTransactionKey → Z).
Implicit Types c : IoClassifierConfig IpNet.

Lemma dispatch_to_cases w m d : ∃ o d', dispatch_to w m d = (o, d')
  ∧ match o with
    | Accepted => ∃ ch, senders d !! w = Some ch ∧ ch_connected ch = true ∧ (length (ch_queue ch) < ch_capacity ch)%nat
        ∧ d' = mkDispatcher (<[w := mkChannel (ch_capacity ch) (ch_queue ch ++ [m]) true]> (senders d)) (counters d)
    | _ => senders d' = senders d
    end.
Proof using Type.
  unfold dispatch_to, try_send. destruct (senders d !! w) as [ch|] eqn:Hw; [|do 2 eexists; split; [done|]; done].
  destruct (ch_connected ch) eqn:Hc; [case_decide|]; (do 2 eexists; split; [done|]; try done).
  by exists ch.
Qed.

(** The message carries bytes of the frame. *)
Definition carries (m : FlowMessage) (io : IoOwnerKey) (frame : bytes) : Prop :=
  match m with
  | InterceptIngress o packet _ => o = io ∧ ∃ n, packet = sub frame 14 (14 + n)
  | TunnelIngress o _ _ _ packet => o = io ∧ ∃ a b, packet = sub frame a b
  | ReloadPolicies _ => False
  end.

Lemma parse_outer_payload parsed port n outer : parse_outer_quic parsed port n = Ok (Some outer) →
  ∃ a b, oq_payload outer = sub (ip_packet parsed) a b ∧ (b ≤ length (ip_packet parsed))%nat.
Proof using Type.
  unfold parse_outer_quic. case_decide; [done|]. intros Ho. obinv; [done|]. case_match. injection Ho as <-. simpl.
  rewrite length_sub in * by lia. rewrite sub_sub by lia. do 2 eexists. split; [done|]. lia.
Qed.

Lemma classify_carries c frame active reverse_nat w m :
  classify contains dns_hash c frame active reverse_nat = Ok (SendTo w m) → carries m (owner c) frame.
Proof using Type.
  unfold classify. intros H. apply obind_Ok in H as (parsed & Hp & H).
  destruct (parse_ip_frame_part _ _ Hp) as (total & Hpk & Ht).
  destruct (tunnel c && _); [|destruct (negb (intercept c)); [done|]].
  - unfold classify_tunnel in H. apply obind_Ok in H as ([outer|] & Ho & H); [|done]. obinv. split; [done|].
    destruct (parse_outer_payload _ _ _ _ Ho) as (a & b & -> & Hb). rewrite Hpk in Hb |- *. rewrite length_sub in Hb by lia.
    rewrite sub_sub by lia. by do 2 eexists.
  - apply obind_Ok in H as ([] & _ & H); [|apply obind_Ok in H as ([] & _ & H)].
    + unfold classify_dns_query in H. destruct (fragmented parsed); [done|]. obinv. split; [done|by eexists].
    + unfold classify_dns_response in H. destruct (fragmented parsed); [done|]. obinv.
      destruct (directory_lookup _ _); [|done]. obinv. split; [done|by eexists].
    + unfold classify_flow in H. obinv. destruct (directory_lookup _ _); [obinv; split; [done|by eexists]|].
      case_decide; [done|]. destruct (intercept_allowed _ _ _); [|done]. obinv. split; [done|by eexists].
Qed.

(** C29: Whatever frame arrives, the I/O worker does not panic, and it does exactly
    one of: pass the frame on, leaving every queue alone; put one message, made of
    bytes of this frame and tagged with this queue, at the end of the queue of the
    worker it names, which is alive and has room; or drop the frame, with every
    queue unchanged (only a drop counter moves, and only if the dispatcher refused). *)
Theorem handle_frame_total c (frame : bytes) (active : ActiveDcidIndex) (reverse_nat : ReverseNatDirectory) (d : FlowDispatcher) :
  bytes_ok frame →
  ∃ o d', handle_frame contains dns_hash c frame active reverse_nat d = (Ok o, d')
  ∧ match o with
    | Passed => d' = d
    | Dispatched w => ∃ ch m, senders d !! w = Some ch ∧ ch_connected ch = true ∧ (length (ch_queue ch) < ch_capacity ch)%nat
        ∧ carries m (owner c) frame
        ∧ d' = mkDispatcher (<[w := mkChannel (ch_capacity ch) (ch_queue ch ++ [m]) true]> (senders d)) (counters d)
    | Dropped r => senders d' = senders d ∧ (d' = d ∨ ∃ o, o ≠ Accepted ∧ r = DispatchRejected o)
    end.
Proof using Type.
  intros Hok. pose proof (classify_no_panic contains dns_hash c frame active reverse_nat Hok) as Hnp. unfold handle_frame.
  destruct (classify _ _ _ _ _ _) as [[|w m]|r|] eqn:Hc; [..|done].
  - by do 2 eexists.
  - apply classify_carries in Hc. destruct (dispatch_to_cases w m d) as (o & d' & -> & Ho).
    do 2 eexists. split; [done|]. destruct o; simpl; [|split; [done|right; eexists; split; [|reflexivity]; done]..]. destruct Ho as (ch & ? & ? & ? & ->). by exists ch, m.
  - do 2 eexists. split; [done|]. simpl. auto.
Qed.

(** What the dispatcher's answer makes of a message for worker [w]. *)
Definition dispatched (w : nat) (m : FlowMessage) (d : FlowDispatcher) : outcome unit IngressOutcome * FlowDispatcher :=
  let '(o, d') := dispatch_to w m d in (Ok (dispatch_outcome w o), d').

Lemma handle_frame_sends c frame active reverse_nat d w m :
  classify contains dns_hash c frame active reverse_nat = Ok (SendTo w m) →
  handle_frame contains dns_hash c frame active reverse_nat d = dispatched w m d.
Proof using Type. intros H. unfold handle_frame. by rewrite H. Qed.

Lemma parsed_take eth p f parsed : parsed_flow eth p f parsed →
  ∃ n, ip_packet parsed = take n p ∧ parse_flow_key (take n p) = Ok f.
Proof using Type.
  intros Hp. destruct (pfl_cut _ _ _ _ Hp) as [Hc _]. exists (length (ip_packet parsed)).
  assert (ip_packet parsed = take (length (ip_packet parsed)) p) as He
    by (rewrite Hc at 1; unfold sub; by rewrite drop_0, Nat.sub_0_r).
  split; [done|]. rewrite <- He. apply Hp.
Qed.

(** Once a worker has published a session's translated flow, every reply that
    arrives on an intercept queue, whatever the interception policy says of its
    destination, is dispatched to that worker with the session's locator, until
    that publication is retired, whatever other workers publish or retire in
    between; the only exceptions are addresses claimed by the tunnel or by the DNS
    listener. *)
Theorem reply_reaches_session c (eth p : bytes) (r : FlowKey) (d0 d1 : ReverseNatDirectory) (b : NatBinding)
    (l : SessionLocator) (ops : list directory_op) (active : ActiveDcidIndex) (d : FlowDispatcher) :
  directory_publish b l d0 = (Ok tt, d1) →
  Forall (λ op, ¬ retires (from_translated_flow (nb_translated b)) l op) ops →
  is_reply (nb_translated b) r → bytes_ok p → ethernet_for eth p → parse_flow_key p = Ok r →
  intercept c = true → ¬ to_tunnel c r → ¬ to_dns_vip c r →
  ∃ n, parse_flow_key (take n p) = Ok r
  ∧ handle_frame contains dns_hash c (eth ++ p) active (directory_run d1 ops) d
    = dispatched (flow_worker_id l) (InterceptIngress (owner c) (take n p) (Some l)) d.
Proof using Type.
  intros Hpub Hops Hr Hok Heth Hf Hi Ht Hv. pose proof (directory_entry_kept _ _ _ _ _ _ Hpub Hops Hr) as Hd.
  destruct (parsed_flow_exists eth p r Hok Heth Hf) as (parsed & Hp). destruct (parsed_take _ _ _ _ Hp) as (n & Hn & Hfn).
  exists n. split; [done|]. rewrite <- Hn. apply handle_frame_sends. by eapply classify_known.
Qed.

(** Whether the policy takes a new flow to [destination] into the tunnel. *)
Definition policy_allows c (destination : IpAddr) : Prop :=
  match intercept_policy c with
  | All => True
  | TunnelPrefixes prefixes => ∃ prefix, prefix ∈ prefixes ∧ contains prefix destination = true
  | DirectPrefixes prefixes => is_public_destination destination = true
      ∧ ∀ prefix, prefix ∈ prefixes → contains prefix destination = false
  end.

Lemma intercept_allowed_iff c eth p f parsed : bytes_ok p → parse_flow_key p = Ok f → parsed_flow eth p f parsed →
  intercept_allowed contains c (ip_packet parsed) = true ↔ policy_allows c (fk_destination f).
Proof using Type.
  intros Hok Hf Hp. unfold intercept_allowed, policy_allows. rewrite (destination_ip_flow eth p f Hok Hf parsed Hp).
  destruct (intercept_policy c) as [ps|ps|]; [..|done].
  - rewrite existsb_exists. by setoid_rewrite <- list_elem_of_In.
  - rewrite andb_true_iff, negb_true_iff. rewrite <- not_true_iff_false, existsb_exists. setoid_rewrite <- list_elem_of_In.
    setoid_rewrite <- not_true_iff_false. naive_solver.
Qed.

(** C37: A flow no session has published: a packet to one of the appliance's own
    NAT addresses is dropped; otherwise the policy decides on the destination
    alone, and an intercepted packet goes to a worker that is in range and is a
    function of the flow key and the number of workers only, so that all packets
    of the flow, on any queue and any interface, meet on one worker. *)
Theorem new_flow_by_policy c (eth p : bytes) (f : FlowKey) (reverse_nat : ReverseNatDirectory) (active : ActiveDcidIndex)
    (d : FlowDispatcher) :
  bytes_ok p → ethernet_for eth p → parse_flow_key p = Ok f → intercept c = true →
  ¬ to_tunnel c f → ¬ to_dns_vip c f → ¬ from_dns_resolver c f → directory_lookup reverse_nat f = None →
  (0 < flow_worker_count c)%nat →
  (fk_destination f ∈ nat_return_ips c →
     handle_frame contains dns_hash c (eth ++ p) active reverse_nat d = (Ok (Dropped UnknownNatTuple), d))
  ∧ (fk_destination f ∉ nat_return_ips c → ¬ policy_allows c (fk_destination f) →
     handle_frame contains dns_hash c (eth ++ p) active reverse_nat d = (Ok Passed, d))
  ∧ (fk_destination f ∉ nat_return_ips c → policy_allows c (fk_destination f) →
     (stable_flow_owner f (flow_worker_count c) < flow_worker_count c)%nat
     ∧ ∃ n, parse_flow_key (take n p) = Ok f
       ∧ handle_frame contains dns_hash c (eth ++ p) active reverse_nat d
         = dispatched (stable_flow_owner f (flow_worker_count c)) (InterceptIngress (owner c) (take n p) None) d).
Proof using Type.
  intros Hok Heth Hf Hi Ht Hv Hr Hd Hc. destruct (parsed_flow_exists eth p f Hok Heth Hf) as (parsed & Hp).
  destruct (parsed_take _ _ _ _ Hp) as (n & Hn & Hfn). pose proof (intercept_allowed_iff c eth p f parsed Hok Hf Hp) as Ha.
  unfold handle_frame. rewrite (classify_flow_case contains dns_hash c eth p f Hok Hf parsed Hp) by done. unfold classify_flow.
  rewrite (frame_flow_key_ok eth p f parsed Hp). cbn [obind]. rewrite Hd, (pfl_destination _ _ _ _ Hp). split_and!; intros Hin.
  - by rewrite decide_True.
  - rewrite decide_False by done. intros Hpol. destruct (intercept_allowed _ _ _); [naive_solver|done].
  - rewrite decide_False by done. intros Hpol. apply Ha in Hpol. rewrite Hpol. split.
    + unfold stable_flow_owner. rewrite decide_False by lia.
      pose proof (Z.mod_pos_bound (fnv1a (flow_bytes f)) (Z.of_nat (flow_worker_count c)) ltac:(lia)). lia.
    + exists n. rewrite <- Hn in *. done.
Qed.

(** A query to the DNS listener goes to the worker that the hash of the
    receiving queue and of the query's transaction key selects, in range, whatever
    the directory holds; so a retransmission with the same client, ID and question
    meets the transaction that its first copy opened. *)
Theorem dns_query_by_transaction c (eth p pl : bytes) (f : FlowKey) (reverse_nat : ReverseNatDirectory) (active : ActiveDcidIndex)
    (d : FlowDispatcher) :
  bytes_ok p → ethernet_for eth p → parse_flow_key p = Ok f → udp_payload p = Ok pl → intercept c = true →
  ¬ to_tunnel c f → to_dns_vip c f → (0 < flow_worker_count c)%nat →
  ∃ key n, transaction_key (mkSocketAddr (fk_source f) (fk_source_port f)) pl = Ok key
  ∧ (Z.to_nat (dns_hash (owner c) key mod Z.of_nat (flow_worker_count c)) < flow_worker_count c)%nat
  ∧ parse_flow_key (take n p) = Ok f
  ∧ handle_frame contains dns_hash c (eth ++ p) active reverse_nat d
    = dispatched (Z.to_nat (dns_hash (owner c) key mod Z.of_nat (flow_worker_count c)))
        (InterceptIngress (owner c) (take n p) None) d.
Proof using Type.
  intros Hok Heth Hf Hpl Hi Ht Hv Hc. destruct (parsed_flow_exists eth p f Hok Heth Hf) as (parsed & Hp).
  destruct (parsed_take _ _ _ _ Hp) as (n & Hn & Hfn).
  destruct (transaction_key_total (mkSocketAddr (fk_source f) (fk_source_port f)) pl) as (key & Hkey).
  exists key, n. split_and!; [done| |done|].
  - pose proof (Z.mod_pos_bound (dns_hash (owner c) key) (Z.of_nat (flow_worker_count c)) ltac:(lia)). lia.
  - rewrite <- Hn. apply handle_frame_sends. rewrite (classify_dns_case contains dns_hash c eth p f Hok Hf parsed Hp) by done.
    unfold classify_dns_query. rewrite (pfl_fragmented _ _ _ _ Hp), (frame_flow_key_ok eth p f parsed Hp). cbn [obind].
    rewrite (frame_payload_ok eth p f Hok Hf parsed Hp pl Hpl). cbn [obind]. unfold stable_dns_owner.
    rewrite decide_False by lia. by rewrite Hkey.
Qed.
End claims.

(** ** Concrete instances *)

Definition sample_contains (prefix : Z * Z) (a : IpAddr) : bool :=
  match a with V4 x => bool_decide (in_prefix 32 x prefix) | V6 x => bool_decide (in_prefix 128 x prefix) end.
Definition sample_hash (io : IoOwnerKey) (key : DnsTransactionKey) : Z := queue_id io + 5.
Definition sample_classifier : IoClassifierConfig (Z * Z) :=
  mkIoConfig (mkIoOwnerKey 1 0) false true 4433 [] [] (Some (mkSocketAddr (V4 0x0a000035) 53)) None 8 2 (TunnelPrefixes [(0xc6336400, 24)]).
Definition sample_queues : FlowDispatcher := sample_dispatcher [] [] 0.
Definition sample_dcids : ActiveDcidIndex := mkDcidIndex ∅ ∅ ∅.
Definition sample_binding : NatBinding :=
  mkNatBinding (mkFlowKey (V4 0x0a000001) (V4 0xc000020a) 1000 12345 Tcp) (mkFlowKey (V4 0xc6336414) (V4 0xc000020a) 443 12345 Tcp).
Definition sample_dns_frame : bytes :=
  [0x45; 0] ++ be_bytes 2 (28 + Z.of_nat (length sample_query)) ++ [0; 0; 0; 0; 64; 17; 0; 0; 10; 0; 0; 9; 10; 0; 0; 53]
  ++ be_bytes 2 5353 ++ be_bytes 2 53 ++ be_bytes 2 (8 + Z.of_nat (length sample_query)) ++ [0; 0] ++ sample_query.

Lemma handle_frame_total_witness : ∃ o d',
  handle_frame sample_contains sample_hash sample_classifier (sample_eth ETH_P_IPV4 ++ sample_syn) sample_dcids (mkDirectory ∅) sample_queues = (Ok o, d')
  ∧ match o with
    | Passed => d' = sample_queues
    | Dispatched w => ∃ ch m, senders sample_queues !! w = Some ch ∧ ch_connected ch = true ∧ (length (ch_queue ch) < ch_capacity ch)%nat
        ∧ carries m (owner sample_classifier) (sample_eth ETH_P_IPV4 ++ sample_syn)
        ∧ d' = mkDispatcher (<[w := mkChannel (ch_capacity ch) (ch_queue ch ++ [m]) true]> (senders sample_queues)) (counters sample_queues)
    | Dropped r => senders d' = senders sample_queues ∧ (d' = sample_queues ∨ ∃ o, o ≠ Accepted ∧ r = DispatchRejected o)
    end.
Proof. apply (handle_frame_total sample_contains sample_hash sample_classifier). vmdec. Defined.

Lemma reply_reaches_session_witness : ∃ n, parse_flow_key (take n sample_syn) = Ok sample_syn_flow
  ∧ handle_frame sample_contains sample_hash sample_classifier (sample_eth ETH_P_IPV4 ++ sample_syn) sample_dcids
      (directory_run (mkDirectory {[from_translated_flow (nb_translated sample_binding) := own_locator 1 (mkSessionId 7)]})
         [Retire sample_binding (own_locator 0 (mkSessionId 7))]) sample_queues
    = dispatched 1 (InterceptIngress (owner sample_classifier) (take n sample_syn) (Some (own_locator 1 (mkSessionId 7)))) sample_queues.
Proof.
  apply (reply_reaches_session sample_contains sample_hash sample_classifier (sample_eth ETH_P_IPV4) sample_syn sample_syn_flow (mkDirectory ∅)
    (mkDirectory {[from_translated_flow (nb_translated sample_binding) := own_locator 1 (mkSessionId 7)]})
    sample_binding (own_locator 1 (mkSessionId 7))).
  - vm_compute. reflexivity.
  - repeat constructor. by intros [_ ?].
  - vm_compute. tauto.
  - vmdec.
  - vmdec.
  - reflexivity.
  - reflexivity.
  - by intros [? _].
  - by intros [? _].
Defined.

Lemma new_flow_by_policy_witness : ∃ n, parse_flow_key (take n sample_syn) = Ok sample_syn_flow
  ∧ handle_frame sample_contains sample_hash sample_classifier (sample_eth ETH_P_IPV4 ++ sample_syn) sample_dcids (mkDirectory ∅) sample_queues
    = dispatched (stable_flow_owner sample_syn_flow 2) (InterceptIngress (owner sample_classifier) (take n sample_syn) None) sample_queues.
Proof.
  apply (new_flow_by_policy sample_contains sample_hash sample_classifier (sample_eth ETH_P_IPV4) sample_syn sample_syn_flow (mkDirectory ∅)
    sample_dcids sample_queues).
  - vmdec.
  - vmdec.
  - reflexivity.
  - reflexivity.
  - by intros [? _].
  - by intros [? _].
  - by intros (? & ? & _).
  - reflexivity.
  - simpl. lia.
  - apply not_elem_of_nil.
  - exists (0xc6336400, 24). split; [apply list_elem_of_here|reflexivity].
Defined.

Lemma dns_query_by_transaction_witness : ∃ key n,
  transaction_key (mkSocketAddr (V4 0x0a000009) 5353) sample_query = Ok key
  ∧ (Z.to_nat (sample_hash (owner sample_classifier) key mod 2) < 2)%nat
  ∧ parse_flow_key (take n sample_dns_frame) = Ok (mkFlowKey (V4 0x0a000009) (V4 0x0a000035) 5353 53 Udp)
  ∧ handle_frame sample_contains sample_hash sample_classifier (sample_eth ETH_P_IPV4 ++ sample_dns_frame) sample_dcids (mkDirectory ∅) sample_queues
    = dispatched (Z.to_nat (sample_hash (owner sample_classifier) key mod 2)) (InterceptIngress (owner sample_classifier) (take n sample_dns_frame) None) sample_queues.
Proof.
  apply (dns_query_by_transaction sample_contains sample_hash sample_classifier (sample_eth ETH_P_IPV4) sample_dns_frame sample_query
    (mkFlowKey (V4 0x0a000009) (V4 0x0a000035) 5353 53 Udp)).
  - vmdec.
  - vmdec.
  - vm_compute. reflexivity.
  - vm_compute. reflexivity.
  - reflexivity.
  - by intros [? _].
  - split; reflexivity.
  - simpl. lia.
Defined.
