(* ===== verification/Encap.v ===== *)
(** The Ethernet frames an I/O worker transmits ([fill_ethernet_frame] and its
    helpers in [src/src/xdp_datapath/runtime.rs]): the outer IPv4 or IPv6 and UDP
    headers around a QUIC datagram, the scattered Internet checksum, and the
    segments of a batched transmit.

    Buffers are byte strings that the [write_at] of the prelude updates in place; a
    copy that does not fit, and the [debug_assert_eq!] on the buffer's length, are
    [Panic].  [Err tt] is the source's [None]. *)
From S2P Require Import Prelude Net Checksum NatTable Worker Frame.

(** ** The checksum of scattered parts *)

(** [chunks_exact(2)] and its [remainder]. *)
Fixpoint add_chunks (sum : Z) (part : bytes) : Z * option Z :=
  match part with
  | hi :: lo :: rest => add_chunks (wrap 32 (sum + be16 hi lo)) rest
  | [high] => (sum, Some high)
  | [] => (sum, None)
  end.

(** One iteration of the loop over the parts: a byte left over from the part before
    is paired with the first byte of this one. *)
Definition checksum_part (state : Z * option Z) (part : bytes) : Z * option Z :=
  match state with
  | (sum, Some high) =>
      match part with
      | low :: rest => add_chunks (wrap 32 (sum + be16 high low)) rest
      | [] => (sum, Some high)
      end
  | (sum, None) => add_chunks sum part
  end.

Definition checksum_parts (parts : list bytes) : Z :=
  let '(sum, high_byte) := fold_left checksum_part parts (0, None) in
  let sum := match high_byte with Some high => wrap 32 (sum + Z.shiftl high 8) | None => sum end in
  Z.lxor 0xffff (wrap 16 (checksum_fold 2 sum)).

Definition checksum (bs : bytes) : Z := checksum_parts [bs].

(** [transport_checksum] on the two address words and the transport segment. *)
Definition transport_checksum (pseudo : bytes) (protocol : Z) (transport : bytes) : Z :=
  let len := Z.of_nat (length transport) in
  let protocol_and_len := [0; protocol; wrap 8 (Z.shiftr len 8); wrap 8 len] in
  let checksum := checksum_parts [pseudo; protocol_and_len; transport] in
  if decide (checksum = 0) then 0xffff else checksum.

(** ** The outer headers *)

Definition fill_ipv4_udp (source destination source_port destination_port : Z) (payload : bytes) : ST bytes unit unit :=
  let udp_len := (8 + length payload)%nat in
  let total_len := (20 + udp_len)%nat in
  let! packet := sget in
  if decide (length packet ≠ total_len) then slift Panic else
  let! _ := write_at 0 [0x45] in
  let! _ := write_at 2 (be_bytes 2 (wrap 16 (Z.of_nat total_len))) in
  let! _ := write_at 6 (be_bytes 2 0x4000) in
  let! _ := write_at 8 [64] in
  let! _ := write_at 9 [17] in
  let! _ := write_at 12 (be_bytes 4 source) in
  let! _ := write_at 16 (be_bytes 4 destination) in
  let! _ := write_at 20 (be_bytes 2 source_port) in
  let! _ := write_at 22 (be_bytes 2 destination_port) in
  let! _ := write_at 24 (be_bytes 2 (wrap 16 (Z.of_nat udp_len))) in
  let! _ := write_at 28 payload in
  let! header := sreads (λ packet, slice packet 0 20) in
  let! _ := write_at 10 (be_bytes 2 (checksum header)) in
  let! pseudo := sreads (λ packet, slice packet 12 20) in
  let! transport := sreads (λ packet, slice packet 20 (length packet)) in
  write_at 26 (be_bytes 2 (transport_checksum pseudo 17 transport)).

Definition fill_ipv6_udp (source destination source_port destination_port : Z) (payload : bytes) : ST bytes unit unit :=
  let udp_len := (8 + length payload)%nat in
  let! packet := sget in
  if decide (length packet ≠ 40 + udp_len)%nat then slift Panic else
  let! _ := write_at 0 [0x60] in
  let! _ := write_at 4 (be_bytes 2 (wrap 16 (Z.of_nat udp_len))) in
  let! _ := write_at 6 [17] in
  let! _ := write_at 7 [64] in
  let! _ := write_at 8 (be_bytes 16 source) in
  let! _ := write_at 24 (be_bytes 16 destination) in
  let! _ := write_at 40 (be_bytes 2 source_port) in
  let! _ := write_at 42 (be_bytes 2 destination_port) in
  let! _ := write_at 44 (be_bytes 2 (wrap 16 (Z.of_nat udp_len))) in
  let! _ := write_at 48 payload in
  let! addresses := sreads (λ packet, slice packet 8 40) in
  let! transport := sreads (λ packet, slice packet 40 (length packet)) in
  let udp_checksum := checksum_parts [addresses; be_bytes 4 (wrap 32 (Z.of_nat udp_len)); [0; 0; 0; 17]; transport] in
  let udp_checksum := if decide (udp_checksum = 0) then 0xffff else udp_checksum in
  write_at 46 (be_bytes 2 udp_checksum).

(** [build_ipv4_udp] and [build_ipv6_udp]: the same on a fresh buffer. *)
Definition build_ipv4_udp (source destination source_port destination_port : Z) (payload : bytes) : outcome unit unit * bytes :=
  fill_ipv4_udp source destination source_port destination_port payload (replicate (20 + (8 + length payload)) 0).
Definition build_ipv6_udp (source destination source_port destination_port : Z) (payload : bytes) : outcome unit unit * bytes :=
  fill_ipv6_udp source destination source_port destination_port payload (replicate (40 + (8 + length payload)) 0).

(** ** The frame *)

Record InterfaceInfo : Type := mkInterface {
  info_name : bytes;
  info_ifindex : Z;
  info_queue_count : Z;
  mac : bytes;
  info_addresses : list IpAddr;
  if_ipv4 : option Z;
  if_ipv6 : option Z;
}.

Record IoLinkConfig : Type := mkLink {
  link_interface : InterfaceInfo;
  tunnel_next_hop : option bytes;
  intercept_next_hop : option bytes;
}.

Definition fill_outer_packet (interface : InterfaceInfo) (route : OuterRoute) (payload : bytes) : ST bytes unit unit :=
  match sa_ip (or_destination route) with
  | V4 destination =>
      let! source := match or_source_ip route with
                     | Some (V4 source) => sret source
                     | None => slift (ok_or (if_ipv4 interface) tt)
                     | Some (V6 _) => serr tt
                     end in
      fill_ipv4_udp source destination (or_source_port route) (sa_port (or_destination route)) payload
  | V6 destination =>
      let! source := match or_source_ip route with
                     | Some (V6 source) => sret source
                     | None => slift (ok_or (if_ipv6 interface) tt)
                     | Some (V4 _) => serr tt
                     end in
      fill_ipv6_udp source destination (or_source_port route) (sa_port (or_destination route)) payload
  end.

(** The next hop, the type and the payload length of the frame. *)
Definition frame_plan (link : IoLinkConfig) (transmit : IoTransmit) : option (bytes * Z * nat) :=
  match io_outer transmit with
  | Some route =>
      let '(ether_type, header_len) := match sa_ip (or_destination route) with
                                       | V4 _ => (0x0800, 28%nat)
                                       | V6 _ => (0x86dd, 48%nat)
                                       end in
      next_hop ← tunnel_next_hop link;
      Some (next_hop, ether_type, (header_len + length (io_packet transmit))%nat)
  | None =>
      first ← head (io_packet transmit);
      ether_type ← (if decide (Z.shiftr first 4 = 4) then Some 0x0800
                    else if decide (Z.shiftr first 4 = 6) then Some 0x86dd else None);
      next_hop ← intercept_next_hop link;
      Some (next_hop, ether_type, length (io_packet transmit))
  end.

(** The state is the caller's reusable buffer. *)
Definition fill_ethernet_frame (link : IoLinkConfig) (transmit : IoTransmit) : ST bytes unit bool := λ frame,
  match frame_plan link transmit with
  | None => (Ok false, frame)
  | Some (next_hop, ether_type, payload_len) =>
      (let! _ := sput (replicate (14 + payload_len) 0) in
       let! _ := write_at 0 next_hop in
       let! _ := write_at 6 (mac (link_interface link)) in
       let! _ := write_at 12 (be_bytes 2 ether_type) in
       match io_outer transmit with
       | Some route => λ frame,
           match on_slice 14 (14 + payload_len) (fill_outer_packet (link_interface link) route (io_packet transmit)) frame with
           | (Ok tt, frame) => (Ok true, frame)
           | (Err tt, frame) => (Ok false, frame)
           | (Panic, frame) => (Panic, frame)
           end
       | None => let! _ := write_at 14 (io_packet transmit) in sret true
       end) frame
  end.

(** ** Segmentation *)

(** The slices [offset..min(len, offset + segment_size)] for [offset] in
    [(offset..len).step_by(segment_size)]; [fuel] bounds their number. *)
Fixpoint segments (fuel : nat) (contents : bytes) (segment_size offset : nat) : list bytes :=
  match fuel with
  | O => []
  | S fuel =>
      if decide (offset < length contents)%nat
      then sub contents offset (Nat.min (length contents) (offset + segment_size))
           :: segments fuel contents segment_size (offset + segment_size)
      else []
  end.

Definition split_outer_transmit (contents : bytes) (segment_size : option nat) : list bytes :=
  match segment_size with
  | Some segment_size =>
      if decide (0 < segment_size ∧ segment_size < length contents)%nat
      then segments (length contents) contents segment_size 0
      else [contents]
  | None => [contents]
  end.
