(* ===== verification/EncapProps.v ===== *)
(** The scattered checksum of [Encap.v], and the bytes that [fill_ipv4_udp] and
    [fill_ipv6_udp] write into a fresh buffer. *)
From S2P Require Import Prelude Net Checksum Packet PacketFacts PacketRewrite PacketProps NatTable Worker Frame FrameFacts FrameProps Encap.

#[local] Arguments Nat.add : simpl never.
#[local] Arguments Nat.mul : simpl never.

(** ** The scattered checksum *)

(** The byte a part leaves over, in front of what follows. *)
Definition pending (high : option Z) (rest : bytes) : bytes :=
  match high with Some h => h :: rest | None => rest end.

Lemma add_chunks_spec part : ∀ sum tail,
  checksum_add sum (part ++ tail) = let '(s, h) := add_chunks sum part in checksum_add s (pending h tail).
Proof.
  induction part as [|x|x y part IH] using bytes_pair_ind; intros sum tail; [done|done|]. simpl. apply IH.
Qed.

Lemma checksum_part_spec state part tail :
  checksum_add state.1 (pending state.2 (part ++ tail))
  = let '(s, h) := checksum_part state part in checksum_add s (pending h tail).
Proof.
  destruct state as [sum [high|]]; simpl; [|apply add_chunks_spec].
  destruct part as [|low rest]; simpl; [done|]. apply add_chunks_spec.
Qed.

Lemma checksum_parts_fold parts : ∀ state,
  checksum_add state.1 (pending state.2 (concat parts))
  = let '(s, h) := fold_left checksum_part parts state in checksum_add s (pending h []).
Proof.
  induction parts as [|part parts IH]; intros state; simpl; [by destruct state|].
  rewrite checksum_part_spec. destruct (checksum_part state part) as [s h] eqn:Hs. exact (IH (s, h)).
Qed.

Lemma checksum_parts_eq parts : checksum_parts parts = internet_checksum (concat parts).
Proof.
  unfold checksum_parts, internet_checksum, checksum_finish. pose proof (checksum_parts_fold parts (0, None)) as H. simpl in H.
  rewrite H. destruct (fold_left checksum_part parts (0, None)) as [s [h|]]; done.
Qed.

Lemma checksum_eq bs : checksum bs = internet_checksum bs.
Proof. unfold checksum. rewrite checksum_parts_eq. simpl. by rewrite app_nil_r. Qed.

Lemma internet_checksum_sum l : bytes_ok l → Z.of_nat (length l) ≤ 131000 → internet_checksum l = checksum_finish (word_sum l).
Proof.
  intros Hok Hl. unfold internet_checksum. pose proof (word_sum_bound l Hok).
  by rewrite checksum_add_word_sum by (done || lia).
Qed.

(** ** The headers *)

Lemma be_bytes_2 x : be_bytes 2 x = [x / 256 mod 256; x mod 256].
Proof. reflexivity. Qed.
Lemma be_bytes_4 x : be_bytes 4 x = [x / 256 / 256 / 256 mod 256; x / 256 / 256 mod 256; x / 256 mod 256; x mod 256].
Proof. reflexivity. Qed.

(** The IPv4 packet before its checksums are written. *)
Definition ipv4_udp_header (total_len udp_len source destination source_port destination_port : Z) : bytes :=
  [0x45; 0] ++ be_bytes 2 total_len ++ [0; 0; 0x40; 0; 64; 17; 0; 0] ++ be_bytes 4 source ++ be_bytes 4 destination
  ++ be_bytes 2 source_port ++ be_bytes 2 destination_port ++ be_bytes 2 udp_len ++ [0; 0].
Definition ipv6_udp_header (udp_len source destination source_port destination_port : Z) : bytes :=
  [0x60; 0; 0; 0] ++ be_bytes 2 udp_len ++ [17; 64] ++ be_bytes 16 source ++ be_bytes 16 destination
  ++ be_bytes 2 source_port ++ be_bytes 2 destination_port ++ be_bytes 2 udp_len ++ [0; 0].

(** The run of writes on a header of known size in front of [rest]. *)
Lemma write_at_head {E} lo bs head rest : (lo + length bs ≤ length head)%nat →
  write_at (E := E) lo bs (head ++ rest) = (Ok tt, patch lo bs head ++ rest).
Proof.
  intros H. rewrite write_at_run by (rewrite length_app; lia). f_equal. unfold patch.
  rewrite take_app_le, drop_app_le by lia. by rewrite <- !app_assoc.
Qed.

Lemma write_at_tail {E} lo bs head rest : length head = lo → length rest = length bs →
  write_at (E := E) lo bs (head ++ rest) = (Ok tt, head ++ bs).
Proof.
  intros <- Hl. rewrite write_at_run by (rewrite length_app; lia). f_equal. unfold patch.
  rewrite take_app_length, drop_ge by (rewrite length_app; lia). by rewrite app_nil_r.
Qed.

(** The next write of a header. *)
Ltac wlen := repeat first [rewrite length_be_bytes | rewrite length_replicate | rewrite length_patch by wlen]; cbn [length]; lia.
Ltac wstep := cbv beta; erewrite sbind_run; [|apply write_at_head; wlen].

Lemma fill_ipv4_run source destination source_port destination_port payload :
  let total := (20 + (8 + length payload))%nat in
  let p0 := ipv4_udp_header (wrap 16 (Z.of_nat total)) (wrap 16 (Z.of_nat (8 + length payload))) source destination
              source_port destination_port ++ payload in
  let p1 := patch 10 (be_bytes 2 (checksum (sub p0 0 20))) p0 in
  build_ipv4_udp source destination source_port destination_port payload
  = (Ok tt, patch 26 (be_bytes 2 (transport_checksum (sub p1 12 20) 17 (sub p1 20 total))) p1).
Proof.
  intros total p0 p1. unfold build_ipv4_udp, fill_ipv4_udp. cbv zeta. unfold sget at 1. unfold sbind at 1.
  rewrite decide_False by (intros H; apply H; rewrite length_replicate; lia).
  replace (replicate (20 + (8 + length payload)) 0) with (replicate 28 0 ++ replicate (length payload) 0)
    by (rewrite <- replicate_add; f_equal; lia).
  do 10 wstep. cbv beta. erewrite sbind_run; [|apply write_at_tail; [wlen|apply length_replicate]].
  set (h := patch 24 _ _). change h with (ipv4_udp_header (wrap 16 (Z.of_nat total)) (wrap 16 (Z.of_nat (8 + length payload))) source destination
              source_port destination_port). fold p0.
  assert (length p0 = total) as Hl
    by (unfold p0, total; rewrite length_app; change (length (ipv4_udp_header _ _ _ _ _ _)) with 28%nat; lia).
  assert (length p1 = total) as Hl1 by (unfold p1; rewrite length_patch; rewrite ?length_be_bytes; lia).
  erewrite sbind_run; [|apply sreads_run, slice_ok; lia]. erewrite sbind_run; [|apply write_at_run; rewrite length_be_bytes; lia].
  fold p1. do 2 (erewrite sbind_run; [|apply sreads_run, slice_ok; lia]). rewrite write_at_run by (rewrite length_be_bytes; lia).
  by rewrite Hl1.
Qed.

Lemma fill_ipv6_run source destination source_port destination_port payload :
  let total := (40 + (8 + length payload))%nat in
  let p0 := ipv6_udp_header (wrap 16 (Z.of_nat (8 + length payload))) source destination source_port destination_port ++ payload in
  let c := checksum_parts [sub p0 8 40; be_bytes 4 (wrap 32 (Z.of_nat (8 + length payload))); [0; 0; 0; 17]; sub p0 40 total] in
  build_ipv6_udp source destination source_port destination_port payload
  = (Ok tt, patch 46 (be_bytes 2 (if decide (c = 0) then 0xffff else c)) p0).
Proof.
  intros total p0 c. unfold build_ipv6_udp, fill_ipv6_udp. cbv zeta. unfold sget at 1. unfold sbind at 1.
  rewrite decide_False by (intros H; apply H; rewrite length_replicate; lia).
  replace (replicate (40 + (8 + length payload)) 0) with (replicate 48 0 ++ replicate (length payload) 0)
    by (rewrite <- replicate_add; f_equal; lia).
  do 9 wstep. cbv beta. erewrite sbind_run; [|apply write_at_tail; [wlen|apply length_replicate]].
  set (h := patch 44 _ _). change h with (ipv6_udp_header (wrap 16 (Z.of_nat (8 + length payload))) source destination
              source_port destination_port). fold p0.
  assert (length p0 = total) as Hl
    by (unfold p0, total; rewrite length_app; change (length (ipv6_udp_header _ _ _ _ _)) with 48%nat; lia).
  do 2 (erewrite sbind_run; [|apply sreads_run, slice_ok; lia]). rewrite write_at_run by (rewrite length_be_bytes; lia).
  by rewrite Hl.
Qed.
