(* ===== verification/EncapPackets.v ===== *)
(** The packets that [fill_ipv4_udp] and [fill_ipv6_udp] write are ones that the
    packet parser reads back and whose checksums verify. *)
From S2P Require Import Prelude Net Checksum Packet PacketFacts PacketRewrite PacketProps NatTable Worker Frame FrameFacts FrameProps Encap EncapProps.

#[local] Arguments Nat.add : simpl never.
#[local] Arguments Nat.mul : simpl never.

(** ** What the written packets are *)

(** A packet that carries [payload] over UDP from [s] to [d], with valid checksums. *)
Record udp_datagram (p : bytes) (s d : SocketAddr) (payload : bytes) : Prop := {
  ud_ok : bytes_ok p;
  ud_v4 : is_v4 p ↔ is_ipv4 (sa_ip d) = true;
  ud_flow : parse_flow_key p = Ok (mkFlowKey (sa_ip s) (sa_ip d) (sa_port s) (sa_port d) Udp);
  ud_payload : udp_payload p = Ok payload;
  ud_valid : validate_packet_checksums p = Ok tt;
}.

(** The payload of a UDP packet, from its layout. *)
Lemma udp_payload_of_layout p off tl sp dp : bytes_ok p → layout p IP_PROTOCOL_UDP off tl →
  transport_shape IP_PROTOCOL_UDP (sub p off tl) sp dp Udp → udp_payload p = Ok (sub p (off + 8) tl).
Proof.
  intros Hok Hl Hs. unfold udp_payload, udp_payload_range.
  rewrite (proj2 (transport_metadata_layout p _ off tl Hok) Hl). cbn [obind]. rewrite decide_False by (intros H; by apply H).
  rewrite (validate_udp_layout_ok p IP_PROTOCOL_UDP off tl sp dp Udp Hl Hs eq_refl). cbn [obind].
  pose proof (layout_order _ _ _ _ Hl). pose proof (layout_total _ _ _ _ Hl).
  inversion Hs as [|_ Hlen _| |]. rewrite length_sub in Hlen by lia.
  replace (off + (tl - off))%nat with tl by lia. by rewrite slice_ok by lia.
Qed.

(** [bytes_ok] of a concatenation. *)
Ltac bytes_parts :=
  repeat first [assumption | apply bytes_ok_be_bytes | apply Forall_app; split
               | apply Forall_cons; split; [unfold is_byte; lia|] | apply Forall_nil; exact I].

(** Sums over the parts of a pseudo header. *)
Lemma word_sum_be_bytes_2 x : fits 16 x → word_sum (be_bytes 2 x) = x.
Proof. intros Hx. pose proof (be16_be_bytes x Hx) as H. unfold byte_at in H. simpl in H |- *. lia. Qed.

(** A UDP header, from its fields. *)
Lemma udp_shape_intro p off tl sp dp : (off + 8 ≤ tl)%nat → (tl ≤ length p)%nat →
  be16 (byte_at p off) (byte_at p (off + 1)) = sp → be16 (byte_at p (off + 2)) (byte_at p (off + 3)) = dp →
  Z.to_nat (be16 (byte_at p (off + 4)) (byte_at p (off + 5))) = (tl - off)%nat →
  transport_shape IP_PROTOCOL_UDP (sub p off tl) sp dp Udp.
Proof.
  intros Ho Ht <- <- Hl. rewrite <- (Nat.add_0_r off) at 2. rewrite <- !(byte_at_sub p off tl) by lia.
  apply shape_udp; [done|rewrite length_sub; lia|]. rewrite !byte_at_sub, length_sub by lia. done.
Qed.

(** The scattered sum of the pseudo header. *)
Lemma transport_checksum_sum pseudo tr : bytes_ok pseudo → bytes_ok tr → length pseudo = 8%nat → Z.of_nat (length tr) ≤ 65535 →
  let s := word_sum pseudo + 17 + Z.of_nat (length tr) + word_sum tr in
  fits 32 s ∧ transport_checksum pseudo 17 tr = encode_udp_zero_checksum IP_PROTOCOL_UDP (checksum_finish s).
Proof.
  intros H1 H2 Hl Hlt s. unfold transport_checksum. rewrite checksum_parts_eq. cbn [concat].
  set (pl := [0; 17; _; _]). assert (∀ x, is_byte (wrap 8 x)) as Hw8 by (intros; by apply Z.mod_pos_bound).
  assert (bytes_ok pl) as H3.
  { unfold pl. repeat apply Forall_cons_2; try apply Hw8; try apply Forall_nil_2; unfold is_byte; lia. }
  pose proof (word_sum_bound pseudo H1) as B1. pose proof (word_sum_bound tr H2) as B2. rewrite Hl in B1.
  assert (word_sum pl = 17 + Z.of_nat (length tr)) as Hw.
  { unfold pl. cbn [word_sum]. unfold be16, wrap. rewrite Z.shiftr_div_pow2 by lia. change (2 ^ 8) with 256.
    rewrite (Z.mod_small (_ / 256)); [|split; [apply Z.div_pos; lia|apply Z.div_lt_upper_bound; lia]].
    pose proof (Z.div_mod (Z.of_nat (length tr)) 256). lia. }
  assert (fits 32 s) as Hf by (unfold fits, s; lia). split; [done|].
  rewrite app_nil_r. rewrite internet_checksum_sum by (repeat (apply Forall_app; split); done || rewrite !length_app; simpl; lia).
  rewrite !word_sum_app, Hw by (rewrite ?Hl; done). unfold encode_udp_zero_checksum.
  replace (word_sum pseudo + (17 + Z.of_nat (length tr) + word_sum tr)) with s by (unfold s; lia).
  case_decide; [rewrite decide_True by done|rewrite decide_False by tauto]; done.
Qed.

Section v4.
Context (source destination source_port destination_port : Z) (payload : bytes).
Hypotheses (Hs : fits 32 source) (Hd : fits 32 destination) (Hsp : fits 16 source_port) (Hdp : fits 16 destination_port).
Hypotheses (Hpl : bytes_ok payload) (Hlen : Z.of_nat (length payload) ≤ 65507).

Let total : nat := (20 + (8 + length payload))%nat.
Let p0 : bytes := ipv4_udp_header (Z.of_nat total) (Z.of_nat (8 + length payload)) source destination source_port destination_port ++ payload.

Lemma p0_length : length p0 = total.
Proof using Type. unfold p0, total. rewrite length_app. change (length (ipv4_udp_header _ _ _ _ _ _)) with 28%nat. lia. Qed.

Lemma p0_ok : bytes_ok p0.
Proof using Hpl. unfold p0, ipv4_udp_header. bytes_parts. Qed.

Lemma p0_byte i : (i < 28)%nat → byte_at p0 i
  = byte_at (ipv4_udp_header (Z.of_nat total) (Z.of_nat (8 + length payload)) source destination source_port destination_port) i.
Proof using Type. intros Hi. unfold byte_at, p0. by rewrite lookup_app_l. Qed.

Lemma p0_word i a b x : (i + 1 < 28)%nat → be_bytes 2 x = [byte_at p0 i; byte_at p0 (S i)] → fits 16 x →
  a = i → b = S i → be16 (byte_at p0 a) (byte_at p0 b) = x.
Proof using Type. intros Hi Hx Hf -> ->. pose proof (be16_be_bytes x Hf) as H. by rewrite Hx in H. Qed.

Lemma p0_sub a b : (b ≤ 28)%nat → sub p0 a b
  = sub (ipv4_udp_header (Z.of_nat total) (Z.of_nat (8 + length payload)) source destination source_port destination_port) a b.
Proof using Type.
  intros Hb. apply bytes_ext; [rewrite !length_sub; rewrite ?p0_length; unfold total; try done; cbn; lia|].
  intros i Hi. rewrite length_sub in Hi by (rewrite p0_length; unfold total; lia). rewrite !byte_at_sub by lia. apply p0_byte. lia.
Qed.

Lemma p0_layout : layout p0 IP_PROTOCOL_UDP 20 total.
Proof using Hlen.
  assert (byte_at p0 0 = 0x45) as H0 by (by rewrite p0_byte by lia).
  split.
  - unfold total. lia.
  - by rewrite p0_length.
  - unfold total. lia.
  - left. by rewrite H0.
  - intros _. rewrite H0. split_and!; [done| |by rewrite p0_byte by lia].
    rewrite (p0_word 2 2 3 (Z.of_nat total)); [lia|lia|by rewrite !p0_byte by lia|unfold fits, total; lia|done|done].
  - unfold is_v4. rewrite H0. by intros [].
Qed.

Let c1 : Z := checksum (sub p0 0 20).
Let p1 : bytes := patch 10 (be_bytes 2 c1) p0.
Let c2 : Z := transport_checksum (sub p1 12 20) 17 (sub p1 20 total).
Let p : bytes := patch 26 (be_bytes 2 c2) p1.

Lemma p1_length : length p1 = total.
Proof using Type. unfold p1. rewrite length_patch; rewrite p0_length; [done|]. rewrite length_be_bytes. unfold total. lia. Qed.

Lemma p_length : length p = total.
Proof using Type. unfold p. rewrite length_patch; rewrite p1_length; [done|]. rewrite length_be_bytes. unfold total. lia. Qed.

Lemma p1_ok : bytes_ok p1.
Proof using Hpl. unfold p1. auto using p0_ok with rust. Qed.

Lemma p_ok : bytes_ok p.
Proof using Hpl. unfold p. auto using p1_ok with rust. Qed.

Lemma p_byte i : ¬ (10 ≤ i < 12 ∨ 26 ≤ i < 28)%nat → byte_at p i = byte_at p0 i.
Proof using Type.
  intros Hi. unfold p. rewrite byte_at_patch_out by (rewrite ?p1_length, ?length_be_bytes; unfold total; lia).
  unfold p1. by rewrite byte_at_patch_out by (rewrite ?p0_length, ?length_be_bytes; unfold total; lia).
Qed.

Lemma p_layout : layout p IP_PROTOCOL_UDP 20 total.
Proof using Hlen.
  eapply layout_frame; [apply p0_layout|by rewrite p_length, p0_length|]. intros i Hi. apply p_byte. unfold meta_byte in Hi. lia.
Qed.

Lemma p_shape : transport_shape IP_PROTOCOL_UDP (sub p 20 total) source_port destination_port Udp.
Proof using Hlen Hsp Hdp.
  apply udp_shape_intro; [unfold total; lia|by rewrite p_length|..]; rewrite !p_byte by lia.
  - apply (p0_word 20); [lia|by rewrite !p0_byte by lia|done|lia|lia].
  - apply (p0_word 22); [lia|by rewrite !p0_byte by lia|done|lia|lia].
  - rewrite (p0_word 24 _ _ (Z.of_nat (8 + length payload))); [unfold total; lia|lia|by rewrite !p0_byte by lia|unfold fits; lia|lia|lia].
Qed.

Lemma p_header : internet_checksum (sub p 0 20) = 0.
Proof using Hlen Hpl.
  pose proof p0_length. pose proof p1_length. unfold total in *.
  unfold p. rewrite sub_patch_out by wlen. unfold p1. rewrite sub_patch_in by wlen. unfold c1. rewrite checksum_eq.
  assert (patch (10 - 0) [0; 0] (sub p0 0 20) = sub p0 0 20) as He by (rewrite p0_sub by lia; reflexivity).
  rewrite <- He at 1. apply internet_checksum_seal; auto using p0_ok with rust; rewrite ?length_sub by lia; lia.
Qed.

Lemma p_transport : transport_verifies_v4 p 20 total IP_PROTOCOL_UDP.
Proof using Hlen Hpl.
  pose proof p0_length. pose proof p1_length. pose proof p_length. unfold transport_verifies_v4. rewrite decide_False by done.
  eexists. split; [apply pseudo_sum_ipv4_closed; [apply p_ok|unfold total in *; lia..|by vm_compute]|].
  assert (sub p 12 20 = sub p1 12 20) as -> by (unfold p; apply sub_patch_out; unfold total in *; wlen).
  assert (sub p 20 total = patch 6 (be_bytes 2 c2) (sub p1 20 total)) as ->
    by (unfold p; rewrite sub_patch_in by (unfold total in *; wlen); done).
  assert (patch 6 [0; 0] (sub p1 20 total) = sub p1 20 total) as Hz.
  { pose proof (length_sub p1 20 total). apply bytes_ext; [rewrite length_patch; cbn [length]; unfold total in *; lia|]. intros i Hi.
    rewrite length_patch in Hi by (cbn [length]; unfold total in *; lia). destruct (decide (6 ≤ i < 8)%nat) as [Hb|Hb].
    - rewrite byte_at_patch_in, byte_at_sub by (cbn [length]; unfold total in *; lia). unfold p1.
      rewrite byte_at_patch_out, p0_byte by (rewrite ?length_be_bytes; unfold total in *; lia).
      assert (i = 6 ∨ i = 7)%nat as [-> | ->] by lia; reflexivity.
    - by rewrite byte_at_patch_out by (cbn [length]; unfold total in *; lia). }
  pose proof (transport_checksum_sum (sub p1 12 20) (sub p1 20 total) ltac:(auto using p1_ok with rust) ltac:(auto using p1_ok with rust)) as Hc.
  rewrite !length_sub in Hc by (unfold total in *; lia). specialize (Hc eq_refl ltac:(unfold total in *; lia)). cbv zeta in Hc.
  destruct Hc as [Hf Hc]. fold c2 in Hc. destruct (encode_udp_zero_cases IP_PROTOCOL_UDP _ Hf) as (_ & Hcase & _). rewrite <- Hc in Hcase.
  pose proof (word_sum_sub_bound p1 12 20 p1_ok ltac:(unfold total in *; lia)).
  pose proof (word_sum_sub_bound p1 20 total p1_ok ltac:(unfold total in *; lia)).
  apply seal_field; [auto using p1_ok with rust|done|rewrite length_sub by lia; unfold total; lia|unfold IP_PROTOCOL_UDP; lia| |].
  - rewrite Hz. unfold IP_PROTOCOL_UDP, total in *. lia.
  - rewrite Hz. exact Hcase.
Qed.

Lemma ipv4_udp_datagram : build_ipv4_udp source destination source_port destination_port payload = (Ok tt, p)
  ∧ udp_datagram p (mkSocketAddr (V4 source) source_port) (mkSocketAddr (V4 destination) destination_port) payload.
Proof using Hs Hd Hsp Hdp Hpl Hlen.
  split.
  - rewrite fill_ipv4_run. unfold wrap. rewrite !Z.mod_small by lia. done.
  - pose proof p_length. pose proof p0_length. assert (byte_at p 0 = 0x45) as Hb0 by (rewrite p_byte, p0_byte by lia; done).
    assert (is_v4 p) as Hv by (unfold is_v4; by rewrite Hb0).
    assert (ip_source p = V4 source ∧ ip_destination p = V4 destination) as [Hsrc Hdst].
    { unfold ip_source, ip_destination. rewrite !decide_True by done.
      rewrite !(sub_frame p0 p) by (lia || (intros; apply p_byte; lia)). rewrite !p0_sub by lia.
      split; f_equal; [exact (be_val_be_bytes 4 source Hs)|exact (be_val_be_bytes 4 destination Hd)]. }
    split.
    + apply p_ok.
    + done.
    + apply parse_flow_key_iff; [apply p_ok|]. exists IP_PROTOCOL_UDP, 20%nat, total, source_port, destination_port, Udp.
      split_and!; [apply p_layout| |apply p_shape|by rewrite Hsrc, Hdst].
      intros _. unfold ipv4_fragment_bits. rewrite !p_byte, !p0_byte by lia. reflexivity.
    + rewrite (udp_payload_of_layout p 20 total source_port destination_port p_ok p_layout p_shape). f_equal.
      rewrite (sub_frame p0 p) by (lia || (intros; apply p_byte; lia)).
      unfold sub, p0. replace (20 + 8)%nat with 28%nat by lia. rewrite (drop_app_length' _ _ 28) by done. apply take_ge. unfold total. lia.
    + eapply validate_v4_ok; [apply p_ok|apply p_layout|done|apply p_shape|apply p_header|left; apply p_transport].
Qed.
End v4.

Section v6.
Context (source destination source_port destination_port : Z) (payload : bytes).
Hypotheses (Hs : fits 128 source) (Hd : fits 128 destination) (Hsp : fits 16 source_port) (Hdp : fits 16 destination_port).
Hypotheses (Hpl : bytes_ok payload) (Hlen : Z.of_nat (length payload) ≤ 65507).

Let total : nat := (40 + (8 + length payload))%nat.
Let h0 : bytes := ipv6_udp_header (Z.of_nat (8 + length payload)) source destination source_port destination_port.
Let p0 : bytes := h0 ++ payload.
Let s : Z := word_sum (sub p0 8 40) + word_sum (be_bytes 4 (Z.of_nat (total - 40))) + 17 + word_sum (sub p0 40 total).
Let c : Z := encode_udp_zero_checksum IP_PROTOCOL_UDP (checksum_finish s).
Let p : bytes := patch 46 (be_bytes 2 c) p0.

Lemma q0_length : length p0 = total.
Proof using Type. unfold p0, total. rewrite length_app. change (length h0) with 48%nat. lia. Qed.

Lemma q0_ok : bytes_ok p0.
Proof using Hpl. unfold p0, h0, ipv6_udp_header. bytes_parts. Qed.

Lemma q0_byte i : (i < 48)%nat → byte_at p0 i = byte_at h0 i.
Proof using Type. intros Hi. unfold byte_at, p0. by rewrite lookup_app_l. Qed.

Lemma q0_sub a b : (b ≤ 48)%nat → sub p0 a b = sub h0 a b.
Proof using Type.
  intros Hb. apply bytes_ext; [rewrite !length_sub; rewrite ?q0_length; unfold total; try done; cbn; lia|].
  intros i Hi. rewrite length_sub in Hi by (rewrite q0_length; unfold total; lia). rewrite !byte_at_sub by lia. apply q0_byte. lia.
Qed.

Lemma q0_word i a b x : be_bytes 2 x = [byte_at h0 i; byte_at h0 (S i)] → fits 16 x → (i + 1 < 48)%nat →
  a = i → b = S i → be16 (byte_at p0 a) (byte_at p0 b) = x.
Proof using Type. intros Hx Hf Hi -> ->. pose proof (be16_be_bytes x Hf) as H. rewrite Hx in H. by rewrite !q0_byte by lia. Qed.

Lemma q_length : length p = total.
Proof using Type. unfold p. rewrite length_patch; rewrite q0_length; [done|]. rewrite length_be_bytes. unfold total. lia. Qed.

Lemma q_ok : bytes_ok p.
Proof using Hpl. unfold p. auto using q0_ok with rust. Qed.

Lemma q_byte i : ¬ (46 ≤ i < 48)%nat → byte_at p i = byte_at p0 i.
Proof using Type.
  intros Hi. unfold p. by rewrite byte_at_patch_out by (rewrite ?q0_length, ?length_be_bytes; unfold total; lia).
Qed.

Lemma q_version : byte_at p 0 = 0x60.
Proof using Type. rewrite q_byte, q0_byte by lia. done. Qed.

Lemma q_layout : layout p IP_PROTOCOL_UDP 40 total.
Proof using Hlen.
  split.
  - unfold total. lia.
  - by rewrite q_length.
  - unfold total. lia.
  - right. by rewrite q_version.
  - unfold is_v4. by rewrite q_version.
  - intros _. rewrite !q_byte by lia. split_and!; [lia| |].
    + rewrite (q0_word 4 4 5 (Z.of_nat (8 + length payload))) by (done || lia || unfold fits; lia). unfold total. lia.
    + rewrite q0_byte by lia. reflexivity.
Qed.

Lemma q_shape : transport_shape IP_PROTOCOL_UDP (sub p 40 total) source_port destination_port Udp.
Proof using Hlen Hsp Hdp.
  apply udp_shape_intro; [unfold total; lia|by rewrite q_length|..]; rewrite !q_byte by lia.
  - by apply (q0_word 40); [|..|lia|lia|lia].
  - by apply (q0_word 42); [|..|lia|lia|lia].
  - rewrite (q0_word 44 _ _ (Z.of_nat (8 + length payload))) by (done || lia || unfold fits; lia). unfold total. lia.
Qed.

Lemma s_fits : fits 32 s.
Proof using Hpl Hlen.
  pose proof q0_length. pose proof (word_sum_sub_bound p0 8 40 q0_ok ltac:(unfold total in *; lia)).
  pose proof (word_sum_sub_bound p0 40 total q0_ok ltac:(unfold total in *; lia)).
  pose proof (word_sum_bound (be_bytes 4 (Z.of_nat (total - 40))) ltac:(auto with rust)) as Hb. rewrite length_be_bytes in Hb.
  unfold fits, s, total in *. lia.
Qed.

Lemma q_transport : transport_verifies_v6 p 40 total IP_PROTOCOL_UDP.
Proof using Hlen Hpl.
  pose proof q0_length. pose proof q_length. pose proof s_fits as Hf. eexists.
  split; [apply pseudo_sum_ipv6_closed; [apply q_ok|unfold total in *; lia..|by vm_compute]|].
  assert (sub p 8 40 = sub p0 8 40) as -> by (unfold p; apply sub_patch_out; unfold total in *; wlen).
  assert (sub p 40 total = patch 6 (be_bytes 2 c) (sub p0 40 total)) as ->
    by (unfold p; rewrite sub_patch_in by (unfold total in *; wlen); done).
  assert (patch 6 [0; 0] (sub p0 40 total) = sub p0 40 total) as Hz.
  { pose proof (length_sub p0 40 total). apply bytes_ext; [rewrite length_patch; cbn [length]; unfold total in *; lia|]. intros i Hi.
    rewrite length_patch in Hi by (cbn [length]; unfold total in *; lia). destruct (decide (6 ≤ i < 8)%nat) as [Hb|Hb].
    - rewrite byte_at_patch_in, byte_at_sub, q0_byte by (cbn [length]; unfold total in *; lia).
      assert (i = 6 ∨ i = 7)%nat as [-> | ->] by lia; reflexivity.
    - by rewrite byte_at_patch_out by (cbn [length]; unfold total in *; lia). }
  destruct (encode_udp_zero_cases IP_PROTOCOL_UDP s Hf) as (_ & Hcase & _).
  pose proof (word_sum_sub_bound p0 8 40 q0_ok ltac:(unfold total in *; lia)).
  pose proof (word_sum_sub_bound p0 40 total q0_ok ltac:(unfold total in *; lia)).
  pose proof (word_sum_bound (be_bytes 4 (Z.of_nat (total - 40))) ltac:(auto with rust)) as Hb. rewrite length_be_bytes in Hb.
  apply seal_field; [auto using q0_ok with rust|done|rewrite length_sub by lia; unfold total; lia|unfold IP_PROTOCOL_UDP; lia| |].
  - rewrite Hz. unfold IP_PROTOCOL_UDP, total in *. lia.
  - rewrite Hz. exact Hcase.
Qed.

Lemma q_checksum_written : get_range p (40 + 6) (40 + 6 + 2) ≠ Some [0; 0].
Proof using Hlen Hpl.
  pose proof q0_length. pose proof q_length. intros Hg. apply get_range_Some in Hg as (_ & _ & Hg).
  destruct (encode_udp_zero_cases IP_PROTOCOL_UDP s s_fits) as (H16 & _ & Hnz). apply (Hnz eq_refl). fold c in H16 |- *.
  pose proof (sub_patch_same 46 (be_bytes 2 c) p0 ltac:(unfold total in *; wlen)) as Hsame. rewrite length_be_bytes in Hsame.
  rewrite <- (be_val_be_bytes 2 c H16), <- Hsame. change (be_val (sub p (40 + 6) (40 + 6 + 2)) = 0). by rewrite <- Hg.
Qed.

Lemma ipv6_udp_datagram : build_ipv6_udp source destination source_port destination_port payload = (Ok tt, p)
  ∧ udp_datagram p (mkSocketAddr (V6 source) source_port) (mkSocketAddr (V6 destination) destination_port) payload.
Proof using Hs Hd Hsp Hdp Hpl Hlen.
  pose proof q_length. pose proof q0_length. assert (¬ is_v4 p) as Hv by (unfold is_v4; by rewrite q_version). split.
  - rewrite fill_ipv6_run. cbv zeta. unfold wrap. rewrite !Z.mod_small by lia. fold h0. fold p0. fold total.
    rewrite checksum_parts_eq. cbn [concat]. rewrite app_nil_r.
    rewrite internet_checksum_sum.
    2: { apply Forall_app; split; [apply bytes_ok_sub, q0_ok|]. apply Forall_app; split; [apply bytes_ok_be_bytes|].
         apply Forall_app; split; [bytes_parts|apply bytes_ok_sub, q0_ok]. }
    2: rewrite !length_app, length_be_bytes, !length_sub by (unfold total in *; lia); cbn [length]; unfold total in *; lia.
    rewrite !word_sum_app by (rewrite ?length_sub, ?length_be_bytes by (unfold total in *; lia); done).
    change (word_sum [0; 0; 0; 17]) with 17.
    replace (word_sum (sub p0 8 40) + (word_sum (be_bytes 4 (Z.of_nat (8 + length payload))) + (17 + word_sum (sub p0 40 total)))) with s
      by (unfold s; replace (total - 40)%nat with (8 + length payload)%nat by (unfold total; lia); lia).
    do 2 f_equal. unfold p, c, encode_udp_zero_checksum. f_equal. f_equal.
    case_decide; [rewrite decide_True by done|rewrite decide_False by tauto]; done.
  - assert (ip_source p = V6 source ∧ ip_destination p = V6 destination) as [Hsrc Hdst].
    { unfold ip_source, ip_destination. rewrite !decide_False by done.
      rewrite !(sub_frame p0 p) by (unfold total in *; lia || (intros; apply q_byte; lia)). rewrite !q0_sub by lia.
      split; f_equal; [exact (be_val_be_bytes 16 source Hs)|exact (be_val_be_bytes 16 destination Hd)]. }
    split.
    + apply q_ok.
    + done.
    + apply parse_flow_key_iff; [apply q_ok|]. exists IP_PROTOCOL_UDP, 40%nat, total, source_port, destination_port, Udp.
      split_and!; [apply q_layout|done|apply q_shape|by rewrite Hsrc, Hdst].
    + rewrite (udp_payload_of_layout p 40 total source_port destination_port q_ok q_layout q_shape). f_equal.
      rewrite (sub_frame p0 p) by (lia || (intros; apply q_byte; lia)).
      unfold sub, p0. replace (40 + 8)%nat with 48%nat by lia. rewrite (drop_app_length' _ _ 48) by done. apply take_ge. unfold total. lia.
    + eapply validate_v6_ok; [apply q_ok|apply q_layout|done|apply q_shape|apply q_transport|intros _; apply q_checksum_written].
Qed.
End v6.
