(* ===== verification/EncapClaims.v ===== *)
(** The properties of the transmit side of the I/O worker, and its composition with
    the receive side of the peer. *)
From S2P Require Import Prelude Net Checksum Packet PacketFacts PacketRewrite PacketProps PacketTheorems NatTable QuicFlow Dns Dispatch Worker Frame FrameFacts FrameProps PublicPrefixes FrameClaims Encap EncapProps EncapPackets.

#[local] Arguments Nat.add : simpl never.
#[local] Arguments Nat.mul : simpl never.

(** The checksum over scattered parts is the Internet checksum of their
    concatenation, wherever the cuts fall: a part of odd length lends its last byte
    to the next part, across empty parts too. *)
Theorem checksum_parts_concat (parts : list bytes) : checksum_parts parts = internet_checksum (concat parts).
Proof. apply checksum_parts_eq. Qed.

(** ** Segmentation *)

Lemma segments_spec contents size : (0 < size)%nat → ∀ fuel offset, (length contents ≤ offset + fuel)%nat →
  concat (segments fuel contents size offset) = drop offset contents
  ∧ Forall (λ s, 0 < length s ≤ size)%nat (segments fuel contents size offset)
  ∧ Forall (λ s, length s = size) (take (length (segments fuel contents size offset) - 1) (segments fuel contents size offset)).
Proof.
  intros Hs. induction fuel as [|fuel IH]; intros offset Hf; cbn [segments].
  - rewrite drop_ge by lia. done.
  - case_decide as Ho; [|rewrite drop_ge by lia; done].
    destruct (IH (offset + size)%nat ltac:(lia)) as (Hc & Hl & Hfull). cbn [concat]. split_and!.
    + rewrite Hc. destruct (decide (offset + size ≤ length contents)%nat).
      * replace (length contents `min` (offset + size))%nat with (offset + size)%nat by lia.
        unfold sub. replace (offset + size - offset)%nat with size by lia. rewrite <- drop_drop. apply take_drop.
      * replace (length contents `min` (offset + size))%nat with (length contents) by lia.
        rewrite (drop_ge contents (offset + size)) by lia. rewrite app_nil_r. unfold sub. apply take_ge. rewrite length_drop. lia.
    + apply Forall_cons_2; [|done]. rewrite length_sub by lia. lia.
    + cbn [length]. destruct (segments fuel contents size (offset + size)) as [|x l] eqn:Hseg; [done|].
      replace (S (length (x :: l)) - 1)%nat with (S (length (x :: l) - 1)) by (cbn [length]; lia). cbn [take]. apply Forall_cons_2; [|done].
      rewrite length_sub by lia. destruct (decide (offset + size < length contents)%nat); [lia|].
      rewrite drop_ge in Hc by lia. apply Forall_cons in Hl as [Hx _]. destruct x; [simpl in Hx; lia|done].
Qed.

(** Splitting a batched transmit loses and reorders nothing: the segments
    concatenate to the datagram batch, none is empty or longer than the segment
    size, and all but the last have exactly that size; a batch that needs no
    splitting stays whole. *)
Theorem split_outer_transmit_exact (contents : bytes) (segment_size : option nat) :
  concat (split_outer_transmit contents segment_size) = contents
  ∧ (∀ size, segment_size = Some size → (0 < size < length contents)%nat →
      Forall (λ s, 0 < length s ≤ size)%nat (split_outer_transmit contents segment_size)
      ∧ Forall (λ s, length s = size)
          (take (length (split_outer_transmit contents segment_size) - 1) (split_outer_transmit contents segment_size)))
  ∧ ((∀ size, segment_size = Some size → size = 0 ∨ length contents ≤ size)%nat → split_outer_transmit contents segment_size = [contents]).
Proof.
  unfold split_outer_transmit. destruct segment_size as [size|]; [case_decide as Hd|].
  - destruct (segments_spec contents size ltac:(lia) (length contents) 0%nat ltac:(lia)) as (Hc & Hl & Hf). split_and!; [done| |].
    + intros ? [= <-] _. done.
    + intros H. specialize (H size eq_refl). lia.
  - simpl. rewrite app_nil_r. split_and!; [done| |done]. intros ? [= <-] ?. tauto.
  - simpl. rewrite app_nil_r. split_and!; [done|done|done].
Qed.

(** ** Frames *)

(** The source address of the outer packet. *)
Definition outer_source (interface : InterfaceInfo) (route : OuterRoute) : option IpAddr :=
  match sa_ip (or_destination route), or_source_ip route with
  | V4 _, None => V4 <$> if_ipv4 interface
  | V6 _, None => V6 <$> if_ipv6 interface
  | V4 _, Some (V4 s) => Some (V4 s)
  | V6 _, Some (V6 s) => Some (V6 s)
  | _, _ => None
  end.

Definition outer_header_len (a : IpAddr) : nat := if is_ipv4 a then 28 else 48.

Lemma fill_outer_run interface route source payload : outer_source interface route = Some source →
  ip_ok source → ip_ok (sa_ip (or_destination route)) → fits 16 (or_source_port route) → fits 16 (sa_port (or_destination route)) →
  bytes_ok payload → Z.of_nat (length payload) ≤ 65507 →
  ∃ p, fill_outer_packet interface route payload (replicate (outer_header_len (sa_ip (or_destination route)) + length payload) 0) = (Ok tt, p)
    ∧ length p = (outer_header_len (sa_ip (or_destination route)) + length payload)%nat
    ∧ udp_datagram p (mkSocketAddr source (or_source_port route)) (or_destination route) payload.
Proof.
  intros Hsrc Hs Hd Hsp Hdp Hpl Hlen. unfold fill_outer_packet, outer_source in *. destruct route as [rs rport [[d|d] dport]]; simpl in *.
  - assert (∃ x, source = V4 x) as [x ->] by (destruct rs as [[]|]; [naive_solver..|]; destruct (if_ipv4 interface); naive_solver).
    assert ((match rs with Some (V4 s) => sret s | Some (V6 _) => serr tt | None => slift (ok_or (if_ipv4 interface) tt) end
              : ST bytes unit Z) = sret x) as ->.
    { destruct rs as [[]|]; simplify_eq; [done|]. destruct (if_ipv4 interface); simpl in Hsrc; by simplify_eq. }
    destruct (ipv4_udp_datagram x d rport dport payload Hs Hd Hsp Hdp Hpl Hlen) as [Hb Hud].
    eexists. split; [|split; [|exact Hud]].
    + unfold sbind, sret. rewrite <- Hb. unfold build_ipv4_udp. do 2 f_equal.
    + apply (p_length x d rport dport payload).
  - assert (∃ x, source = V6 x) as [x ->] by (destruct rs as [[]|]; [naive_solver..|]; destruct (if_ipv6 interface); naive_solver).
    assert ((match rs with Some (V6 s) => sret s | Some (V4 _) => serr tt | None => slift (ok_or (if_ipv6 interface) tt) end
              : ST bytes unit Z) = sret x) as ->.
    { destruct rs as [[]|]; simplify_eq; [done|]. destruct (if_ipv6 interface); simpl in Hsrc; by simplify_eq. }
    destruct (ipv6_udp_datagram x d rport dport payload Hs Hd Hsp Hdp Hpl Hlen) as [Hb Hud].
    eexists. split; [|split; [|exact Hud]].
    + unfold sbind, sret. rewrite <- Hb. unfold build_ipv6_udp. do 2 f_equal.
    + apply (q_length x d rport dport payload).
Qed.

(** A link whose addresses are well formed. *)
Record link_ok (link : IoLinkConfig) : Prop := {
  lk_mac : length (mac (link_interface link)) = 6%nat ∧ bytes_ok (mac (link_interface link));
  lk_hops : ∀ hop, tunnel_next_hop link = Some hop ∨ intercept_next_hop link = Some hop → length hop = 6%nat ∧ bytes_ok hop;
}.

Definition ethernet_header (hop : bytes) (link : IoLinkConfig) (ether_type : Z) : bytes :=
  hop ++ mac (link_interface link) ++ be_bytes 2 ether_type.

(** The three writes of the Ethernet header on the cleared buffer. *)
Lemma write_ethernet hop (m ty : bytes) n : length hop = 6%nat → length m = 6%nat → length ty = 2%nat →
  ∀ {A} (k : ST bytes unit A) frame,
  (let! _ := sput (replicate (14 + n) 0) in let! _ := write_at 0 hop in let! _ := write_at 6 m in
   let! _ := write_at 12 ty in k) frame = k ((hop ++ m ++ ty) ++ replicate n 0).
Proof.
  intros Hh Hm Ht A k frame. unfold sput at 1. unfold sbind at 1. rewrite replicate_add. change (replicate 14 0) with (replicate 14 0 : bytes).
  do 3 (erewrite sbind_run; [|apply write_at_head; repeat first [rewrite length_replicate | rewrite length_patch by wlen]; lia]).
  f_equal. f_equal.
  destruct hop as [|? [|? [|? [|? [|? [|? [|]]]]]]]; try done. destruct m as [|? [|? [|? [|? [|? [|? [|]]]]]]]; try done.
  destruct ty as [|? [|? [|]]]; done.
Qed.

Lemma ethernet_header_for hop link ether_type p : link_ok link → length hop = 6%nat →
  ether_type = (if decide (is_v4 p) then ETH_P_IPV4 else ETH_P_IPV6) → ethernet_for (ethernet_header hop link ether_type) p.
Proof.
  intros Hlk Hh Ht. unfold ethernet_header. destruct (lk_mac link Hlk) as [Hm _]. split.
  - rewrite !length_app, length_be_bytes. unfold ETHERNET_HEADER_LEN. lia.
  - rewrite <- Ht. unfold byte_at. rewrite !lookup_app_r by lia. rewrite Hh, Hm. change (12 - 6 - 6)%nat with 0%nat. change (13 - 6 - 6)%nat with 1%nat.
    apply (be16_be_bytes ether_type). subst ether_type. by case_decide.
Qed.

Lemma fill_frame_outer link route source hop target payload frame : link_ok link → tunnel_next_hop link = Some hop →
  outer_source (link_interface link) route = Some source →
  ip_ok source → ip_ok (sa_ip (or_destination route)) → fits 16 (or_source_port route) → fits 16 (sa_port (or_destination route)) →
  bytes_ok payload → Z.of_nat (length payload) ≤ 65507 →
  ∃ eth p, fill_ethernet_frame link (mkIoTransmit target payload (Some route)) frame = (Ok true, eth ++ p)
    ∧ ethernet_for eth p ∧ take 12 eth = hop ++ mac (link_interface link)
    ∧ udp_datagram p (mkSocketAddr source (or_source_port route)) (or_destination route) payload.
Proof.
  intros Hlk Hhop Hsrc Hs Hd Hsp Hdp Hpl Hlen. destruct (lk_mac link Hlk) as [Hm _]. destruct (lk_hops link Hlk hop (or_introl Hhop)) as [Hh _].
  destruct (fill_outer_run _ route source payload Hsrc Hs Hd Hsp Hdp Hpl Hlen) as (p & Hfill & Hpl' & Hud).
  set (ty := if is_ipv4 (sa_ip (or_destination route)) then 0x0800 else 0x86dd).
  exists (ethernet_header hop link ty), p. split_and!; [| | |done].
  - assert (frame_plan link (mkIoTransmit target payload (Some route))
      = Some (hop, ty, (outer_header_len (sa_ip (or_destination route)) + length payload)%nat)) as Hplan.
    { unfold frame_plan, ty, outer_header_len. simpl. rewrite Hhop. by destruct (sa_ip (or_destination route)). }
    unfold fill_ethernet_frame. rewrite Hplan. simpl io_outer. simpl io_packet. cbv iota beta.
    rewrite write_ethernet by (done || apply length_be_bytes).
    fold (ethernet_header hop link ty). set (eth := ethernet_header hop link ty).
    assert (length eth = 14%nat) as Hel by (unfold eth, ethernet_header; rewrite !length_app, length_be_bytes; lia).
    unfold on_slice. rewrite <- Hel. set (n := (outer_header_len _ + _)%nat) in *.
    assert (get_range (eth ++ replicate n 0) (length eth) (length eth + n) = Some (replicate n 0)) as ->.
    { pose proof (get_range_app eth (replicate n 0) []) as Hg. rewrite app_nil_r, length_replicate in Hg. done. }
    rewrite Hfill. do 2 f_equal. unfold patch. rewrite take_app_length, drop_ge by (rewrite length_app, length_replicate; lia).
    by rewrite app_nil_r.
  - apply ethernet_header_for; [done|done|]. unfold ty. pose proof (ud_v4 _ _ _ _ Hud) as Hv.
    case_decide as H4; destruct (is_ipv4 _); try done; [by apply Hv in H4|]. destruct H4. by apply Hv.
  - unfold ethernet_header. rewrite app_assoc. rewrite take_app_le by (rewrite length_app; lia). apply take_ge. rewrite length_app. lia.
Qed.

(** What the receiving I/O worker finds in it. *)
Lemma parse_outer_datagram (c : nat) eth p s d payload dcid boot : ethernet_for eth p → udp_datagram p s d payload →
  parse_quic_dcid payload c = Ok (dcid, boot) →
  ∃ parsed, parse_ip_frame (eth ++ p) = Ok parsed ∧ pf_destination parsed = sa_ip d
    ∧ parse_outer_quic parsed (sa_port d) c = Ok (Some (mkOuterQuic dcid s (sa_ip d) payload boot)).
Proof.
  intros Heth Hud Hdcid. pose proof (ud_ok _ _ _ _ Hud) as Hok. pose proof (ud_flow _ _ _ _ Hud) as Hf. pose proof (ud_payload _ _ _ _ Hud) as Hp.
  destruct (parsed_flow_exists eth p _ Hok Heth Hf) as (parsed & Hpf). exists parsed.
  split_and!; [apply Hpf|by rewrite (pfl_destination _ _ _ _ Hpf)|].
  pose proof (frame_payload_ok eth p _ Hok Hf parsed Hpf payload Hp) as Hfp. unfold frame_udp_payload in Hfp.
  destruct (transport_field eth p _ Hok Hf parsed Hpf 0 ltac:(auto) eq_refl) as (u0 & Hg0 & Hr0).
  destruct (transport_field eth p _ Hok Hf parsed Hpf 2 ltac:(auto) eq_refl) as (u2 & Hg2 & Hr2). rewrite Hg0 in Hg2. simplify_eq.
  apply get_range_Some in Hg0 as (_ & Hlen & ->). simpl in Hr0, Hr2.
  unfold parse_outer_quic. rewrite decide_False by (rewrite (udp_iff eth p _ Hok Hf parsed Hpf); by intros []).
  destruct (get_range (ip_packet parsed) _ (length _)) as [udp|] eqn:Hu; [|done]. cbn [ok_or obind] in *.
  destruct (get_range udp 0 8) as [h|] eqn:Hh; [|done]. cbn [ok_or obind] in *.
  apply get_range_Some in Hu as (_ & _ & ->). apply get_range_Some in Hh as (_ & Hl8 & ->).
  rewrite length_sub in Hl8 by lia. rewrite sub_sub in * by lia. rewrite Nat.add_0_r in *.
  rewrite rd16_sub_ok in Hr0, Hr2 by lia. injection Hr0 as Hr0. injection Hr2 as Hr2.
  rewrite !(rd16_sub_ok (ip_packet parsed)) in * by lia. cbn [obind] in *. rewrite Hr0, Hr2.
  rewrite decide_False by (by intros []). rewrite Hfp. cbn [obind]. rewrite Hdcid. cbn [obind].
  by rewrite (pfl_source _ _ _ _ Hpf), (pfl_destination _ _ _ _ Hpf); destruct s.
Qed.

(** Encapsulation: for any QUIC datagram that fits in a UDP packet, and
    whatever the reused buffer held before, the frame written for the tunnel starts
    with the next hop's and the interface's hardware addresses and the right
    Ethernet type, and carries an IP packet of the route's family whose header and
    UDP checksums verify, whose flow is the route's source and destination, and
    whose payload is the datagram. *)
Theorem outer_frame_written (link : IoLinkConfig) (route : OuterRoute) (source : IpAddr) (hop : bytes) (target : IoOwnerKey)
    (payload frame : bytes) :
  link_ok link → tunnel_next_hop link = Some hop → outer_source (link_interface link) route = Some source →
  ip_ok source → ip_ok (sa_ip (or_destination route)) → fits 16 (or_source_port route) → fits 16 (sa_port (or_destination route)) →
  bytes_ok payload → Z.of_nat (length payload) ≤ 65507 →
  ∃ eth p, fill_ethernet_frame link (mkIoTransmit target payload (Some route)) frame = (Ok true, eth ++ p)
    ∧ ethernet_for eth p ∧ take 12 eth = hop ++ mac (link_interface link)
    ∧ validate_packet_checksums p = Ok tt
    ∧ parse_flow_key p = Ok (mkFlowKey source (sa_ip (or_destination route)) (or_source_port route) (sa_port (or_destination route)) Udp)
    ∧ udp_payload p = Ok payload.
Proof.
  intros Hlk Hhop Hsrc Hs Hd Hsp Hdp Hpl Hlen.
  destruct (fill_frame_outer link route source hop target payload frame Hlk Hhop Hsrc Hs Hd Hsp Hdp Hpl Hlen) as (eth & p & ? & ? & ? & []).
  by exists eth, p.
Qed.

Section delivery.
Context {IpNet : Type} (contains : IpNet → IpAddr → bool) (dns_hash : IoOwnerKey → DnsTransactionKey → Z).
Context (c : IoClassifierConfig IpNet) (link : IoLinkConfig) (route : OuterRoute) (source : IpAddr) (hop : bytes).

(** C12: End to end over the wire: a datagram that one appliance encapsulates, when
    its frame reaches a tunnel queue of the peer it is addressed to, is handed on
    byte for byte, with the sender's address and the local address, to the worker
    that owns its connection ID; with an unknown ID, an Initial packet goes to the
    worker its ID hashes to, in range, and any other packet is dropped. *)
Theorem tunnel_datagram_delivered (target : IoOwnerKey) (payload frame dcid : bytes) (boot : bool)
    (active : ActiveDcidIndex) (reverse_nat : ReverseNatDirectory) (d : FlowDispatcher) :
  link_ok link → tunnel_next_hop link = Some hop → outer_source (link_interface link) route = Some source →
  ip_ok source → ip_ok (sa_ip (or_destination route)) → fits 16 (or_source_port route) → fits 16 (sa_port (or_destination route)) →
  bytes_ok payload → Z.of_nat (length payload) ≤ 65507 →
  tunnel c = true → sa_ip (or_destination route) ∈ tunnel_local_ips c → sa_port (or_destination route) = tunnel_port c →
  (0 < flow_worker_count c)%nat → parse_quic_dcid payload (dcid_len c) = Ok (dcid, boot) → dcid ≠ [] →
  ∃ wire, fill_ethernet_frame link (mkIoTransmit target payload (Some route)) frame = (Ok true, wire)
  ∧ let message := TunnelIngress (owner c) dcid (mkSocketAddr source (or_source_port route)) (sa_ip (or_destination route)) payload in
    handle_frame contains dns_hash c wire active reverse_nat d =
    match dcid_resolve active dcid with
    | Some o => dispatched (do_flow_worker_id o) message d
    | None => if boot then dispatched (Z.to_nat (fnv1a dcid mod Z.of_nat (flow_worker_count c))) message d
              else (Ok (Dropped UnknownDcid), d)
    end
  ∧ (Z.to_nat (fnv1a dcid mod Z.of_nat (flow_worker_count c)) < flow_worker_count c)%nat.
Proof using Type.
  intros Hlk Hhop Hsrc Hs Hd Hsp Hdp Hpl Hlen Htun Hin Hport Hcount Hdcid Hne.
  destruct (fill_frame_outer link route source hop target payload frame Hlk Hhop Hsrc Hs Hd Hsp Hdp Hpl Hlen) as (eth & p & Hfill & Heth & _ & Hud).
  exists (eth ++ p). split; [done|]. cbv zeta. split.
  - destruct (parse_outer_datagram (dcid_len c) eth p _ _ payload dcid boot Heth Hud Hdcid) as (parsed & Hparse & Hdst & Houter).
    unfold handle_frame, classify. rewrite Hparse. cbn [obind]. rewrite Htun, Hdst, bool_decide_eq_true_2 by done. cbn [andb].
    unfold classify_tunnel. rewrite <- Hport, Houter. cbn [obind]. unfold tunnel_owner. cbn [oq_dcid bootstrap oq_remote oq_local_ip oq_payload].
    destruct (dcid_resolve active dcid) as [o|]; [done|]. destruct boot; [|done].
    unfold bootstrap_owner. rewrite !decide_False by (done || lia). done.
  - pose proof (Z.mod_pos_bound (fnv1a dcid) (Z.of_nat (flow_worker_count c)) ltac:(lia)). lia.
Qed.
End delivery.

(** ** Concrete instances *)

Definition sample_link : IoLinkConfig := mkLink (mkInterface [101] 9 1 [2; 0; 0; 0; 0; 1] [V4 0xcb007109] (Some 0xcb007109) None) (Some [2; 0; 0; 0; 0; 2]) None.
Definition sample_route : OuterRoute := mkOuterRoute None 4433 (mkSocketAddr (V4 0xcb00710a) 4433).
Definition sample_dcid : bytes := replicate 8 7.
Definition sample_datagram : bytes := [0xc3; 0; 0; 0; 1; 8] ++ replicate 8 7 ++ [9; 9; 9].
Definition sample_peer : IoClassifierConfig (Z * Z) :=
  mkIoConfig (mkIoOwnerKey 2 1) true false 4433 [V4 0xcb00710a] [] None None 8 2 All.

Lemma sample_link_ok : link_ok sample_link.
Proof. split; [split; [done|vmdec]|]. intros hop [H|H]; [injection H as <-; split; [done|vmdec]|done]. Qed.

Lemma outer_frame_written_witness : ∃ eth p,
  fill_ethernet_frame sample_link (mkIoTransmit (mkIoOwnerKey 1 0) sample_datagram (Some sample_route)) [5; 5] = (Ok true, eth ++ p)
  ∧ ethernet_for eth p ∧ take 12 eth = [2; 0; 0; 0; 0; 2] ++ mac (link_interface sample_link)
  ∧ validate_packet_checksums p = Ok tt
  ∧ parse_flow_key p = Ok (mkFlowKey (V4 0xcb007109) (V4 0xcb00710a) 4433 4433 Udp)
  ∧ udp_payload p = Ok sample_datagram.
Proof. apply (outer_frame_written sample_link sample_route); [exact sample_link_ok|done|done|vmdec..]. Defined.

Lemma tunnel_datagram_delivered_witness : ∃ wire,
  fill_ethernet_frame sample_link (mkIoTransmit (mkIoOwnerKey 1 0) sample_datagram (Some sample_route)) [] = (Ok true, wire)
  ∧ let message := TunnelIngress (owner sample_peer) sample_dcid (mkSocketAddr (V4 0xcb007109) 4433) (V4 0xcb00710a) sample_datagram in
    handle_frame sample_contains sample_hash sample_peer wire sample_dcids (mkDirectory ∅) sample_queues
    = dispatched (Z.to_nat (fnv1a sample_dcid mod 2)) message sample_queues
  ∧ (Z.to_nat (fnv1a sample_dcid mod 2)%Z < 2)%nat.
Proof.
  apply (tunnel_datagram_delivered sample_contains sample_hash sample_peer sample_link sample_route (V4 0xcb007109) [2; 0; 0; 0; 0; 2]
    (mkIoOwnerKey 1 0) sample_datagram [] sample_dcid true sample_dcids (mkDirectory ∅) sample_queues);
    [exact sample_link_ok|done|done|vmdec|vmdec|vmdec|vmdec|vmdec|vmdec|done|vmdec|done|simpl; lia|reflexivity|done].
Defined.
