(* ===== verification/FlowLoop.v ===== *)
(** The flow loop of a worker thread ([src/src/xdp_datapath/runtime.rs]): the messages of
    the I/O threads and the events of the QUIC engine drive the worker's state, the two
    shared tables and the transmit queues of the I/O threads.

    The engine is used through the interface [EngineOps], which [quic_engine_ops] shows the
    model of [Engine.v] to implement ([reconnect_client], which draws random connection
    identifiers, is its parameter).  [times] supplies the successive values of
    [Instant::now()] in a handler; [epoch] is the reconnect epoch of the iteration.  The
    statistics are counters indexed by [LoopStat]; waking an I/O thread after a send (an
    eventfd write whose failure is only logged) has no effect here. *)
From S2P Require Import Prelude Net Packet NatTable Session QuicFlow Dns Dispatch Inner Auth Engine Worker Frame Encap.

(** ** The engine's interface *)

Class EngineOps (E : Type) : Type := {
  engine_authenticated : E → bool;
  engine_handle_outer : Z → SocketAddr → option IpAddr → bytes → E → outcome unit E;
  engine_send_inner : Z → bytes → E → outcome QuicEngineError unit * E;
  engine_poll : Z → E → outcome unit (option QuicEngineEvent * E);
  engine_close : Z → E → E;
  engine_resolve_replacement : Z → bool → E → E;
  engine_reconnect_client : E → bool * E;
}.

Definition quic_engine_ops {Conn EndpointEvent ConnectionEvent Endpoint : Type}
    `{!Transport Conn EndpointEvent} `{!EndpointOps Conn EndpointEvent ConnectionEvent Endpoint}
    (hmac_sha256 : bytes → bytes → bytes) (fuel : nat)
    (reconnect : QuicEngine (Conn := Conn) (Endpoint := Endpoint) → bool * QuicEngine (Conn := Conn) (Endpoint := Endpoint))
    : EngineOps (QuicEngine (Conn := Conn) (Endpoint := Endpoint)) := {|
  engine_authenticated := is_authenticated;
  engine_handle_outer := handle_outer hmac_sha256 fuel;
  engine_send_inner := send_inner hmac_sha256 fuel;
  engine_poll := poll hmac_sha256 fuel;
  engine_close := close;
  engine_resolve_replacement := resolve_candidate_replacement;
  engine_reconnect_client := reconnect;
|}.

(** ** Inner packets that wait for the tunnel *)

Record PendingInner : Type := mkPending { pi_epoch : Z; pi_packets : list bytes }.

Inductive InnerSendOutcome : Type := Sent | Queued | InnerDropped.
#[global] Instance InnerSendOutcome_eq_dec : EqDecision InnerSendOutcome.
Proof. solve_decision. Defined.

Definition pending_new (epoch : Z) : PendingInner := mkPending epoch [].

Definition pending_advance (epoch : Z) (p : PendingInner) : PendingInner := mkPending epoch [].

Definition pending_push (epoch : Z) (packet : bytes) (p : PendingInner) : bool * PendingInner :=
  if decide (epoch ≠ pi_epoch p ∨ 1024 ≤ length (pi_packets p))%nat then (false, p)
  else (true, mkPending (pi_epoch p) (pi_packets p ++ [packet])).

Definition pending_pop_front (epoch : Z) (p : PendingInner) : option bytes * PendingInner :=
  if decide (epoch = pi_epoch p) then
    match pi_packets p with
    | [] => (None, p)
    | packet :: packets => (Some packet, mkPending (pi_epoch p) packets)
    end
  else (None, p).

Definition pending_push_front (epoch : Z) (packet : bytes) (p : PendingInner) : PendingInner :=
  if decide (epoch = pi_epoch p) then mkPending (pi_epoch p) (packet :: pi_packets p) else p.

(** ** The state *)

(** The counters of [FlowStatsSlot] that the loop itself moves. *)
Inductive LoopStat : Type :=
| io_missing_owner_drop | io_channel_full_drop | io_channel_disconnected_drop | reverse_nat_publish_drop
| dcid_publish_drop | pending_inner_drop | quic_send_drop | reconnect_failure.
#[global] Instance LoopStat_eq_dec : EqDecision LoopStat.
Proof. solve_decision. Defined.

(** The queue behind an [IoTxChannel]. *)
Record IoTxChannel : Type := mkIoTx { tx_capacity : nat; tx_queue : list IoTransmit; tx_connected : bool }.

(** The parts of [FlowLoopContext] that never change. *)
Record LoopConfig : Type := mkLoopConfig {
  lc_role : QuicRole;
  lc_worker_id : nat;
  lc_flow_worker_count : Z;
  lc_tunnel_queue_count : Z;
  lc_tunnel_ifindex : Z;
  lc_default_intercept : IoOwnerKey;
  lc_local_port : Z;
  lc_dns_local_response : option DnsLocalResponseClassifier;
}.

Section flow_loop.
Context {E : Type} `{!EngineOps E}.

(** The rest of [FlowLoopContext], with the shared tables and the caller's
    [pending_inner]. *)
Record Loop : Type := mkLoop {
  l_state : FlowWorkerState;
  l_engine : E;
  l_quic_flow : QuicFlow;
  l_dns_config : option DnsFlowConfig;
  l_io : IoRegistry IoTxChannel;
  l_dcids : ActiveDcidIndex;
  l_directory : ReverseNatDirectory;
  l_stats : LoopStat → Z;
  l_pending : PendingInner;
}.

Definition with_state (w : FlowWorkerState) (l : Loop) : Loop :=
  mkLoop w (l_engine l) (l_quic_flow l) (l_dns_config l) (l_io l) (l_dcids l) (l_directory l) (l_stats l) (l_pending l).
Definition with_engine (en : E) (l : Loop) : Loop :=
  mkLoop (l_state l) en (l_quic_flow l) (l_dns_config l) (l_io l) (l_dcids l) (l_directory l) (l_stats l) (l_pending l).
Definition with_quic_flow (f : QuicFlow) (l : Loop) : Loop :=
  mkLoop (l_state l) (l_engine l) f (l_dns_config l) (l_io l) (l_dcids l) (l_directory l) (l_stats l) (l_pending l).
Definition with_dns_config (c : option DnsFlowConfig) (l : Loop) : Loop :=
  mkLoop (l_state l) (l_engine l) (l_quic_flow l) c (l_io l) (l_dcids l) (l_directory l) (l_stats l) (l_pending l).
Definition with_io (io : IoRegistry IoTxChannel) (l : Loop) : Loop :=
  mkLoop (l_state l) (l_engine l) (l_quic_flow l) (l_dns_config l) io (l_dcids l) (l_directory l) (l_stats l) (l_pending l).
Definition with_dcids (i : ActiveDcidIndex) (l : Loop) : Loop :=
  mkLoop (l_state l) (l_engine l) (l_quic_flow l) (l_dns_config l) (l_io l) i (l_directory l) (l_stats l) (l_pending l).
Definition with_directory (d : ReverseNatDirectory) (l : Loop) : Loop :=
  mkLoop (l_state l) (l_engine l) (l_quic_flow l) (l_dns_config l) (l_io l) (l_dcids l) d (l_stats l) (l_pending l).
Definition with_stats (s : LoopStat → Z) (l : Loop) : Loop :=
  mkLoop (l_state l) (l_engine l) (l_quic_flow l) (l_dns_config l) (l_io l) (l_dcids l) (l_directory l) s (l_pending l).
Definition with_pending (p : PendingInner) (l : Loop) : Loop :=
  mkLoop (l_state l) (l_engine l) (l_quic_flow l) (l_dns_config l) (l_io l) (l_dcids l) (l_directory l) (l_stats l) p.

Abbreviation LoopM := (ST Loop unit).

(** A call on [context.state]: its [Result] becomes a value, a panic stops the
    thread. *)
Definition on_state {F A : Type} (c : ST FlowWorkerState F A) : LoopM (F + A) := λ l,
  match c (l_state l) with
  | (Ok a, w) => (Ok (inr a), with_state w l)
  | (Err e, w) => (Ok (inl e), with_state w l)
  | (Panic, w) => (Panic, with_state w l)
  end.

Definition modify (f : Loop → Loop) : LoopM unit := λ l, (Ok tt, f l).
Definition record_stat (s : LoopStat) : LoopM unit :=
  modify (λ l, with_stats (λ x, if decide (x = s) then l_stats l x + 1 else l_stats l x) l).

(** ** Transmission *)

Definition send_io (transmit : IoTransmit) : LoopM unit := λ l,
  match registry_get (l_io l) (io_target transmit) with
  | None => record_stat io_missing_owner_drop l
  | Some channel =>
      if tx_connected channel then
        if decide (length (tx_queue channel) < tx_capacity channel)%nat
        then (Ok tt, with_io (mkIoRegistry (<[io_target transmit := mkIoTx (tx_capacity channel) (tx_queue channel ++ [transmit]) true]>
                                (owners (l_io l)))) l)
        else record_stat io_channel_full_drop l
      else record_stat io_channel_disconnected_drop l
  end.

Fixpoint send_all (transmits : list IoTransmit) : LoopM unit :=
  match transmits with
  | [] => sret tt
  | transmit :: transmits => send_io transmit ;;; send_all transmits
  end.

Definition send_or_queue_inner (now : Z) (packet : bytes) (epoch : Z) : LoopM InnerSendOutcome := λ l,
  match engine_send_inner now packet (l_engine l) with
  | (Ok tt, en) => (Ok Sent, with_engine en l)
  | (Err NotAuthenticated, en) | (Err NotConnected, en) =>
      let l := with_engine en l in
      match pending_push epoch packet (l_pending l) with
      | (true, p) => (Ok Queued, with_pending p l)
      | (false, p) => (record_stat pending_inner_drop ;;; sret InnerDropped) (with_pending p l)
      end
  | (Err _, en) => (record_stat quic_send_drop ;;; sret InnerDropped) (with_engine en l)
  | (Panic, en) => (Panic, with_engine en l)
  end.

(** ** The shared directory of translated flows *)

Context (config : LoopConfig).

Definition locator_of (session_id : SessionId) : SessionLocator := mkSessionLocator (lc_worker_id config) session_id.

Definition publish_reverse (binding : NatBinding) (session_id : SessionId) : LoopM bool := λ l,
  match directory_publish binding (locator_of session_id) (l_directory l) with
  | (Ok _, d) => (Ok true, with_directory d l)
  | (Err _, d) => (Ok false, with_directory d l)
  | (Panic, d) => (Panic, with_directory d l)
  end.

Definition retire_dns_reverse (binding : NatBinding) (transaction_id : SessionId) : LoopM unit :=
  modify (λ l, with_directory (directory_retire binding (locator_of transaction_id) (l_directory l)).2 l).

Definition publish_dns_reverse (binding : NatBinding) (transaction_id : SessionId) : LoopM bool :=
  let! published := publish_reverse binding transaction_id in
  if (published : bool) then sret true else record_stat reverse_nat_publish_drop ;;; sret false.

Definition publish_session (now : Z) (session_id : SessionId) : LoopM bool :=
  let! l := sget in
  match worker_session (l_state l) session_id with
  | None => sret false
  | Some session =>
      let! published := publish_reverse (s_nat session) session_id in
      if (published : bool) then sret true
      else
        record_stat reverse_nat_publish_drop ;;;
        on_state (remove_session session_id now) ;;;
        sret false
  end.

Definition retire_session (now : Z) (session_id : SessionId) : LoopM unit :=
  let! removed := on_state (remove_session session_id now) in
  match removed with
  | inl _ => sret tt
  | inr session => retire_dns_reverse (s_nat session) session_id
  end.

(** The loop over expired sessions, under one write lock. *)
Fixpoint retire_sessions (expired : list Session) : LoopM unit :=
  match expired with
  | [] => sret tt
  | session :: expired => retire_dns_reverse (s_nat session) (s_id session) ;;; retire_sessions expired
  end.

Definition loop_expire_idle_sessions (now : Z) (clock : SessionId → Z) : LoopM unit :=
  let! expired := on_state (expire_idle_sessions now clock) in
  match expired with
  | inl _ => sret tt
  | inr expired => retire_sessions expired
  end.

Fixpoint retire_transactions (expired : list ExpiredDnsTransaction) : LoopM unit :=
  match expired with
  | [] => sret tt
  | e :: expired =>
      retire_dns_reverse (ex_binding e) (ex_transaction_id e) ;;;
      send_io (ex_transmit e) ;;;
      retire_transactions expired
  end.

Definition loop_expire_dns_transactions (now : Z) (clock : DnsFlowTransactionKey → Z) : LoopM unit :=
  let! l := sget in
  match l_dns_config l with
  | None => sret tt
  | Some dns_config =>
      let! expired := on_state (expire_dns_transactions now dns_config clock) in
      match expired with
      | inl _ => sret tt
      | inr expired => retire_transactions expired
      end
  end.

(** ** Messages *)

Definition is_dns_local_resolver_candidate (packet : bytes) (classifier : DnsLocalResponseClassifier) : bool :=
  match parse_flow_key packet with
  | Ok flow => bool_decide (fk_protocol flow = Udp ∧ fk_source flow = sa_ip (dl_resolver classifier)
                 ∧ fk_source_port flow = sa_port (dl_resolver classifier) ∧ fk_destination flow = dl_nat_ip classifier
                 ∧ fst (dl_nat_ports classifier) ≤ fk_destination_port flow ≤ snd (dl_nat_ports classifier))
  | _ => false
  end.

Definition with_remote_domains (rules : RemoteDomainRules) (c : DnsFlowConfig) : DnsFlowConfig :=
  mkDnsFlowConfig (cfg_listen c) (cfg_local_resolver c) (cfg_remote_resolver c) rules (cfg_transaction_capacity c) (cfg_timeout c)
    (cfg_remote_available c).
Definition with_remote_available (b : bool) (c : DnsFlowConfig) : DnsFlowConfig :=
  mkDnsFlowConfig (cfg_listen c) (cfg_local_resolver c) (cfg_remote_resolver c) (cfg_remote_domains c) (cfg_transaction_capacity c)
    (cfg_timeout c) b.

(** The transmits of a restored packet. *)
Definition send_restored (target : IoOwnerKey) (packet : bytes) : LoopM unit := send_io (mkIoTransmit target packet None).

(** [handle_dns_response] with what the loop does on success; [Ok(None)] and errors
    are left to the caller. *)
Definition answer_dns (clock : Z) (packet : bytes) : LoopM (FlowWorkerError + bool) :=
  let! handled := on_state (handle_dns_response packet clock) in
  match handled with
  | inr (Some restored) =>
      retire_dns_reverse (hd_binding restored) (hd_transaction_id restored) ;;;
      send_restored (hd_local_target restored) (hd_packet restored) ;;;
      sret (inr true)
  | inr None => sret (inr false)
  | inl e => sret (inl e)
  end.

(** A packet from the local resolver: [true] when it is consumed. *)
Definition local_resolver_packet (times : nat → Z) (packet : bytes) (expected_locator : option SessionLocator) : LoopM bool :=
  let! l := sget in
  let candidate := match lc_dns_local_response config with
                   | Some classifier => is_dns_local_resolver_candidate packet classifier
                   | None => false
                   end in
  if negb candidate then sret false else
  match expected_locator with
  | None => sret false
  | Some locator =>
      let dns_reverse := match parse_flow_key packet with
                         | Ok flow => dns_reverse_matches (l_state l) flow locator
                         | _ => false
                         end in
      if dns_reverse then answer_dns (times 0%nat) packet ;;; sret true
      else
        let! handled := on_state (handle_reverse_for packet locator (times 0%nat)) in
        match handled with
        | inr (Some restored) => send_restored (hr_local_target restored) (hr_packet restored) ;;; sret true
        | _ => sret true
        end
  end.

(** The abort after a refused publication. *)
Definition abort_unpublished (clock : Z) (binding : NatBinding) (dns_config : DnsFlowConfig) : LoopM unit :=
  let! aborted := on_state (abort_dns_transaction binding dns_config clock) in
  match aborted with
  | inr (Some aborted) => send_io (ex_transmit aborted)
  | _ => sret tt
  end.

(** A DNS query of a client: [true] when the packet is consumed. *)
Definition intercepted_query (times : nat → Z) (io_owner : IoOwnerKey) (packet : bytes) (dns_config : DnsFlowConfig) (epoch : Z) : LoopM bool :=
  let! l := sget in
  let dns_config := with_remote_available (engine_authenticated (l_engine l)) dns_config in
  let! handled := on_state (handle_dns_query_at io_owner packet dns_config (times 1%nat) (times 2%nat)) in
  match handled with
  | inr (DnsLocal transmit binding transaction_id) =>
      let! published := publish_dns_reverse binding transaction_id in
      (if (published : bool) then send_io transmit else abort_unpublished (times 3%nat) binding dns_config) ;;;
      sret true
  | inr (Servfail transmit) => send_io transmit ;;; sret true
  | inr (DnsRemote packet binding transaction_id) =>
      let! published := publish_dns_reverse binding transaction_id in
      (if (published : bool) then send_or_queue_inner (times 3%nat) packet epoch ;;; sret tt
       else abort_unpublished (times 3%nat) binding dns_config) ;;;
      sret true
  | inl (DnsErr NotDnsQuery) => sret false
  | inl _ => sret true
  end.

(** An intercepted packet of a client that is not DNS. *)
Definition client_packet (times : nat → Z) (io_owner : IoOwnerKey) (packet : bytes) (epoch : Z) : LoopM unit :=
  let! l := sget in
  if negb (engine_authenticated (l_engine l)) then record_stat pending_inner_drop else
  let tunnel_target := mkIoOwnerKey (lc_tunnel_ifindex config) (qf_tunnel_queue_id (l_quic_flow l)) in
  let! handled := on_state (handle_intercept io_owner packet (l_quic_flow l) tunnel_target (times 4%nat) (times 5%nat)) in
  match handled with
  | inl _ => sret tt
  | inr handled =>
      let! published := publish_session (times 6%nat) (hi_session_id handled) in
      if negb published then sret tt else
      let! sent := send_or_queue_inner (times 7%nat) (io_packet (hi_transmit handled)) epoch in
      if decide (sent = InnerDropped) then retire_session (times 8%nat) (hi_session_id handled) else sret tt
  end.

Definition client_intercept (times : nat → Z) (io_owner : IoOwnerKey) (packet : bytes) (expected_locator : option SessionLocator)
    (epoch : Z) : LoopM unit :=
  let! l := sget in
  match l_dns_config l with
  | None => client_packet times io_owner packet epoch
  | Some dns_config =>
      let! consumed := local_resolver_packet times packet expected_locator in
      if (consumed : bool) then sret tt else
      let! consumed := intercepted_query times io_owner packet dns_config epoch in
      if (consumed : bool) then sret tt else client_packet times io_owner packet epoch
  end.

Definition server_intercept (times : nat → Z) (io_owner : IoOwnerKey) (packet : bytes) (expected_locator : option SessionLocator)
    (epoch : Z) : LoopM unit :=
  match expected_locator with
  | None => sret tt
  | Some locator =>
      if decide (flow_worker_id locator ≠ lc_worker_id config) then sret tt else
      let! handled := on_state (handle_server_reverse io_owner packet locator (times 0%nat)) in
      match handled with
      | inr (Some restored) => send_or_queue_inner (times 1%nat) (hr_packet restored) epoch ;;; sret tt
      | _ => sret tt
      end
  end.

Definition handle_flow_message (times : nat → Z) (message : FlowMessage) (epoch : Z) : LoopM unit :=
  match message with
  | ReloadPolicies remote_domains =>
      modify (λ l, match l_dns_config l, remote_domains with
                   | Some c, Some rules => with_dns_config (Some (with_remote_domains rules c)) l
                   | _, _ => l
                   end)
  | InterceptIngress io_owner packet expected_locator =>
      match lc_role config with
      | Client => client_intercept times io_owner packet expected_locator epoch
      | Server => server_intercept times io_owner packet expected_locator epoch
      end
  | TunnelIngress _ _ remote local_ip packet => λ l,
      match engine_handle_outer (times 0%nat) remote (Some local_ip) packet (l_engine l) with
      | Ok en => (Ok tt, with_engine en l)
      | _ => (Panic, l)
      end
  end.

(** ** Engine events *)

(** The transmits of one batched datagram. *)
Definition outer_transmits (flow : QuicFlow) (transmit : OuterTransmit) : list IoTransmit :=
  (λ packet, mkIoTransmit (mkIoOwnerKey (lc_tunnel_ifindex config) (qf_tunnel_queue_id flow)) packet
               (Some (mkOuterRoute (ot_source_ip transmit) (lc_local_port config) (ot_destination transmit))))
  <$> split_outer_transmit (ot_contents transmit) (ot_segment_size transmit).

(** The loop that sends the pending packets after authentication; each iteration takes
    one packet out, so [fuel] is their number; [now] gives each its instant. *)
Fixpoint flush_pending (fuel : nat) (now : nat → Z) (epoch : Z) : LoopM unit := λ l,
  match fuel, pending_pop_front epoch (l_pending l) with
  | S fuel, (Some packet, p) =>
      match engine_send_inner (now fuel) packet (l_engine l) with
      | (Ok tt, en) => flush_pending fuel now epoch (with_pending p (with_engine en l))
      | (Err _, en) => (Ok tt, with_pending (pending_push_front epoch packet p) (with_engine en l))
      | (Panic, en) => (Panic, with_engine en l)
      end
  | _, _ => (Ok tt, l)
  end.

Definition server_inner_packet (times : nat → Z) (packet : bytes) : LoopM unit :=
  let! l := sget in
  let! handled := on_state (handle_server_inner (lc_default_intercept config) packet (l_quic_flow l) (times 1%nat) (times 2%nat)) in
  match handled with
  | inl _ => sret tt
  | inr handled =>
      let! published := publish_session (times 3%nat) (hi_session_id handled) in
      if (published : bool) then send_io (hi_transmit handled) else sret tt
  end.

Definition client_inner_packet (times : nat → Z) (packet : bytes) : LoopM unit :=
  let! l := sget in
  let dns_flow := match parse_flow_key packet with Ok flow => has_dns_reverse (l_state l) flow | _ => false end in
  let! consumed :=
    (if dns_flow then
       let! answered := answer_dns (times 1%nat) packet in
       match answered with
       | inr true => sret true
       | inr false => sret false
       | inl _ => sret true
       end
     else sret false) in
  if (consumed : bool) then sret tt else
  let! handled := on_state (handle_reverse packet (times 2%nat)) in
  match handled with
  | inr (Some restored) => send_restored (hr_local_target restored) (hr_packet restored)
  | _ => sret tt
  end.

(** [context.engine.close(Instant::now())] after a refused identifier. *)
Definition refuse_dcid (now : Z) : LoopM unit :=
  record_stat dcid_publish_drop ;;; modify (λ l, with_engine (engine_close now (l_engine l)) l).

Definition closed_event (times : nat → Z) (clock : DnsFlowTransactionKey → Z) (epoch : Z) (exiting : bool) : LoopM unit :=
  modify (λ l, with_pending (pending_advance epoch (l_pending l)) l) ;;;
  let! l := sget in
  let closed_flow_id := qf_id (l_quic_flow l) in
  (match l_dns_config l with
   | Some dns_config => on_state (abort_remote_dns_transactions dns_config clock) ;;; sret tt
   | None => sret tt
   end) ;;;
  modify (λ l, with_dcids (close_flow closed_flow_id (l_dcids l)).2 l) ;;;
  if exiting then sret tt else
  let next := wrap 64 (quic_flow_raw closed_flow_id + lc_flow_worker_count config) in
  match quic_flow_new (mkQuicFlowId next) (lc_worker_id config) (be_bytes 8 next) (lc_tunnel_queue_count config) with
  | Ok quic_flow =>
      modify (with_quic_flow quic_flow) ;;;
      on_state (worker_rebind_quic_flow closed_flow_id (mkQuicFlowId next)) ;;;
      if decide (lc_role config = Client) then λ l,
        let '(reconnected, en) := engine_reconnect_client (l_engine l) in
        (if (reconnected : bool) then sret tt else record_stat reconnect_failure) (with_engine en l)
      else sret tt
  | _ => sret tt
  end.

Definition handle_event (times : nat → Z) (clock : DnsFlowTransactionKey → Z) (event : QuicEngineEvent) (epoch : Z) (exiting : bool)
    : LoopM unit :=
  match event with
  | EvTransmit transmit => λ l, send_all (outer_transmits (l_quic_flow l) transmit) l
  | EvAuthenticated => λ l, flush_pending (length (pi_packets (l_pending l))) (λ k, times (S k)) epoch l
  | InnerPacket packet =>
      match lc_role config with
      | Server => server_inner_packet times packet
      | Client => client_inner_packet times packet
      end
  | DcidPublished dcid => λ l,
      let '(r, i) := publish_for_flow dcid (l_quic_flow l) (l_dcids l) in
      (if is_ok r then sret tt else refuse_dcid (times 1%nat)) (with_dcids i l)
  | DcidStaged dcid => λ l,
      let '(r, i) := stage_for_flow dcid (l_quic_flow l) (l_dcids l) in
      (if is_ok r then sret tt else refuse_dcid (times 1%nat)) (with_dcids i l)
  | DcidRetired dcid => modify (λ l, with_dcids (retire_for_flow dcid (l_quic_flow l) (l_dcids l)).2 l)
  | Replaced dcids => λ l,
      let '(r, i) := publish_batch_for_flow dcids (l_quic_flow l) (l_dcids l) in
      let l := with_engine (engine_resolve_replacement (times 1%nat) (is_ok r) (l_engine l)) (with_dcids i l) in
      if is_ok r then (Ok tt, with_pending (pending_advance epoch (l_pending l)) l) else record_stat dcid_publish_drop l
  | EvClosed => closed_event times clock epoch exiting
  end.

(** [while let Some(event) = context.engine.poll(Instant::now())], for at most
    [fuel] events; [times] gives each iteration its instants. *)
Fixpoint drain_engine (fuel : nat) (times : nat → nat → Z) (clock : nat → DnsFlowTransactionKey → Z) (epoch : Z) (exiting : bool)
    : LoopM unit := λ l,
  match fuel with
  | O => (Err tt, l)
  | S fuel =>
      match engine_poll (times fuel 0%nat) (l_engine l) with
      | Ok (None, en) => (Ok tt, with_engine en l)
      | Ok (Some event, en) =>
          (handle_event (times fuel) (clock fuel) event epoch exiting ;;; drain_engine fuel times clock epoch exiting) (with_engine en l)
      | _ => (Panic, l)
      end
  end.

(** One iteration of [flow_loop] after [recv_timeout]: [requested] is the epoch that was
    asked for, [received] the message, [None] after the timeout.  The result is the epoch
    of the next iteration. *)
Record Instants : Type := mkInstants {
  at_close : Z;
  at_message : nat → Z;
  at_event : nat → nat → Z;
  at_abort : nat → DnsFlowTransactionKey → Z;
  at_dns : Z;
  at_dns_release : DnsFlowTransactionKey → Z;
  at_idle : Z;
  at_idle_release : SessionId → Z;
}.

Definition flow_iteration (fuel : nat) (at_ : Instants) (requested : Z) (received : option FlowMessage) (exiting : bool) (epoch : Z)
    : LoopM Z :=
  (if decide (requested ≠ epoch) then
     modify (λ l, with_engine (engine_close (at_close at_) (l_engine l)) (with_pending (pending_advance requested (l_pending l)) l))
   else sret tt) ;;;
  let epoch := requested in
  (match received with
   | Some message => handle_flow_message (at_message at_) message epoch
   | None => sret tt
   end) ;;;
  drain_engine fuel (at_event at_) (at_abort at_) epoch exiting ;;;
  loop_expire_dns_transactions (at_dns at_) (at_dns_release at_) ;;;
  loop_expire_idle_sessions (at_idle at_) (at_idle_release at_) ;;;
  sret epoch.

(** The end of [flow_loop]. *)
Definition flow_shutdown (fuel : nat) (at_ : Instants) (epoch : Z) : LoopM unit :=
  modify (λ l, with_engine (engine_close (at_close at_) (l_engine l)) l) ;;;
  drain_engine fuel (at_event at_) (at_abort at_) epoch true.

(** ** The retirement of a whole QUIC flow *)

Definition retire_quic_flow_state (clock : SessionId → Z) (dns_clock : DnsFlowTransactionKey → Z) : LoopM unit :=
  let! l := sget in
  let! removed := on_state (worker_remove_by_quic_flow (qf_id (l_quic_flow l)) clock) in
  let removed := match removed with inr sessions => sessions | inl _ => [] end in
  let! removed_dns :=
    (match l_dns_config l with
     | Some dns_config =>
         let! aborted := on_state (abort_remote_dns_transactions dns_config dns_clock) in
         sret (match aborted with inr aborted => aborted | inl _ => [] end)
     | None => sret []
     end) in
  retire_sessions removed ;;;
  (fix retire_dns (aborted : list ExpiredDnsTransaction) : LoopM unit :=
     match aborted with
     | [] => sret tt
     | a :: aborted => retire_dns_reverse (ex_binding a) (ex_transaction_id a) ;;; retire_dns aborted
     end) removed_dns ;;;
  send_all (ex_transmit <$> removed_dns).
End flow_loop.
