(* ===== verification/FlowLoopFacts.v ===== *)
(** What the handlers of a worker do to its sessions, for the flow loop: a session that
    exists keeps its NAT binding through every handler that does not remove it, and a new
    one comes only from a forward handler that returned. *)
From S2P Require Import Prelude Net Packet PacketFacts PacketProps PacketTheorems NatTable NatProps Session SessionProps SessionTheorems QuicFlow Dns DnsProps Worker WorkerProps WorkerDns WorkerTheorems WorkerRun WorkerClaims.

(** ** Sessions and their bindings *)

Definition session_bindings (t : SessionTable) : gmap SessionId NatBinding := s_nat <$> sessions t.
Definition bindings (w : FlowWorkerState) : gmap SessionId NatBinding := session_bindings (w_sessions w).

(** The two states have the same sessions with the same translated flows. *)
Definition keeps_sessions (w w' : FlowWorkerState) : Prop := bindings w' = bindings w.

#[global] Instance keeps_sessions_preorder : PreOrder keeps_sessions.
Proof. split; [done|]. intros w1 w2 w3 H12 H23. unfold keeps_sessions in *. congruence. Qed.

Lemma bindings_lookup w id : bindings w !! id = s_nat <$> sessions (w_sessions w) !! id.
Proof. apply lookup_fmap. Qed.

Lemma same_bindings t t' : sessions t' = sessions t → session_bindings t' = session_bindings t.
Proof. unfold session_bindings. by intros ->. Qed.

Lemma update_bindings t t' id s s' : sessions t !! id = Some s → s_nat s' = s_nat s →
  sessions t' = <[id := s']> (sessions t) → session_bindings t' = session_bindings t.
Proof.
  intros Hs Hn He. unfold session_bindings. rewrite He, fmap_insert, Hn. apply insert_id. by rewrite lookup_fmap, Hs.
Qed.

Lemma touch_kept caller id flags rev now t : session_bindings (session_touch_tcp caller id flags rev now t).2 = session_bindings t.
Proof.
  unfold session_touch_tcp, sbind, sreads, sget, sput, sret. destruct (ensure_owner caller t) as [[]| |]; [|reflexivity..].
  destruct (sessions t !! id) as [s|] eqn:Hs; simpl; [|reflexivity].
  apply (update_bindings _ _ id s (touched s flags rev now)); [done|by apply touched_fields|done].
Qed.

Lemma correct_kept caller id observed t : session_bindings (correct_intercept_io caller id observed t).2 = session_bindings t.
Proof.
  unfold correct_intercept_io, sbind, sreads, sget, sput, sret. destruct (ensure_owner caller t) as [[]| |]; [|reflexivity..].
  destruct (sessions t !! id) as [s|] eqn:Hs; simpl; [|reflexivity].
  repeat case_decide; simpl; [reflexivity| |reflexivity]. eapply update_bindings; [exact Hs| |reflexivity]. done.
Qed.

Lemma on_nat_kept {A} (c : ST NatTable NatError A) t : sessions (on_nat c t).2 = sessions t.
Proof. unfold on_nat, smap_err, szoom. destruct (c (nat_table t)) as [[]]; done. Qed.

(** ** Handlers as computations that keep the sessions *)

Definition frames {E A} (c : ST FlowWorkerState E A) : Prop := ∀ w, keeps_sessions w (c w).2.

Lemma frames_bind {E A B} (c : ST FlowWorkerState E A) (k : A → ST FlowWorkerState E B) :
  frames c → (∀ a, frames (k a)) → frames (sbind c k).
Proof.
  intros Hc Hk w. unfold sbind. specialize (Hc w). destruct (c w) as [[a| |] w1]; [|done|done]. simpl in Hc. etransitivity; [exact Hc|apply Hk].
Qed.

Lemma frames_same {E A} (c : ST FlowWorkerState E A) : (∀ w, sessions (w_sessions (c w).2) = sessions (w_sessions w)) → frames c.
Proof. intros H w. by apply same_bindings. Qed.

Lemma frames_pure {E A} (c : ST FlowWorkerState E A) : (∀ w, (c w).2 = w) → frames c.
Proof. intros H w. unfold keeps_sessions. by rewrite H. Qed.

Lemma frames_session {A} (c : nat → ST SessionTable SessionError A) : (∀ n t, session_bindings (c n t).2 = session_bindings t) →
  frames (λ w, on_sessions (c (worker_id w)) w).
Proof.
  intros H w. unfold on_sessions, szoom. specialize (H (worker_id w) (w_sessions w)). by destruct (c (worker_id w) (w_sessions w)).
Qed.

Lemma remove_dns_same key clock w : sessions (w_sessions (remove_dns_transaction key clock w).2) = sessions (w_sessions w).
Proof.
  unfold remove_dns_transaction. destruct (dns_by_key w !! key) as [tx|]; [|done].
  unfold sbind, sput, on_sessions, szoom, record_active, sret, release_ephemeral_nat. simpl. unfold sbind, sreads.
  destruct (ensure_owner (worker_id w) (w_sessions w)) as [[]| |]; [|done|done].
  pose proof (on_nat_kept (nat_remove_at (ft_token tx) clock) (w_sessions w)) as Hn.
  destruct (on_nat (nat_remove_at (ft_token tx) clock) (w_sessions w)) as [[] t']; simpl in *; done.
Qed.

Lemma remember_same {E} flow w : sessions (w_sessions (remember_completed_dns_reverse (E := E) flow w).2) = sessions (w_sessions w).
Proof. unfold remember_completed_dns_reverse. cbv zeta. by destruct (evict_completed _ _ _) as [[]| |]. Qed.

Lemma frames_map_err {E E' A} (f : E → E') (c : ST FlowWorkerState E A) : frames c → frames (smap_err f c).
Proof. intros Hc w. specialize (Hc w). unfold smap_err. by destruct (c w) as [[]]. Qed.

Lemma frames_on_sessions {A} (c : ST SessionTable SessionError A) : (∀ t, session_bindings (c t).2 = session_bindings t) → frames (on_sessions c).
Proof. intros H w. unfold on_sessions, szoom. specialize (H (w_sessions w)). by destruct (c (w_sessions w)). Qed.

Lemma correct_server_kept id observed w : keeps_sessions w (correct_server_return_io id observed w).2.
Proof.
  unfold correct_server_return_io, on_sessions, szoom. pose proof (correct_kept (worker_id w) id observed (w_sessions w)) as H.
  destruct (correct_intercept_io (worker_id w) id observed (w_sessions w)) as [[[]| |] t']; exact H.
Qed.

Lemma frames_correct id observed :
  frames (λ w, let '(ok, w') := correct_server_return_io id observed w in (Ok (E := FlowWorkerError) ok, w')).
Proof. intros w. pose proof (correct_server_kept id observed w) as H. by destruct (correct_server_return_io id observed w). Qed.

(** Walks a handler: its binds, its packet operations, its counters. *)
Ltac frames_step :=
  first
  [ progress cbv zeta
  | apply frames_bind; [|intros ?]
  | apply frames_pure; reflexivity
  | apply frames_same; reflexivity
  | apply frames_map_err
  | apply frames_same; intros ?; apply remove_dns_same
  | apply frames_same; intros ?; apply remember_same
  | apply frames_on_sessions; intros ?; apply touch_kept
  | apply frames_correct
  | case_match ].

Lemma handle_dns_response_kept packet clock : frames (handle_dns_response packet clock).
Proof. unfold handle_dns_response, packet_try, session_try. repeat frames_step. Qed.

Lemma handle_reverse_inner_kept packet expected observed now : frames (handle_reverse_for_inner packet expected observed now).
Proof. unfold handle_reverse_for_inner, packet_try, session_try. repeat frames_step. Qed.

Lemma handle_reverse_kept packet now : frames (handle_reverse packet now).
Proof.
  unfold handle_reverse, packet_try, handle_reverse_for. repeat first [apply handle_reverse_inner_kept | frames_step].
Qed.

Lemma rebind_kept old new : frames (worker_rebind_quic_flow old new).
Proof.
  intros w. unfold worker_rebind_quic_flow, on_sessions, szoom, rebind_quic_flow, sbind, sreads, sget, sput, sret.
  destruct (ensure_owner (worker_id w) (w_sessions w)) as [[]| |]; [|by apply same_bindings..].
  unfold keeps_sessions, bindings, session_bindings. simpl. rewrite <- map_fmap_compose. apply map_fmap_ext. intros id s _.
  by apply rebound_fields.
Qed.

(** ** Handlers that need the invariant *)

Section invariant.
Context (ports : gset Z) (listen : SocketAddr) (w : FlowWorkerState) (Hw : worker_ok ports listen w).

(** The session of a client packet: one that exists, or a fresh one. *)
Definition opens (w w' : FlowWorkerState) (id : SessionId) : Prop :=
  ∃ s, sessions (w_sessions w') !! id = Some s ∧ bindings w' = <[id := s_nat s]> (bindings w)
    ∧ (bindings w !! id = None ∨ bindings w !! id = Some (s_nat s)).

Definition opened_by {E A} (id : A → SessionId) (run : outcome E A * FlowWorkerState) : Prop :=
  match run.1 with Ok a => opens w run.2 (id a) | _ => keeps_sessions w run.2 end.

Lemma session_for_opens flow io qf flags now clock : next_session_id (w_sessions w) < 2 ^ 63 →
  opened_by (λ id, id) (session_for flow io qf flags now clock w).
Proof using Hw.
  intros Hlt. pose proof (wi_owns _ _ _ (ok_inv _ _ _ Hw)) as [Ho Hinv _]. unfold session_for, on_sessions, szoom. rewrite <- Ho.
  destruct (by_key (w_sessions w) !! mkSessionKey flow (ifindex io)) as [i|] eqn:Hk.
  - pose proof Hk as (s & Hs & Hks)%(si_key _ _ _ Hinv).
    destruct (touch_tcp_run ports _ i s flags false now Hinv Hs) as (t' & Hrun & _ & _ & _ & _ & _ & Hsess).
    unfold get_or_create_with_flags_at, sbind, sreads, sret. rewrite ensure_owner_ok. cbv zeta. rewrite Hk, Hrun.
    exists (touched s flags false now). destruct (touched_fields s flags false now) as (_ & _ & Hn & _). simpl.
    rewrite Hn, Hsess, lookup_insert_eq. assert (bindings w !! i = Some (s_nat s)) as Hb by (by rewrite bindings_lookup, Hs).
    split_and!; [done| |by right]. rewrite insert_id by done. unfold bindings, session_bindings. simpl.
    by rewrite Hsess, fmap_insert, Hn, insert_id.
  - destruct (create_run ports _ flow io (qf_id qf) flags false now clock Hinv Hlt Hk) as (r & t' & -> & _ & _ & Hc).
    destruct (next_id_fresh _ _ Hinv Hlt) as [Hfresh _].
    destruct Hc as [(-> & _ & ->)|(snat & _ & [(-> & Hs & _)|(port & -> & _ & _ & Hs & _)])];
      [done|by apply same_bindings|]. eexists. simpl. rewrite Hs, lookup_insert_eq. split_and!; [done| |].
    + unfold bindings, session_bindings. simpl. by rewrite Hs, fmap_insert.
    + left. rewrite bindings_lookup. by rewrite Hfresh.
Qed.

(** The rest of a forward handler, whose rewrite cannot fail. *)
Lemma forward_opens {B} packet flow io qf flags now clock (id : B → SessionId) (k : SessionId → Session → bytes → B) :
  next_session_id (w_sessions w) < 2 ^ 63 → bytes_ok packet → parse_flow_key packet = Ok flow → flow_ok flow →
  (∀ i s q, id (k i s q) = i) →
  opened_by id ((let! session_id := session_for flow io qf flags now clock in
    let! session := sreads (λ w, expect (session_get (w_sessions w) session_id)) in
    let! rewritten := packet_try (on_packet (rewrite_packet (nb_translated (s_nat session))) packet) in
    sret (k session_id session rewritten.2)) w).
Proof using Hw.
  intros Hlt Hok Hp Hf Hid. pose proof (wi_owns _ _ _ (ok_inv _ _ _ Hw)) as Hown. unfold sbind at 1.
  pose proof (session_for_opens flow io qf flags now clock Hlt) as Ho.
  destruct (session_for flow io qf flags now clock w) as [[i| |] w1] eqn:Hsf; [|done..].
  destruct (session_for_Ok _ _ _ _ _ _ _ _ _ _ Hown Hlt Hf Hsf) as (How1 & s & Hs & Hso & _).
  unfold sbind, sreads. rewrite Hs. cbn [expect].
  destruct (session_rewrite ports _ _ _ packet (ow_inv _ _ How1) Hs) as (q' & Hrw & _); [done|congruence|].
  unfold packet_try, slift. rewrite (proj2 (on_packet_Ok _ _ _ _) Hrw). unfold opened_by. simpl. by rewrite Hid.
Qed.

Lemma handle_intercept_opens io packet qf target now clock : next_session_id (w_sessions w) < 2 ^ 63 → bytes_ok packet →
  opened_by hi_session_id (handle_intercept io packet qf target now clock w).
Proof using Hw.
  intros Hlt Hok. unfold handle_intercept. unfold sbind at 1, sget at 1. case_decide; [done|].
  unfold sbind at 1, packet_try at 1, slift at 1. destruct (prepare_client_packet packet) as [[[q flow] flags]| |] eqn:Hp; [|done..].
  apply prepare_client_packet_Ok in Hp as (Hokq & _ & Hpq & Hf & _ & _ & _); [|done].
  by apply (forward_opens q flow io qf flags now clock hi_session_id (λ i s q, mkHandledIntercept i (mkIoTransmit target q None))).
Qed.

Lemma handle_server_inner_opens io packet qf now clock : next_session_id (w_sessions w) < 2 ^ 63 → bytes_ok packet →
  opened_by hi_session_id (handle_server_inner io packet qf now clock w).
Proof using Hw.
  intros Hlt Hok. unfold handle_server_inner. unfold sbind at 1, sget at 1. case_decide; [done|].
  unfold sbind at 1, packet_try at 1, slift at 1. destruct (prepare_client_packet packet) as [[[q flow] flags]| |] eqn:Hp; [|done..].
  apply prepare_client_packet_Ok in Hp as (Hokq & _ & Hpq & Hf & _ & _ & _); [|done].
  by apply (forward_opens q flow io qf flags now clock hi_session_id
    (λ i s q, mkHandledIntercept i (mkIoTransmit (s_intercept_io s) q None))).
Qed.

Lemma dns_query_kept io packet config now clock : config_ok listen config → next_dns_token w < 2 ^ 62 → bytes_ok packet →
  keeps_sessions w (handle_dns_query_at io packet config now clock w).2.
Proof using Hw.
  intros (<- & Hls & Hlo & Hre) Hlt Hok. pose proof (ok_inv _ _ _ Hw) as Hi.
  pose proof (handle_dns_query_spec ports config io packet now clock w Hi Hlt Hok Hls Hlo Hre) as (_ & Hfr & _).
  apply same_bindings, Hfr.
Qed.

Lemma expire_dns_kept now config clock : config_ok listen config → keeps_sessions w (expire_dns_transactions now config clock w).2.
Proof using Hw.
  intros Hcfg. destruct (expire_dns_run ports w now config clock (ok_inv _ _ _ Hw) (ok_listen _ _ _ _ Hw Hcfg))
    as (keys & es & w' & -> & _ & _ & _ & _ & Hdo & _). apply same_bindings, Hdo.
Qed.

Lemma abort_remote_kept config clock : config_ok listen config → keeps_sessions w (abort_remote_dns_transactions config clock w).2.
Proof using Hw.
  intros Hcfg. destruct (abort_remote_run ports w config clock (ok_inv _ _ _ Hw) (ok_listen _ _ _ _ Hw Hcfg))
    as (keys & es & w' & -> & _ & _ & _ & _ & Hdo & _). apply same_bindings, Hdo.
Qed.

Lemma abort_dns_kept binding config clock : config_ok listen config → keeps_sessions w (abort_dns_transaction binding config clock w).2.
Proof using Hw.
  intros Hcfg. pose proof (abort_dns_run ports w binding config clock (ok_inv _ _ _ Hw) (ok_listen _ _ _ _ Hw Hcfg)) as Hab.
  destruct (dns_by_reverse w !! _) as [key|]; [|rewrite Hab; reflexivity].
  destruct Hab as (tx & e & w' & _ & _ & -> & _ & _ & _ & Hdo). apply same_bindings, Hdo.
Qed.

(** Removal of one session, and of the idle ones. *)
Lemma remove_session_run id clock :
  match sessions (w_sessions w) !! id with
  | Some s => ∃ w', remove_session id clock w = (Ok s, w') ∧ sessions (w_sessions w') = delete id (sessions (w_sessions w))
  | None => ∃ e, remove_session id clock w = (Err e, w)
  end.
Proof using Hw.
  pose proof (wi_owns _ _ _ (ok_inv _ _ _ Hw)) as [Ho Hinv _]. unfold remove_session, on_sessions, szoom. rewrite <- Ho.
  destruct (sessions (w_sessions w) !! id) as [s|] eqn:Hs.
  - rewrite (session_remove_run ∅ ports _ _ s) by done. eexists. by split.
  - unfold session_remove, sbind, sreads. rewrite ensure_owner_ok, Hs. eexists. simpl. by destruct w.
Qed.

Lemma expire_idle_sessions_run now clock : ∃ ss w', expire_idle_sessions now clock w = (Ok ss, w')
  ∧ sessions (w_sessions w') = filter (λ kv, now < s_expires_at kv.2) (sessions (w_sessions w))
  ∧ (∀ s, s ∈ ss ↔ ∃ id, sessions (w_sessions w) !! id = Some s ∧ s_expires_at s ≤ now)
  ∧ (∀ id s, sessions (w_sessions w) !! id = Some s → s_id s = id).
Proof using Hw.
  pose proof (wi_owns _ _ _ (ok_inv _ _ _ Hw)) as [Ho Hinv _]. unfold expire_idle_sessions, on_sessions, szoom. rewrite <- Ho.
  destruct (expire_idle_run ports _ now clock Hinv) as (ss & t' & -> & _ & _ & _ & Hs & Hin & _).
  do 2 eexists. split_and!; [done|done|done|]. intros id s Hx. by apply (si_session _ _ _ Hinv) in Hx as [].
Qed.
End invariant.
