(* ===== verification/FlowLoopProps.v ===== *)
(** The flow loop keeps the shared directory exact: its entries for a worker's sessions
    are the worker's sessions, through every handler, and the entries of the other workers
    are left alone. *)
From S2P Require Import Prelude Net Packet NatTable NatProps Session SessionProps SessionTheorems QuicFlow Dns DnsProps Dispatch Inner Engine Worker WorkerProps WorkerDns WorkerTheorems WorkerRun WorkerClaims Encap FlowLoop FlowLoopFacts.

(** ** The directory and one worker's bindings *)

Section registered.
Context (worker : nat).

Definition binding_key (b : NatBinding) : ReverseNatKey := from_translated_flow (nb_translated b).

(** Ephemeral identifiers are those of DNS transactions. *)
Definition registered (bs : gmap SessionId NatBinding) (d : ReverseNatDirectory) : Prop :=
  ∀ k id, ¬ ephemeral id →
    entries d !! k = Some (mkSessionLocator worker id) ↔ ∃ b, bs !! id = Some b ∧ binding_key b = k.

Definition others_kept (d d' : ReverseNatDirectory) : Prop :=
  ∀ k loc, flow_worker_id loc ≠ worker → entries d' !! k = Some loc ↔ entries d !! k = Some loc.

#[global] Instance others_kept_preorder : PreOrder others_kept.
Proof. split; [done|]. intros d1 d2 d3 H12 H23 k loc Hne. by rewrite (H23 k loc Hne), (H12 k loc Hne). Qed.

Lemma registered_entry bs d id b : registered bs d → ¬ ephemeral id → bs !! id = Some b →
  entries d !! binding_key b = Some (mkSessionLocator worker id).
Proof. intros Hr Hid Hb. apply Hr; [done|by exists b]. Qed.

(** Insertion at a free key: of a session that has no entry yet, or of a transaction. *)
Lemma insert_others d k id : entries d !! k = None →
  others_kept d (mkDirectory (<[k := mkSessionLocator worker id]> (entries d))).
Proof.
  intros Hn k' loc Hne. simpl. rewrite lookup_insert_Some. split; [intros [[_ <-]|[_ H]]; done|]. intros H. right.
  split; [congruence|done].
Qed.

Lemma insert_registered bs d id b : registered bs d → ¬ ephemeral id → entries d !! binding_key b = None → bs !! id = None →
  registered (<[id := b]> bs) (mkDirectory (<[binding_key b := mkSessionLocator worker id]> (entries d))).
Proof.
  intros Hr Hid Hk Hb k' id' Hid'. simpl. rewrite lookup_insert_Some. setoid_rewrite lookup_insert_Some. rewrite (Hr k' id' Hid'). split.
  - intros [[<- [= <-]]|[Hne (b' & Hb' & <-)]]; [exists b; by split; [left|]|]. exists b'. split; [|done]. right.
    split; [congruence|done].
  - intros (b' & [[<- <-]|[Hne Hb']] & <-); [by left|]. right. split; [|by exists b'].
    intros He. pose proof (registered_entry bs d id' b' Hr Hid' Hb'). congruence.
Qed.

Lemma insert_ephemeral bs d id k : registered bs d → ephemeral id → entries d !! k = None →
  registered bs (mkDirectory (<[k := mkSessionLocator worker id]> (entries d))).
Proof.
  intros Hr Hid Hk k' id' Hid'. simpl. rewrite lookup_insert_Some, (Hr k' id' Hid'). split.
  - intros [[<- [= <-]]|[_ H]]; done.
  - intros (b' & Hb' & <-). right. split; [|by exists b']. intros He.
    pose proof (registered_entry bs d id' b' Hr Hid' Hb'). congruence.
Qed.

(** Retirement. *)
Lemma retire_others b id d : others_kept d (directory_retire b (mkSessionLocator worker id) d).2.
Proof.
  intros k loc Hne. unfold directory_retire. case_decide as Hd; simpl; [done|]. rewrite lookup_delete_Some.
  split; [tauto|]. intros H. split; [|done]. intros <-. by simplify_eq.
Qed.

Lemma retire_registered bs d b id : registered bs d → ¬ ephemeral id → (∀ b', bs !! id = Some b' → b' = b) →
  registered (delete id bs) (directory_retire b (mkSessionLocator worker id) d).2.
Proof.
  intros Hr Hid Hb k id' Hid'. setoid_rewrite lookup_delete_Some. unfold directory_retire. fold (binding_key b).
  case_decide as Hd; simpl; rewrite ?lookup_delete_Some, (Hr k id' Hid').
  - split; [|naive_solver]. intros (b' & Hb' & Hk). exists b'. split_and!; [|done|done]. intros <-. apply Hd.
    rewrite <- (Hb b' Hb'). by apply (registered_entry bs).
  - split.
    + intros [Hne (b' & Hb' & Hk)]. exists b'. split_and!; [|done|done]. intros <-. rewrite (Hb b' Hb') in Hk. done.
    + intros (b' & [Hne Hb'] & <-). split; [|by exists b']. intros He.
      pose proof (registered_entry bs d id' b' Hr Hid' Hb'). congruence.
Qed.

Lemma retire_ephemeral bs d b id : registered bs d → ephemeral id →
  registered bs (directory_retire b (mkSessionLocator worker id) d).2.
Proof.
  intros Hr Hid k id' Hid'. rewrite <- (Hr k id' Hid'). unfold directory_retire. case_decide as Hd; simpl; [done|].
  rewrite lookup_delete_Some. split; [tauto|]. intros H. split; [|done]. intros <-. rewrite Hd in H. injection H as <-. done.
Qed.
End registered.

(** ** A logic for the handlers of the loop *)

(** The counters can still grow by [n]. *)
Definition room (n : nat) (w : FlowWorkerState) : Prop :=
  next_session_id (w_sessions w) + Z.of_nat n < 2 ^ 62 ∧ next_dns_token w + Z.of_nat n < 2 ^ 62
  ∧ next_dns_completed_sequence w + Z.of_nat n < 2 ^ 62.

Section logic.
Context {E : Type} `{!EngineOps E} (config : LoopConfig) (ports : gset Z) (listen : SocketAddr) (Hlisten : socket_ok listen).
Abbreviation Loop := (Loop (E := E)).
Abbreviation LoopM := (ST Loop unit).
Abbreviation me := (lc_worker_id config).

(** The state of the worker, but for the directory. *)
Record worker_part (n : nat) (l : Loop) : Prop := {
  wp_ok : worker_ok ports listen (l_state l);
  wp_id : worker_id (l_state l) = me;
  wp_room : room n (l_state l);
  wp_dns : ∀ c, l_dns_config l = Some c → config_ok listen c;
}.

Record loop_inv (n : nat) (l : Loop) : Prop := {
  li_worker : worker_part n l;
  li_registered : registered me (bindings (l_state l)) (l_directory l);
}.

(** The operations of the engine do not panic. *)
Definition engine_safe : Prop :=
  (∀ now remote local packet (e : E), engine_handle_outer now remote local packet e ≠ Panic ∧ engine_handle_outer now remote local packet e ≠ Err tt)
  ∧ (∀ now packet (e : E), (engine_send_inner now packet e).1 ≠ Panic)
  ∧ ∀ now (e : E), engine_poll now e ≠ Panic ∧ engine_poll now e ≠ Err tt.

(** [c] keeps the invariant and the other workers' entries, its counters grow by at most
    [k], the value it returns satisfies [Q], and it panics only if the engine does. *)
Definition triple {A} (k : nat) (c : LoopM A) (Q : A → Prop) : Prop := ∀ n l, loop_inv (k + n) l →
  loop_inv n (c l).2 ∧ others_kept me (l_directory l) (l_directory (c l).2)
  ∧ match (c l).1 with Ok a => Q a | Err _ => True | Panic => ¬ engine_safe end.

Abbreviation keeps k c := (triple k c (λ _, True)).

Lemma room_weaken k n w : room (k + n) w → room n w.
Proof. unfold room. intros (? & ? & ?). split_and!; lia. Qed.

Lemma worker_part_weaken k n l : worker_part (k + n) l → worker_part n l.
Proof. intros [? ? ?%room_weaken ?]. by split. Qed.

Lemma loop_inv_weaken k n l : loop_inv (k + n) l → loop_inv n l.
Proof. intros [?%worker_part_weaken ?]. by split. Qed.

Lemma triple_weaken {A} k k' (c : LoopM A) (Q R : A → Prop) : triple k c Q → (k ≤ k')%nat → (∀ a, Q a → R a) → triple k' c R.
Proof.
  intros Hc Hle HQ n l Hl. replace (k' + n)%nat with (k + ((k' - k) + n))%nat in Hl by lia.
  destruct (Hc _ _ Hl) as (Hi & Ho & Hq). split_and!; [by eapply loop_inv_weaken|done|]. destruct (c l).1; auto.
Qed.

Lemma triple_ret {A} k (a : A) (Q : A → Prop) : Q a → triple k (sret a) Q.
Proof. intros HQ n l Hl. split_and!; [by eapply loop_inv_weaken|reflexivity|done]. Qed.

Lemma triple_bind {A B} k k' (c : LoopM A) (f : A → LoopM B) (Q : A → Prop) (R : B → Prop) :
  triple k c Q → (∀ a, Q a → triple k' (f a) R) → triple (k + k') (sbind c f) R.
Proof.
  intros Hc Hf n l Hl. rewrite <- Nat.add_assoc in Hl. destruct (Hc _ _ Hl) as (Hi & Ho & Hq). unfold sbind.
  destruct (c l) as [[a| |] l1]; cbn [fst snd] in *.
  - destruct (Hf a Hq n l1 Hi) as (? & ? & ?). split_and!; [done|by etransitivity|done].
  - split_and!; [by eapply loop_inv_weaken|done|done].
  - split_and!; [by eapply loop_inv_weaken|done|done].
Qed.

Lemma triple_seq {A B} k k' (c : LoopM A) (f : LoopM B) (R : B → Prop) : keeps k c → triple k' f R → triple (k + k') (c ;;; f) R.
Proof. intros Hc Hf. eapply triple_bind; [exact Hc|]. by intros a _. Qed.

Lemma triple_get {A} k (f : Loop → LoopM A) (Q : A → Prop) :
  (∀ l0, (∀ c, l_dns_config l0 = Some c → config_ok listen c) → triple k (f l0) Q) → triple k (sbind sget f) Q.
Proof. intros Hf n l Hl. unfold sbind, sget. apply (Hf l); [|done]. apply (wp_dns _ _ (li_worker _ _ Hl)). Qed.

(** Computations that leave the worker, its configuration and the directory alone. *)
Definition quiet {A} (c : LoopM A) : Prop := ∀ l,
  l_state (c l).2 = l_state l ∧ l_dns_config (c l).2 = l_dns_config l ∧ l_directory (c l).2 = l_directory l
  ∧ ((c l).1 = Panic → ¬ engine_safe).

Lemma quiet_triple {A} k (c : LoopM A) : quiet c → keeps k c.
Proof.
  intros Hc n l [[? ? ?%room_weaken ?] ?]. destruct (Hc l) as (E1 & E2 & E3 & E4). split_and!; [|by rewrite E3|destruct (c l).1; auto].
  split; [split; rewrite ?E1, ?E2; done|by rewrite E1, E3].
Qed.

Lemma quiet_bind {A B} (c : LoopM A) (f : A → LoopM B) : quiet c → (∀ a, quiet (f a)) → quiet (sbind c f).
Proof.
  intros Hc Hf l. destruct (Hc l) as (E1 & E2 & E3 & E4). unfold sbind. destruct (c l) as [[a| |] l1]; simpl in *.
  - destruct (Hf a l1) as (-> & -> & -> & ?). by split_and!.
  - by split_and!.
  - split_and!; auto.
Qed.

Lemma quiet_modify f : (∀ l, l_state (f l) = l_state l ∧ l_dns_config (f l) = l_dns_config l ∧ l_directory (f l) = l_directory l) →
  quiet (modify f).
Proof. intros Hf l. destruct (Hf l) as (? & ? & ?). by split_and!. Qed.

Lemma quiet_send_io t : quiet (send_io t).
Proof. intros l. unfold send_io. by repeat case_match. Qed.

Lemma quiet_send_all ts : quiet (send_all ts).
Proof. induction ts as [|t ts IH]; [by intros l|]. apply quiet_bind; [apply quiet_send_io|done]. Qed.

Lemma quiet_send_inner now packet epoch : quiet (send_or_queue_inner now packet epoch).
Proof.
  intros l. unfold send_or_queue_inner. pose proof (λ Hs : engine_safe, proj1 (proj2 Hs) now packet (l_engine l)) as Hp.
  destruct (engine_send_inner now packet (l_engine l)) as [[[]|e|] en]; simpl in Hp; [done| |by split_and!; [..|intros _ Hs; apply Hp]].
  repeat case_match; done.
Qed.

Lemma quiet_flush fuel now epoch : quiet (flush_pending fuel now epoch).
Proof.
  induction fuel as [|fuel IH]; intros l; simpl; [by repeat case_match|]. destruct (pending_pop_front epoch (l_pending l)) as [[packet|] p]; [|done].
  pose proof (λ Hs : engine_safe, proj1 (proj2 Hs) (now fuel) packet (l_engine l)) as Hp.
  destruct (engine_send_inner (now fuel) packet (l_engine l)) as [[[]| |] en]; simpl in Hp; [|done|by split_and!; [..|intros _ Hs; apply Hp]].
  by destruct (IH (with_pending p (with_engine en l))) as (-> & -> & -> & ?).
Qed.

(** ** Calls of the worker *)

Lemma worker_part_call {F A} n l (c : ST FlowWorkerState F A) : worker_part (1 + n) l →
  safe ports listen (l_state l) (c (l_state l)) → worker_part n (with_state (c (l_state l)).2 l).
Proof.
  intros [? ? (? & ? & ?) ?] (_ & ? & [Hg1 ? ? ?]). split; simpl; [done|congruence| |done]. unfold room. split_and!; lia.
Qed.

(** What a call of the worker does, as seen by the loop. *)
Lemma on_state_cases {F A} (c : ST FlowWorkerState F A) (l : Loop) : no_panic (c (l_state l)).1 →
  ∃ r, on_state c l = (Ok r, with_state (c (l_state l)).2 l)
    ∧ (∀ a, r = inr a → (c (l_state l)).1 = Ok a) ∧ ∀ e, r = inl e → (c (l_state l)).1 = Err e.
Proof.
  unfold on_state. destruct (c (l_state l)) as [[a|e|] w]; [intros _..|done].
  - exists (inr a). split_and!; [done|by intros ? [= ->]|done].
  - exists (inl e). split_and!; [done|done|by intros ? [= ->]].
Qed.

Definition call_ok {F A} (c : ST FlowWorkerState F A) (Q : A → Prop) : Prop := ∀ w, worker_ok ports listen w → room 1 w →
  safe ports listen w (c w) ∧ keeps_sessions w (c w).2 ∧ ∀ a, (c w).1 = Ok a → Q a.

Lemma triple_call {F A} (c : ST FlowWorkerState F A) (Q : A → Prop) : call_ok c Q →
  triple 1 (on_state c) (λ r, match r with inr a => Q a | inl _ => True end).
Proof.
  intros Hc n l [Hp Hr]. destruct (Hc (l_state l) (wp_ok _ _ Hp)) as (Hs & Hk & Hq).
  { apply (room_weaken n). rewrite Nat.add_comm. apply (wp_room _ _ Hp). }
  destruct (on_state_cases c l (proj1 Hs)) as (r & Hrun & Ha & _). rewrite Hrun. cbn [fst snd]. split_and!; [|reflexivity|].
  - split; [by apply worker_part_call|]. simpl. by rewrite Hk.
  - destruct r as [e|a]; [done|]. by apply Hq, Ha.
Qed.

Lemma room_1 w : room 1 w →
  next_session_id (w_sessions w) < 2 ^ 63 ∧ next_dns_token w < 2 ^ 62 ∧ next_dns_completed_sequence w < 2 ^ 64 - 1.
Proof. unfold room. intros (? & ? & ?). split_and!; lia. Qed.

(** A call whose safety is that of a worker operation. *)
Lemma call_op {F A} (op : worker_op) (c : ST FlowWorkerState F A) : (∀ w, worker_step op w = returned (c w)) → op_ready listen op →
  (∀ w, worker_ok ports listen w → room 1 w → keeps_sessions w (c w).2) → call_ok c (λ _, True).
Proof using Hlisten.
  intros Hstep Hop Hk w Hw Hr. pose proof (room_1 w Hr) as (R1 & R2 & R3).
  destruct (worker_step_safe ports listen op w Hw Hlisten Hop R1 R2 R3) as (w' & Hw' & Hok & Hg). rewrite Hstep in Hw'.
  split_and!; [|by apply Hk|done]. unfold returned in Hw'. unfold safe.
  destruct (c w) as [[] w1]; cbn [fst snd] in *; try discriminate; injection Hw' as ->; by split_and!.
Qed.

Lemma call_dns_response packet clock : bytes_ok packet → call_ok (handle_dns_response packet clock) (λ _, True).
Proof using Hlisten. intros Hok. apply (call_op (WDnsResponse packet clock)); [done|done|]. intros w _ _. apply handle_dns_response_kept. Qed.

Lemma call_reverse_for packet expected now : bytes_ok packet → call_ok (handle_reverse_for packet expected now) (λ _, True).
Proof using Hlisten. intros Hok. apply (call_op (WReverseFor packet expected now)); [done|done|]. intros w _ _. apply handle_reverse_inner_kept. Qed.

Lemma call_server_reverse observed packet expected now : bytes_ok packet →
  call_ok (handle_server_reverse observed packet expected now) (λ _, True).
Proof using Hlisten.
  intros Hok. apply (call_op (WServerReverse observed packet expected now)); [done|done|]. intros w _ _. apply handle_reverse_inner_kept.
Qed.

Lemma call_reverse packet now : bytes_ok packet → call_ok (handle_reverse packet now) (λ _, True).
Proof using Hlisten. intros Hok. apply (call_op (WReverse packet now)); [done|done|]. intros w _ _. apply handle_reverse_kept. Qed.

Lemma call_rebind old new : call_ok (worker_rebind_quic_flow old new) (λ _, True).
Proof using Hlisten. apply (call_op (WRebind old new)); [done|done|]. intros w _ _. apply rebind_kept. Qed.

Lemma call_abort_dns binding c clock : config_ok listen c → call_ok (abort_dns_transaction binding c clock) (λ _, True).
Proof using Hlisten.
  intros Hc. apply (call_op (WAbortDns binding c clock)); [done|done|]. intros w Hw _. by apply (abort_dns_kept ports listen).
Qed.

Lemma call_abort_remote c clock : config_ok listen c → call_ok (abort_remote_dns_transactions c clock) (λ _, True).
Proof using Hlisten.
  intros Hc. apply (call_op (WAbortRemote c clock)); [done|done|]. intros w Hw _. by apply (abort_remote_kept ports listen).
Qed.

(** The calls that name transactions name them by ephemeral identifiers. *)
Lemma token_ephemeral w k tx : worker_ok ports listen w → dns_by_key w !! k = Some tx → ephemeral (ft_token tx).
Proof. intros Hw Hk. pose proof (to_token _ _ (wi_tx _ _ _ (ok_inv _ _ _ Hw) _ _ Hk)). unfold ephemeral. lia. Qed.

Definition answer_ephemeral (h : option HandledDnsResponse) : Prop :=
  match h with Some h => ephemeral (hd_transaction_id h) | None => True end.

Lemma call_answer packet clock : bytes_ok packet → call_ok (handle_dns_response packet clock) answer_ephemeral.
Proof using Hlisten.
  intros Hok w Hw Hr. destruct (call_dns_response packet clock Hok w Hw Hr) as (Hs & Hk & _). split_and!; [done..|].
  pose proof (room_1 w Hr) as (_ & _ & R3). intros [h|] Ha; [|done].
  destruct (handle_dns_response_spec ports listen packet clock w Hw R3 Hok Hlisten) as [_ Hacc]. rewrite Ha in Hacc.
  destruct Hacc as (key & tx & _ & _ & _ & Hkey & _ & _ & _ & _ & _ & _ & _ & _ & _ & Hid & _). simpl. rewrite Hid.
  by eapply token_ephemeral.
Qed.

Definition query_ephemeral (q : HandledDnsQuery) : Prop :=
  match q with DnsLocal _ _ id | DnsRemote _ _ id => ephemeral id | Servfail _ => True end.

Lemma call_query io packet c now clock : bytes_ok packet → config_ok listen c →
  call_ok (handle_dns_query_at io packet c now clock) query_ephemeral.
Proof using Hlisten.
  intros Hok Hc w Hw Hr. pose proof (room_1 w Hr) as (_ & R2 & _).
  assert (safe ports listen w (handle_dns_query_at io packet c now clock w)) as Hs by (by apply handle_dns_query_safe).
  split_and!; [done|by apply (dns_query_kept ports listen)|]. intros q Ha. pose proof Hc as (Hli & Hls & Hlo & Hre).
  destruct (handle_dns_query_spec ports c io packet now clock w (ok_inv _ _ _ Hw) R2 Hok) as (_ & _ & Hq); [by rewrite ?Hli..|].
  rewrite Ha in Hq. destruct q as [t b id|p b id|t]; [| |done].
  - destruct Hq as (_ & _ & _ & _ & _ & key & tx & _ & _ & _ & _ & _ & _ & Hk & (_ & _ & -> & _) & _). simpl.
    eapply token_ephemeral; [apply Hs|exact Hk].
  - destruct Hq as (_ & _ & _ & _ & _ & key & tx & _ & _ & _ & _ & _ & _ & Hk & (_ & _ & -> & _) & _). simpl.
    eapply token_ephemeral; [apply Hs|exact Hk].
Qed.

Definition expired_ephemeral (es : list ExpiredDnsTransaction) : Prop := Forall (λ e, ephemeral (ex_transaction_id e)) es.

Lemma servfails_ephemeral w c keys es : worker_ok ports listen w →
  Forall2 (λ k e, ∃ tx, dns_by_key w !! k = Some tx ∧ servfail_of c tx e) keys es → expired_ephemeral es.
Proof.
  intros Hw. induction 1 as [|k e keys es (tx & Hk & Hid & _) _ IH]; [constructor|]. constructor; [|done]. rewrite Hid.
  by eapply token_ephemeral.
Qed.

Lemma call_expire_dns now c clock : config_ok listen c → call_ok (expire_dns_transactions now c clock) expired_ephemeral.
Proof using Hlisten.
  intros Hc w Hw Hr. split_and!; [by apply expire_dns_safe|by apply (expire_dns_kept ports listen)|]. intros es Ha.
  destruct (expire_dns_run ports w now c clock (ok_inv _ _ _ Hw) (ok_listen _ _ _ _ Hw Hc)) as (keys & es' & w' & Hrun & _ & _ & _ & _ & _ & Hes).
  rewrite Hrun in Ha. injection Ha as <-. by eapply servfails_ephemeral.
Qed.
End logic.
