(* ===== verification/FlowLoopInv.v ===== *)
(** Every handler of the flow loop keeps the invariant of [FlowLoopProps.v]. *)
From S2P Require Import Prelude Net Packet NatTable NatProps Session SessionProps SessionTheorems QuicFlow Dns DnsProps Dispatch Inner Engine Worker WorkerProps WorkerDns WorkerTheorems WorkerRun WorkerClaims Encap FlowLoop FlowLoopFacts FlowLoopProps.

Section handlers.
Context {E : Type} `{!EngineOps E} (config : LoopConfig) (ports : gset Z) (listen : SocketAddr) (Hlisten : socket_ok listen).
Abbreviation Loop := (Loop (E := E)).
Abbreviation LoopM := (ST Loop unit).
Abbreviation me := (lc_worker_id config).
Abbreviation triple := (triple (E := E) config ports listen).
Abbreviation keeps k c := (triple k c (λ _, True)).
Abbreviation loop_inv := (loop_inv (E := E) config ports listen).

(** ** The directory *)

Lemma keeps_retire b id : ephemeral id → keeps 0 (retire_dns_reverse config b id).
Proof.
  intros Hid n l [? ?]. split_and!; [|apply retire_others|done]. split; [by destruct li_worker|]. by apply retire_ephemeral.
Qed.

Lemma keeps_publish b id : ephemeral id → keeps 0 (publish_reverse config b id).
Proof.
  intros Hid n l [Hp Hr]. unfold publish_reverse, directory_publish, locator_of. fold (binding_key b).
  destruct (entries (l_directory l) !! binding_key b) as [loc|] eqn:Hk.
  - case_decide; (split_and!; [by destruct l|by destruct l|done]).
  - split_and!; [|by apply insert_others|done]. split; [by destruct Hp|]. by apply insert_ephemeral.
Qed.

Lemma keeps_publish_dns b id : ephemeral id → keeps 0 (publish_dns_reverse config b id).
Proof.
  intros Hid. apply (triple_bind _ _ _ 0 0 _ _ (λ _, True)); [by apply keeps_publish|]. intros [] _; [by apply triple_ret|].
  by apply quiet_triple.
Qed.

(** A session that was just opened is published, or is removed again. *)
Lemma live_session_not_ephemeral w id s : worker_ok ports listen w → sessions (w_sessions w) !! id = Some s → ¬ ephemeral id.
Proof.
  intros Hw Hs He. pose proof (wi_owns _ _ _ (ok_inv _ _ _ Hw)) as [_ Hinv _]. unfold ephemeral in He.
  pose proof (so_range _ _ _ _ (si_session _ _ _ Hinv _ _ Hs)). pose proof (si_next _ _ _ Hinv). lia.
Qed.

Lemma remove_session_call now n (l : Loop) id s : worker_part config ports listen (1 + n) l →
  sessions (w_sessions (l_state l)) !! id = Some s →
  ∃ w', on_state (remove_session id now) l = (Ok (inr s), with_state w' l) ∧ bindings w' = delete id (bindings (l_state l))
    ∧ worker_part config ports listen n (with_state w' l).
Proof using Hlisten.
  intros Hp Hs. pose proof (remove_session_run ports listen _ (wp_ok _ _ _ _ _ Hp) id now) as Hrun. rewrite Hs in Hrun.
  destruct Hrun as (w' & Hrun & Hdel). exists w'. unfold on_state. rewrite Hrun. split_and!; [done| |].
  - unfold bindings, session_bindings. by rewrite Hdel, fmap_delete.
  - replace w' with (remove_session id now (l_state l)).2 by (by rewrite Hrun). apply worker_part_call; [done|].
    apply session_op_safe, moves_remove; [apply (wp_ok _ _ _ _ _ Hp)|]. apply (wi_owns _ _ _ (ok_inv _ _ _ (wp_ok _ _ _ _ _ Hp))).
Qed.

Lemma publish_session_run now id s (l : Loop) : sessions (w_sessions (l_state l)) !! id = Some s →
  publish_session config now id l =
  match entries (l_directory l) !! binding_key (s_nat s) with
  | None => (Ok true, with_directory (mkDirectory (<[binding_key (s_nat s) := locator_of config id]> (entries (l_directory l)))) l)
  | Some loc => if decide (loc = locator_of config id) then (Ok true, l)
                else (record_stat reverse_nat_publish_drop ;;; on_state (remove_session id now) ;;; sret false) l
  end.
Proof.
  intros Hs. unfold publish_session, sbind at 1, sget, worker_session, session_get. rewrite Hs.
  unfold sbind at 1, publish_reverse, directory_publish. fold (binding_key (s_nat s)).
  destruct (entries (l_directory l) !! binding_key (s_nat s)) as [loc|]; [|done]. by case_decide; destruct l.
Qed.

Lemma publish_opened now w0 n (l : Loop) id : opens w0 (l_state l) id → worker_part config ports listen (1 + n) l →
  registered me (bindings w0) (l_directory l) →
  ∃ b l', publish_session config now id l = (Ok b, l') ∧ loop_inv n l' ∧ others_kept me (l_directory l) (l_directory l').
Proof using Hlisten.
  intros (s & Hs & Hb & Hold) Hp Hr. pose proof (live_session_not_ephemeral _ _ _ (wp_ok _ _ _ _ _ Hp) Hs) as Hid.
  rewrite (publish_session_run _ _ _ _ Hs). unfold locator_of.
  destruct (entries (l_directory l) !! binding_key (s_nat s)) as [loc|] eqn:Hk; [case_decide as Hloc|].
  - do 2 eexists. split_and!; [done| |reflexivity]. split; [by eapply worker_part_weaken|].
    rewrite Hb. subst loc. apply Hr in Hk as (b & Hbs & _); [|done]. rewrite insert_id; [done|]. destruct Hold; congruence.
  - unfold sbind, record_stat, modify. set (l1 := with_stats _ l).
    destruct (remove_session_call now n l1 id s) as (w' & -> & Hdel & Hp'); [by destruct Hp|done|].
    do 2 eexists. split_and!; [done| |reflexivity]. split; [done|]. simpl. rewrite Hdel. simpl. rewrite Hb.
    destruct Hold as [Hold|Hold]; [by rewrite delete_insert_id|].
    pose proof (registered_entry _ _ _ _ _ Hr Hid Hold). congruence.
  - do 2 eexists. split_and!; [done| |by apply insert_others]. split; [by apply worker_part_weaken in Hp; destruct Hp|]. simpl.
    rewrite Hb. apply insert_registered; try done. destruct Hold as [|Hold]; [done|].
    pose proof (registered_entry _ _ _ _ _ Hr Hid Hold). congruence.
Qed.

(** A forward handler, the publication of its session, and what follows. *)
Lemma keeps_forward {B} k now (c : ST FlowWorkerState FlowWorkerError HandledIntercept) (no : LoopM B)
    (K : HandledIntercept → bool → LoopM B) :
  (∀ w, worker_ok ports listen w → room 1 w → safe ports listen w (c w) ∧ opened_by w hi_session_id (c w)) →
  keeps 0 no → (∀ h b, keeps k (K h b)) →
  keeps (2 + k) (let! handled := on_state c in
    match handled with
    | inl _ => no
    | inr handled => let! published := publish_session config now (hi_session_id handled) in K handled published
    end).
Proof using Hlisten.
  intros Hc Hno HK n l [Hp Hr]. destruct (Hc (l_state l) (wp_ok _ _ _ _ _ Hp)) as [Hs Ho].
  { apply (room_weaken (1 + k + n)). replace (1 + k + n + 1)%nat with (2 + k + n)%nat by lia. apply (wp_room _ _ _ _ _ Hp). }
  destruct (on_state_cases c l (proj1 Hs)) as (r & Hrun & Ha & He).
  pose proof (worker_part_call _ _ _ (1 + k + n) l c Hp Hs) as Hp1. unfold sbind at 1 3 5. rewrite Hrun. unfold opened_by in Ho.
  set (l1 := with_state _ l) in *. destruct r as [e|h].
  - rewrite (He e eq_refl) in Ho. destruct (Hno n l1) as (? & ? & ?); [|done].
    split; [by apply (worker_part_weaken _ _ _ (1 + k) n)|]. simpl. by rewrite Ho.
  - rewrite (Ha h eq_refl) in Ho. destruct (publish_opened now (l_state l) (k + n) l1 (hi_session_id h)) as (b & l2 & Hpub & Hi & Hoth); [done..|].
    unfold sbind. rewrite Hpub. destruct (HK h b n l2 Hi) as (? & ? & ?). split_and!; [done|by etransitivity|done].
Qed.

Lemma keeps_retire_session now id : keeps 1 (retire_session config now id).
Proof using Hlisten.
  intros n l [Hp Hr]. unfold retire_session, sbind.
  destruct (sessions (w_sessions (l_state l)) !! id) as [s|] eqn:Hs.
  - destruct (remove_session_call now n l id s Hp Hs) as (w' & -> & Hdel & Hp'). simpl.
    split_and!; [|apply retire_others|done]. split; [by destruct Hp'|]. simpl. rewrite Hdel.
    apply retire_registered; [done|by eapply live_session_not_ephemeral; [apply (wp_ok _ _ _ _ _ Hp)|]|].
    intros b'. rewrite bindings_lookup, Hs. by intros [= ->].
  - pose proof (remove_session_run ports listen _ (wp_ok _ _ _ _ _ Hp) id now) as Hrun. rewrite Hs in Hrun.
    destruct Hrun as [e Hrun]. unfold on_state. rewrite Hrun. simpl. split_and!; [|reflexivity|done].
    split; [|done]. apply (worker_part_weaken _ _ _ 1) in Hp. by destruct Hp.
Qed.

(** ** Idle sessions *)

Lemma retire_sessions_run ss : ∀ (l : Loop), (∀ s, s ∈ ss → ¬ ephemeral (s_id s)) → ∀ bs,
  registered me bs (l_directory l) → (∀ s b, s ∈ ss → bs !! s_id s = Some b → b = s_nat s) →
  ∃ d, retire_sessions config ss l = (Ok tt, with_directory d l) ∧ others_kept me (l_directory l) d
    ∧ registered me (filter (λ kv, kv.1 ∉ s_id <$> ss) bs) d.
Proof.
  induction ss as [|s ss IH]; intros l Hid bs Hr Hb.
  - exists (l_directory l). split_and!; [by destruct l|reflexivity|]. rewrite map_filter_id; [done|]. intros. apply not_elem_of_nil.
  - simpl. unfold sbind at 1, retire_dns_reverse, modify at 1. set (l1 := with_directory _ l).
    destruct (IH l1) with (bs := delete (s_id s) bs) as (d & -> & Ho & Hreg).
    + intros x Hx. apply Hid. by right.
    + apply retire_registered; [done|apply Hid; by left|]. intros b' Hb'. apply Hb; [by left|done].
    + intros x b Hx [_ Hb']%lookup_delete_Some. eapply Hb; [by right|done].
    + exists d. split_and!; [by destruct l|etransitivity; [apply retire_others|exact Ho]|].
      refine (eq_ind _ (λ bs, registered me bs d) Hreg _ _). apply map_eq. intros i. apply option_eq. intros b. rewrite !map_lookup_filter_Some, lookup_delete_Some. simpl.
      rewrite not_elem_of_cons. naive_solver.
Qed.

Lemma keeps_expire_idle now clock : keeps 1 (loop_expire_idle_sessions config now clock).
Proof using Hlisten.
  intros n l [Hp Hr]. pose proof (wp_ok _ _ _ _ _ Hp) as Hw.
  destruct (expire_idle_sessions_run ports listen (l_state l) Hw now clock) as (ss & w' & Hrun & Hs & Hin & Hkey).
  assert (worker_part config ports listen n (with_state w' l)) as Hp'.
  { replace w' with (expire_idle_sessions now clock (l_state l)).2 by (by rewrite Hrun). apply worker_part_call; [done|].
    apply session_op_safe; [done|]. apply moves_expire, (wi_owns _ _ _ (ok_inv _ _ _ Hw)). }
  unfold loop_expire_idle_sessions, sbind, on_state. rewrite Hrun.
  assert (∀ s, s ∈ ss → sessions (w_sessions (l_state l)) !! s_id s = Some s) as Hss.
  { intros s (id & Hid & _)%Hin. by rewrite (Hkey id s Hid). }
  destruct (retire_sessions_run ss (with_state w' l)) with (bs := bindings (l_state l)) as (d & -> & Ho & Hreg).
  - intros s Hx. by apply Hss, (live_session_not_ephemeral _ _ _ Hw) in Hx.
  - done.
  - intros s b Hx. rewrite bindings_lookup, (Hss s Hx). by intros [= ->].
  - split_and!; [|exact Ho|done]. split; [by destruct Hp'|]. cbn [snd l_state l_directory with_state with_directory].
    refine (eq_ind _ (λ bs, registered me bs d) Hreg _ _). apply map_eq. intros i. apply option_eq. intros b. rewrite map_lookup_filter_Some, !bindings_lookup, Hs. simpl.
    rewrite !fmap_Some. setoid_rewrite map_lookup_filter_Some. simpl. split.
    + intros [(s & Hi & ->) Hni]. exists s. split_and!; [done| |done]. apply Z.nle_gt. intros Hle. apply Hni.
      rewrite <- (Hkey i s Hi). apply list_elem_of_fmap_2, Hin. by exists i.
    + intros (s & [Hi Hlt] & ->). split; [by exists s|]. intros (s' & -> & Hs')%list_elem_of_fmap.
      pose proof (Hss s' Hs'). apply Hin in Hs' as (j & Hj & Hle). simplify_eq. lia.
Qed.

(** ** Messages *)

(** A bind out of a budget. *)
Lemma spend {A B} k K (c : LoopM A) (f : A → LoopM B) (Q : A → Prop) : triple k c Q → (k ≤ K)%nat →
  (∀ a, Q a → keeps (K - k) (f a)) → keeps K (sbind c f).
Proof. intros Hc Hle Hf. replace K with (k + (K - k))%nat by lia. by eapply triple_bind. Qed.

Lemma keeps_more {A} k K (c : LoopM A) (Q : A → Prop) : triple k c Q → (k ≤ K)%nat → keeps K c.
Proof. intros Hc Hle. by eapply triple_weaken. Qed.

Ltac quietly := apply quiet_triple; first
  [ apply quiet_send_io | apply quiet_send_all | apply quiet_send_inner | apply quiet_flush | by intros ?
  | by (apply quiet_modify; intros ?) ].

(** A quiet step, or a call, then the rest of the budget. *)
Ltac quiet_then := first
  [ eapply (spend 0 _ _ _ (λ _, True)); [quietly|lia|intros ? _]
  | apply triple_get; intros ? ? ].
Ltac call_then H := eapply (spend 1); [apply triple_call, H; done|lia|intros [?|?] ?].

Lemma keeps_answer clock packet : bytes_ok packet → keeps 1 (answer_dns config clock packet).
Proof using Hlisten.
  intros Hok. unfold answer_dns. eapply (spend 1); [apply triple_call; by apply call_answer|lia|]. intros [e|[h|]] Hh; [by apply triple_ret| |by apply triple_ret].
  eapply (spend 0); [by apply keeps_retire|lia|intros ? _]. quiet_then. by apply triple_ret.
Qed.

Lemma keeps_local_resolver times packet expected : bytes_ok packet → keeps 1 (local_resolver_packet config times packet expected).
Proof using Hlisten.
  intros Hok. unfold local_resolver_packet. quiet_then. cbv zeta. case_match; [by apply triple_ret|].
  destruct expected as [locator|]; [|by apply triple_ret]. destruct (match parse_flow_key packet with Ok _ => _ | _ => _ end).
  - eapply (spend 1); [by apply keeps_answer|lia|]. intros. by apply triple_ret.
  - eapply (spend 1); [by apply triple_call, call_reverse_for|lia|]. intros [e|[h|]] _; [by apply triple_ret| |by apply triple_ret].
    quiet_then. by apply triple_ret.
Qed.

Lemma keeps_abort clock b c : config_ok listen c → keeps 1 (abort_unpublished clock b c).
Proof using Hlisten.
  intros Hc. unfold abort_unpublished. eapply (spend 1); [by apply triple_call, call_abort_dns|lia|].
  intros [e|[a|]] _; [by apply triple_ret| |by apply triple_ret]. quietly.
Qed.

Lemma keeps_query times io packet c epoch : bytes_ok packet → config_ok listen c →
  keeps 2 (intercepted_query config times io packet c epoch).
Proof using Hlisten.
  intros Hok Hc. unfold intercepted_query. quiet_then. cbv zeta. set (c' := with_remote_available _ c).
  assert (config_ok listen c') as Hc' by done.
  eapply (spend 1); [by apply triple_call, call_query|lia|]. intros [e|q] Hq.
  { repeat case_match; by apply triple_ret. }
  destruct q as [t b id|p b id|t].
  - eapply (spend 0); [by apply keeps_publish_dns|lia|intros pub _]. eapply (spend 1 _ _ _ (λ _, True)); [|lia|intros ? _; by apply triple_ret].
    destruct pub; [quietly|by apply keeps_abort].
  - eapply (spend 0); [by apply keeps_publish_dns|lia|intros pub _]. eapply (spend 1 _ _ _ (λ _, True)); [|lia|intros ? _; by apply triple_ret].
    destruct pub; [quiet_then; by apply triple_ret|by apply keeps_abort].
  - quiet_then. by apply triple_ret.
Qed.

Lemma keeps_client_packet times io packet epoch : bytes_ok packet → keeps 3 (client_packet config times io packet epoch).
Proof using Hlisten.
  intros Hok. unfold client_packet. quiet_then. case_match; [quietly|]. cbv zeta.
  apply (keeps_forward 1); [|by apply triple_ret|].
  - intros w Hw Hr. pose proof (room_1 w Hr) as (? & _ & _). split; [by apply handle_intercept_safe|by eapply handle_intercept_opens].
  - intros h [] ; simpl; [|by apply triple_ret]. quiet_then. case_decide; [apply keeps_retire_session|by apply triple_ret].
Qed.

Lemma keeps_client_intercept times io packet expected epoch : bytes_ok packet →
  keeps 6 (client_intercept config times io packet expected epoch).
Proof using Hlisten.
  intros Hok. unfold client_intercept. apply triple_get. intros l0 Hc. destruct (l_dns_config l0) as [c|].
  2: { by eapply keeps_more; [apply keeps_client_packet|lia]. }
  eapply (spend 1); [by apply keeps_local_resolver|lia|intros [] _; [by apply triple_ret|]].
  eapply (spend 2); [by apply keeps_query, Hc|lia|intros [] _; [by apply triple_ret|]].
  by eapply keeps_more; [apply keeps_client_packet|lia].
Qed.

Lemma keeps_server_intercept times io packet expected epoch : bytes_ok packet →
  keeps 1 (server_intercept config times io packet expected epoch).
Proof using Hlisten.
  intros Hok. unfold server_intercept. destruct expected as [locator|]; [|by apply triple_ret]. case_decide; [by apply triple_ret|].
  eapply (spend 1); [by apply triple_call, call_server_reverse|lia|]. intros [e|[h|]] _; [by apply triple_ret| |by apply triple_ret].
  quiet_then. by apply triple_ret.
Qed.

(** A message the dispatcher hands over carries the bytes of a frame. *)
Definition message_ok (m : FlowMessage) : Prop :=
  match m with InterceptIngress _ packet _ => bytes_ok packet | _ => True end.

Lemma keeps_message times m epoch : message_ok m → keeps 6 (handle_flow_message config times m epoch).
Proof using Hlisten.
  intros Hm. destruct m as [io packet expected|io dcid remote local packet|rules]; simpl.
  - destruct (lc_role config); [by apply keeps_client_intercept|]. by eapply keeps_more; [apply keeps_server_intercept|lia].
  - apply quiet_triple. intros l. pose proof (λ Hs : engine_safe (E := E), proj1 Hs (times 0%nat) remote (Some local) packet (l_engine l)) as Hp.
    destruct (engine_handle_outer _ _ _ _ _) as [en|[]|]; [done| |]; (split_and!; [done..|]); intros _ Hs; by destruct (Hp Hs).
  - intros n l Hl. apply (loop_inv_weaken _ _ _ 6) in Hl as [[? ? ? Hd] ?]. unfold modify. cbn [fst snd].
    destruct (l_dns_config l) as [c|] eqn:Hc; destruct rules as [rules|]; (split_and!; [|reflexivity|done]).
    2-4: split; [split|]; rewrite ?Hc; done.
    split; [|done]. split; [done..|]. intros c' [= <-]. exact (Hd c eq_refl).
Qed.

(** ** Engine events *)

Lemma keeps_server_inner times packet : bytes_ok packet → keeps 2 (server_inner_packet config times packet).
Proof using Hlisten.
  intros Hok. unfold server_inner_packet. quiet_then. apply (keeps_forward 0); [|by apply triple_ret|].
  - intros w Hw Hr. pose proof (room_1 w Hr) as (? & _ & _). split; [by apply handle_server_inner_safe|by eapply handle_server_inner_opens].
  - intros h []; [quietly|by apply triple_ret].
Qed.

Lemma keeps_client_inner times packet : bytes_ok packet → keeps 2 (client_inner_packet config times packet).
Proof using Hlisten.
  intros Hok. unfold client_inner_packet. quiet_then. cbv zeta. eapply (spend 1 _ _ _ (λ _, True)); [|lia|].
  - case_match; [|by apply triple_ret]. eapply (spend 1); [by apply keeps_answer|lia|]. intros [e|[]] _; by apply triple_ret.
  - intros [] _; [by apply triple_ret|]. eapply (spend 1); [by apply triple_call, call_reverse|lia|].
    intros [e|[h|]] _; [by apply triple_ret|quietly|by apply triple_ret].
Qed.

Lemma keeps_closed times clock epoch exiting : keeps 2 (closed_event config times clock epoch exiting).
Proof using Hlisten.
  unfold closed_event. quiet_then. apply triple_get. intros l0 Hc. cbv zeta.
  eapply (spend 1 _ _ _ (λ _, True)); [|lia|intros ? _].
  { destruct (l_dns_config l0) as [c|]; [|by apply triple_ret].
    eapply (spend 1); [by apply triple_call, call_abort_remote, Hc|lia|]. intros. by apply triple_ret. }
  quiet_then. destruct exiting; [by apply triple_ret|]. destruct (quic_flow_new _ _ _ _) as [qf| |]; [|by apply triple_ret..].
  quiet_then. eapply (spend 1); [by apply triple_call, call_rebind|lia|intros ? _]. case_decide; [|by apply triple_ret].
  apply quiet_triple. intros l. destruct (engine_reconnect_client (l_engine l)) as [[] en]; done.
Qed.

Definition event_ok (e : QuicEngineEvent) : Prop := match e with InnerPacket packet => bytes_ok packet | _ => True end.

Lemma keeps_event times clock event epoch exiting : event_ok event → keeps 2 (handle_event config times clock event epoch exiting).
Proof using Hlisten.
  intros He. destruct event as [transmit| |packet|dcid|dcid|dcid|dcids|]; simpl.
  - apply quiet_triple. intros l. apply quiet_send_all.
  - apply quiet_triple. intros l. apply quiet_flush.
  - destruct (lc_role config); [by apply keeps_client_inner|by apply keeps_server_inner].
  - apply quiet_triple. intros l. destruct (stage_for_flow dcid (l_quic_flow l) (l_dcids l)) as [r i]. by destruct r.
  - apply quiet_triple. intros l. destruct (publish_for_flow dcid (l_quic_flow l) (l_dcids l)) as [r i]. by destruct r.
  - quietly.
  - apply quiet_triple. intros l. destruct (publish_batch_for_flow dcids (l_quic_flow l) (l_dcids l)) as [r i]. by destruct r.
  - apply keeps_closed.
Qed.

(** ** Whole iterations *)

(** The inner packets the engine yields are byte strings. *)
Context (engine_bytes : ∀ now (e : E) event e', engine_poll now e = Ok (Some event, e') → event_ok event).

Lemma keeps_drain fuel times clock epoch exiting : keeps (2 * fuel) (drain_engine config fuel times clock epoch exiting).
Proof using Hlisten engine_bytes.
  induction fuel as [|fuel IH]; [by apply quiet_triple; intros l|]. intros n l Hl. cbn [drain_engine].
  pose proof (λ Hs : engine_safe (E := E), proj2 (proj2 Hs) (times fuel 0%nat) (l_engine l)) as Hp.
  destruct (engine_poll (times fuel 0%nat) (l_engine l)) as [[[event|] en]|[]|] eqn:Hpoll.
  - assert (keeps (2 + 2 * fuel) (handle_event config (times fuel) (clock fuel) event epoch exiting ;;;
      drain_engine config fuel times clock epoch exiting)) as Hk.
    { eapply (spend 2); [eapply keeps_event, engine_bytes, Hpoll|lia|intros ? _].
      replace (2 + 2 * fuel - 2)%nat with (2 * fuel)%nat by lia. exact IH. }
    apply (Hk n (with_engine en l)). replace (2 + 2 * fuel + n)%nat with (2 * S fuel + n)%nat by lia.
    destruct Hl as [[] ?]. by split.
  - split_and!; [|reflexivity|done]. apply (loop_inv_weaken _ _ _ (2 * S fuel)) in Hl as [[] ?]. by split.
  - split_and!; [by eapply loop_inv_weaken|reflexivity|]. intros Hs. by destruct (Hp Hs).
  - split_and!; [by eapply loop_inv_weaken|reflexivity|]. intros Hs. by destruct (Hp Hs).
Qed.

Lemma keeps_retire_transactions es : expired_ephemeral es → keeps 0 (retire_transactions config es).
Proof.
  induction 1 as [|e es He _ IH]; simpl; [by apply triple_ret|].
  eapply (spend 0); [by apply keeps_retire|lia|intros ? _]. quiet_then. exact IH.
Qed.

Lemma keeps_expire_dns now clock : keeps 1 (loop_expire_dns_transactions config now clock).
Proof using Hlisten.
  unfold loop_expire_dns_transactions. apply triple_get. intros l0 Hc. destruct (l_dns_config l0) as [c|]; [|by apply triple_ret].
  eapply (spend 1); [by apply triple_call, call_expire_dns, Hc|lia|]. intros [e|es] Hes; [by apply triple_ret|].
  by apply keeps_retire_transactions.
Qed.

Definition iteration_cost (fuel : nat) : nat := 8 + 2 * fuel.

Lemma keeps_iteration fuel at_ requested received exiting epoch : (∀ m, received = Some m → message_ok m) →
  keeps (iteration_cost fuel) (flow_iteration config fuel at_ requested received exiting epoch).
Proof using Hlisten engine_bytes.
  intros Hm. unfold flow_iteration, iteration_cost. cbv zeta. eapply (spend 0 _ _ _ (λ _, True)); [case_decide; [quietly|by apply triple_ret]|lia|intros ? _].
  eapply (spend 6 _ _ _ (λ _, True)); [destruct received; [by apply keeps_message, Hm|by apply triple_ret]|lia|intros ? _].
  eapply (spend (2 * fuel)); [apply keeps_drain|lia|intros ? _].
  eapply (spend 1); [apply keeps_expire_dns|lia|intros ? _].
  eapply (spend 1); [apply keeps_expire_idle|lia|intros ? _]. by apply triple_ret.
Qed.

Lemma keeps_shutdown fuel at_ epoch : keeps (iteration_cost fuel) (flow_shutdown config fuel at_ epoch).
Proof using Hlisten engine_bytes.
  unfold flow_shutdown, iteration_cost. quiet_then. eapply keeps_more; [apply keeps_drain|lia].
Qed.
End handlers.
