(* ===== verification/FlowLoopClaims.v ===== *)
(** The flow workers together: the threads share the directory of translated flows, and
    what the I/O threads find in it is what the workers have. *)
From stdpp Require Import relations.
From S2P Require Import Prelude Net Packet PacketProps PacketTheorems NatTable NatProps Session SessionProps SessionTheorems QuicFlow Dns DnsProps Dispatch Inner Auth Engine Worker WorkerProps WorkerDns WorkerTheorems WorkerRun WorkerClaims Frame FrameFacts FrameProps FrameClaims Encap FlowLoop FlowLoopFacts FlowLoopProps FlowLoopInv.

(** ** The system *)

Section system.
Context {E : Type} `{!EngineOps E} (config_of : nat → LoopConfig) (listen : SocketAddr).
Abbreviation Loop := (Loop (E := E)).

(** The workers by their identifiers, and the directory behind the lock. *)
Record System : Type := mkSystem { sy_directory : ReverseNatDirectory; sy_workers : gmap nat Loop }.

Definition enter (s : System) (l : Loop) : Loop := with_directory (sy_directory s) l.
Definition leave (i : nat) (s : System) (l : Loop) : System := mkSystem (l_directory l) (<[i := l]> (sy_workers s)).

(** A worker runs one iteration of its loop, or ends; the I/O threads take transmits out
    of the queues and the other workers publish connection identifiers at any time. *)
Inductive system_step : System → System → Prop :=
| step_iteration s i l fuel at_ requested received exiting epoch : sy_workers s !! i = Some l →
    (∀ m, received = Some m → message_ok m) → room (iteration_cost fuel) (l_state l) →
    system_step s (leave i s (flow_iteration (config_of i) fuel at_ requested received exiting epoch (enter s l)).2)
| step_shutdown s i l fuel at_ epoch : sy_workers s !! i = Some l → room (iteration_cost fuel) (l_state l) →
    system_step s (leave i s (flow_shutdown (config_of i) fuel at_ epoch (enter s l)).2)
| step_shared s i l io dcids : sy_workers s !! i = Some l → system_step s (leave i s (with_io io (with_dcids dcids (enter s l)))).

(** Fresh workers and an empty directory; [range] divides the NAT ports. *)
Definition system_initial (ipv4 ipv6 : option Z) (range : nat → Z * Z) (s : System) : Prop :=
  sy_directory s = mkDirectory ∅ ∧
  ∀ i l, sy_workers s !! i = Some l → lc_worker_id (config_of i) = i ∧ snat_config_ok ipv4 ipv6 (range i).1 (range i).2
    ∧ worker_new_dual i ipv4 ipv6 (range i).1 (range i).2 = Ok (l_state l)
    ∧ ∀ c, l_dns_config l = Some c → config_ok listen c.

(** The inner packets the engine yields are byte strings. *)
Definition engine_yields_bytes : Prop := ∀ now (e : E) event e', engine_poll now e = Ok (Some event, e') → event_ok event.

(** ** The invariant *)

Context (range : nat → Z * Z).
Definition ports_of (i : nat) : gset Z := port_range (range i).1 (range i).2.

Definition system_inv (s : System) : Prop := ∀ i l, sy_workers s !! i = Some l →
  lc_worker_id (config_of i) = i ∧ loop_inv (config_of i) (ports_of i) listen 0 (enter s l).

Lemma system_initial_inv ipv4 ipv6 s : system_initial ipv4 ipv6 range s → system_inv s.
Proof.
  intros [Hd Hw] i l Hl. destruct (Hw i l Hl) as (Hid & Hcfg & Hnew & Hdns). split; [done|].
  destruct (worker_new_ok i ipv4 ipv6 _ _ listen _ Hcfg Hnew) as (Hok & N1 & N2 & N3).
  assert (sessions (w_sessions (l_state l)) = ∅ ∧ worker_id (l_state l) = i) as [Hs Hwid].
  { revert Hnew. unfold worker_new_dual, session_new_dual, nat_new_dual. case_decide; [done|]. intros [= <-]. done. }
  split; [split|]; simpl; [done|congruence|unfold room; rewrite N1, N2, N3; split_and!; lia|done|].
  intros k id _. rewrite Hd. simpl. rewrite lookup_empty. unfold bindings, session_bindings. rewrite Hs, fmap_empty.
  setoid_rewrite lookup_empty. naive_solver.
Qed.

(** One worker's step, seen by all of them. *)
Lemma leave_inv s i l l' : system_inv s → sy_workers s !! i = Some l →
  loop_inv (config_of i) (ports_of i) listen 0 l' → others_kept i (sy_directory s) (l_directory l') → system_inv (leave i s l').
Proof.
  intros Hs Hl Hi Ho j x. simpl. rewrite lookup_insert_Some. intros [[<- <-]|[Hne Hx]].
  - split; [by apply (Hs i l)|]. destruct Hi as [[] ?]. by split.
  - destruct (Hs j x Hx) as [Hj [[] Hr]]. split; [done|]. split; [by split|]. simpl. intros k id Hid. rewrite <- (Hr k id Hid).
    apply Ho. simpl. rewrite Hj. congruence.
Qed.

(** The room a step asks for, as the budget of its handlers. *)
Lemma system_room s i l n : system_inv s → sy_workers s !! i = Some l → room n (l_state l) →
  loop_inv (config_of i) (ports_of i) listen (n + 0) (enter s l).
Proof. intros Hs Hl Hr. rewrite Nat.add_0_r. destruct (Hs i l Hl) as [_ [[] ?]]. by split. Qed.

Lemma system_step_inv s s' : socket_ok listen → engine_yields_bytes → system_step s s' → system_inv s → system_inv s'.
Proof.
  intros Hlis Hen Hstep Hs.
  destruct Hstep as [s i l fuel at_ requested received exiting epoch Hl Hm Hr|s i l fuel at_ epoch Hl Hr|s i l io dcids Hl].
  - destruct (keeps_iteration (config_of i) (ports_of i) listen Hlis Hen fuel at_ requested received exiting epoch Hm 0%nat (enter s l)
      (system_room s i l _ Hs Hl Hr)) as (Hi & Ho & _). destruct (Hs i l Hl) as [Hid _]. rewrite Hid in Ho. by eapply leave_inv.
  - destruct (keeps_shutdown (config_of i) (ports_of i) listen Hlis Hen fuel at_ epoch 0%nat (enter s l)
      (system_room s i l _ Hs Hl Hr)) as (Hi & Ho & _). destruct (Hs i l Hl) as [Hid _]. rewrite Hid in Ho. by eapply leave_inv.
  - eapply leave_inv; [done|done| |reflexivity]. destruct (Hs i l Hl) as [_ [[] ?]]. by split.
Qed.

Lemma system_reach_inv ipv4 ipv6 s0 s : socket_ok listen → engine_yields_bytes → system_initial ipv4 ipv6 range s0 →
  rtc system_step s0 s → system_inv s.
Proof.
  intros Hlis Hen Hinit Hreach. apply system_initial_inv in Hinit. induction Hreach as [|s1 s2 s3 Hstep _ IH]; [done|].
  apply IH. by eapply system_step_inv.
Qed.

(** An entry of the directory and the session it stands for. *)
Lemma directory_session s i l id r : system_inv s → sy_workers s !! i = Some l → ¬ ephemeral id →
  directory_lookup (sy_directory s) r = Some (mkSessionLocator i id)
  ↔ ∃ x, sessions (w_sessions (l_state l)) !! id = Some x ∧ is_reply (nb_translated (s_nat x)) r.
Proof.
  intros Hs Hl Hid. destruct (Hs i l Hl) as [Hi [_ Hr]]. specialize (Hr (from_return_flow r) id Hid). rewrite Hi in Hr. simpl in Hr.
  unfold directory_lookup. rewrite Hr. setoid_rewrite bindings_lookup. setoid_rewrite fmap_Some. unfold binding_key.
  setoid_rewrite <- return_key_reply. naive_solver.
Qed.

(** C5: In every state the flow workers can reach together, the shared directory and
    the workers' session tables agree: the entry an I/O thread finds for a returning
    flow names a session of a worker exactly when that worker would restore the flow
    to that session.  So no entry outlives its session, no session is without its
    entry, and no worker disturbs another's entries, whatever messages, engine events,
    timeouts, reconnections and failed publications happened in between. *)
Theorem directory_is_sessions (ipv4 ipv6 : option Z) (s0 s : System) (i : nat) (l : Loop) (id : SessionId) (r : FlowKey) :
  socket_ok listen → engine_yields_bytes → system_initial ipv4 ipv6 range s0 → rtc system_step s0 s →
  sy_workers s !! i = Some l → ¬ ephemeral id →
  directory_lookup (sy_directory s) r = Some (mkSessionLocator i id)
  ↔ lookup_reverse_locator (w_sessions (l_state l)) r = Some (mkSessionLocator i id).
Proof.
  intros Hlis Hen Hinit Hreach Hl Hid. pose proof (system_reach_inv _ _ _ _ Hlis Hen Hinit Hreach) as Hs.
  rewrite (directory_session s i l id r Hs Hl Hid). destruct (Hs i l Hl) as [Hi [[Hw Hwid _ _] _]]. simpl in Hw, Hwid.
  pose proof (wi_owns _ _ _ (ok_inv _ _ _ Hw)) as [Ho Hinv _]. rewrite (lookup_reverse_locator_iff _ _ r _ Hinv), Ho, Hwid, Hi.
  unfold own_locator, session_get. naive_solver.
Qed.


Context {IpNet : Type} (contains : IpNet → IpAddr → bool) (dns_hash : IoOwnerKey → DnsTransactionKey → Z).

(** C2: The way back through the whole datapath: in every state the workers can reach,
    a frame that carries a reply to the translated flow of any live session, seen on
    any intercept queue, is dispatched to the worker that owns the session, with the
    session's locator, and only to it; the policy for new flows does not matter. *)
Theorem session_reply_dispatched (ipv4 ipv6 : option Z) (s0 s : System) (i : nat) (l : Loop) (id : SessionId) (x : Session)
    (c : IoClassifierConfig IpNet) (eth p : bytes) (r : FlowKey) (active : ActiveDcidIndex) (d : FlowDispatcher) :
  socket_ok listen → engine_yields_bytes → system_initial ipv4 ipv6 range s0 → rtc system_step s0 s →
  sy_workers s !! i = Some l → sessions (w_sessions (l_state l)) !! id = Some x → is_reply (nb_translated (s_nat x)) r →
  bytes_ok p → ethernet_for eth p → parse_flow_key p = Ok r → intercept c = true → ¬ to_tunnel c r → ¬ to_dns_vip c r →
  ∃ n, parse_flow_key (take n p) = Ok r
    ∧ handle_frame contains dns_hash c (eth ++ p) active (sy_directory s) d
      = dispatched i (InterceptIngress (owner c) (take n p) (Some (mkSessionLocator i id))) d.
Proof.
  intros Hlis Hen Hinit Hreach Hl Hx Hr Hok Heth Hf Hi Ht Hv. pose proof (system_reach_inv _ _ _ _ Hlis Hen Hinit Hreach) as Hs.
  assert (¬ ephemeral id) as Hid.
  { destruct (Hs i l Hl) as [_ [[Hw _ _ _] _]]. eapply live_session_not_ephemeral; [exact Hw|exact Hx]. }
  assert (directory_lookup (sy_directory s) r = Some (mkSessionLocator i id)) as Hd by (apply (directory_session s i l id r Hs Hl Hid); by exists x).
  destruct (parsed_flow_exists eth p r Hok Heth Hf) as (parsed & Hp). destruct (parsed_take _ _ _ _ Hp) as (n & Hn & Hfn).
  exists n. split; [done|]. rewrite <- Hn. apply handle_frame_sends. by eapply (classify_known contains dns_hash c eth p r) in Hd.
Qed.
End system.

(** ** A concrete system *)

(** An engine that follows a script: it yields the listed events and accepts every inner
    packet. *)
#[global] Instance scripted_engine : EngineOps (list QuicEngineEvent) := {|
  engine_authenticated := λ _, true;
  engine_handle_outer := λ _ _ _ _ e, Ok e;
  engine_send_inner := λ _ _ e, (Ok tt, e);
  engine_poll := λ _ e, match e with
                        | [] => Ok (None, [])
                        | InnerPacket p :: e => Ok (if decide (bytes_ok p) then (Some (InnerPacket p), e) else (None, e))
                        | event :: e => Ok (Some event, e)
                        end;
  engine_close := λ _ e, e ++ [EvClosed];
  engine_resolve_replacement := λ _ _ e, e;
  engine_reconnect_client := λ e, (true, e);
|}.

Lemma scripted_engine_bytes : engine_yields_bytes (E := list QuicEngineEvent).
Proof.
  intros now [|event e] ev e'; simpl; [done|]. destruct event; try (intros [= <- _]; done).
  case_decide; [|done]. by intros [= <- _].
Qed.

Definition sample_loop_config : LoopConfig := mkLoopConfig Server 3 1 1 9 sample_io 4433 None.
Definition sample_loop (w : FlowWorkerState) (dns : option DnsFlowConfig) (d : ReverseNatDirectory) (script : list QuicEngineEvent)
    : Loop (E := list QuicEngineEvent) :=
  mkLoop w script sample_quic dns (mkIoRegistry {[ sample_io := mkIoTx 4 [] true ]}) sample_dcids d (λ _, 0) (pending_new 0).
Definition sample_instants : Instants := mkInstants 0 (λ _, 0) (λ _ _, 0) (λ _ _, 0) 0 (λ _, 0) 0 (λ _, 0).
Definition sample_system : System (E := list QuicEngineEvent) :=
  mkSystem (mkDirectory ∅) {[ 3%nat := sample_loop sample_worker None (mkDirectory ∅) [InnerPacket sample_syn_sealed] ]}.
Definition sample_next : System (E := list QuicEngineEvent) :=
  leave 3 sample_system (flow_iteration sample_loop_config 3 sample_instants 0 None false 0
    (enter sample_system (sample_loop sample_worker None (mkDirectory ∅) [InnerPacket sample_syn_sealed]))).2.

Lemma sample_system_initial :
  system_initial (λ _, sample_loop_config) sample_listen (Some 0xc0000201) None (λ _, (40000, 40003)) sample_system.
Proof.
  split; [done|]. intros i l Hl. simpl in Hl. apply lookup_singleton_Some in Hl as [<- <-]. split_and!; [done|exact sample_range_ok|reflexivity|done].
Qed.

Lemma sample_system_step : system_step (λ _, sample_loop_config) sample_system sample_next.
Proof. apply (step_iteration (λ _, sample_loop_config) sample_system 3); [reflexivity|done|vm_compute; split_and!; reflexivity]. Qed.

Lemma directory_is_sessions_witness : ∃ l, sy_workers sample_next !! 3%nat = Some l
  ∧ (directory_lookup (sy_directory sample_next) sample_reply_flow = Some (mkSessionLocator 3 (mkSessionId 1))
     ↔ lookup_reverse_locator (w_sessions (l_state l)) sample_reply_flow = Some (mkSessionLocator 3 (mkSessionId 1)))
  ∧ directory_lookup (sy_directory sample_next) sample_reply_flow = Some (mkSessionLocator 3 (mkSessionId 1)).
Proof.
  eexists. split_and!; [apply lookup_insert_eq| |vm_compute; reflexivity].
  eapply (directory_is_sessions (λ _, sample_loop_config) sample_listen (λ _, (40000, 40003)) _ _ sample_system).
  - exact sample_listen_ok.
  - exact scripted_engine_bytes.
  - exact sample_system_initial.
  - apply rtc_once, sample_system_step.
  - apply lookup_insert_eq.
  - unfold ephemeral. simpl. lia.
Defined.

Lemma scripted_engine_safe : engine_safe (E := list QuicEngineEvent).
Proof.
  split_and!; [done|done|]. intros now [|[] e]; simpl; by split.
Qed.


Definition sample_session : Session :=
  default (mkSession (mkSessionId 0) sample_syn_flow (mkNatBinding sample_syn_flow sample_syn_flow) 0 sample_io (mkQuicFlowId 0) 0 None)
    (l ← sy_workers sample_next !! 3%nat; sessions (w_sessions (l_state l)) !! mkSessionId 1).

Definition sample_four_queues : FlowDispatcher :=
  match bounded_flow_channels 4 8 with Ok d => d | _ => sample_queues end.

Lemma session_reply_dispatched_witness : ∃ n, parse_flow_key (take n sample_reply) = Ok sample_reply_flow
  ∧ handle_frame sample_contains sample_hash sample_classifier (sample_eth ETH_P_IPV4 ++ sample_reply) sample_dcids
      (sy_directory sample_next) sample_four_queues
    = dispatched 3 (InterceptIngress (owner sample_classifier) (take n sample_reply) (Some (mkSessionLocator 3 (mkSessionId 1)))) sample_four_queues.
Proof.
  eapply (session_reply_dispatched (λ _, sample_loop_config) sample_listen (λ _, (40000, 40003)) sample_contains sample_hash _ _
    sample_system sample_next 3 _ (mkSessionId 1) sample_session).
  - exact sample_listen_ok.
  - exact scripted_engine_bytes.
  - exact sample_system_initial.
  - apply rtc_once, sample_system_step.
  - apply lookup_insert_eq.
  - vm_compute. reflexivity.
  - vm_compute. tauto.
  - vmdec.
  - vmdec.
  - reflexivity.
  - reflexivity.
  - by intros [? _].
  - by intros [? _].
Defined.
