(* ===== verification/FlowLoopQueues.v ===== *)
(** The queues of the flow loop: what waits for the tunnel and what waits for an I/O
    thread is bounded, and waiting packets leave in their order. *)
From S2P Require Import Prelude Net Packet PacketFacts PacketProps PacketTheorems NatTable NatProps Session SessionProps SessionTheorems QuicFlow Dns DnsProps Dispatch Inner Auth Engine Worker WorkerProps WorkerDns WorkerTheorems WorkerRun WorkerClaims Frame FrameClaims Encap FlowLoop FlowLoopFacts FlowLoopProps FlowLoopInv FlowLoopClaims.

Section queues.
Context {E : Type} `{!EngineOps E} (config : LoopConfig).
Abbreviation Loop := (Loop (E := E)).
Abbreviation LoopM := (ST Loop unit).

(** ** Bounds *)

Record queues_bounded (l : Loop) : Prop := {
  qb_pending : (length (pi_packets (l_pending l)) ≤ 1024)%nat;
  qb_transmit : ∀ io channel, owners (l_io l) !! io = Some channel → (length (tx_queue channel) ≤ tx_capacity channel)%nat;
}.

Definition tidy {A} (c : LoopM A) : Prop := ∀ l, queues_bounded l → queues_bounded (c l).2.

Lemma tidy_bind {A B} (c : LoopM A) (f : A → LoopM B) : tidy c → (∀ a, tidy (f a)) → tidy (sbind c f).
Proof. intros Hc Hf l Hl. specialize (Hc l Hl). unfold sbind. destruct (c l) as [[a| |] l1]; [by apply Hf|done..]. Qed.

Lemma tidy_same {A} (c : LoopM A) : (∀ l, l_io (c l).2 = l_io l ∧ l_pending (c l).2 = l_pending l) → tidy c.
Proof. intros Hc l []. destruct (Hc l) as [E1 E2]. split; by rewrite ?E1, ?E2. Qed.

Lemma tidy_on_state {F A} (c : ST FlowWorkerState F A) : tidy (on_state c).
Proof. apply tidy_same. intros l. unfold on_state. by destruct (c (l_state l)) as [[]]. Qed.

Lemma tidy_advance f epoch : (∀ l, l_io (f l) = l_io l ∧ l_pending (f l) = pending_advance epoch (l_pending l)) → tidy (modify f).
Proof. intros Hf l []. destruct (Hf l) as [E1 E2]. split; simpl; rewrite ?E1, ?E2; [simpl; lia|done]. Qed.

Lemma tidy_send_io t : tidy (send_io t).
Proof.
  intros l [? Htx]. unfold send_io. destruct (registry_get (l_io l) (io_target t)) as [ch|] eqn:Hg; [|done].
  destruct (tx_connected ch); [|done]. case_decide as Hlt; [|done]. split; [done|]. intros io ch'. simpl.
  rewrite lookup_insert_Some. intros [[<- <-]|[_ H]]; [|by apply (Htx io)]. simpl. rewrite length_app. simpl. lia.
Qed.

Lemma tidy_send_all ts : tidy (send_all ts).
Proof. induction ts as [|t ts IH]; [by intros l|]. apply tidy_bind; [apply tidy_send_io|done]. Qed.

Lemma pending_push_bound epoch packet p : (length (pi_packets p) ≤ 1024 → length (pi_packets (pending_push epoch packet p).2) ≤ 1024)%nat.
Proof. intros Hp. unfold pending_push. case_decide as Hd; [done|]. simpl. rewrite length_app. simpl. lia. Qed.

Lemma tidy_send_inner now packet epoch : tidy (send_or_queue_inner now packet epoch).
Proof.
  intros l [Hp Ht]. pose proof (pending_push_bound epoch packet _ Hp). unfold send_or_queue_inner.
  destruct (engine_send_inner now packet (l_engine l)) as [[[]|[]|] en]; try done; simpl;
    destruct (pending_push epoch packet (l_pending l)) as [[] p]; by split.
Qed.

Lemma tidy_flush fuel now epoch : tidy (flush_pending fuel now epoch).
Proof.
  induction fuel as [|fuel IH]; intros l [Hp Ht]; simpl; [by repeat case_match|].
  destruct (pending_pop_front epoch (l_pending l)) as [[packet|] p] eqn:Hpop; [|done]. unfold pending_pop_front in Hpop.
  case_decide; [|done]. destruct (pi_packets (l_pending l)) as [|x xs] eqn:Hx; [done|]. injection Hpop as -> <-. simpl in Hp.
  destruct (engine_send_inner (now fuel) packet (l_engine l)) as [[[]| |] en].
  - apply IH. split; [simpl; lia|done].
  - split; [|done]. simpl. unfold pending_push_front. case_decide; simpl; lia.
  - split; [simpl; rewrite Hx; simpl; lia|done].
Qed.

(** Walks a handler. *)
Ltac tidy_step :=
  first
  [ apply tidy_on_state | apply tidy_send_io | apply tidy_send_all | apply tidy_send_inner | apply tidy_flush
  | by apply tidy_same
  | progress cbv zeta
  | apply tidy_bind; [|intros ?]
  | eapply tidy_advance; intros ?; done
  | case_match ].
Ltac tidy_walk := intros; repeat tidy_step.

Lemma tidy_publish b id : tidy (publish_reverse config b id).
Proof. apply tidy_same. intros l. unfold publish_reverse. by destruct (directory_publish _ _ _) as [[]]. Qed.

Lemma tidy_message times m epoch : tidy (handle_flow_message config times m epoch).
Proof.
  unfold handle_flow_message, client_intercept, server_intercept, local_resolver_packet, intercepted_query, client_packet, answer_dns,
    send_restored, abort_unpublished, publish_dns_reverse, publish_session, retire_session, record_stat.
  repeat first [apply tidy_publish | tidy_step].
  all: apply tidy_same; intros l; unfold modify; simpl; by repeat case_match.
Qed.

Lemma tidy_event times clock event epoch exiting : tidy (handle_event config times clock event epoch exiting).
Proof.
  destruct event as [transmit| |packet|dcid|dcid|dcid|dcids|]; simpl.
  - intros l. apply tidy_send_all.
  - intros l. apply tidy_flush.
  - unfold server_inner_packet, client_inner_packet, answer_dns, send_restored, publish_session, record_stat.
    repeat first [apply tidy_publish | tidy_step].
  - apply tidy_same. intros l. by destruct (stage_for_flow dcid (l_quic_flow l) (l_dcids l)) as [[] ?].
  - apply tidy_same. intros l. by destruct (publish_for_flow dcid (l_quic_flow l) (l_dcids l)) as [[] ?].
  - by apply tidy_same.
  - intros l []. destruct (publish_batch_for_flow dcids (l_quic_flow l) (l_dcids l)) as [[[]| |] ?]; (split; [|done]); [simpl; lia|done..].
  - unfold closed_event. repeat tidy_step.
    apply tidy_same. intros l. by destruct (engine_reconnect_client (l_engine l)) as [[] ?].
Qed.

Lemma tidy_drain fuel times clock epoch exiting : tidy (drain_engine config fuel times clock epoch exiting).
Proof.
  induction fuel as [|fuel IH]; intros l Hl; cbn [drain_engine]; [done|].
  destruct (engine_poll (times fuel 0%nat) (l_engine l)) as [[[event|] en]| |]; [|by destruct Hl; split|done|done].
  apply tidy_bind; [apply tidy_event|intros; exact IH|]. by destruct Hl; split.
Qed.

Lemma tidy_retire_sessions ss : tidy (retire_sessions config ss).
Proof. induction ss; simpl; repeat first [assumption | tidy_step]. Qed.

Lemma tidy_retire_transactions es : tidy (retire_transactions config es).
Proof. induction es; simpl; repeat first [assumption | tidy_step]. Qed.

(** C35: Nothing the loop queues grows without bound: an iteration that starts with at
    most 1024 packets waiting for the tunnel, and with every transmit queue within the
    capacity of its channel, ends so, whatever message and events it handled, and so
    does the end of the loop. *)
Theorem loop_queues_bounded (fuel : nat) (at_ : Instants) (requested : Z) (received : option FlowMessage) (exiting : bool) (epoch : Z)
    (l : Loop) :
  queues_bounded l →
  queues_bounded (flow_iteration config fuel at_ requested received exiting epoch l).2
  ∧ queues_bounded (flow_shutdown config fuel at_ epoch l).2.
Proof.
  intros Hl. split.
  - revert l Hl. change (tidy (flow_iteration config fuel at_ requested received exiting epoch)).
    unfold flow_iteration, loop_expire_idle_sessions, loop_expire_dns_transactions.
    repeat first [apply tidy_message | apply tidy_drain | apply tidy_retire_sessions | apply tidy_retire_transactions | tidy_step].
  - revert l Hl. change (tidy (flow_shutdown config fuel at_ epoch)). unfold flow_shutdown.
    repeat first [apply tidy_drain | tidy_step].
Qed.

(** ** Order *)

(** The engine accepts the packets one after the other. *)
Inductive sends : E → list bytes → E → Prop :=
| sends_nil e : sends e [] e
| sends_cons now e e1 e2 p ps : engine_send_inner now p e = (Ok tt, e1) → sends e1 ps e2 → sends e (p :: ps) e2.

(** What the packets that wait become when the tunnel is up. *)
Definition flushed (epoch : Z) (l l' : Loop) : Prop := ∃ sent rest e e',
  pi_packets (l_pending l) = sent ++ rest ∧ sends (l_engine l) sent e ∧ l' = with_pending (mkPending epoch rest) (with_engine e' l)
  ∧ (rest = [] ∧ e' = e ∨ ∃ now p rest' err, rest = p :: rest' ∧ engine_send_inner now p e = (Err err, e')).

Lemma flush_run now epoch : (∀ now p (e : E), (engine_send_inner now p e).1 ≠ Panic) → ∀ fuel l, fuel = length (pi_packets (l_pending l)) →
  pi_epoch (l_pending l) = epoch → ∃ l', flush_pending fuel now epoch l = (Ok tt, l') ∧ flushed epoch l l'.
Proof.
  intros Hnp. induction fuel as [|fuel IH]; intros l Hlen Hep.
  - destruct (pi_packets (l_pending l)) eqn:Hp; [|done]. exists l. split; [simpl; by repeat case_match|].
    exists [], [], (l_engine l), (l_engine l). split_and!; [done|constructor| |by left].
    destruct l as [? ? ? ? ? ? ? ? [ep ps]]. simpl in *. by subst.
  - destruct (pi_packets (l_pending l)) as [|p ps] eqn:Hp; [done|]. simpl in Hlen. injection Hlen as Hlen. simpl.
    unfold pending_pop_front. rewrite decide_True by done. rewrite Hp, Hep. specialize (Hnp (now fuel) p (l_engine l)).
    destruct (engine_send_inner (now fuel) p (l_engine l)) as [[[]|err|] en] eqn:Hs; simpl in Hnp; [| |done].
    + destruct (IH (with_pending (mkPending epoch ps) (with_engine en l)) Hlen eq_refl) as (l' & -> & sent & rest & e & e' & Hps & Hsend & -> & Hend).
      eexists. split; [done|]. exists (p :: sent), rest, e, e'. simpl in *. rewrite Hp, Hps.
      split_and!; [done|by econstructor|by destruct l|done].
    + eexists. split; [done|]. exists [], (p :: ps), (l_engine l), en. split_and!; [done|constructor| |right; by exists (now fuel), p, ps, err].
      unfold pending_push_front. rewrite decide_True by done. done.
Qed.

(** When the tunnel authenticates, the inner packets that waited for it are handed to
    the engine in the order they arrived, each once; if the engine refuses one, it and
    everything behind it keep waiting in the same order, and nothing is lost. *)
Theorem pending_flushed_in_order (times : nat → Z) (clock : DnsFlowTransactionKey → Z) (epoch : Z) (exiting : bool) (l : Loop) :
  (∀ now p (e : E), (engine_send_inner now p e).1 ≠ Panic) → pi_epoch (l_pending l) = epoch →
  ∃ l', handle_event config times clock EvAuthenticated epoch exiting l = (Ok tt, l') ∧ flushed epoch l l'.
Proof. intros Hnp Hep. by apply flush_run. Qed.
End queues.

Lemma loop_queues_bounded_witness :
  queues_bounded (flow_iteration sample_loop_config 3 sample_instants 0 None false 0
    (sample_loop sample_worker None (mkDirectory ∅) [InnerPacket sample_syn_sealed])).2.
Proof.
  refine (proj1 (loop_queues_bounded sample_loop_config 3 sample_instants 0 None false 0 (sample_loop sample_worker None (mkDirectory ∅)
    [InnerPacket sample_syn_sealed]) _)). split; [simpl; lia|]. intros io ch. simpl.
  intros [_ <-]%lookup_singleton_Some. simpl. lia.
Defined.

Lemma pending_flushed_in_order_witness : ∃ l',
  handle_event sample_loop_config (λ _, 0) (λ _, 0) EvAuthenticated 0 false
    (with_pending (mkPending 0 [[1]; [2]]) (sample_loop sample_worker None (mkDirectory ∅) [])) = (Ok tt, l')
  ∧ flushed 0 (with_pending (mkPending 0 [[1]; [2]]) (sample_loop sample_worker None (mkDirectory ∅) [])) l'.
Proof.
  apply (pending_flushed_in_order sample_loop_config (λ _, 0) (λ _, 0) 0 false); [done|reflexivity].
Defined.

(** ** The directory when the connection closes *)

(** The [Closed] event ends the transactions that went through the tunnel and leaves
    their entries in the directory, which [retire_quic_flow_state] and the other two
    ways to end a transaction take out. *)
Theorem closed_leaves_dns_entries {E : Type} `{!EngineOps E} (config : LoopConfig) (ports : gset Z) (listen : SocketAddr)
    (dns : DnsFlowConfig) (times : nat → Z) (clock : DnsFlowTransactionKey → Z) (epoch : Z) (l : Loop (E := E))
    (k : DnsFlowTransactionKey) (tx : DnsFlowTransaction) :
  worker_ok ports listen (l_state l) → l_dns_config l = Some dns → config_ok listen dns →
  dns_by_key (l_state l) !! k = Some tx → ft_remote tx = true →
  let l' := (handle_event config times clock EvClosed epoch true l).2 in
  dns_by_key (l_state l') !! k = None ∧ l_directory l' = l_directory l.
Proof.
  intros Hw Hd Hc Hk Hr. destruct (abort_remote_run ports (l_state l) dns clock (ok_inv _ _ _ Hw) (ok_listen _ _ _ _ Hw Hc))
    as (keys & es & w' & Hrun & _ & _ & Hin & Hb & _). simpl. unfold closed_event, modify, sbind, sget. simpl. rewrite Hd.
  unfold on_state. simpl. rewrite Hrun. simpl. split; [|done]. rewrite Hb, decide_True; [done|]. apply Hin. by exists tx.
Qed.

(** The entry of a transaction that was aborted so, on a concrete worker: the worker has no
    transaction left, and the directory still sends its flow there. *)
Definition sample_published : Loop (E := list QuicEngineEvent) :=
  (intercepted_query sample_loop_config (λ _, 0) sample_io sample_dns_query sample_config 0
     (sample_loop sample_worker (Some sample_config) (mkDirectory ∅) [])).2.

Example closed_entry_is_stale :
  let l := (handle_event sample_loop_config (λ _, 0) (λ _, 0) EvClosed 0 true sample_published).2 in
  map_to_list (dns_by_key (l_state l)) = [] ∧ map_to_list (dns_by_key (l_state sample_published)) ≠ []
  ∧ directory_lookup (l_directory l) (mkFlowKey (V4 0x09090909) (V4 0xc0000201) 53 40000 Udp)
    = Some (mkSessionLocator 3 (mkSessionId (2 ^ 63 + 1))).
Proof. vm_compute. split_and!; [done|done|reflexivity]. Qed.
