(* ===== verification/Config.v ===== *)
(** The configuration ([src/src/v1_config.rs]): the INI text, its schema, and the checks an
    appliance's configuration passes before anything starts.

    The [ipnet] crate is the interface [IpNetOps]; the file system is [FileSystem]; a
    [HashMap] is a [gmap] that is walked in an order the interface [WalkOrder] leaves
    open.  [Text.v] has the parsers of the standard library. *)
From stdpp Require Import pretty.
From S2P Require Import Prelude Net Dns Frame Text.

(** ** Interfaces *)

Class IpNetOps (IpNet : Type) : Type := {
  ipnet_parse : text → option IpNet;
  ipnet_is_v4 : IpNet → bool;
  ipnet_network : IpNet → IpAddr;
  ipnet_prefix_len : IpNet → Z;
  ipnet_new : IpAddr → Z → option IpNet;
}.

(** [std::fs]: a file's text and its length, or the message of the error. *)
Class FileSystem : Type := {
  read_to_string : text → outcome text text;
  file_len : text → outcome text Z;
}.

Abbreviation Fields := (gmap text text).
Abbreviation Sections := (gmap text Fields).

Class WalkOrder : Type := {
  walk_sections : Sections → list (text * Fields);
  walk_fields : Fields → list (text * text);
}.
Class WalkOrderLaws `{!WalkOrder} : Prop := {
  walk_sections_perm : ∀ m, walk_sections m ≡ₚ map_to_list m;
  walk_fields_perm : ∀ m, walk_fields m ≡ₚ map_to_list m;
}.

(** ** Data *)

Definition LPM_MAP_CAPACITY_PER_FAMILY : nat := Z.to_nat 65536.
Definition LPM_INTERNAL_ENTRY_RESERVE_PER_FAMILY : nat := 16.
Definition LPM_PREFIX_CAPACITY_PER_FAMILY : nat := LPM_MAP_CAPACITY_PER_FAMILY - LPM_INTERNAL_ENTRY_RESERVE_PER_FAMILY.
Definition REMOTE_DOMAIN_FILE_MAX_BYTES : Z := 4 * 1024 * 1024.
Definition REMOTE_DOMAIN_RULE_CAPACITY : nat := Z.to_nat 65536.

Inductive Role : Type := RoleClient | RoleServer.
#[global] Instance Role_eq_dec : EqDecision Role.
Proof. solve_decision. Defined.

Inductive XdpAttachMode : Type := Native | Skb.
Inductive AutoReservePorts : Type := AutoReserveNo.

Record InterfaceName : Type := mkInterfaceName { if_name : text }.
Record MacAddress : Type := mkMacAddress { mac_octets : bytes }.

Record InterceptConfig : Type := mkInterceptConfig { ic_interface : InterfaceName; ic_next_hop_mac : MacAddress }.

Record NatConfig : Type := mkNatConfig {
  address_v4 : option Z;
  address_v6 : option Z;
  nat_ports : Z * Z;
  auto_reserve_ports : AutoReservePorts;
}.

Inductive IpPolicy (IpNet : Type) : Type :=
| PolicyTunnel (prefixes : list IpNet)
| PolicyDirect (prefixes : list IpNet).
Arguments PolicyTunnel {IpNet} prefixes.
Arguments PolicyDirect {IpNet} prefixes.

Definition policy_prefixes {IpNet : Type} (p : IpPolicy IpNet) : list IpNet :=
  match p with PolicyTunnel prefixes | PolicyDirect prefixes => prefixes end.

Record DnsConfig : Type := mkDnsConfig {
  dc_listen : SocketAddr;
  dc_local_resolver : SocketAddr;
  dc_remote_resolver : SocketAddr;
  dc_remote_domains : list text;
  dc_transaction_capacity : Z;
  dc_timeout_seconds : Z;
}.

Record ApplianceConfig (IpNet : Type) : Type := mkAppliance {
  ap_role : Role;
  ap_tunnel_interface : InterfaceName;
  ap_tunnel_next_hop_mac : MacAddress;
  ap_intercepts : list InterceptConfig;
  ap_endpoint : option SocketAddr;
  ap_listen : option SocketAddr;
  ap_flow_worker_count : Z;
  ap_channel_capacity : Z;
  ap_dcid_len : Z;
  ap_stats_path : text;
  ap_shared_key : bytes;
  ap_server_certificate : option text;
  ap_server_private_key : option text;
  ap_certificate_sha256 : option bytes;
  ap_nat : NatConfig;
  ap_ip_policy : IpPolicy IpNet;
  ap_dns : option DnsConfig;
  ap_xdp_mode : XdpAttachMode;
  ap_source_path : option text;
}.
Arguments mkAppliance {IpNet}.
Arguments ap_role {IpNet}. Arguments ap_tunnel_interface {IpNet}. Arguments ap_tunnel_next_hop_mac {IpNet}.
Arguments ap_intercepts {IpNet}. Arguments ap_endpoint {IpNet}. Arguments ap_listen {IpNet}. Arguments ap_flow_worker_count {IpNet}.
Arguments ap_channel_capacity {IpNet}. Arguments ap_dcid_len {IpNet}. Arguments ap_stats_path {IpNet}. Arguments ap_shared_key {IpNet}.
Arguments ap_server_certificate {IpNet}. Arguments ap_server_private_key {IpNet}. Arguments ap_certificate_sha256 {IpNet}.
Arguments ap_nat {IpNet}. Arguments ap_ip_policy {IpNet}. Arguments ap_dns {IpNet}. Arguments ap_xdp_mode {IpNet}. Arguments ap_source_path {IpNet}.

Inductive ConfigError : Type :=
| CfgIo (message : text) | Syntax (message : text) | MissingField (field : text)
| UnknownSection (name : text) | UnknownField (section field : text) | UnsupportedLegacyField (section field : text)
| InvalidRole (value : text) | InvalidInterface (value : text) | InvalidMacAddress (value : text) | InvalidInteger (field : text)
| PlaceholderSharedKey | InvalidSocketAddress (field : text) | InvalidIpAddress (message : text) | MissingNatAddress
| InvalidAllowedIp (term : text) | AllowedIpFile (message : text) | MixedAllowedIpModes
| InvalidDns (message : text) | InvalidRemoteDomain (value : text) | DuplicateRemoteDomain (value : text)
| RemoteDomainFileTooLarge (capacity : Z) | RemoteDomainCapacity (capacity : nat)
| ServerInterceptCount | DuplicateInterface (name : text) | InvalidClientAddressing | InvalidServerAddressing | WildcardListen
| ZeroFlowWorkers | ZeroChannelCapacity | ZeroDcidLength | DcidTooLong | InsecureDcidLength
| InvalidNatPortRange | NatRangeTooSmall | InvalidAutoReservePorts | EmptyAllowedIps
| AllowedIpCapacity (family : text) (capacity : nat).

(** ** Values *)

Definition interface_parse (value : text) : outcome ConfigError InterfaceName :=
  let value := trim value in
  if decide (value = [] ∨ (15 < str_len value)%nat ∨ existsb is_whitespace value = true) then Err (InvalidInterface value)
  else Ok (mkInterfaceName value).

(** [collect::<Result<Vec<_>, _>>()] of the octets. *)
Fixpoint parse_octets (octets : list text) : option bytes :=
  match octets with
  | [] => Some []
  | o :: octets => x ← from_str_radix 16 256 o; xs ← parse_octets octets; Some (x :: xs)
  end.

Definition mac_parse (value : text) : outcome ConfigError MacAddress :=
  match parse_octets (split (is_char 58) value) with
  | None => Err (InvalidMacAddress value)
  | Some octets =>
      if decide (length octets ≠ 6)%nat then Err (InvalidMacAddress value) else
      if decide (octets = replicate 6 0 ∨ Z.land (hd 0 octets) 1 ≠ 0) then Err (InvalidMacAddress value)
      else Ok (mkMacAddress octets)
  end.

Definition is_blank (value : text) : bool := bool_decide (trim value = []).

Definition optional (fields : Fields) (field : text) : option text :=
  value ← fields !! field; if is_blank value then None else Some value.
Definition required (fields : Fields) (field : text) : outcome ConfigError text :=
  match optional fields field with Some value => Ok value | None => Err (MissingField field) end.

Definition parse_uint (limit : Z) (field : text) (value : text) : outcome ConfigError Z :=
  match from_str_radix 10 limit value with Some n => Ok n | None => Err (InvalidInteger field) end.
Definition parse_usize (fields : Fields) (field : text) : outcome ConfigError Z :=
  let? value := required fields field in parse_uint (2 ^ 64) field value.
Definition parse_u16 (fields : Fields) (field : text) : outcome ConfigError Z :=
  let? value := required fields field in parse_uint (2 ^ 16) field value.
Definition parse_optional_usize (fields : Fields) (field : text) (default : Z) : outcome ConfigError Z :=
  match optional fields field with Some value => parse_uint (2 ^ 64) field value | None => Ok default end.
Definition parse_optional_u64 (fields : Fields) (field : text) (default : Z) : outcome ConfigError Z :=
  match optional fields field with Some value => parse_uint (2 ^ 64) field value | None => Ok default end.

Definition parse_auto_reserve_ports (value : option text) : outcome ConfigError AutoReservePorts :=
  if decide (default (txt "no") (trim <$> value) = txt "no") then Ok AutoReserveNo else Err InvalidAutoReservePorts.

Definition shared_key_error : ConfigError := InvalidInteger (txt "Appliance.SharedKey").

(** The loop over the 32 bytes, [todo] of them to go. *)
Fixpoint hex_bytes (todo index : nat) (value : text) : outcome ConfigError bytes :=
  match todo with
  | O => Ok []
  | S todo =>
      let? digits := str_slice value (index * 2) (index * 2 + 2) in
      match from_str_radix 16 256 digits with
      | None => Err shared_key_error
      | Some x => let? xs := hex_bytes todo (S index) value in Ok (x :: xs)
      end
  end.
Definition parse_hex_key (value : text) : outcome ConfigError bytes :=
  if decide (str_len value ≠ 64)%nat then Err shared_key_error else hex_bytes 32 0 value.

Definition is_usable_host_address (address : IpAddr) : bool :=
  match address with
  | V4 a => bool_decide (a ≠ 0) && negb (v4_is_multicast a) && negb (v4_is_broadcast a)
  | V6 a => negb (v6_is_unspecified a) && negb (v6_is_multicast a)
  end.
Definition ip_is_unspecified (address : IpAddr) : bool :=
  match address with V4 a => bool_decide (a = 0) | V6 a => v6_is_unspecified a end.
Definition ip_is_ipv4 (address : IpAddr) : bool := match address with V4 _ => true | V6 _ => false end.

(** ** INI text *)

Definition is_comment (c : Z) : bool := bool_decide (c = 35 ∨ c = 59).
Definition line_error (message : string) (index : nat) : ConfigError := Syntax (txt message ++ txt (pretty (N.of_nat (S index)))).

(** The name in brackets, when [line] is a section header. *)
Definition section_header (line : text) : option text :=
  if starts_with [91] line && ends_with [93] line then Some (trim (removelast (tl line))) else None.

Definition ini_line (index : nat) (raw_line : text) (sections : Sections) (current : option text)
    : outcome ConfigError (Sections * option text) :=
  let line := trim (first_piece is_comment raw_line) in
  if decide (line = []) then Ok (sections, current) else
  match section_header line with
  | Some name =>
      if decide (name = [] ∨ is_Some (sections !! name)) then Err (line_error "invalid or duplicate section on line " index)
      else Ok (<[name := ∅]> sections, Some name)
  | None =>
      let? key_value := ok_or (split_once 61 line) (line_error "expected key=value on line " index) in
      let? section_name := ok_or current (line_error "field before section on line " index) in
      let? fields := expect (sections !! section_name) in
      let key := trim key_value.1 in
      if decide (key = [] ∨ is_Some (fields !! key)) then Err (line_error "invalid or duplicate field on line " index)
      else Ok (<[section_name := <[key := trim key_value.2]> fields]> sections, current)
  end.

Fixpoint ini_lines (index : nat) (raw_lines : list text) (sections : Sections) (current : option text) : outcome ConfigError Sections :=
  match raw_lines with
  | [] => Ok sections
  | raw_line :: raw_lines =>
      let? state := ini_line index raw_line sections current in
      ini_lines (S index) raw_lines state.1 state.2
  end.
Definition parse_ini (input : text) : outcome ConfigError Sections := ini_lines 0 (lines input) ∅ None.

(** ** The schema *)

Definition is_digit (c : Z) : bool := bool_decide (48 ≤ c ≤ 57).
Definition is_intercept_section (name : text) : bool :=
  if decide (name = txt "Intercept") then true else
  match strip_text_prefix (txt "Intercept.") name with
  | None => false
  | Some index => bool_decide (index ≠ []) && negb (starts_with [48] index) && forallb is_digit index
  end.

Definition legacy_sections : list text := txt <$> ["Interface"; "Peer"; "QUICPool"].
Definition known_sections : list text := txt <$> ["Appliance"; "Tunnel"; "NAT"; "AllowedIPs"; "DNS"; "XDP"].
Definition check_section (name : text) : outcome ConfigError unit :=
  if decide (name ∈ legacy_sections) then Err (UnsupportedLegacyField name (txt "*")) else
  if decide (name ∉ known_sections) then (if is_intercept_section name then Ok tt else Err (UnknownSection name)) else Ok tt.

Definition legacy_fields : list text := txt <$> ["PrivateKey"; "PublicKey"; "WgListenPort"; "Mode"].
Definition check_field (section : text) (allowed : list text) (field : text) : outcome ConfigError unit :=
  if decide (field ∈ legacy_fields ∧ section ≠ txt "XDP") then Err (UnsupportedLegacyField section field) else
  if decide (field ∉ allowed) then Err (UnknownField section field) else Ok tt.

(** A [for] loop over checks. *)
Fixpoint check_all {A : Type} (check : A → outcome ConfigError unit) (l : list A) : outcome ConfigError unit :=
  match l with
  | [] => Ok tt
  | x :: l => let? _ := check x in check_all check l
  end.

Definition section (sections : Sections) (name : text) : outcome ConfigError Fields := ok_or (sections !! name) (MissingField name).

Section schema.
Context `{!WalkOrder}.

Definition reject_unknown_sections (sections : Sections) : outcome ConfigError unit :=
  check_all (λ kv, check_section kv.1) (walk_sections sections).

Definition validate_fields (section : text) (fields : Fields) (allowed : list text) : outcome ConfigError unit :=
  check_all (λ kv, check_field section allowed kv.1) (walk_fields fields).

Definition validate_optional (name : text) (fields : option Fields) (allowed : list text) : outcome ConfigError unit :=
  match fields with Some fields => validate_fields name fields allowed | None => Ok tt end.

Definition parse_intercept (name : text) (fields : Fields) : outcome ConfigError InterceptConfig :=
  let? _ := validate_fields name fields (txt <$> ["Interface"; "NextHopMac"]) in
  let? interface := required fields (txt "Interface") in
  let? interface := interface_parse interface in
  let? mac := required fields (txt "NextHopMac") in
  let? mac := mac_parse mac in
  Ok (mkInterceptConfig interface mac).

(** The sections named [Intercept...], in the order the map is walked. *)
Fixpoint parse_intercepts (sections : list (text * Fields)) : outcome ConfigError (list InterceptConfig) :=
  match sections with
  | [] => Ok []
  | (name, fields) :: sections =>
      if starts_with (txt "Intercept") name then
        let? intercept := parse_intercept name fields in
        let? intercepts := parse_intercepts sections in
        Ok (intercept :: intercepts)
      else parse_intercepts sections
  end.
End schema.

(** ** Prefixes *)

Section policy.
Context {IpNet : Type} `{!EqDecision IpNet} `{!IpNetOps IpNet} `{!FileSystem}.

Definition is_file_term (term : text) : bool := starts_with (txt "file:") term || starts_with (txt "!file:") term.

Definition normalize_prefix (prefix : IpNet) : outcome ConfigError IpNet := expect (ipnet_new (ipnet_network prefix) (ipnet_prefix_len prefix)).

(** The loop of [parse_cidr_terms]: [prefixes] are those pushed so far, which are also the
    ones in [seen]. *)
Fixpoint cidr_terms (terms : list text) (prefixes : list IpNet) (ipv4_count ipv6_count : nat) : outcome ConfigError (list IpNet) :=
  match terms with
  | [] => Ok prefixes
  | term :: terms =>
      if is_file_term term then Err MixedAllowedIpModes else
      let? prefix := ok_or (ipnet_parse term) (InvalidAllowedIp term) in
      let? prefix := normalize_prefix prefix in
      if decide (prefix ∈ prefixes) then cidr_terms terms prefixes ipv4_count ipv6_count else
      if ipnet_is_v4 prefix then
        if decide (LPM_PREFIX_CAPACITY_PER_FAMILY < S ipv4_count)%nat
        then Err (AllowedIpCapacity (txt "IPv4") LPM_PREFIX_CAPACITY_PER_FAMILY)
        else cidr_terms terms (prefixes ++ [prefix]) (S ipv4_count) ipv6_count
      else
        if decide (LPM_PREFIX_CAPACITY_PER_FAMILY < S ipv6_count)%nat
        then Err (AllowedIpCapacity (txt "IPv6") LPM_PREFIX_CAPACITY_PER_FAMILY)
        else cidr_terms terms (prefixes ++ [prefix]) ipv4_count (S ipv6_count)
  end.
Definition parse_cidr_terms (terms : list text) : outcome ConfigError (list IpNet) :=
  let? prefixes := cidr_terms terms [] 0 0 in
  if decide (length prefixes = 0)%nat then Err EmptyAllowedIps else Ok prefixes.

(** A list of lines without their comments. *)
Definition without_comments (input : text) : list text :=
  filter (λ line, line ≠ []) ((λ line, trim (first_piece (is_char 35) line)) <$> lines input).

Definition load_cidr_file (path : text) : outcome ConfigError (list IpNet) :=
  let path := trim path in
  if decide (path = []) then Err (AllowedIpFile path) else
  let? input := map_err AllowedIpFile (read_to_string path) in
  parse_cidr_terms (without_comments input).

Definition parse_ip_policy (value : text) : outcome ConfigError (IpPolicy IpNet) :=
  let value := trim value in
  if decide (value = []) then Err EmptyAllowedIps else
  let terms := filter (λ term, term ≠ []) (trim <$> split (is_char 44) value) in
  match terms with
  | [] => Err EmptyAllowedIps
  | first :: _ =>
      let file_terms := length (filter (λ term, is_file_term term = true) terms) in
      if decide (0 < file_terms ∧ (file_terms ≠ 1 ∨ length terms ≠ 1))%nat then Err MixedAllowedIpModes else
      match strip_text_prefix (txt "file:") first with
      | Some path => let? prefixes := load_cidr_file path in Ok (PolicyTunnel prefixes)
      | None =>
          match strip_text_prefix (txt "!file:") first with
          | Some path => let? prefixes := load_cidr_file path in Ok (PolicyDirect prefixes)
          | None => let? prefixes := parse_cidr_terms terms in Ok (PolicyTunnel prefixes)
          end
      end
  end.

(** ** DNS *)

Definition domain_label (label : text) : bool :=
  bool_decide (label ≠ []) && bool_decide (str_len label ≤ 63)%nat && negb (starts_with [hyphen] label) && negb (ends_with [hyphen] label)
  && forallb (λ c, bool_decide (label_byte c)) label.

Definition normalize_domain (value : text) : outcome ConfigError text :=
  let value := trim value in
  let value := default value (strip_text_suffix [dot] value) in
  let value := lowercase value in
  if decide (value = [] ∨ (253 < str_len value)%nat ∨ 42 ∈ value) then Err (InvalidRemoteDomain value) else
  if forallb domain_label (split (is_char dot) value) then Ok value else Err (InvalidRemoteDomain value).

(** [domains] are those pushed so far, which are also the ones in [seen]. *)
Fixpoint domain_lines (input : list text) (domains : list text) : outcome ConfigError (list text) :=
  match input with
  | [] => Ok domains
  | line :: input =>
      let value := trim (first_piece (is_char 35) line) in
      if decide (value = []) then domain_lines input domains else
      let? domain := normalize_domain value in
      if decide (domain ∈ domains) then Err (DuplicateRemoteDomain domain) else
      if decide (REMOTE_DOMAIN_RULE_CAPACITY < length (domains ++ [domain]))%nat
      then Err (RemoteDomainCapacity REMOTE_DOMAIN_RULE_CAPACITY)
      else domain_lines input (domains ++ [domain])
  end.
Definition parse_remote_domain_lines (input : list text) : outcome ConfigError (list text) :=
  let? domains := domain_lines input [] in
  if decide (domains = []) then Err (InvalidRemoteDomain (txt "RemoteDomainsFile must not be empty")) else Ok domains.

Definition domain_file_error (message : text) : ConfigError := InvalidDns (txt "failed to read RemoteDomainsFile: " ++ message).
Definition load_remote_domains (path : text) : outcome ConfigError (list text) :=
  let? size := map_err domain_file_error (file_len path) in
  if decide (REMOTE_DOMAIN_FILE_MAX_BYTES < size) then Err (RemoteDomainFileTooLarge REMOTE_DOMAIN_FILE_MAX_BYTES) else
  let? input := map_err domain_file_error (read_to_string path) in
  parse_remote_domain_lines (lines input).

Definition parse_dns_socket (fields : Fields) (field : text) : outcome ConfigError SocketAddr :=
  let? value := required fields field in
  ok_or (parse_socket_addr value) (InvalidSocketAddress (txt "DNS." ++ field)).

Definition ensure_resolver_family (field : text) (address : IpAddr) (nat : NatConfig) : outcome ConfigError unit :=
  match address with
  | V4 _ => if decide (address_v4 nat = None) then Err (InvalidDns (field ++ txt " requires NAT.AddressV4")) else Ok tt
  | V6 _ => if decide (address_v6 nat = None) then Err (InvalidDns (field ++ txt " requires NAT.AddressV6")) else Ok tt
  end.

(** The addresses of the NAT as [IpAddr]s. *)
Definition is_nat_address (nat : NatConfig) (address : IpAddr) : Prop :=
  Some address = V4 <$> address_v4 nat ∨ Some address = V6 <$> address_v6 nat.
#[global] Instance is_nat_address_dec nat address : Decision (is_nat_address nat address).
Proof. unfold is_nat_address. apply _. Defined.

Definition parse_dns_config (role : Role) (fields : option Fields) (nat : NatConfig) : outcome ConfigError (option DnsConfig) :=
  match fields with
  | None => Ok None
  | Some fields =>
      if decide (role ≠ RoleClient) then Err (InvalidDns (txt "[DNS] is only valid for client configs")) else
      let? listen := parse_dns_socket fields (txt "Listen") in
      if decide (sa_port listen ≠ 53 ∨ ip_is_unspecified (sa_ip listen) = true)
      then Err (InvalidDns (txt "DNS.Listen must use a concrete UDP/53 VIP")) else
      let? local_resolver := parse_dns_socket fields (txt "LocalResolver") in
      let? remote_resolver := parse_dns_socket fields (txt "RemoteResolver") in
      if decide (sa_port local_resolver ≠ 53 ∨ sa_port remote_resolver ≠ 53)
      then Err (InvalidDns (txt "DNS resolvers must use UDP port 53")) else
      if negb (is_usable_host_address (sa_ip listen)) || negb (is_usable_host_address (sa_ip local_resolver))
         || negb (is_usable_host_address (sa_ip remote_resolver))
      then Err (InvalidDns (txt "DNS addresses must use usable unicast addresses")) else
      if decide (ip_is_ipv4 (sa_ip listen) ≠ ip_is_ipv4 (sa_ip local_resolver) ∨ ip_is_ipv4 (sa_ip listen) ≠ ip_is_ipv4 (sa_ip remote_resolver))
      then Err (InvalidDns (txt "DNS.Listen, LocalResolver and RemoteResolver must use the same address family")) else
      let? _ := ensure_resolver_family (txt "DNS.LocalResolver") (sa_ip local_resolver) nat in
      let? _ := ensure_resolver_family (txt "DNS.RemoteResolver") (sa_ip remote_resolver) nat in
      if decide (is_nat_address nat (sa_ip listen)) then Err (InvalidDns (txt "DNS.Listen must not equal a NAT address")) else
      if decide (sa_ip listen = sa_ip local_resolver ∨ sa_ip listen = sa_ip remote_resolver)
      then Err (InvalidDns (txt "DNS.Listen must not equal a resolver address")) else
      let? transaction_capacity := parse_optional_usize fields (txt "TransactionCapacity") 4096 in
      if decide (transaction_capacity = 0) then Err (InvalidDns (txt "DNS.TransactionCapacity must be greater than zero")) else
      let? timeout_seconds := parse_optional_u64 fields (txt "TimeoutSeconds") 5 in
      if decide (timeout_seconds = 0) then Err (InvalidDns (txt "DNS.TimeoutSeconds must be greater than zero")) else
      let? path := required fields (txt "RemoteDomainsFile") in
      let? remote_domains := load_remote_domains path in
      Ok (Some (mkDnsConfig listen local_resolver remote_resolver remote_domains transaction_capacity timeout_seconds))
  end.
End policy.

(** ** The whole file *)

Section appliance.
Context {IpNet : Type} `{!EqDecision IpNet} `{!IpNetOps IpNet} `{!FileSystem} `{!WalkOrder}.

(** The sections, after their names and fields were checked. *)
Record Schema : Type := mkSchema {
  sc_appliance : Fields;
  sc_tunnel : Fields;
  sc_nat : Fields;
  sc_allowed : option Fields;
  sc_dns : option Fields;
  sc_xdp : Fields;
  sc_intercepts : list InterceptConfig;
}.

Definition read_schema (sections : Sections) : outcome ConfigError Schema :=
  let? _ := reject_unknown_sections sections in
  let? appliance := section sections (txt "Appliance") in
  let? tunnel := section sections (txt "Tunnel") in
  let? nat := section sections (txt "NAT") in
  let allowed := sections !! txt "AllowedIPs" in
  let dns := sections !! txt "DNS" in
  let? xdp := section sections (txt "XDP") in
  let? _ := validate_fields (txt "Appliance") appliance
              (txt <$> ["Role"; "FlowWorkerCount"; "ChannelCapacity"; "DcidLength"; "StatsPath"; "SharedKey"]) in
  let? _ := validate_fields (txt "Tunnel") tunnel
              (txt <$> ["Interface"; "Endpoint"; "Listen"; "ServerCertificate"; "ServerPrivateKey"; "ServerCertificateSha256"; "NextHopMac"]) in
  let? _ := validate_fields (txt "NAT") nat (txt <$> ["AddressV4"; "AddressV6"; "PortStart"; "PortEnd"; "AutoReservePorts"]) in
  let? _ := validate_optional (txt "AllowedIPs") allowed [txt "Prefixes"] in
  let? _ := validate_optional (txt "DNS") dns
              (txt <$> ["Listen"; "LocalResolver"; "RemoteResolver"; "RemoteDomainsFile"; "TransactionCapacity"; "TimeoutSeconds"]) in
  let? _ := validate_fields (txt "XDP") xdp [txt "Mode"] in
  let? intercepts := parse_intercepts (walk_sections sections) in
  if decide (length intercepts = 0)%nat then Err (MissingField (txt "Intercept.Interface"))
  else Ok (mkSchema appliance tunnel nat allowed dns xdp intercepts).

Definition parse_role (appliance : Fields) : outcome ConfigError Role :=
  let? value := required appliance (txt "Role") in
  if decide (lowercase value = txt "client") then Ok RoleClient
  else if decide (lowercase value = txt "server") then Ok RoleServer else Err (InvalidRole (lowercase value)).

(** Worker count, channel capacity, identifier length and statistics path. *)
Definition parse_limits (appliance : Fields) : outcome ConfigError (Z * Z * Z * text) :=
  let? flow_worker_count := parse_usize appliance (txt "FlowWorkerCount") in
  let? channel_capacity := parse_usize appliance (txt "ChannelCapacity") in
  let? dcid_len := parse_usize appliance (txt "DcidLength") in
  let? stats_path := required appliance (txt "StatsPath") in
  if decide (flow_worker_count = 0) then Err ZeroFlowWorkers else
  if decide (channel_capacity = 0) then Err ZeroChannelCapacity else
  if decide (dcid_len = 0) then Err ZeroDcidLength else
  if decide (20 < dcid_len) then Err DcidTooLong else
  if decide (dcid_len < 8) then Err InsecureDcidLength
  else Ok (flow_worker_count, channel_capacity, dcid_len, stats_path).

(** [optional(..).map(..).transpose()]. *)
Definition optional_with {A : Type} (fields : Fields) (field : text) (p : text → option A) (e : ConfigError) : outcome ConfigError (option A) :=
  match optional fields field with
  | None => Ok None
  | Some value => match p value with Some a => Ok (Some a) | None => Err e end
  end.

Definition usable_or_none (address : option IpAddr) : bool :=
  match address with Some address => is_usable_host_address address | None => true end.

Definition parse_endpoints (role : Role) (tunnel : Fields) : outcome ConfigError (option SocketAddr * option SocketAddr) :=
  let? endpoint := optional_with tunnel (txt "Endpoint") parse_socket_addr (InvalidSocketAddress (txt "Tunnel.Endpoint")) in
  let? listen := optional_with tunnel (txt "Listen") parse_socket_addr (InvalidSocketAddress (txt "Tunnel.Listen")) in
  let sha256 := optional tunnel (txt "ServerCertificateSha256") in
  let certificate := optional tunnel (txt "ServerCertificate") in
  let private_key := optional tunnel (txt "ServerPrivateKey") in
  let? _ := match role with
            | RoleClient =>
                if decide (endpoint = None ∨ listen ≠ None ∨ sha256 = None ∨ certificate ≠ None ∨ private_key ≠ None)
                then Err InvalidClientAddressing else Ok tt
            | RoleServer =>
                if decide (listen = None ∨ endpoint ≠ None ∨ certificate = None ∨ private_key = None ∨ sha256 ≠ None)
                then Err InvalidServerAddressing else Ok tt
            end in
  if (match listen with Some a => ip_is_unspecified (sa_ip a) | None => false end) then Err WildcardListen else
  if negb (usable_or_none (sa_ip <$> endpoint))
  then Err (InvalidIpAddress (txt "Tunnel.Endpoint must use a usable unicast address")) else
  if negb (usable_or_none (sa_ip <$> listen))
  then Err (InvalidIpAddress (txt "Tunnel.Listen must use a usable unicast address"))
  else Ok (endpoint, listen).

(** The loop that refuses a repeated interface; [seen] are the names so far. *)
Fixpoint distinct_interfaces (intercepts : list InterceptConfig) (seen : list text) : outcome ConfigError unit :=
  match intercepts with
  | [] => Ok tt
  | i :: intercepts =>
      let name := if_name (ic_interface i) in
      if decide (name ∈ seen) then Err (DuplicateInterface name) else distinct_interfaces intercepts (name :: seen)
  end.
Definition check_intercepts (role : Role) (intercepts : list InterceptConfig) : outcome ConfigError unit :=
  if decide (role = RoleServer ∧ length intercepts ≠ 1%nat) then Err ServerInterceptCount else distinct_interfaces intercepts [].

(** The addresses and the port range of the NAT. *)
Definition parse_nat (nat : Fields) (flow_worker_count : Z) : outcome ConfigError (option Z * option Z * (Z * Z)) :=
  let? v4 := optional_with nat (txt "AddressV4") parse_ipv4 (InvalidIpAddress (txt "NAT.AddressV4")) in
  let? v6 := optional_with nat (txt "AddressV6") parse_ipv6 (InvalidIpAddress (txt "NAT.AddressV6")) in
  if decide (v4 = None ∧ v6 = None) then Err MissingNatAddress else
  if negb (usable_or_none (V4 <$> v4)) || negb (usable_or_none (V6 <$> v6))
  then Err (InvalidIpAddress (txt "NAT address must use a usable unicast address")) else
  let? port_start := parse_u16 nat (txt "PortStart") in
  let? port_end := parse_u16 nat (txt "PortEnd") in
  if decide (port_start = 0 ∨ port_end < port_start) then Err InvalidNatPortRange else
  if decide (port_end - port_start + 1 < flow_worker_count) then Err NatRangeTooSmall
  else Ok (v4, v6, (port_start, port_end)).

Definition parse_policy (role : Role) (allowed : option Fields) : outcome ConfigError (IpPolicy IpNet) :=
  match role, allowed with
  | RoleClient, Some allowed => let? value := required allowed (txt "Prefixes") in parse_ip_policy value
  | RoleClient, None => Err (MissingField (txt "AllowedIPs"))
  | RoleServer, Some _ => Panic
  | RoleServer, None => Ok (PolicyTunnel [])
  end.

Definition parse_xdp_mode (xdp : Fields) : outcome ConfigError XdpAttachMode :=
  let? value := required xdp (txt "Mode") in
  if decide (value = txt "native") then Ok Native
  else if decide (value = txt "skb") then Ok Skb else Err (UnknownField (txt "XDP") value).

Definition parse_shared_key (appliance : Fields) : outcome ConfigError bytes :=
  let? value := required appliance (txt "SharedKey") in
  let? shared_key := parse_hex_key value in
  if decide (shared_key = replicate 32 0) then Err PlaceholderSharedKey else Ok shared_key.

Definition parse_sha256 (tunnel : Fields) : outcome ConfigError (option bytes) :=
  match optional tunnel (txt "ServerCertificateSha256") with
  | None => Ok None
  | Some value => let? key := parse_hex_key value in Ok (Some key)
  end.

(** [endpoint.or(listen)]. *)
Definition tunnel_address (endpoint listen : option SocketAddr) : option IpAddr :=
  sa_ip <$> match endpoint with Some a => Some a | None => listen end.

Definition parse (input : text) : outcome ConfigError (ApplianceConfig IpNet) :=
  let? sections := parse_ini input in
  let? s := read_schema sections in
  let? role := parse_role (sc_appliance s) in
  if decide (role = RoleServer ∧ sc_allowed s ≠ None) then Err (UnknownSection (txt "AllowedIPs")) else
  let? limits := parse_limits (sc_appliance s) in
  let '(flow_worker_count, channel_capacity, dcid_len, stats_path) := limits in
  let? value := required (sc_tunnel s) (txt "Interface") in
  let? tunnel_interface := interface_parse value in
  let? value := required (sc_tunnel s) (txt "NextHopMac") in
  let? tunnel_next_hop_mac := mac_parse value in
  let? endpoints := parse_endpoints role (sc_tunnel s) in
  let '(endpoint, listen) := endpoints in
  let? _ := check_intercepts role (sc_intercepts s) in
  let? nat := parse_nat (sc_nat s) flow_worker_count in
  let '(v4, v6, ports) := nat in
  let? ip_policy := parse_policy role (sc_allowed s) in
  let? xdp_mode := parse_xdp_mode (sc_xdp s) in
  let? shared_key := parse_shared_key (sc_appliance s) in
  let? sha256 := parse_sha256 (sc_tunnel s) in
  let? auto_reserve := parse_auto_reserve_ports (optional (sc_nat s) (txt "AutoReservePorts")) in
  let nat_config := mkNatConfig v4 v6 ports auto_reserve in
  let tunnel_ip := tunnel_address endpoint listen in
  if (match tunnel_ip with Some ip => bool_decide (is_nat_address nat_config ip) | None => false end)
  then Err (InvalidIpAddress (txt "NAT address must not equal Tunnel.Endpoint or Tunnel.Listen")) else
  let? dns := parse_dns_config role (sc_dns s) nat_config in
  if (match dns, tunnel_ip with Some dns, Some ip => bool_decide (ip = sa_ip (dc_listen dns)) | _, _ => false end)
  then Err (InvalidDns (txt "DNS.Listen must not equal Tunnel.Endpoint or Tunnel.Listen")) else
  Ok (mkAppliance role tunnel_interface tunnel_next_hop_mac (sc_intercepts s) endpoint listen flow_worker_count channel_capacity dcid_len
        stats_path shared_key (optional (sc_tunnel s) (txt "ServerCertificate")) (optional (sc_tunnel s) (txt "ServerPrivateKey")) sha256
        nat_config ip_policy dns xdp_mode None).

Definition with_source (path : text) (c : ApplianceConfig IpNet) : ApplianceConfig IpNet :=
  mkAppliance (ap_role c) (ap_tunnel_interface c) (ap_tunnel_next_hop_mac c) (ap_intercepts c) (ap_endpoint c) (ap_listen c)
    (ap_flow_worker_count c) (ap_channel_capacity c) (ap_dcid_len c) (ap_stats_path c) (ap_shared_key c) (ap_server_certificate c)
    (ap_server_private_key c) (ap_certificate_sha256 c) (ap_nat c) (ap_ip_policy c) (ap_dns c) (ap_xdp_mode c) (Some path).
Definition load (path : text) : outcome ConfigError (ApplianceConfig IpNet) :=
  let? input := map_err CfgIo (read_to_string path) in
  let? config := parse input in
  Ok (with_source path config).

Definition with_policy (policy : IpPolicy IpNet) (dns : option DnsConfig) (c : ApplianceConfig IpNet) : ApplianceConfig IpNet :=
  mkAppliance (ap_role c) (ap_tunnel_interface c) (ap_tunnel_next_hop_mac c) (ap_intercepts c) (ap_endpoint c) (ap_listen c)
    (ap_flow_worker_count c) (ap_channel_capacity c) (ap_dcid_len c) (ap_stats_path c) (ap_shared_key c) (ap_server_certificate c)
    (ap_server_private_key c) (ap_certificate_sha256 c) (ap_nat c) policy dns (ap_xdp_mode c) (ap_source_path c).
Definition reload_policy_from_source (c : ApplianceConfig IpNet) : outcome ConfigError (ApplianceConfig IpNet) :=
  match ap_source_path c with
  | None => Ok c
  | Some path => let? reloaded := load path in Ok (with_policy (ap_ip_policy reloaded) (ap_dns reloaded) c)
  end.
End appliance.
