(* ===== verification/ConfigSample.v ===== *)
(** A configuration, with concrete prefixes, files and walk order. *)
From S2P Require Import Prelude Net Dns Frame Text Config.

(** A prefix as an address and a length. *)
Definition sample_net_new (a : IpAddr) (len : Z) : option (IpAddr * Z) :=
  if decide (0 ≤ len ≤ match a with V4 _ => 32 | V6 _ => 128 end) then Some (a, len) else None.
Definition read_net : parser (IpAddr * Z) := λ s,
  '(ip, s) ← match read_ipv4_addr s with Some (a, s) => Some (V4 a, s) | None => '(a, s) ← read_ipv6_addr s; Some (V6 a, s) end;
  '(_, s) ← read_char 47 s;
  '(len, s) ← read_number 10 256 (Some 3%nat) true s;
  net ← sample_net_new ip len; Some (net, s).
Definition clear_low (bits a : Z) : Z := a / 2 ^ bits * 2 ^ bits.
(** A value that was not read from a text is given a valid length. *)
Definition net_len (p : IpAddr * Z) : Z := Z.max 0 (Z.min p.2 (match p.1 with V4 _ => 32 | V6 _ => 128 end)).
#[global] Instance sample_ipnet : IpNetOps (IpAddr * Z) := {|
  ipnet_parse := parse_all read_net;
  ipnet_is_v4 := λ p, ip_is_ipv4 p.1;
  ipnet_network := λ p, match p.1 with V4 a => V4 (clear_low (32 - p.2) a) | V6 a => V6 (clear_low (128 - p.2) a) end;
  ipnet_prefix_len := net_len;
  ipnet_new := sample_net_new;
|}.

#[global] Instance sample_files : FileSystem := {|
  read_to_string := λ path, if decide (path = txt "/etc/domains") then Ok (txt "example.com
Corp.Example.  # internal
") else Err (txt "No such file or directory");
  file_len := λ path, if decide (path = txt "/etc/domains") then Ok 38 else Err (txt "No such file or directory");
|}.

#[global] Instance sample_walk : WalkOrder := {| walk_sections := map_to_list; walk_fields := map_to_list |}.
#[global] Instance sample_walk_laws : WalkOrderLaws.
Proof. split; done. Qed.

Definition sample_ini_with (key : text) : text := txt "# a client
[Appliance]
Role = client
FlowWorkerCount = 2
ChannelCapacity = 64
DcidLength = 8
StatsPath = /tmp/stats.json
SharedKey = " ++ key ++ txt "
[Tunnel]
Interface = eth0
NextHopMac = 02:00:00:00:00:01
Endpoint = 192.0.2.9:4433
ServerCertificateSha256 = 0202020202020202020202020202020202020202020202020202020202020202
[Intercept]
Interface = eth1
NextHopMac = 02:00:00:00:00:02
[NAT]
AddressV4 = 192.0.2.1
PortStart = 40000
PortEnd = 40003
[AllowedIPs]
Prefixes = 10.1.2.3/8, 2001:db8::/32, 10.0.0.0/8
[DNS]
Listen = 10.0.0.53:53
LocalResolver = 8.8.8.8:53
RemoteResolver = 9.9.9.9:53
RemoteDomainsFile = /etc/domains
[XDP]
Mode = skb
".
Definition sample_ini : text := sample_ini_with (txt "0101010101010101010101010101010101010101010101010101010101010101").

Definition sample_appliance : outcome ConfigError (ApplianceConfig (IpAddr * Z)) := parse sample_ini.

Example sample_appliance_accepted : is_ok sample_appliance = true.
Proof. vm_compute. reflexivity. Qed.

Example sample_appliance_read :
  match sample_appliance with
  | Ok c => policy_prefixes (ap_ip_policy c) = [(V4 0x0a000000, 8); (V6 0x20010db8000000000000000000000000, 32)]
      ∧ (dc_remote_domains <$> ap_dns c) = Some [txt "example.com"; txt "corp.example"] ∧ nat_ports (ap_nat c) = (40000, 40003)
      ∧ ap_flow_worker_count c = 2 ∧ ap_shared_key c = replicate 32 1
  | _ => False
  end.
Proof. vm_compute. split_and!; reflexivity. Qed.
