(* ===== verification/ConfigProps.v ===== *)
(** What an accepted configuration satisfies. *)
From S2P Require Import Prelude Net Dns Frame Text Config.

(** Takes the next step of an accepted computation apart. *)
Ltac accept_step H :=
  lazymatch type of H with
  | obind _ _ = Ok _ => let a := fresh "a" in let Ha := fresh "Ha" in apply obind_Ok in H as (a & Ha & H)
  | (if decide ?P then Err _ else _) = Ok _ => let Hd := fresh "Hd" in destruct (decide P) as [?|Hd]; [discriminate H|]
  | (if ?c then Err _ else _) = Ok _ => let Hc := fresh "Hc" in destruct c eqn:Hc; [discriminate H|]
  end.

(** ** Values *)

Definition mac_valid (m : MacAddress) : Prop :=
  length (mac_octets m) = 6%nat ∧ bytes_ok (mac_octets m) ∧ mac_octets m ≠ replicate 6 0 ∧ Z.even (hd 0 (mac_octets m)) = true.

Definition name_valid (n : InterfaceName) : Prop :=
  if_name n ≠ [] ∧ (str_len (if_name n) ≤ 15)%nat ∧ Forall (λ c, is_whitespace c = false) (if_name n).

Definition key_valid (k : bytes) : Prop := length k = 32%nat ∧ bytes_ok k.

Lemma interface_parse_valid value n : interface_parse value = Ok n → name_valid n.
Proof.
  unfold interface_parse. cbv zeta. intros H. accept_step H. injection H as <-. simpl. unfold name_valid. simpl.
  split_and!; [tauto|lia|]. apply Forall_forall. intros c Hc. destruct (is_whitespace c) eqn:Hw; [|done]. destruct Hd. right. right.
  apply existsb_exists. exists c. by rewrite <- list_elem_of_In.
Qed.

Lemma parse_octets_ok octets xs : parse_octets octets = Some xs → bytes_ok xs.
Proof.
  revert xs. induction octets as [|o octets IH]; intros xs; simpl; [intros [= <-]; constructor|].
  intros (x & Hx & (ys & Hys & [= <-])%bind_Some)%bind_Some. apply from_str_radix_bound in Hx; [|lia..]. constructor; [|by apply IH].
  unfold is_byte, fits. lia.
Qed.

Lemma land_1_even n : Z.land n 1 = 0 → Z.even n = true.
Proof. change 1 with (Z.ones 1). rewrite Z.land_ones by lia. change (2 ^ 1) with 2. intros H. by rewrite Zeven_mod, H. Qed.

Lemma mac_parse_valid value m : mac_parse value = Ok m → mac_valid m.
Proof.
  unfold mac_parse. destruct (parse_octets (split (is_char 58) value)) as [octets|] eqn:Ho; [|done]. intros H.
  accept_step H. accept_step H. injection H as <-. unfold mac_valid. simpl. split_and!; [lia|by eapply parse_octets_ok|tauto|].
  apply land_1_even. destruct (decide (Z.land (hd 0 octets) 1 = 0)); tauto.
Qed.

Lemma hex_bytes_valid value : ∀ todo index k, hex_bytes todo index value = Ok k → length k = todo ∧ bytes_ok k.
Proof.
  induction todo as [|todo IH]; intros index k H; simpl in H; [injection H as <-; by split; [|constructor]|]. accept_step H.
  destruct (from_str_radix 16 256 a) as [x|] eqn:Hx; [|done]. accept_step H. injection H as <-.
  apply from_str_radix_bound in Hx; [|lia..]. apply IH in Ha0 as [Hl Hb]. split; [by simpl; rewrite Hl|]. constructor; [|done].
  unfold is_byte, fits. lia.
Qed.

Lemma parse_hex_key_valid value k : parse_hex_key value = Ok k → key_valid k.
Proof. unfold parse_hex_key. intros H. accept_step H. by apply hex_bytes_valid in H. Qed.

(** ** Prefixes and domains *)

Section lists.
Context {IpNet : Type} `{!EqDecision IpNet} `{!IpNetOps IpNet} `{!FileSystem}.

(** The two families in a list of prefixes. *)
Definition family_count (v4 : bool) (prefixes : list IpNet) : nat := length (filter (λ p, ipnet_is_v4 p = v4) prefixes).

Lemma capacity_value : Z.of_nat LPM_PREFIX_CAPACITY_PER_FAMILY = 65520.
Proof. vm_compute. reflexivity. Qed.

Lemma rule_capacity_value : Z.of_nat REMOTE_DOMAIN_RULE_CAPACITY = 65536.
Proof. vm_compute. reflexivity. Qed.
#[local] Opaque LPM_PREFIX_CAPACITY_PER_FAMILY REMOTE_DOMAIN_RULE_CAPACITY.

(** A list of prefixes that fits the maps of the data plane. *)
Definition prefixes_valid (prefixes : list IpNet) : Prop :=
  NoDup prefixes ∧ Z.of_nat (family_count true prefixes) ≤ 65520 ∧ Z.of_nat (family_count false prefixes) ≤ 65520
  ∧ ∀ p, p ∈ prefixes → ∃ term p0, ipnet_parse term = Some p0 ∧ ipnet_new (ipnet_network p0) (ipnet_prefix_len p0) = Some p.

Lemma family_count_snoc v4 prefixes p :
  family_count v4 (prefixes ++ [p]) = (family_count v4 prefixes + if decide (ipnet_is_v4 p = v4) then 1 else 0)%nat.
Proof. unfold family_count. rewrite filter_app, length_app, filter_cons, filter_nil. by case_decide. Qed.

Lemma cidr_terms_valid terms : ∀ prefixes n4 n6 out, prefixes_valid prefixes → family_count true prefixes = n4 → family_count false prefixes = n6 →
  cidr_terms terms prefixes n4 n6 = Ok out → prefixes_valid out.
Proof.
  induction terms as [|term terms IH]; intros prefixes n4 n6 out Hv H4 H6 Hrun; cbn [cidr_terms] in Hrun; [by injection Hrun as <-|].
  accept_step Hrun. accept_step Hrun. accept_step Hrun. rename a into p0, a0 into p.
  destruct (ipnet_parse term) as [x|] eqn:Hp; [|done]. injection Ha as ->.
  unfold normalize_prefix in Ha0. destruct (ipnet_new _ _) as [x|] eqn:Hn; [|done]. injection Ha0 as ->.
  case_decide as Hin; [by eapply IH|]. destruct Hv as (Hnd & C4 & C6 & Hsrc).
  assert (NoDup (prefixes ++ [p])) as Hnd'.
  { apply NoDup_app. split_and!; [done| |apply NoDup_singleton]. intros x Hx ->%list_elem_of_singleton. exact (Hin Hx). }
  assert (∀ q, q ∈ prefixes ++ [p] → ∃ term p0, ipnet_parse term = Some p0 ∧ ipnet_new (ipnet_network p0) (ipnet_prefix_len p0) = Some q) as Hsrc'.
  { intros q [Hq| ->%list_elem_of_singleton]%elem_of_app; [exact (Hsrc q Hq)|]. exists term, p0. split; assumption. }
  pose proof capacity_value as Hcap. pose proof (family_count_snoc true prefixes p) as F4. pose proof (family_count_snoc false prefixes p) as F6.
  destruct (ipnet_is_v4 p) eqn:Hf; accept_step Hrun.
  - rewrite decide_True in F4 by reflexivity. rewrite decide_False in F6 by discriminate.
    apply (IH (prefixes ++ [p]) (S n4) n6); [|lia|lia|exact Hrun]. split_and!; [exact Hnd'|lia|lia|exact Hsrc'].
  - rewrite decide_False in F4 by discriminate. rewrite decide_True in F6 by reflexivity.
    apply (IH (prefixes ++ [p]) n4 (S n6)); [|lia|lia|exact Hrun]. split_and!; [exact Hnd'|lia|lia|exact Hsrc'].
Qed.

Lemma parse_cidr_terms_valid terms out : parse_cidr_terms terms = Ok out → prefixes_valid out ∧ out ≠ [].
Proof.
  unfold parse_cidr_terms. intros Hrun. accept_step Hrun. accept_step Hrun. injection Hrun as <-. split; [|by intros ->].
  eapply cidr_terms_valid; [|done..| exact Ha]. split_and!; [constructor|unfold family_count; simpl; lia..|].
  intros p Hp. by apply not_elem_of_nil in Hp.
Qed.

Lemma parse_ip_policy_valid value policy : parse_ip_policy value = Ok policy →
  prefixes_valid (policy_prefixes policy) ∧ policy_prefixes policy ≠ [].
Proof.
  unfold parse_ip_policy. cbv zeta. intros Hrun. accept_step Hrun. destruct (filter _ _) as [|first terms]; [done|]. accept_step Hrun.
  assert (∀ path out, load_cidr_file path = Ok out → prefixes_valid out ∧ out ≠ []) as Hload.
  { intros path out Hl. unfold load_cidr_file in Hl. cbv zeta in Hl. accept_step Hl. accept_step Hl. by apply parse_cidr_terms_valid in Hl. }
  destruct (strip_text_prefix (txt "file:") first); [|destruct (strip_text_prefix (txt "!file:") first)]; accept_step Hrun; injection Hrun as <-; simpl.
  - by eapply Hload.
  - by eapply Hload.
  - by eapply parse_cidr_terms_valid.
Qed.

(** A domain in the form the DNS component compares. *)
Definition domain_valid (d : text) : Prop :=
  d ≠ [] ∧ (str_len d ≤ 253)%nat ∧ Forall (λ label, domain_label label = true) (split (is_char dot) d) ∧ lowercase d = d.

Lemma lowercase_idem s : lowercase (lowercase s) = lowercase s.
Proof.
  unfold lowercase. rewrite <- list_fmap_compose. apply list_fmap_ext. intros i c _. simpl. unfold to_ascii_lowercase.
  repeat case_decide; lia.
Qed.

Lemma normalize_domain_valid value d : normalize_domain value = Ok d → domain_valid d.
Proof.
  unfold normalize_domain. cbv zeta. intros Hrun. accept_step Hrun. destruct (forallb domain_label _) eqn:Hl; [|done]. injection Hrun as <-.
  split_and!; [tauto|lia| |apply lowercase_idem]. apply Forall_forall. intros label Hlab. rewrite forallb_forall in Hl.
  apply Hl. by apply list_elem_of_In.
Qed.

Definition domains_valid (ds : list text) : Prop :=
  ds ≠ [] ∧ NoDup ds ∧ Z.of_nat (length ds) ≤ 65536 ∧ Forall domain_valid ds.

Lemma domain_lines_valid input : ∀ ds out, NoDup ds → Z.of_nat (length ds) ≤ 65536 → Forall domain_valid ds →
  domain_lines input ds = Ok out → NoDup out ∧ Z.of_nat (length out) ≤ 65536 ∧ Forall domain_valid out.
Proof.
  induction input as [|line input IH]; intros ds out Hnd Hlen Hv Hrun; cbn [domain_lines] in Hrun; [by injection Hrun as <-|]. cbv zeta in Hrun.
  case_decide; [by eapply IH|]. accept_step Hrun. accept_step Hrun. accept_step Hrun. eapply IH in Hrun; [done|..].
  - apply NoDup_app. split_and!; [done| |apply NoDup_singleton]. intros x Hx ->%list_elem_of_singleton. exact (Hd Hx).
  - pose proof rule_capacity_value. lia.
  - apply Forall_app. split; [done|]. apply Forall_singleton. by eapply normalize_domain_valid.
Qed.

Lemma load_remote_domains_valid path out : load_remote_domains path = Ok out → domains_valid out.
Proof.
  unfold load_remote_domains, parse_remote_domain_lines. intros Hrun. accept_step Hrun. accept_step Hrun. accept_step Hrun. accept_step Hrun. accept_step Hrun.
  injection Hrun as <-. apply domain_lines_valid in Ha1 as (? & ? & ?); [by split|constructor|simpl; lia|constructor].
Qed.
End lists.

(** ** The whole configuration *)

Section whole.
Context {IpNet : Type} `{!EqDecision IpNet} `{!IpNetOps IpNet} `{!FileSystem} `{!WalkOrder}.

Definition address_valid (a : IpAddr) : Prop := ip_ok a ∧ is_usable_host_address a = true.

Record nat_valid (n : NatConfig) : Prop := {
  nv_some : address_v4 n ≠ None ∨ address_v6 n ≠ None;
  nv_v4 : ∀ a, address_v4 n = Some a → address_valid (V4 a);
  nv_v6 : ∀ a, address_v6 n = Some a → address_valid (V6 a);
  nv_ports : 1 ≤ (nat_ports n).1 ≤ (nat_ports n).2 ∧ (nat_ports n).2 < 65536;
}.

(** The NAT has an address of the family of [a]. *)
Definition nat_family (n : NatConfig) (a : IpAddr) : Prop :=
  match a with V4 _ => address_v4 n ≠ None | V6 _ => address_v6 n ≠ None end.

Record dns_valid (n : NatConfig) (d : DnsConfig) : Prop := {
  dv_listen : address_valid (sa_ip (dc_listen d)) ∧ sa_port (dc_listen d) = 53;
  dv_local : address_valid (sa_ip (dc_local_resolver d)) ∧ sa_port (dc_local_resolver d) = 53 ∧ nat_family n (sa_ip (dc_local_resolver d));
  dv_remote : address_valid (sa_ip (dc_remote_resolver d)) ∧ sa_port (dc_remote_resolver d) = 53 ∧ nat_family n (sa_ip (dc_remote_resolver d));
  dv_family : ip_is_ipv4 (sa_ip (dc_listen d)) = ip_is_ipv4 (sa_ip (dc_local_resolver d))
    ∧ ip_is_ipv4 (sa_ip (dc_listen d)) = ip_is_ipv4 (sa_ip (dc_remote_resolver d));
  dv_distinct : ¬ is_nat_address n (sa_ip (dc_listen d)) ∧ sa_ip (dc_listen d) ≠ sa_ip (dc_local_resolver d)
    ∧ sa_ip (dc_listen d) ≠ sa_ip (dc_remote_resolver d);
  dv_limits : 1 ≤ dc_transaction_capacity d < 2 ^ 64 ∧ 1 ≤ dc_timeout_seconds d < 2 ^ 64;
  dv_domains : domains_valid (dc_remote_domains d);
}.

(** What the role asks of the rest. *)
Definition role_valid (c : ApplianceConfig IpNet) : Prop :=
  match ap_role c with
  | RoleClient => ap_endpoint c ≠ None ∧ ap_listen c = None ∧ ap_server_certificate c = None ∧ ap_server_private_key c = None
      ∧ (∃ sha, ap_certificate_sha256 c = Some sha ∧ key_valid sha)
      ∧ prefixes_valid (policy_prefixes (ap_ip_policy c)) ∧ policy_prefixes (ap_ip_policy c) ≠ []
  | RoleServer => ap_listen c ≠ None ∧ ap_endpoint c = None ∧ ap_server_certificate c ≠ None ∧ ap_server_private_key c ≠ None
      ∧ ap_certificate_sha256 c = None ∧ ap_ip_policy c = PolicyTunnel [] ∧ ap_dns c = None ∧ length (ap_intercepts c) = 1%nat
  end.

Record appliance_valid (c : ApplianceConfig IpNet) : Prop := {
  av_workers : 1 ≤ ap_flow_worker_count c ≤ (nat_ports (ap_nat c)).2 - (nat_ports (ap_nat c)).1 + 1;
  av_channel : 1 ≤ ap_channel_capacity c < 2 ^ 64;
  av_dcid : 8 ≤ ap_dcid_len c ≤ 20;
  av_key : key_valid (ap_shared_key c) ∧ ap_shared_key c ≠ replicate 32 0;
  av_tunnel : name_valid (ap_tunnel_interface c) ∧ mac_valid (ap_tunnel_next_hop_mac c);
  av_intercepts : ap_intercepts c ≠ [] ∧ NoDup ((λ i, if_name (ic_interface i)) <$> ap_intercepts c)
    ∧ Forall (λ i, name_valid (ic_interface i) ∧ mac_valid (ic_next_hop_mac i)) (ap_intercepts c);
  av_endpoint : ∀ a, ap_endpoint c = Some a ∨ ap_listen c = Some a → address_valid (sa_ip a) ∧ fits 16 (sa_port a)
    ∧ ¬ is_nat_address (ap_nat c) (sa_ip a) ∧ ∀ d, ap_dns c = Some d → sa_ip a ≠ sa_ip (dc_listen d);
  av_nat : nat_valid (ap_nat c);
  av_dns : ∀ d, ap_dns c = Some d → dns_valid (ap_nat c) d;
  av_role : role_valid c;
}.

Lemma parse_uint_bound limit field value n : 0 < limit → parse_uint limit field value = Ok n → 0 ≤ n < limit.
Proof. intros Hl. unfold parse_uint. destruct (from_str_radix 10 limit value) eqn:Hr; [|done]. intros [= <-]. by apply (from_str_radix_bound 10 limit value). Qed.

Lemma parse_dns_socket_ok fields field a : parse_dns_socket fields field = Ok a → ip_ok (sa_ip a) ∧ fits 16 (sa_port a).
Proof.
  unfold parse_dns_socket. intros Hrun. accept_step Hrun. destruct (parse_socket_addr a0) eqn:Hp; [|done]. injection Hrun as <-.
  by eapply parse_socket_addr_ok.
Qed.

Lemma ensure_family_ok field a n : ensure_resolver_family field a n = Ok tt → nat_family n a.
Proof. unfold ensure_resolver_family, nat_family. destruct a; intros Hrun; by accept_step Hrun. Qed.

Lemma parse_dns_config_valid role fields n d : parse_dns_config role fields n = Ok (Some d) → role = RoleClient ∧ dns_valid n d.
Proof.
  unfold parse_dns_config. destruct fields as [fields|]; [|done]. intros Hrun. accept_step Hrun.
  accept_step Hrun. rename a into listen, Ha into Hlisten. accept_step Hrun.
  accept_step Hrun. rename a into local, Ha into Hlocal. accept_step Hrun. rename a into remote, Ha into Hremote.
  accept_step Hrun. accept_step Hrun. accept_step Hrun. accept_step Hrun. accept_step Hrun. accept_step Hrun. accept_step Hrun.
  destruct a, a0. apply ensure_family_ok in Ha, Ha0.
  accept_step Hrun. rename a into capacity, Ha1 into Hcap. accept_step Hrun. accept_step Hrun. rename a into timeout, Ha1 into Htime.
  accept_step Hrun. accept_step Hrun. accept_step Hrun. injection Hrun as <-.
  apply parse_dns_socket_ok in Hlisten as [? ?], Hlocal as [? ?], Hremote as [? ?].
  apply orb_false_iff in Hc as [[Hc1 Hc2]%orb_false_iff Hc3]. apply negb_false_iff in Hc1, Hc2, Hc3.
  assert (0 ≤ capacity < 2 ^ 64) as Hcap'.
  { unfold parse_optional_usize in Hcap. destruct (optional fields (txt "TransactionCapacity")); [by apply parse_uint_bound in Hcap|].
    injection Hcap as <-. lia. }
  assert (0 ≤ timeout < 2 ^ 64) as Htime'.
  { unfold parse_optional_u64 in Htime. destruct (optional fields (txt "TimeoutSeconds")); [by apply parse_uint_bound in Htime|].
    injection Htime as <-. lia. }
  split; [destruct role; [reflexivity|destruct Hd; discriminate]|].
  split; simpl; [split; [done|lia]|split_and!; [done|lia|done]|split_and!; [done|lia|done]| | |lia|].
  - split; apply dec_stable; tauto.
  - tauto.
  - by eapply load_remote_domains_valid.
Qed.

Lemma parse_intercepts_valid ss out : parse_intercepts ss = Ok out →
  Forall (λ i, name_valid (ic_interface i) ∧ mac_valid (ic_next_hop_mac i)) out.
Proof.
  revert out. induction ss as [|[name fields] ss IH]; intros out; simpl; [intros [= <-]; constructor|].
  destruct (starts_with (txt "Intercept") name); [|apply IH]. intros Hrun. accept_step Hrun. accept_step Hrun. injection Hrun as <-.
  constructor; [|by apply IH]. unfold parse_intercept in Ha. do 5 accept_step Ha. injection Ha as <-. simpl.
  split; [by eapply interface_parse_valid|by eapply mac_parse_valid].
Qed.

Lemma read_schema_valid sections sc : read_schema sections = Ok sc → sc_intercepts sc ≠ []
  ∧ Forall (λ i, name_valid (ic_interface i) ∧ mac_valid (ic_next_hop_mac i)) (sc_intercepts sc).
Proof.
  unfold read_schema. cbv zeta. intros Hrun. do 13 accept_step Hrun. injection Hrun as <-. cbn [sc_intercepts].
  split; [intros ->; by apply Hd|by eapply parse_intercepts_valid].
Qed.

Lemma parse_limits_valid fields w ch dcid path : parse_limits fields = Ok (w, ch, dcid, path) →
  1 ≤ w < 2 ^ 64 ∧ 1 ≤ ch < 2 ^ 64 ∧ 8 ≤ dcid ≤ 20.
Proof.
  assert (∀ fields field n, parse_usize fields field = Ok n → 0 ≤ n < 2 ^ 64) as Hu.
  { intros fs f n Hrun. unfold parse_usize in Hrun. accept_step Hrun. by apply parse_uint_bound in Hrun. }
  unfold parse_limits. intros Hrun. do 9 accept_step Hrun. injection Hrun as <- <- <- _. apply Hu in Ha, Ha0, Ha1. lia.
Qed.

Lemma optional_with_Some {A} fields field (p : text → option A) e a : optional_with fields field p e = Ok (Some a) →
  ∃ value, optional fields field = Some value ∧ p value = Some a.
Proof. unfold optional_with. destruct (optional fields field) as [v|]; [|done]. destruct (p v) eqn:Hp; [|done]. intros [= <-]. by exists v. Qed.

(** What the addresses of the tunnel and the certificate fields satisfy together. *)
Definition endpoints_valid (role : Role) (tunnel : Fields) (endpoint listen : option SocketAddr) : Prop :=
  match role with
  | RoleClient => endpoint ≠ None ∧ listen = None ∧ optional tunnel (txt "ServerCertificateSha256") ≠ None
      ∧ optional tunnel (txt "ServerCertificate") = None ∧ optional tunnel (txt "ServerPrivateKey") = None
  | RoleServer => listen ≠ None ∧ endpoint = None ∧ optional tunnel (txt "ServerCertificateSha256") = None
      ∧ optional tunnel (txt "ServerCertificate") ≠ None ∧ optional tunnel (txt "ServerPrivateKey") ≠ None
  end.

Lemma parse_endpoints_valid role tunnel endpoint listen : parse_endpoints role tunnel = Ok (endpoint, listen) →
  endpoints_valid role tunnel endpoint listen
  ∧ ∀ a, endpoint = Some a ∨ listen = Some a → address_valid (sa_ip a) ∧ fits 16 (sa_port a).
Proof.
  unfold parse_endpoints. cbv zeta. intros Hrun. accept_step Hrun. accept_step Hrun. accept_step Hrun. accept_step Hrun. accept_step Hrun.
  accept_step Hrun. injection Hrun as -> ->. split.
  - unfold endpoints_valid. destruct role; accept_step Ha1; split_and!; apply dec_stable; tauto.
  - apply negb_false_iff in Hc0, Hc1.
    intros a [-> | ->]; [apply optional_with_Some in Ha as (v & _ & Hp)|apply optional_with_Some in Ha0 as (v & _ & Hp)];
      apply parse_socket_addr_ok in Hp as [? ?]; by split_and!.
Qed.

Lemma check_intercepts_valid role is_ : check_intercepts role is_ = Ok tt →
  NoDup ((λ i, if_name (ic_interface i)) <$> is_) ∧ (role = RoleServer → length is_ = 1%nat).
Proof.
  unfold check_intercepts. intros Hrun. accept_step Hrun. split; [|intros ->; apply dec_stable; tauto].
  assert (∀ l seen, distinct_interfaces l seen = Ok tt → NoDup ((λ i, if_name (ic_interface i)) <$> l)
    ∧ ∀ i, i ∈ l → if_name (ic_interface i) ∉ seen) as Hd'.
  { clear. induction l as [|i l IH]; intros seen Hrun; simpl in *; [split; [constructor|intros i Hi; by apply not_elem_of_nil in Hi]|].
    accept_step Hrun. apply IH in Hrun as [Hn Hs]. split.
    - constructor; [|done]. intros (j & Hj & Hin)%list_elem_of_fmap. apply (Hs j Hin). rewrite <- Hj. by left.
    - intros j [->|Hj]%elem_of_cons; [done|]. intros Hx. apply (Hs j Hj). by right. }
  by apply Hd' in Hrun as [? _].
Qed.

Lemma parse_nat_valid fields w v4 v6 ports reserve : parse_nat fields w = Ok (v4, v6, ports) →
  nat_valid (mkNatConfig v4 v6 ports reserve) ∧ w ≤ ports.2 - ports.1 + 1.
Proof.
  assert (∀ fields field n, parse_u16 fields field = Ok n → 0 ≤ n < 65536) as Hu.
  { intros fs f n Hrun. unfold parse_u16 in Hrun. accept_step Hrun. by apply parse_uint_bound in Hrun. }
  unfold parse_nat. intros Hrun. do 8 accept_step Hrun. injection Hrun as -> -> <-. apply Hu in Ha1, Ha2. simpl. split; [|lia].
  apply orb_false_iff in Hc as [Hc1%negb_false_iff Hc2%negb_false_iff]. split; simpl.
  - destruct v4; [by left|]. destruct v6; [by right|tauto].
  - intros a ->. apply optional_with_Some in Ha as (v & _ & Hp). by split; [apply (parse_ipv4_ok v)|].
  - intros a ->. apply optional_with_Some in Ha0 as (v & _ & Hp). by split; [apply (parse_ipv6_ok v)|].
  - lia.
Qed.

Lemma parse_policy_valid role allowed policy : parse_policy role allowed = Ok policy →
  match role with
  | RoleClient => prefixes_valid (policy_prefixes policy) ∧ policy_prefixes policy ≠ []
  | RoleServer => policy = PolicyTunnel []
  end.
Proof.
  unfold parse_policy. destruct role, allowed; try done; [|by intros [= <-]]. intros Hrun. accept_step Hrun. by eapply parse_ip_policy_valid.
Qed.

Lemma parse_sha256_valid tunnel sha : parse_sha256 tunnel = Ok sha →
  match optional tunnel (txt "ServerCertificateSha256") with
  | None => sha = None
  | Some _ => ∃ k, sha = Some k ∧ key_valid k
  end.
Proof.
  unfold parse_sha256. destruct (optional _ _); [|by intros [= <-]]. intros Hrun. accept_step Hrun. injection Hrun as <-.
  eexists. split; [done|]. by eapply parse_hex_key_valid.
Qed.
End whole.
