(* ===== verification/ConfigSafety.v ===== *)
(** No text makes the configuration parser panic, as long as its characters are ASCII. *)
From S2P Require Import Prelude Net Dns Frame Text Config ConfigSample ConfigProps.

Definition ascii (s : text) : Prop := Forall (λ c, c < 128) s.

Lemma ascii_subset s t : s ⊆ t → ascii t → ascii s.
Proof. unfold ascii. rewrite !Forall_forall. auto. Qed.

(** ** Parts of a text *)

Lemma trim_start_subset s : trim_start s ⊆ s.
Proof. induction s as [|c s IH]; simpl; [done|]. destruct (is_whitespace c); [|done]. intros x Hx. right. by apply IH. Qed.
Lemma trim_subset s : trim s ⊆ s.
Proof.
  unfold trim, trim_end. intros x Hx%list_elem_of_In%in_rev%list_elem_of_In%trim_start_subset%list_elem_of_In.
  apply trim_start_subset, list_elem_of_In. by apply in_rev.
Qed.

Lemma split_subset p s piece : piece ∈ split p s → piece ⊆ s.
Proof.
  revert piece. induction s as [|c s IH]; intros piece; simpl; [by intros ->%list_elem_of_singleton|].
  assert (∀ l : text, l ⊆ s → l ⊆ c :: s) as Hs by (intros l Hl x Hx; right; by apply Hl).
  destruct (p c).
  - intros [->|Hp]%elem_of_cons; [intros x Hx; by apply not_elem_of_nil in Hx|]. by apply Hs, IH.
  - destruct (split p s) as [|y ys]; [intros ->%list_elem_of_singleton; intros x ->%list_elem_of_singleton; by left|].
    intros [->|Hp]%elem_of_cons; [|apply Hs, IH; by right]. intros x [->|Hx]%elem_of_cons; [by left|]. right. eapply IH; [by left|done].
Qed.
Lemma split_nonempty p s : split p s ≠ [].
Proof. destruct s as [|c s]; simpl; [done|]. destruct (p c); [done|]. by destruct (split p s). Qed.
Lemma first_piece_subset p s : first_piece p s ⊆ s.
Proof. unfold first_piece. pose proof (split_nonempty p s). destruct (split p s) eqn:Hs; [done|]. apply (split_subset p). rewrite Hs. by left. Qed.

Lemma split_once_subset c s a r : split_once c s = Some (a, r) → a ⊆ s ∧ r ⊆ s.
Proof.
  revert a r. induction s as [|x s IH]; intros a r; simpl; [done|]. case_decide.
  - intros [= <- <-]. split; [intros y Hy; by apply not_elem_of_nil in Hy|]. intros y Hy. by right.
  - destruct (split_once c s) as [[a' r']|]; [|done]. intros [= <- <-]. destruct (IH a' r' eq_refl) as [H1 H2]. split.
    + intros y [->|Hy]%elem_of_cons; [by left|]. right. by apply H1.
    + intros y Hy. right. by apply H2.
Qed.

Lemma strip_prefix_subset p s r : strip_text_prefix p s = Some r → r ⊆ s.
Proof.
  revert s. induction p as [|x p IH]; intros s; simpl; [by intros [= <-]|]. destruct s as [|c s]; [done|]. case_decide; [|done].
  intros Hr%IH y Hy. right. by apply Hr.
Qed.
Lemma strip_cr_subset s : strip_cr s ⊆ s.
Proof.
  unfold strip_cr, strip_text_suffix. destruct (strip_text_prefix (rev [13]) (rev s)) as [r|] eqn:Hr; simpl; [|done].
  apply strip_prefix_subset in Hr. intros x Hx%list_elem_of_In%in_rev%list_elem_of_In%Hr%list_elem_of_In. apply list_elem_of_In. by apply in_rev.
Qed.
Lemma lines_of_subset ps line : line ∈ lines_of ps → ∃ piece, piece ∈ ps ∧ line ⊆ piece.
Proof.
  induction ps as [|p ps IH]; simpl; [by intros ?%not_elem_of_nil|].
  destruct ps as [|q ps]; [destruct p as [|c p]; [by intros ?%not_elem_of_nil|]; intros ->%list_elem_of_singleton; eexists; by split; [left|]|].
  assert (line ∈ strip_cr p :: lines_of (q :: ps) → ∃ piece, piece ∈ p :: q :: ps ∧ line ⊆ piece) as Hgo.
  { intros [->|Hl]%elem_of_cons; [exists p; split; [by left|apply strip_cr_subset]|]. destruct (IH Hl) as (x & ? & ?). exists x. by split; [right|]. }
  destruct p; exact Hgo.
Qed.
Lemma lines_subset s line : line ∈ lines s → line ⊆ s.
Proof. intros (piece & Hp & Hl)%lines_of_subset. apply split_subset in Hp. by etransitivity. Qed.

(** ** Keys *)

Lemma skip_bytes_ascii s : ascii s → ∀ n, (n ≤ length s)%nat → skip_bytes n s = Some (drop n s).
Proof.
  induction 1 as [|c s Hc _ IH]; intros n Hn; destruct n as [|n]; simpl in *; try done; [lia|]. unfold char_len.
  rewrite (decide_True (P := c < 128)) by done. rewrite decide_True by lia. replace (S n - 1)%nat with n by lia. apply IH. lia.
Qed.
Lemma take_bytes_ascii s : ascii s → ∀ n, (n ≤ length s)%nat → take_bytes n s = Some (take n s).
Proof.
  induction 1 as [|c s Hc _ IH]; intros n Hn; destruct n as [|n]; simpl in *; try done; [lia|]. unfold char_len.
  rewrite (decide_True (P := c < 128)) by done. rewrite decide_True by lia. replace (S n - 1)%nat with n by lia. rewrite IH by lia. done.
Qed.
Lemma str_len_ascii s : ascii s → str_len s = length s.
Proof. induction 1 as [|c s Hc _ IH]; simpl; [done|]. unfold char_len. rewrite decide_True by done. lia. Qed.

Lemma str_slice_ascii {E} s lo hi : ascii s → (lo ≤ hi ≤ length s)%nat → str_slice (E := E) s lo hi = Ok (take (hi - lo) (drop lo s)).
Proof.
  intros Hs Hle. unfold str_slice. rewrite decide_True by lia. rewrite skip_bytes_ascii by (done || lia). cbn [mbind option_bind].
  rewrite take_bytes_ascii; [done| |rewrite length_drop; lia]. eapply ascii_subset; [|exact Hs]. apply subseteq_drop.
Qed.

Lemma hex_bytes_no_panic value : ascii value → ∀ todo index, (index * 2 + todo * 2 ≤ length value)%nat → no_panic (hex_bytes todo index value).
Proof.
  intros Hv. induction todo as [|todo IH]; intros index Hle; cbn [hex_bytes]; [done|]. rewrite str_slice_ascii by (done || lia). cbn [obind].
  destruct (from_str_radix 16 256 _); [|done]. apply no_panic_obind; [apply IH; lia|done].
Qed.
Lemma parse_hex_key_no_panic value : ascii value → no_panic (parse_hex_key value).
Proof.
  intros Hv. unfold parse_hex_key. case_decide as Hd; [done|]. apply hex_bytes_no_panic; [done|]. rewrite <- str_len_ascii by done.
  destruct (decide (str_len value = 64)%nat); [lia|tauto].
Qed.

(** ** The INI text *)

Definition values_ascii (sections : Sections) : Prop := ∀ name fields k v, sections !! name = Some fields → fields !! k = Some v → ascii v.
Definition current_present (sections : Sections) (current : option text) : Prop := ∀ n, current = Some n → is_Some (sections !! n).

Lemma ini_line_safe index raw sections current : ascii raw → values_ascii sections → current_present sections current →
  match ini_line index raw sections current with
  | Ok (sections', current') => values_ascii sections' ∧ current_present sections' current'
  | Err _ => True
  | Panic => False
  end.
Proof.
  intros Hraw Hv Hc. unfold ini_line. cbv zeta. set (line := trim (first_piece is_comment raw)). case_decide; [done|].
  assert (ascii line) as Hline.
  { eapply ascii_subset; [|exact Hraw]. etransitivity; [apply trim_subset|apply first_piece_subset]. }
  destruct (section_header line) as [name|]; [case_decide; [done|]|].
  - split; [|intros n [= <-]; by rewrite lookup_insert_eq]. intros n fields k v. rewrite lookup_insert_Some.
    intros [[_ <-]|[_ Hs]]; [done|by eapply Hv].
  - destruct (split_once 61 line) as [[a r]|] eqn:Hsp; [|done]. destruct current as [n|]; [|done]. cbn [ok_or obind fst snd].
    destruct (Hc n eq_refl) as [fields Hf]. rewrite Hf. cbn [expect obind]. case_decide; [done|].
    apply split_once_subset in Hsp as [_ Hr]. split.
    + intros m fs k v. rewrite lookup_insert_Some. intros [[<- <-]|[_ Hs]]; [|by eapply Hv]. rewrite lookup_insert_Some.
      intros [[_ <-]|[_ Hk]]; [|by eapply Hv]. eapply ascii_subset; [|exact Hline]. etransitivity; [apply trim_subset|exact Hr].
    + intros m [= <-]. by rewrite lookup_insert_eq.
Qed.

Lemma ini_lines_safe raws : Forall ascii raws → ∀ index sections current, values_ascii sections → current_present sections current →
  match ini_lines index raws sections current with Ok sections' => values_ascii sections' | Err _ => True | Panic => False end.
Proof.
  induction 1 as [|raw raws Hraw _ IH]; intros index sections current Hv Hc; cbn [ini_lines]; [done|].
  pose proof (ini_line_safe index raw sections current Hraw Hv Hc) as Hl.
  destruct (ini_line index raw sections current) as [[s' c']| |]; [|done..]. cbn [obind fst snd]. destruct Hl. by apply IH.
Qed.

Lemma parse_ini_safe input : ascii input →
  match parse_ini input with Ok sections => values_ascii sections | Err _ => True | Panic => False end.
Proof.
  intros Hin. apply ini_lines_safe; [|done|done]. apply Forall_forall. intros line Hl%lines_subset. by eapply ascii_subset.
Qed.

(** ** The rest *)

(** Walks over computations without a panic in them. *)
Ltac calm :=
  repeat first
  [ done
  | apply no_panic_ok_or
  | apply no_panic_obind; [|intros ? ?]
  | progress cbv zeta
  | case_match ].

Section safety.
Context {IpNet : Type} `{!EqDecision IpNet} `{!IpNetOps IpNet} `{!FileSystem} `{!WalkOrder}.

Lemma required_no_panic fields field : no_panic (required fields field).
Proof. unfold required. calm. Qed.
Lemma required_ascii sections name fields field v : values_ascii sections → sections !! name = Some fields → required fields field = Ok v → ascii v.
Proof.
  intros Hv Hs. unfold required, optional. destruct (fields !! field) as [x|] eqn:Hx; simpl; [|done]. destruct (is_blank x); [done|].
  intros [= <-]. by eapply Hv.
Qed.
Lemma check_all_no_panic {A} check (l : list A) : (∀ x, no_panic (check x)) → no_panic (check_all check l).
Proof. intros Hc. induction l as [|x l IH]; simpl; [done|]. apply no_panic_obind; [apply Hc|done]. Qed.
Lemma fields_no_panic name fields allowed : no_panic (validate_fields name fields allowed).
Proof. apply check_all_no_panic. intros [k v]. unfold check_field. calm. Qed.
Lemma interface_no_panic v : no_panic (interface_parse v).
Proof. unfold interface_parse. calm. Qed.
Lemma mac_no_panic v : no_panic (mac_parse v).
Proof. unfold mac_parse. calm. Qed.
Lemma intercepts_no_panic ss : no_panic (parse_intercepts ss).
Proof.
  induction ss as [|[name fields] ss IH]; simpl; [done|]. destruct (starts_with _ name); [|done]. unfold parse_intercept.
  repeat first [done | apply no_panic_obind; [|intros ? ?] | apply fields_no_panic | apply required_no_panic | apply interface_no_panic | apply mac_no_panic].
Qed.

(** The schema, and where its parts come from. *)
Lemma read_schema_safe sections : no_panic (read_schema sections).
Proof.
  unfold read_schema, reject_unknown_sections, section, validate_optional.
  repeat first [done | progress cbv zeta | apply no_panic_obind; [|intros ? ?] | apply fields_no_panic | apply no_panic_ok_or
    | apply intercepts_no_panic | apply check_all_no_panic; intros [? ?]; unfold check_section; calm | case_match].
Qed.
Lemma read_schema_sections sections sc : read_schema sections = Ok sc →
  sections !! txt "Appliance" = Some (sc_appliance sc) ∧ sections !! txt "Tunnel" = Some (sc_tunnel sc).
Proof.
  unfold read_schema, section. cbv zeta. intros Hrun. do 13 accept_step Hrun. injection Hrun as <-. cbn [sc_appliance sc_tunnel].
  destruct (sections !! txt "Appliance"); [|done]. destruct (sections !! txt "Tunnel"); [|done]. by simplify_eq/=.
Qed.

(** Rebuilding a prefix from its own network address and length succeeds. *)
Definition ipnet_rebuilds : Prop := ∀ p : IpNet, ipnet_new (ipnet_network p) (ipnet_prefix_len p) ≠ None.

Lemma parse_cidr_no_panic terms : ipnet_rebuilds → no_panic (parse_cidr_terms (IpNet := IpNet) terms).
Proof.
  intros Hn. unfold parse_cidr_terms. apply no_panic_obind; [|intros ? ?; by case_decide].
  generalize (@nil IpNet). generalize 0%nat at 1. generalize 0%nat.
  induction terms as [|term terms IH]; intros n6 n4 ps; cbn [cidr_terms]; [done|]. destruct (is_file_term term); [done|].
  apply no_panic_obind; [apply no_panic_ok_or|]. intros p _. apply no_panic_obind.
  { unfold normalize_prefix. specialize (Hn p). by destruct (ipnet_new _ _). }
  intros q _. case_decide; [apply IH|]. destruct (ipnet_is_v4 q); case_decide; first [apply IH | apply no_panic_Err].
Qed.

Lemma map_err_no_panic {E E' A} (f : E → E') (c : outcome E A) : no_panic c → no_panic (map_err f c).
Proof. unfold no_panic. by destruct c. Qed.

(** Reading a file fails with an error. *)
Definition files_return : Prop := ∀ path, no_panic (read_to_string path) ∧ no_panic (file_len path).

Lemma parse_ip_policy_no_panic value : ipnet_rebuilds → files_return → no_panic (parse_ip_policy (IpNet := IpNet) value).
Proof.
  intros Hn Hf. assert (∀ path, no_panic (load_cidr_file (IpNet := IpNet) path)) as Hload.
  { intros path. unfold load_cidr_file. cbv zeta. case_decide; [done|]. apply no_panic_obind; [apply map_err_no_panic, Hf|].
    intros ? _. by apply parse_cidr_no_panic. }
  unfold parse_ip_policy. cbv zeta. case_decide; [done|]. destruct (filter _ _) as [|first terms]; [done|]. case_decide; [done|].
  destruct (strip_text_prefix (txt "file:") first); [|destruct (strip_text_prefix (txt "!file:") first)];
    (apply no_panic_obind; [|done]); [apply Hload|apply Hload|by apply parse_cidr_no_panic].
Qed.

Lemma load_remote_domains_no_panic path : files_return → no_panic (load_remote_domains path).
Proof.
  intros Hf. unfold load_remote_domains. apply no_panic_obind; [apply map_err_no_panic, Hf|]. intros size _. case_decide; [done|].
  apply no_panic_obind; [apply map_err_no_panic, Hf|]. intros input _. unfold parse_remote_domain_lines.
  apply no_panic_obind; [|intros ? _; by case_decide]. generalize (@nil text).
  induction (lines input) as [|line ls IH]; intros ds; cbn [domain_lines]; [done|]. cbv zeta. case_decide; [apply IH|].
  apply no_panic_obind; [unfold normalize_domain; calm|]. intros d _. case_decide; [done|]. case_decide; [apply no_panic_Err|apply IH].
Qed.

Lemma parse_uint_no_panic limit field v : no_panic (parse_uint limit field v).
Proof. unfold parse_uint. calm. Qed.

Lemma parse_dns_no_panic role fields nat : files_return → no_panic (parse_dns_config role fields nat).
Proof.
  intros Hf. unfold parse_dns_config, parse_dns_socket, ensure_resolver_family, parse_optional_usize, parse_optional_u64.
  repeat first [done | by apply load_remote_domains_no_panic | apply required_no_panic | apply no_panic_ok_or | apply parse_uint_no_panic
    | apply no_panic_obind; [|intros ? ?] | case_match].
Qed.

Lemma optional_with_no_panic {A} fields field (p : text → option A) e : no_panic (optional_with fields field p e).
Proof. unfold optional_with. calm. Qed.

Lemma parse_endpoints_no_panic role tunnel : no_panic (parse_endpoints role tunnel).
Proof.
  unfold parse_endpoints. cbv zeta. repeat first [done | apply optional_with_no_panic | apply no_panic_obind; [|intros ? ?] | case_match].
Qed.

Lemma check_intercepts_no_panic role l : no_panic (check_intercepts role l).
Proof.
  unfold check_intercepts. case_decide as Hd; [done|]. clear Hd. generalize (@nil text). induction l as [|i l IH]; intros seen; simpl; [done|]. case_decide; [done|apply IH].
Qed.

Lemma parse_nat_no_panic fields w : no_panic (parse_nat fields w).
Proof.
  unfold parse_nat, parse_u16.
  repeat first [done | apply optional_with_no_panic | apply required_no_panic | apply parse_uint_no_panic | apply no_panic_obind; [|intros ? ?]
    | case_match].
Qed.

Lemma parse_limits_no_panic fields : no_panic (parse_limits fields).
Proof.
  unfold parse_limits, parse_usize.
  repeat first [done | apply required_no_panic | apply parse_uint_no_panic | apply no_panic_obind; [|intros ? ?] | case_match].
Qed.

(** C36: No configuration written in ASCII makes the parser panic, whatever its bytes, its
    sections and the files it names: every slice is in range, the section a field belongs
    to exists, and the branch marked unreachable is. *)
Theorem config_parser_never_panics (input : text) : ascii input → ipnet_rebuilds → files_return → no_panic (parse (IpNet := IpNet) input).
Proof.
  intros Hin Hn Hf. unfold parse. pose proof (parse_ini_safe input Hin) as Hini. destruct (parse_ini input) as [sections| |]; [|done|done].
  cbn [obind]. apply no_panic_obind; [apply read_schema_safe|]. intros sc Hsc. apply read_schema_sections in Hsc as [Happ Htun].
  apply no_panic_obind; [unfold parse_role; apply no_panic_obind; [apply required_no_panic|intros; calm]|]. intros role _. case_decide as Hall; [done|].
  apply no_panic_obind; [apply parse_limits_no_panic|]. intros [[[workers channel] dcid] path] _.
  do 2 (apply no_panic_obind; [apply required_no_panic|intros ? _]; apply no_panic_obind; [first [apply interface_no_panic|apply mac_no_panic]|intros ? _]).
  apply no_panic_obind; [apply parse_endpoints_no_panic|]. intros [endpoint listen] _.
  apply no_panic_obind; [apply check_intercepts_no_panic|]. intros _ _.
  apply no_panic_obind; [apply parse_nat_no_panic|]. intros [[v4 v6] ports] _.
  apply no_panic_obind.
  { unfold parse_policy. destruct role; [|by destruct (sc_allowed sc); [destruct Hall|]]. destruct (sc_allowed sc); [|done].
    apply no_panic_obind; [apply required_no_panic|]. intros ? _. by apply parse_ip_policy_no_panic. }
  intros policy _. apply no_panic_obind; [unfold parse_xdp_mode; apply no_panic_obind; [apply required_no_panic|intros; calm]|]. intros mode _.
  apply no_panic_obind.
  { unfold parse_shared_key. apply no_panic_obind; [apply required_no_panic|]. intros v Hv.
    apply no_panic_obind; [|intros; by case_decide]. eapply parse_hex_key_no_panic, required_ascii; [exact Hini|exact Happ|exact Hv]. }
  intros key _. apply no_panic_obind.
  { unfold parse_sha256, optional. destruct (sc_tunnel sc !! _) as [v|] eqn:Hv; simpl; [|done]. destruct (is_blank v); [done|].
    apply no_panic_obind; [|done]. by eapply parse_hex_key_no_panic, Hini. }
  intros sha _. apply no_panic_obind; [unfold parse_auto_reserve_ports; by case_decide|]. intros reserve _. cbv zeta.
  destruct (match tunnel_address endpoint listen with Some _ => _ | None => _ end); [done|].
  apply no_panic_obind; [by apply parse_dns_no_panic|]. intros dns _. by case_match.
Qed.
End safety.

Lemma sample_ipnet_rebuilds : ipnet_rebuilds (IpNet := IpAddr * Z).
Proof. intros [[a|a] len]; simpl; unfold sample_net_new, net_len; simpl; rewrite decide_True by lia; done. Qed.
Lemma sample_files_return : files_return.
Proof. intros path. simpl. split; by case_decide. Qed.

Lemma config_parser_never_panics_witness : no_panic (parse (IpNet := IpAddr * Z) sample_ini).
Proof.
  apply (config_parser_never_panics (IpNet := IpAddr * Z)); [|exact sample_ipnet_rebuilds|exact sample_files_return].
  unfold ascii. apply (bool_decide_unpack _). vm_compute. exact I.
Defined.

(** A key of 64 bytes whose characters are not two bytes long ends the process: the key is
    cut by byte positions. *)
Definition euro_key : text := replicate 21 0x20ac ++ [97].

Example euro_key_panics : str_len euro_key = 64%nat ∧ parse (IpNet := IpAddr * Z) (sample_ini_with euro_key) = Panic.
Proof. vm_compute. by split. Qed.

(** A sign is accepted where a hexadecimal digit should be: the key below is read although
    it is not a hexadecimal number. *)
Example plus_key_accepted : parse_hex_key (txt "+1+1+1+1+1+1+1+1+1+1+1+1+1+1+1+1+1+1+1+1+1+1+1+1+1+1+1+1+1+1+1+1") = Ok (replicate 32 1).
Proof. vm_compute. reflexivity. Qed.
