(* ===== verification/ConfigClaims.v ===== *)
(** Theorems on the configuration. *)
From S2P Require Import Prelude Net Dns DnsProps Frame Text Config ConfigSample ConfigProps ConfigSafety.

Section claims.
Context {IpNet : Type} `{!EqDecision IpNet} `{!IpNetOps IpNet} `{!FileSystem} `{!WalkOrder}.

Lemma parse_valid (input : text) (c : ApplianceConfig IpNet) : parse input = Ok c → appliance_valid c.
Proof.
  unfold parse. intros Hrun. accept_step Hrun. accept_step Hrun. accept_step Hrun. rename a0 into sc, a1 into role.
  accept_step Hrun. accept_step Hrun. destruct a0 as [[[workers channel] dcid] path].
  accept_step Hrun. accept_step Hrun. accept_step Hrun. accept_step Hrun. rename a1 into name, a3 into mac. accept_step Hrun. destruct a1 as [endpoint listen].
  accept_step Hrun. destruct a1. accept_step Hrun. destruct a1 as [[v4 v6] ports].
  accept_step Hrun. rename a1 into policy. accept_step Hrun. accept_step Hrun. rename a3 into key. accept_step Hrun. rename a3 into sha.
  accept_step Hrun. rename a3 into reserve. cbv zeta in Hrun. accept_step Hrun. accept_step Hrun. rename a3 into dns. accept_step Hrun.
  injection Hrun as <-.
  apply read_schema_valid in Ha0 as [Hi1 Hi2]. apply parse_limits_valid in Ha2 as (Hw & Hch & Hdc).
  apply parse_endpoints_valid in Ha7 as [Hrole Haddr]. apply check_intercepts_valid in Ha8 as [Hnd H1].
  apply (parse_nat_valid _ _ _ _ _ reserve) in Ha9 as [Hnat Hports]. apply parse_policy_valid in Ha10. apply parse_sha256_valid in Ha13.
  assert (∀ d, dns = Some d → role = RoleClient ∧ dns_valid (mkNatConfig v4 v6 ports reserve) d) as Hdns.
  { intros d ->. by apply parse_dns_config_valid in Ha15. }
  assert (key_valid key ∧ key ≠ replicate 32 0) as Hkey.
  { unfold parse_shared_key in Ha12. do 3 accept_step Ha12. injection Ha12 as <-. split; [by eapply parse_hex_key_valid|done]. }
  split; simpl; [lia|done|done|done| |by split_and!| |done|intros d Hd'; by apply Hdns| ].
  - split; [by eapply interface_parse_valid|by eapply mac_parse_valid].
  - intros x Hx. destruct (Haddr x Hx) as [? ?]. assert (tunnel_address endpoint listen = Some (sa_ip x)) as Hip.
    { unfold tunnel_address. unfold endpoints_valid in Hrole. destruct role, Hrole as (_ & -> & _), Hx as [Hx|Hx]; simplify_eq; done. }
    rewrite Hip in Hc, Hc0. apply bool_decide_eq_false in Hc. split_and!; [done..|].
    intros d ->. by apply bool_decide_eq_false in Hc0.
  - unfold role_valid. simpl. unfold endpoints_valid in Hrole. destruct role; destruct Hrole as (? & ? & Hsha & ? & ?).
    + destruct (optional _ (txt "ServerCertificateSha256")); [|done]. destruct Ha10. by split_and!.
    + rewrite Hsha in Ha13. split_and!; [done..| |by apply H1]. destruct dns as [d|]; [|done]. by destruct (Hdns d eq_refl).
Qed.

(** C24: Whatever the text, a configuration that is accepted is a valid one: at least one and
    at most as many workers as NAT ports, identifiers of 8 to 20 bytes, a 32-byte key
    that is not the placeholder, well-formed and distinct interfaces, unicast hardware
    addresses, usable addresses that do not collide across the tunnel, the NAT and the
    DNS listener, prefixes without repetition within the data plane's capacity, resolvers
    the NAT can reach, distinct well-formed domains, and exactly the fields its role
    takes. *)
Theorem accepted_config_valid (input : text) (c : ApplianceConfig IpNet) : parse input = Ok c → appliance_valid c.
Proof. apply parse_valid. Qed.
End claims.

Lemma accepted_config_valid_witness : ∃ c, parse (IpNet := IpAddr * Z) sample_ini = Ok c ∧ appliance_valid c.
Proof.
  destruct (parse (IpNet := IpAddr * Z) sample_ini) as [c|e|] eqn:Hc.
  - exists c. split; [done|]. by apply (accepted_config_valid sample_ini).
  - vm_compute in Hc. discriminate Hc.
  - vm_compute in Hc. discriminate Hc.
Defined.

(** ** Keys and addresses are read back as they are written *)

Definition hex_digit (n : Z) : Z := if decide (n < 10) then 48 + n else 87 + n.
Definition hex_byte (x : Z) : text := [hex_digit (x / 16); hex_digit (x mod 16)].
Definition hex_of (key : bytes) : text := concat (hex_byte <$> key).
(** A hardware address with its colons. *)
Fixpoint colon_hex (octets : bytes) : text :=
  match octets with
  | [] => []
  | [x] => hex_byte x
  | x :: octets => hex_byte x ++ 58 :: colon_hex octets
  end.

Lemma hex_digit_range n : 0 ≤ n < 16 → 48 ≤ hex_digit n ≤ 57 ∨ 97 ≤ hex_digit n ≤ 102.
Proof. unfold hex_digit. case_decide; lia. Qed.
Lemma to_digit_hex n : 0 ≤ n < 16 → to_digit 16 (hex_digit n) = Some n.
Proof. intros Hn. unfold to_digit, hex_digit. case_decide; repeat case_decide; try lia; f_equal; lia. Qed.

Lemma hex_byte_digits x : is_byte x → 0 ≤ x / 16 < 16 ∧ 0 ≤ x mod 16 < 16 ∧ x / 16 * 16 + x mod 16 = x.
Proof. unfold is_byte. intros Hx. Z.to_euclidean_division_equations. lia. Qed.

Lemma from_hex_byte x : is_byte x → from_str_radix 16 256 (hex_byte x) = Some x.
Proof.
  intros Hx. destruct (hex_byte_digits x Hx) as (H1 & H2 & H3). unfold is_byte in Hx. unfold hex_byte, from_str_radix.
  pose proof (hex_digit_range _ H1). rewrite decide_False by lia. cbn [digits]. rewrite !to_digit_hex by done.
  rewrite decide_True by lia. rewrite decide_True by lia. f_equal. lia.
Qed.

Lemma hex_byte_ascii x : is_byte x → ascii (hex_byte x).
Proof.
  intros Hx. destruct (hex_byte_digits x Hx) as (H1%hex_digit_range & H2%hex_digit_range & _). unfold hex_byte. repeat constructor; lia.
Qed.
Lemma hex_of_ascii key : bytes_ok key → ascii (hex_of key).
Proof.
  induction 1 as [|x key Hx _ IH]; [constructor|]. change (hex_of (x :: key)) with (hex_byte x ++ hex_of key).
  apply Forall_app. split; [by apply hex_byte_ascii|done].
Qed.
Lemma length_hex_of key : length (hex_of key) = (length key * 2)%nat.
Proof.
  induction key as [|x key IH]; [done|]. change (hex_of (x :: key)) with (hex_byte x ++ hex_of key). rewrite length_app, IH. simpl. lia.
Qed.
Lemma drop_hex_of n key : drop (n * 2) (hex_of key) = hex_of (drop n key).
Proof. revert n. induction key as [|x key IH]; intros [|n]; try done. apply (IH n). Qed.

Lemma hex_bytes_of key : bytes_ok key → ∀ todo index, (index + todo = length key)%nat → hex_bytes todo index (hex_of key) = Ok (drop index key).
Proof.
  intros Hk. induction todo as [|todo IH]; intros index Hlen; cbn [hex_bytes].
  - rewrite drop_ge by lia. done.
  - rewrite str_slice_ascii; [|by apply hex_of_ascii|rewrite length_hex_of; lia]. cbn [obind].
    rewrite drop_hex_of. replace (index * 2 + 2 - index * 2)%nat with 2%nat by lia.
    destruct (lookup_lt_is_Some_2 key index) as [x Hx]; [lia|]. rewrite (drop_S key x index Hx).
    change (take 2 (hex_of (x :: drop (S index) key))) with (hex_byte x). rewrite from_hex_byte.
    + rewrite IH by lia. done.
    + eapply Forall_lookup_1; [exact Hk|exact Hx].
Qed.

Lemma split_hex_byte x rest : is_byte x → split (is_char 58) (hex_byte x ++ 58 :: rest) = hex_byte x :: split (is_char 58) rest.
Proof.
  intros Hx. destruct (hex_byte_digits x Hx) as (H1%hex_digit_range & H2%hex_digit_range & _). unfold hex_byte. simpl. unfold is_char.
  by rewrite !bool_decide_eq_false_2 by lia.
Qed.
Lemma split_hex_last x : is_byte x → split (is_char 58) (hex_byte x) = [hex_byte x].
Proof.
  intros Hx. destruct (hex_byte_digits x Hx) as (H1%hex_digit_range & H2%hex_digit_range & _). unfold hex_byte. simpl. unfold is_char.
  rewrite !bool_decide_eq_false_2 by lia. done.
Qed.
Lemma parse_colon_hex octets : bytes_ok octets → octets ≠ [] → parse_octets (split (is_char 58) (colon_hex octets)) = Some octets.
Proof.
  induction 1 as [|x octets Hx Ho IH]; intros Hne; [done|]. destruct octets as [|y octets].
  - simpl colon_hex. rewrite split_hex_last by done. cbn [parse_octets]. by rewrite from_hex_byte.
  - change (colon_hex (x :: y :: octets)) with (hex_byte x ++ 58 :: colon_hex (y :: octets)). rewrite split_hex_byte by done.
    cbn [parse_octets]. rewrite from_hex_byte by done. cbn [mbind option_bind]. by rewrite IH.
Qed.

(** Every key and every unicast hardware address can be configured: written in
    hexadecimal, 32 bytes are read back as the same key, and six octets with colons
    between them as the same address. *)
Theorem hex_values_roundtrip (key : bytes) (m : MacAddress) : key_valid key → mac_valid m →
  parse_hex_key (hex_of key) = Ok key ∧ mac_parse (colon_hex (mac_octets m)) = Ok m.
Proof.
  intros [Hl Hk] (Hml & Hmo & Hmz & Hme). split.
  - unfold parse_hex_key. rewrite decide_False.
    2: { intros Hn. apply Hn. rewrite str_len_ascii by (by apply hex_of_ascii). by rewrite length_hex_of, Hl. }
    by rewrite (hex_bytes_of key Hk 32 0) by lia.
  - unfold mac_parse. rewrite parse_colon_hex; [|done|by intros Hn; rewrite Hn in Hml]. rewrite decide_False by tauto.
    rewrite decide_False; [by destruct m|]. intros [?|Hodd]; [done|]. apply Hodd. change 1 with (Z.ones 1). rewrite Z.land_ones by lia.
    change (2 ^ 1) with 2. rewrite Zeven_mod in Hme. by apply Z.eqb_eq.
Qed.

Lemma hex_values_roundtrip_witness : parse_hex_key (hex_of (replicate 31 0xa5 ++ [7])) = Ok (replicate 31 0xa5 ++ [7])
  ∧ mac_parse (colon_hex [2; 0xfe; 0; 0; 1; 0x30]) = Ok (mkMacAddress [2; 0xfe; 0; 0; 1; 0x30]).
Proof.
  apply (hex_values_roundtrip (replicate 31 0xa5 ++ [7]) (mkMacAddress [2; 0xfe; 0; 0; 1; 0x30])).
  - split; [reflexivity|vmdec].
  - split_and!; [reflexivity|vmdec|done|reflexivity].
Defined.


(** ** Domains *)

Lemma split_join p c s : (∀ x, p x = true ↔ x = c) → c = dot → join_labels (split p s) = s.
Proof.
  intros Hp ->. induction s as [|x s IH]; [done|]. simpl. pose proof (split_nonempty p s) as Hne. destruct (p x) eqn:Hx.
  - apply Hp in Hx as ->. destruct (split p s) as [|y ys]; [done|]. simpl. by rewrite <- IH.
  - destruct (split p s) as [|y ys]; [done|]. rewrite <- IH. by destruct ys.
Qed.
Lemma split_dots s : join_labels (split (is_char dot) s) = s.
Proof. apply (split_join _ dot); [|done]. intros x. apply bool_decide_eq_true. Qed.

Lemma join_labels_app a b : b ≠ [] → a ≠ [] → join_labels (a ++ b) = join_labels a ++ dot :: join_labels b.
Proof.
  intros Hb. induction a as [|x a IH]; intros Ha; [done|]. destruct a as [|y a].
  - simpl. by destruct b.
  - change (join_labels ((x :: y :: a) ++ b)) with (x ++ dot :: join_labels ((y :: a) ++ b)). rewrite IH by done.
    change (join_labels (x :: y :: a)) with (x ++ dot :: join_labels (y :: a)). by rewrite <- app_assoc.
Qed.

Lemma lowercase_label_byte c : label_byte (to_ascii_lowercase c) → label_byte c.
Proof. unfold label_byte, is_ascii_alphanumeric, to_ascii_lowercase, hyphen. case_decide; lia. Qed.
Lemma label_byte_ascii l : Forall label_byte l → ascii l.
Proof.
  intros Hl. eapply Forall_impl; [exact Hl|]. intros c. unfold label_byte, is_ascii_alphanumeric, hyphen. simpl. lia.
Qed.

Lemma starts_with_head c l : head l = Some c → starts_with [c] l = true.
Proof. destruct l as [|x l]; [done|]. intros [= ->]. unfold starts_with. simpl. by rewrite decide_True. Qed.
Lemma ends_with_last c l : last l = Some c → ends_with [c] l = true.
Proof.
  intros (l' & ->)%last_Some. unfold ends_with, strip_text_suffix. rewrite rev_app_distr. simpl. by rewrite decide_True.
Qed.

(** A label the configuration accepts is one the DNS component accepts, in any case. *)
Lemma domain_label_valid l : domain_label (lower_label l) = true → valid_label l.
Proof.
  unfold domain_label. rewrite !andb_true_iff, !negb_true_iff, !bool_decide_eq_true, forallb_forall. intros ((((Hne & Hlen) & Hs) & He) & Hb).
  assert (Forall label_byte (lower_label l)) as Hlb.
  { apply Forall_forall. intros c Hc. apply (bool_decide_unpack (label_byte c)). by apply Is_true_true_2, Hb, list_elem_of_In. }
  rewrite str_len_ascii in Hlen by (by apply label_byte_ascii). unfold lower_label in *. rewrite length_fmap in Hlen. split_and!.
  - intros ->. done.
  - done.
  - intros Hh. rewrite (starts_with_head hyphen) in Hs; [done|]. destruct l; [done|]. injection Hh as ->. done.
  - intros Hh. rewrite (ends_with_last hyphen) in He; [done|]. rewrite fmap_last, Hh. done.
  - rewrite Forall_fmap in Hlb. eapply Forall_impl; [exact Hlb|]. intros c. apply lowercase_label_byte.
Qed.

(** A domain the configuration accepts takes effect: whenever a query's name ends with
    the labels of a configured domain, in any case and below any other labels, the name
    the DNS component reads from the packet matches the rules made of the configured
    domains. *)
Theorem configured_domain_matches (value d : text) (ds : list text) (sub own : list bytes) (pre rest : bytes) :
  normalize_domain value = Ok d → d ∈ ds → map lower_label own = split (is_char dot) d → Forall valid_label sub →
  (length (sub ++ own) < 128)%nat →
  ∃ name off, parse_name (pre ++ encode_name (sub ++ own) ++ rest) (length pre) = Ok (name, off)
    ∧ rules_match (rules_new ds) name = true.
Proof.
  intros Hd Hin Hown Hsub Hlen. apply normalize_domain_valid in Hd as (_ & _ & Hlab & _). rewrite <- Hown in Hlab.
  assert (Forall valid_label own) as Hv.
  { apply Forall_map in Hlab. eapply Forall_impl; [exact Hlab|]. intros l. apply domain_label_valid. }
  assert (map lower_label own ≠ []) as Hne by (rewrite Hown; apply split_nonempty).
  rewrite parse_name_encode; [|by apply Forall_app| |done].
  2: { intros [_ ->]%app_eq_nil. done. }
  do 2 eexists. split; [done|]. apply rules_match_iff. exists d. split; [by apply elem_of_list_to_set|].
  apply domain_matches_iff. rewrite map_app. destruct sub as [|l sub].
  - left. simpl. by rewrite Hown, split_dots.
  - right. rewrite join_labels_app by done. rewrite Hown, split_dots. by eexists.
Qed.

Lemma configured_domain_matches_witness : ∃ name off,
  parse_name ([9] ++ encode_name ([txt "www"] ++ [txt "Example"; txt "COM"]) ++ [0; 1]) 1 = Ok (name, off)
  ∧ rules_match (rules_new [txt "other.org"; txt "example.com"]) name = true.
Proof.
  apply (configured_domain_matches (txt " example.com.") (txt "example.com") [txt "other.org"; txt "example.com"] [txt "www"]
    [txt "Example"; txt "COM"] [9] [0; 1]); [vm_compute; reflexivity|by right; left|vm_compute; reflexivity|vmdec|simpl; lia].
Defined.
