(* ===== verification/Setup.v ===== *)
(** How the runtime is put together from the configuration
    ([src/src/xdp_datapath/runtime.rs]): the queues of the interfaces, the NAT ports of the
    workers, the I/O classifiers and the flow loops. *)
From S2P Require Import Prelude Net Packet NatTable Session QuicFlow Dns Inner Auth Engine Worker Frame Encap FlowLoop Text Config.

(** ** Interfaces and their queues *)

Definition XSK_MAP_MAX_ENTRIES : Z := 4096.

Record IoClassifiers : Type := mkClassifiers { cl_tunnel : bool; cl_intercept : bool }.

Record InterfaceSpec : Type := mkSpec { sp_ifindex : Z; sp_queue_count : Z; sp_classifiers : IoClassifiers }.
Definition spec_tunnel (ifindex queue_count : Z) : InterfaceSpec := mkSpec ifindex queue_count (mkClassifiers true false).
Definition spec_intercept (ifindex queue_count : Z) : InterfaceSpec := mkSpec ifindex queue_count (mkClassifiers false true).

Inductive RuntimeBuildError : Type :=
| QueueCountMismatch (ifindex first second : Z)
| ZeroQueues (ifindex : Z)
| TooManyQueues (ifindex queue_count capacity : Z)
| XskCreate (owner : IoOwnerKey) (message : text).

Abbreviation Interfaces := (gmap Z (Z * IoClassifiers)).

Fixpoint merge_specs (specs : list InterfaceSpec) (interfaces : Interfaces) : outcome RuntimeBuildError Interfaces :=
  match specs with
  | [] => Ok interfaces
  | spec :: specs =>
      if decide (sp_queue_count spec = 0) then Err (ZeroQueues (sp_ifindex spec)) else
      if decide (XSK_MAP_MAX_ENTRIES < sp_queue_count spec)
      then Err (TooManyQueues (sp_ifindex spec) (sp_queue_count spec) XSK_MAP_MAX_ENTRIES) else
      match interfaces !! sp_ifindex spec with
      | None => merge_specs specs (<[sp_ifindex spec := (sp_queue_count spec, sp_classifiers spec)]> interfaces)
      | Some (queue_count, classifiers) =>
          if decide (queue_count ≠ sp_queue_count spec)
          then Err (QueueCountMismatch (sp_ifindex spec) queue_count (sp_queue_count spec))
          else merge_specs specs (<[sp_ifindex spec := (queue_count,
                 mkClassifiers (cl_tunnel classifiers || cl_tunnel (sp_classifiers spec))
                               (cl_intercept classifiers || cl_intercept (sp_classifiers spec)))]> interfaces)
      end
  end.
Definition merge_interfaces (specs : list InterfaceSpec) : outcome RuntimeBuildError Interfaces := merge_specs specs ∅.

(** The trait, with the factory's state; an error is its message. *)
Class XskFactory (F Xsk : Type) : Type := {
  xsk_create : IoOwnerKey → F → outcome text Xsk * F;
  xsk_start : Xsk → F → Xsk * F;
}.

Record PreparedIo (Xsk : Type) : Type := mkPreparedIo { pr_classifiers : IoClassifiers; pr_xsk : Xsk }.
Arguments mkPreparedIo {Xsk}.
Arguments pr_classifiers {Xsk}.
Arguments pr_xsk {Xsk}.

(** The owners of one interface, in the order of its queues. *)
Definition interface_owners (entry : Z * (Z * IoClassifiers)) : list (IoOwnerKey * IoClassifiers) :=
  (λ q, (mkIoOwnerKey entry.1 q, entry.2.2)) <$> seqZ 0 entry.2.1.

(** A [BTreeMap] is walked in the order of its keys. *)
Definition ordered (interfaces : Interfaces) : list (Z * (Z * IoClassifiers)) :=
  omap (λ i, (λ x, (i, x)) <$> interfaces !! i) (ascending (dom interfaces)).

Section build.
Context {F Xsk : Type} `{!XskFactory F Xsk}.

Fixpoint create_all (owners : list (IoOwnerKey * IoClassifiers)) : ST F RuntimeBuildError (list (IoOwnerKey * PreparedIo Xsk)) := λ f,
  match owners with
  | [] => (Ok [], f)
  | (owner, classifiers) :: owners =>
      match xsk_create owner f with
      | (Ok xsk, f) => (let! rest := create_all owners in sret ((owner, mkPreparedIo classifiers xsk) :: rest)) f
      | (Err message, f) => (Err (XskCreate owner message), f)
      | (Panic, f) => (Panic, f)
      end
  end.

Fixpoint start_all (prepared : list (IoOwnerKey * PreparedIo Xsk)) (f : F) : list (IoOwnerKey * PreparedIo Xsk) * F :=
  match prepared with
  | [] => ([], f)
  | (owner, p) :: prepared =>
      let '(xsk, f) := xsk_start (pr_xsk p) f in
      let '(rest, f) := start_all prepared f in
      ((owner, mkPreparedIo (pr_classifiers p) xsk) :: rest, f)
  end.

Fixpoint register_all (prepared : list (IoOwnerKey * PreparedIo Xsk)) (r : IoRegistry (PreparedIo Xsk))
    : outcome RuntimeBuildError (IoRegistry (PreparedIo Xsk)) :=
  match prepared with
  | [] => Ok r
  | (owner, p) :: prepared =>
      match registry_register owner p r with
      | (Ok _, r) => register_all prepared r
      | _ => Panic
      end
  end.

Definition build_runtime (tunnel : InterfaceSpec) (intercepts : list InterfaceSpec) : ST F RuntimeBuildError (IoRegistry (PreparedIo Xsk)) := λ f,
  match merge_interfaces (tunnel :: intercepts) with
  | Err e => (Err e, f)
  | Panic => (Panic, f)
  | Ok interfaces =>
      match create_all (concat (interface_owners <$> ordered interfaces)) f with
      | (Ok prepared, f) => let '(started, f) := start_all prepared f in (register_all started (mkIoRegistry ∅), f)
      | (Err e, f) => (Err e, f)
      | (Panic, f) => (Panic, f)
      end
  end.
End build.

(** ** Ports *)

(** The arithmetic is on [u32], as the release build does it: sums and products wrap, the
    casts cut, and a division by zero panics. *)
Definition worker_port_range {E : Type} (ports : Z * Z) (worker_id worker_count : Z) : outcome E (option (Z * Z)) :=
  if decide (worker_count = 0 ∨ worker_count ≤ worker_id ∨ ports.2 < ports.1) then Ok None else
  let start := ports.1 in
  let total := ports.2 - start + 1 in
  if decide (total < wrap 32 worker_count) then Ok None else
  if decide (wrap 32 worker_count = 0) then Panic else
  let base := total / wrap 32 worker_count in
  let extra := total mod wrap 32 worker_count in
  let worker_id := wrap 32 worker_id in
  let offset := wrap 32 (wrap 32 (worker_id * base) + Z.min worker_id extra) in
  let length := base + (if decide (worker_id < extra) then 1 else 0) in
  Ok (Some (wrap 16 (wrap 32 (start + offset)), wrap 16 (wrap 32 (wrap 32 (start + offset) + length - 1)))).

(** ** The parts of a running appliance *)

Section parts.
Context {IpNet : Type} `{!IpNetOps IpNet}.
Abbreviation Appliance := (ApplianceConfig IpNet).

(** [config.listen.or(config.endpoint).expect(..).port()]. *)
Definition config_tunnel_port (c : Appliance) : outcome unit Z :=
  let? address := expect (match ap_listen c with Some a => Some a | None => ap_endpoint c end) in Ok (sa_port address).

Definition intercept_policy_from_config (p : IpPolicy IpNet) : InterceptPolicy IpNet :=
  match p with
  | PolicyTunnel prefixes => TunnelPrefixes prefixes
  | PolicyDirect prefixes => DirectPrefixes prefixes
  end.

Definition config_nat_return_ips (c : Appliance) : list IpAddr :=
  option_list (V4 <$> address_v4 (ap_nat c)) ++ option_list (V6 <$> address_v6 (ap_nat c)).

(** [IpNet::new(..).expect(..)] of every NAT address. *)
Definition host_prefix (len : Z) (a : IpAddr) : outcome unit IpNet := expect (ipnet_new a len).
Definition nat_host_prefixes (c : Appliance) : outcome unit (list IpNet) :=
  let? v4 := match address_v4 (ap_nat c) with Some a => let? p := host_prefix 32 (V4 a) in Ok [p] | None => Ok [] end in
  let? v6 := match address_v6 (ap_nat c) with Some a => let? p := host_prefix 128 (V6 a) in Ok [p] | None => Ok [] end in
  Ok (v4 ++ v6).

(** [Duration::from_secs], in nanoseconds. *)
Definition dns_flow_config (c : Appliance) : option DnsFlowConfig :=
  (λ dns, mkDnsFlowConfig (dc_listen dns) (dc_local_resolver dns) (dc_remote_resolver dns) (rules_new (dc_remote_domains dns))
            (Z.to_nat (dc_transaction_capacity dns)) (dc_timeout_seconds dns * 10 ^ 9) false) <$> ap_dns c.

Definition dns_local_response_classifier (c : Appliance) : option DnsLocalResponseClassifier :=
  dns ← ap_dns c;
  nat_ip ← match sa_ip (dc_local_resolver dns) with
           | V4 _ => V4 <$> address_v4 (ap_nat c)
           | V6 _ => V6 <$> address_v6 (ap_nat c)
           end;
  Some (mkDnsLocalResponse (dc_local_resolver dns) nat_ip (nat_ports (ap_nat c))).

Inductive RuntimeError : Type :=
| RtInterface (message : text) | RtNatRangeTooSmall (workers : Z) | RtQuic (e : QuicFlowError) | RtSession (e : SessionError).

(** The messages of the errors name an interface and an address; their text is kept as
    the interface's name. *)
Definition resolve_tunnel_local_ips (c : Appliance) (tunnel : InterfaceInfo) : outcome RuntimeError (list IpAddr) :=
  match ap_role c with
  | RoleClient =>
      let? endpoint := expect (ap_endpoint c) in
      let candidates := filter (λ a, ip_is_ipv4 a = ip_is_ipv4 (sa_ip endpoint)) (info_addresses tunnel) in
      if decide (length candidates ≠ 1)%nat then Err (RtInterface (info_name tunnel)) else Ok candidates
  | RoleServer =>
      let? listen := expect (ap_listen c) in
      if decide (sa_ip listen ∉ info_addresses tunnel) then Err (RtInterface (info_name tunnel)) else Ok [sa_ip listen]
  end.

Definition validate_dns_runtime_addresses (c : Appliance) (local_ips : list IpAddr) (intercepts : list (InterceptConfig * InterfaceInfo))
    : outcome RuntimeError (option Z) :=
  match ap_dns c with
  | None => Ok None
  | Some dns =>
      let listen := sa_ip (dc_listen dns) in
      if decide (listen ∈ local_ips ∨ is_nat_address (ap_nat c) listen) then Err (RtInterface []) else
      match filter (λ i, listen ∈ info_addresses i.2) intercepts with
      | [i] => Ok (Some (info_ifindex i.2))
      | others => Err (RtInterface (concat ((λ i, if_name (ic_interface i.1)) <$> others)))
      end
  end.

(** The classifier of one I/O thread. *)
Definition io_classifier_config (c : Appliance) (local_ips : list IpAddr) (dns_ifindex : option Z) (owner : IoOwnerKey) (classifiers : IoClassifiers)
    : outcome unit (IoClassifierConfig IpNet) :=
  let dns_owner := cl_intercept classifiers && bool_decide (dns_ifindex = Some (ifindex owner)) in
  let? port := config_tunnel_port c in
  let? policy := match ap_role c with
                 | RoleClient => Ok (intercept_policy_from_config (ap_ip_policy c))
                 | RoleServer => let? prefixes := nat_host_prefixes c in Ok (TunnelPrefixes prefixes)
                 end in
  Ok (mkIoConfig owner (cl_tunnel classifiers) (cl_intercept classifiers) port
        (if cl_tunnel classifiers then local_ips else [])
        (config_nat_return_ips c)
        (if dns_owner then dc_listen <$> ap_dns c else None)
        (if dns_owner then dns_local_response_classifier c else None)
        (Z.to_nat (ap_dcid_len c)) (Z.to_nat (ap_flow_worker_count c)) policy).

Definition loop_role (role : Role) : QuicRole := match role with RoleClient => Client | RoleServer => Server end.

(** The context of one flow loop; the channels and the shared tables are its arguments. *)
Definition flow_loop_config (c : Appliance) (tunnel : InterfaceInfo) (default_intercept : IoOwnerKey) (worker_id : nat) : outcome unit LoopConfig :=
  let? port := config_tunnel_port c in
  Ok (mkLoopConfig (loop_role (ap_role c)) worker_id (ap_flow_worker_count c) (info_queue_count tunnel) (info_ifindex tunnel) default_intercept
        port (dns_local_response_classifier c)).

Definition flow_worker (c : Appliance) (tunnel : InterfaceInfo) (worker_id : nat) : outcome RuntimeError (FlowWorkerState * QuicFlow) :=
  let? ports := worker_port_range (nat_ports (ap_nat c)) (Z.of_nat worker_id) (ap_flow_worker_count c) in
  let? ports := ok_or ports (RtNatRangeTooSmall (ap_flow_worker_count c)) in
  let? state := map_err RtSession (worker_new_dual worker_id (address_v4 (ap_nat c)) (address_v6 (ap_nat c)) ports.1 ports.2) in
  let? quic_flow := map_err RtQuic (quic_flow_new (mkQuicFlowId (Z.of_nat worker_id + 1)) worker_id (be_bytes 8 (Z.of_nat worker_id + 1))
                                      (info_queue_count tunnel)) in
  Ok (state, quic_flow).

(** The context a flow thread starts with: fresh tables, and the transmit queues of the
    I/O threads. *)
Definition appliance_loop {E : Type} (c : Appliance) (tunnel : InterfaceInfo) (engine : E) (io : IoRegistry IoTxChannel) (epoch : Z)
    (worker_id : nat) : outcome RuntimeError (Loop (E := E)) :=
  let? built := flow_worker c tunnel worker_id in
  Ok (mkLoop built.1 engine built.2 (dns_flow_config c) io (mkDcidIndex ∅ ∅ ∅) (mkDirectory ∅) (λ _, 0) (pending_new epoch)).
End parts.
