(* ===== verification/SetupProps.v ===== *)
(** The queues and the ports of the runtime. *)
From S2P Require Import Prelude Net Packet NatTable NatProps Session SessionProps SessionTheorems QuicFlow Dns Inner Auth Engine Worker WorkerProps WorkerDns WorkerRun WorkerClaims Frame Encap FlowLoop FlowLoopProps FlowLoopInv FlowLoopClaims Text Config ConfigSample ConfigProps ConfigSafety ConfigClaims Setup.

(** ** Ports *)

(** The first port of worker [i], counted from the start of the range. *)
Definition port_offset (total n i : Z) : Z := i * (total / n) + Z.min i (total mod n).

Lemma port_offset_step total n i : 0 < n → n ≤ total → 0 ≤ i →
  port_offset total n (i + 1) = port_offset total n i + (total / n + if decide (i < total mod n) then 1 else 0).
Proof. intros. unfold port_offset. case_decide; lia. Qed.
Lemma port_offset_ends total n : 0 < n → port_offset total n 0 = 0 ∧ port_offset total n n = total.
Proof.
  intros Hn. unfold port_offset. pose proof (Z.mod_pos_bound total n Hn). pose proof (Z.div_mod total n). split; [lia|]. rewrite Z.min_r by lia. lia.
Qed.
Lemma port_base total n : 0 < n → n ≤ total → 1 ≤ total / n.
Proof. intros. apply Z.div_le_lower_bound; lia. Qed.

Lemma port_offset_mono total n i j : 0 < n → n ≤ total → 0 ≤ i → i ≤ j → port_offset total n i ≤ port_offset total n j.
Proof. intros. unfold port_offset. pose proof (port_base total n). nia. Qed.

Lemma worker_port_range_run {E : Type} lo hi n i : 1 ≤ lo ≤ hi → hi < 65536 → 0 < n ≤ hi - lo + 1 → 0 ≤ i < n →
  worker_port_range (E := E) (lo, hi) i n = Ok (Some (lo + port_offset (hi - lo + 1) n i, lo + port_offset (hi - lo + 1) n (i + 1) - 1))
  ∧ 0 ≤ port_offset (hi - lo + 1) n i < port_offset (hi - lo + 1) n (i + 1) ∧ port_offset (hi - lo + 1) n (i + 1) ≤ hi - lo + 1.
Proof.
  intros Hlo Hhi Hn Hi. set (total := hi - lo + 1) in *.
  pose proof (port_offset_step total n i) as Hs. pose proof (port_offset_ends total n) as [H0 Hend]; [lia|]. pose proof (port_base total n).
  pose proof (port_offset_mono total n 0 i). pose proof (port_offset_mono total n (i + 1) n).
  assert (0 ≤ port_offset total n i < port_offset total n (i + 1) ∧ port_offset total n (i + 1) ≤ total) as Hr.
  { rewrite Hs in * by lia. destruct (decide (i < total mod n)); lia. }
  split; [|exact Hr]. unfold worker_port_range. cbn [fst snd]. cbv zeta. fold total. rewrite decide_False by lia.
  assert (i * (total / n) ≤ port_offset total n i) by (unfold port_offset; pose proof (Z.mod_pos_bound total n); lia).
  unfold wrap. rewrite !(Z.mod_small n), !(Z.mod_small i) by lia. rewrite !decide_False by lia.
  rewrite !(Z.mod_small (i * (total / n))) by nia. fold (port_offset total n i). rewrite !(Z.mod_small (port_offset total n i)) by lia.
  rewrite !(Z.mod_small (lo + port_offset total n i) (2 ^ 32)) by lia.
  replace (lo + port_offset total n i + (total / n + (if decide (i < total mod n) then 1 else 0)) - 1)
    with (lo + port_offset total n (i + 1) - 1) by (rewrite Hs by lia; lia).
  rewrite !(Z.mod_small (lo + port_offset total n (i + 1) - 1)), !(Z.mod_small (lo + port_offset total n i)) by lia. done.
Qed.

(** The worker that owns an offset. *)
Lemma port_owner total n x : 0 < n → n ≤ total → 0 ≤ x < total → ∃ i, 0 ≤ i < n ∧ port_offset total n i ≤ x < port_offset total n (i + 1).
Proof.
  intros Hn Hle Hx. pose proof (port_offset_ends total n Hn) as [H0 Hend].
  assert (∀ k : nat, Z.of_nat k ≤ n → x < port_offset total n (Z.of_nat k) → ∃ i, 0 ≤ i < n ∧ port_offset total n i ≤ x < port_offset total n (i + 1)) as Hgo.
  { induction k as [|k IH]; intros Hk Hlt; [change (Z.of_nat 0) with 0 in Hlt; lia|].
    destruct (decide (x < port_offset total n (Z.of_nat k))) as [Hl|Hg]; [apply IH; [lia|done]|].
    exists (Z.of_nat k). replace (Z.of_nat (S k)) with (Z.of_nat k + 1) in Hlt by lia. lia. }
  apply (Hgo (Z.to_nat n)); rewrite Z2Nat.id by lia; lia.
Qed.

(** The NAT ports are divided among the workers without overlap or loss: every worker
    gets a non-empty part of the range, every port of the range belongs to exactly one
    worker, and no worker gets more than one port more than another. *)
Theorem worker_ports_partition {E : Type} (lo hi n : Z) : 1 ≤ lo ≤ hi → hi < 65536 → 0 < n ≤ hi - lo + 1 →
  (∀ i, 0 ≤ i < n → ∃ a b, worker_port_range (E := E) (lo, hi) i n = Ok (Some (a, b)) ∧ lo ≤ a ≤ b ∧ b ≤ hi
     ∧ (hi - lo + 1) / n ≤ b - a + 1 ≤ (hi - lo + 1) / n + 1)
  ∧ (∀ p, lo ≤ p ≤ hi → ∃ i, 0 ≤ i < n ∧ ∀ j a b, 0 ≤ j → worker_port_range (E := E) (lo, hi) j n = Ok (Some (a, b)) → (a ≤ p ≤ b ↔ j = i)).
Proof.
  intros Hlo Hhi Hn. split.
  - intros i Hi. destruct (worker_port_range_run (E := E) lo hi n i Hlo Hhi Hn Hi) as (-> & ? & ?). do 2 eexists. split; [done|].
    rewrite port_offset_step in * by lia. destruct (decide (i < (hi - lo + 1) mod n)); lia.
  - intros p Hp. destruct (port_owner (hi - lo + 1) n (p - lo)) as (i & Hi & Hown); [lia..|]. exists i. split; [done|].
    intros j a b Hj Hr. assert (j < n) as Hjn.
    { revert Hr. unfold worker_port_range. cbn [fst snd]. case_decide; [done|]. lia. }
    destruct (worker_port_range_run (E := E) lo hi n j Hlo Hhi Hn) as (Hrun & _ & _); [lia|]. rewrite Hrun in Hr. injection Hr as <- <-. split.
    + intros Hin. destruct (decide (j < i)) as [Hl|]; [|destruct (decide (i < j)) as [Hg|]; [|lia]].
      * pose proof (port_offset_mono (hi - lo + 1) n (j + 1) i). lia.
      * pose proof (port_offset_mono (hi - lo + 1) n (i + 1) j). lia.
    + intros ->. lia.
Qed.

Lemma worker_ports_partition_witness :
  (∀ i, 0 ≤ i < 3 → ∃ a b, worker_port_range (E := unit) (40000, 40009) i 3 = Ok (Some (a, b)) ∧ 40000 ≤ a ≤ b ∧ b ≤ 40009 ∧ 3 ≤ b - a + 1 ≤ 4)
  ∧ worker_port_range (E := unit) (40000, 40009) 0 3 = Ok (Some (40000, 40003))
  ∧ worker_port_range (E := unit) (40000, 40009) 2 3 = Ok (Some (40007, 40009)).
Proof.
  split; [|split; reflexivity]. apply (worker_ports_partition 40000 40009 3); lia.
Defined.
