(* ===== verification/SetupClaims.v ===== *)
(** The runtime that is built: its queues, and the workers of an accepted configuration. *)
From S2P Require Import Prelude Net Packet NatTable NatProps Session SessionProps SessionTheorems QuicFlow Dns Inner Auth Engine Worker WorkerProps WorkerDns WorkerRun WorkerClaims Frame Encap FlowLoop FlowLoopProps FlowLoopInv FlowLoopClaims Text Config ConfigSample ConfigProps ConfigSafety ConfigClaims Setup SetupProps.

(** ** Merged interfaces *)

(** What the specifications say together about interface [i]. *)
Definition merged (specs : list InterfaceSpec) (interfaces : Interfaces) : Prop :=
  (∀ s, s ∈ specs → ∃ cl, interfaces !! sp_ifindex s = Some (sp_queue_count s, cl) ∧ 0 < sp_queue_count s)
  ∧ ∀ i n cl, interfaces !! i = Some (n, cl) → (∃ s, s ∈ specs ∧ sp_ifindex s = i)
    ∧ (cl_tunnel cl = true ↔ ∃ s, s ∈ specs ∧ sp_ifindex s = i ∧ cl_tunnel (sp_classifiers s) = true)
    ∧ (cl_intercept cl = true ↔ ∃ s, s ∈ specs ∧ sp_ifindex s = i ∧ cl_intercept (sp_classifiers s) = true).

(** Why the specifications are refused. *)
Definition merge_refused (specs : list InterfaceSpec) (e : RuntimeBuildError) : Prop :=
  match e with
  | ZeroQueues i => ∃ s, s ∈ specs ∧ sp_ifindex s = i ∧ sp_queue_count s = 0
  | TooManyQueues i n capacity => capacity = 4096 ∧ 4096 < n ∧ ∃ s, s ∈ specs ∧ sp_ifindex s = i ∧ sp_queue_count s = n
  | QueueCountMismatch i a b => a ≠ b ∧ ∃ s s', s ∈ specs ∧ s' ∈ specs ∧ sp_ifindex s = i ∧ sp_ifindex s' = i
      ∧ sp_queue_count s = a ∧ sp_queue_count s' = b
  | XskCreate _ _ => False
  end.

Lemma merged_snoc seen spec interfaces cl : merged seen interfaces → 0 < sp_queue_count spec →
  match interfaces !! sp_ifindex spec with
  | None => cl = sp_classifiers spec
  | Some (n, old) => n = sp_queue_count spec
      ∧ cl = mkClassifiers (cl_tunnel old || cl_tunnel (sp_classifiers spec)) (cl_intercept old || cl_intercept (sp_classifiers spec))
  end →
  merged (seen ++ [spec]) (<[sp_ifindex spec := (sp_queue_count spec, cl)]> interfaces).
Proof.
  intros [Hs Hi] Hpos Hcl. split.
  - intros s [Hin| ->%list_elem_of_singleton]%elem_of_app; [|rewrite lookup_insert_eq; by eexists].
    destruct (Hs s Hin) as (cl' & Hl & Hp). destruct (decide (sp_ifindex s = sp_ifindex spec)) as [He|Hne].
    + rewrite He in *. rewrite Hl in Hcl. destruct Hcl as [-> _]. rewrite lookup_insert_eq. by eexists.
    + rewrite lookup_insert_ne by congruence. by exists cl'.
  - intros i n cl'. rewrite lookup_insert_Some. setoid_rewrite elem_of_app. setoid_rewrite list_elem_of_singleton.
    intros [[<- [= <- <-]]|[Hne Hl]].
    + split; [exists spec; auto|]. destruct (interfaces !! sp_ifindex spec) as [[n old]|] eqn:Hold.
      * destruct Hcl as [-> ->]. destruct (Hi _ _ _ Hold) as (_ & Ht & Hc). simpl. rewrite !orb_true_iff, Ht, Hc. naive_solver.
      * subst cl. assert (∀ s, s ∈ seen → sp_ifindex s ≠ sp_ifindex spec) as Hnew.
        { intros s Hin He. destruct (Hs s Hin) as (? & Hl & _). congruence. }
        split; (split; [intros; exists spec; auto|]); intros (s & [Hin| ->] & He & Hv); try done; by destruct (Hnew s Hin).
    + destruct (Hi _ _ _ Hl) as ((s & ? & ?) & Ht & Hc). split; [exists s; auto|]. rewrite Ht, Hc. naive_solver.
Qed.

Lemma merge_specs_spec specs : (∀ s, s ∈ specs → 0 ≤ sp_queue_count s) → ∀ seen interfaces, merged seen interfaces →
  match merge_specs specs interfaces with
  | Ok out => merged (seen ++ specs) out
  | Err e => merge_refused (seen ++ specs) e
  | Panic => False
  end.
Proof.
  induction specs as [|spec specs IH]; intros Hpos seen interfaces Hm; cbn [merge_specs]; [by rewrite app_nil_r|].
  assert (0 ≤ sp_queue_count spec) as Hp by (apply Hpos; by left).
  assert (∀ s, s ∈ specs → 0 ≤ sp_queue_count s) as Hpos' by (intros s Hin; apply Hpos; by right).
  assert (spec ∈ seen ++ spec :: specs) as Hin by (apply elem_of_app; right; by left).
  case_decide as H0; [by exists spec|]. unfold XSK_MAP_MAX_ENTRIES. case_decide as Hmax; [split_and!; [done|done|by exists spec]|].
  replace (seen ++ spec :: specs) with ((seen ++ [spec]) ++ specs) in * by (by rewrite <- app_assoc).
  destruct (interfaces !! sp_ifindex spec) as [[n old]|] eqn:Hl.
  - case_decide as Hn.
    + split; [done|]. destruct Hm as [Hs Hi]. destruct (Hi _ _ _ Hl) as ((s & Hs1 & Hs2) & _). exists s, spec.
      destruct (Hs s Hs1) as (cl & Hl' & _). rewrite Hs2 in Hl'. split_and!; [|done|done|done|congruence|done].
      rewrite <- app_assoc. apply elem_of_app. by left.
    + subst n. apply IH; [done|]. apply merged_snoc; [done|lia|]. by rewrite Hl.
  - apply IH; [done|]. apply merged_snoc; [done|lia|]. by rewrite Hl.
Qed.

Lemma merge_interfaces_spec specs : (∀ s, s ∈ specs → 0 ≤ sp_queue_count s) →
  match merge_interfaces specs with Ok out => merged specs out | Err e => merge_refused specs e | Panic => False end.
Proof.
  intros Hpos. apply (merge_specs_spec specs Hpos [] ∅). split; [by intros s ?%not_elem_of_nil|]. intros i n cl. by rewrite lookup_empty.
Qed.

(** ** Owners *)

Lemma elem_of_ordered interfaces e : e ∈ ordered interfaces ↔ interfaces !! e.1 = Some e.2.
Proof.
  unfold ordered. rewrite list_elem_of_omap. destruct e as [i x]. simpl. split.
  - intros (j & _ & Hj). apply fmap_Some in Hj as (y & Hy & [= <- <-]). done.
  - intros Hl. exists i. rewrite elem_of_ascending, elem_of_dom, Hl. by split.
Qed.

Lemma NoDup_ascending s : NoDup (ascending s).
Proof. unfold ascending. rewrite merge_sort_Permutation. apply NoDup_elements. Qed.

Lemma NoDup_ordered interfaces : NoDup (fst <$> ordered interfaces).
Proof.
  unfold ordered. pose proof (NoDup_ascending (dom interfaces)) as Hnd. induction Hnd as [|i l Hi _ IH]; simpl; [constructor|].
  destruct (interfaces !! i) as [x|]; simpl; [|done]. constructor; [|done].
  intros (e & -> & He)%list_elem_of_fmap. apply list_elem_of_omap in He as (j & Hj & He). apply fmap_Some in He as (y & _ & ->). done.
Qed.

Definition all_owners (interfaces : Interfaces) : list (IoOwnerKey * IoClassifiers) := concat (interface_owners <$> ordered interfaces).

Lemma elem_of_owners interfaces key cl :
  (key, cl) ∈ all_owners interfaces ↔ ∃ n, interfaces !! ifindex key = Some (n, cl) ∧ 0 ≤ queue_id key < n.
Proof.
  unfold all_owners, interface_owners. rewrite list_elem_of_In, in_concat. split.
  - intros (l & (e & <- & He%list_elem_of_In%elem_of_ordered)%in_map_iff & Hin%list_elem_of_In).
    apply list_elem_of_fmap in Hin as (q & [= -> ->] & Hq%elem_of_seqZ). destruct e as [i [n c]]. simpl in *. exists n. split; [done|lia].
  - intros (n & Hl & Hq). exists (interface_owners (ifindex key, (n, cl))). split.
    + apply in_map_iff. exists (ifindex key, (n, cl)). split; [done|]. apply list_elem_of_In. by apply elem_of_ordered.
    + apply list_elem_of_In, list_elem_of_fmap. exists (queue_id key). simpl. split; [by destruct key|]. apply elem_of_seqZ. lia.
Qed.

Lemma NoDup_owners interfaces : NoDup (fst <$> all_owners interfaces).
Proof.
  unfold all_owners. pose proof (NoDup_ordered interfaces) as Hnd. revert Hnd. generalize (ordered interfaces). clear interfaces.
  induction l as [|[i [n c]] l IH]; simpl; [constructor|]. intros [Hi Hl]%NoDup_cons. rewrite fmap_app. apply NoDup_app. split_and!.
  - unfold interface_owners. rewrite <- list_fmap_compose. apply NoDup_fmap_2_strong; [by intros ? ? _ _ [= ?]|apply NoDup_seqZ].
  - intros key ([k c'] & -> & Hin)%list_elem_of_fmap ([k' c''] & Hk & Hin')%list_elem_of_fmap. simpl in Hk. subst k'.
    apply list_elem_of_fmap in Hin as (q & [= -> _] & _). apply Hi.
    apply list_elem_of_In, in_concat in Hin' as (lx & (e & <- & He%list_elem_of_In)%in_map_iff & Hx%list_elem_of_In).
    apply list_elem_of_fmap in Hx as (q' & [= -> _ _] & _). by apply list_elem_of_fmap_2.
  - by apply IH.
Qed.

Section build.
Context {F Xsk : Type} `{!XskFactory F Xsk}.
Abbreviation Prepared := (list (IoOwnerKey * PreparedIo Xsk)).

(** The owners and their classifiers, without the sockets. *)
Definition roles (prepared : Prepared) : list (IoOwnerKey * IoClassifiers) := (λ p, (p.1, pr_classifiers p.2)) <$> prepared.

Lemma create_all_spec owners_ : (∀ owner f, no_panic (xsk_create owner f).1) → ∀ f,
  match create_all (Xsk := Xsk) owners_ f with
  | (Ok prepared, _) => roles prepared = owners_
  | (Err e, _) => ∃ owner message f0 f1, e = XskCreate owner message ∧ xsk_create owner f0 = (Err message, f1)
  | (Panic, _) => False
  end.
Proof.
  intros Hnp. induction owners_ as [|[owner cl] os IH]; intros f; cbn [create_all]; [done|]. specialize (Hnp owner f) as Hp.
  destruct (xsk_create owner f) as [[xsk|m|] f1] eqn:Hc; [|by exists owner, m, f, f1|done]. unfold sbind, sret. specialize (IH f1).
  destruct (create_all os f1) as [[rest| |] f2]; [|done|done]. unfold roles in *. cbn [fmap list_fmap fst snd pr_classifiers]. by f_equal.
Qed.

Lemma start_all_roles prepared : ∀ f, roles (start_all prepared f).1 = roles prepared.
Proof.
  induction prepared as [|[owner p] ps IH]; intros f; [done|]. simpl. destruct (xsk_start (pr_xsk p) f) as [x f1]. specialize (IH f1).
  destruct (start_all ps f1) as [rest f2]. unfold roles in *. cbn [fmap list_fmap fst snd pr_classifiers] in *. by f_equal.
Qed.

Lemma register_all_spec (prepared : Prepared) : ∀ r, NoDup prepared.*1 → (∀ k, k ∈ prepared.*1 → owners r !! k = None) →
  ∃ r', register_all prepared r = Ok r'
    ∧ ∀ k p, owners r' !! k = Some p ↔ (k, p) ∈ prepared ∨ owners r !! k = Some p.
Proof.
  induction prepared as [|[owner p] ps IH]; intros r Hnd Hnew; cbn [register_all].
  - exists r. split; [done|]. intros k q. split; [by right|]. intros [?%not_elem_of_nil|?]; done.
  - simpl in Hnd. apply NoDup_cons in Hnd as [Ho Hnd]. unfold registry_register. rewrite (Hnew owner) by (by left).
    destruct (IH (mkIoRegistry (<[owner := p]> (owners r)))) as (r' & -> & Hr'); [done| |].
    + intros k Hk. simpl. rewrite lookup_insert_ne by (by intros <-). apply Hnew. by right.
    + exists r'. split; [done|]. intros k q. rewrite Hr'. simpl. rewrite lookup_insert_Some, elem_of_cons. split.
      * intros [?|[[-> ->]|[_ ?]]]; auto.
      * intros [[[= -> ->]|?]|Hk]; [auto|auto|]. right. right. split; [|done]. intros <-. rewrite (Hnew owner) in Hk by (by left). done.
Qed.

(** The runtime has exactly one owner for every queue of every interface it was given,
    even when the tunnel and an intercept share an interface, and each owner has exactly
    the roles of its interface; it is refused only for an interface without queues, with
    more than 4096, or with contradictory counts, or when a socket cannot be made, and
    the owners it collects never collide. *)
Theorem runtime_queues_exact (tunnel_spec : InterfaceSpec) (intercepts : list InterfaceSpec) (f : F) :
  (∀ owner f, no_panic (xsk_create owner f).1) → (∀ s, s ∈ tunnel_spec :: intercepts → 0 ≤ sp_queue_count s) →
  match (build_runtime (Xsk := Xsk) tunnel_spec intercepts f).1 with
  | Ok r =>
      (∀ key, is_Some (owners r !! key)
         ↔ ∃ s, s ∈ tunnel_spec :: intercepts ∧ sp_ifindex s = ifindex key ∧ 0 ≤ queue_id key < sp_queue_count s)
      ∧ ∀ key p, owners r !! key = Some p →
          (cl_tunnel (pr_classifiers p) = true
             ↔ ∃ s, s ∈ tunnel_spec :: intercepts ∧ sp_ifindex s = ifindex key ∧ cl_tunnel (sp_classifiers s) = true)
          ∧ (cl_intercept (pr_classifiers p) = true
             ↔ ∃ s, s ∈ tunnel_spec :: intercepts ∧ sp_ifindex s = ifindex key ∧ cl_intercept (sp_classifiers s) = true)
  | Err (XskCreate owner message) => ∃ f0 f1, xsk_create owner f0 = (Err message, f1)
  | Err e => merge_refused (tunnel_spec :: intercepts) e
  | Panic => False
  end.
Proof.
  intros Hnp Hpos. unfold build_runtime. pose proof (merge_interfaces_spec _ Hpos) as Hm.
  destruct (merge_interfaces (tunnel_spec :: intercepts)) as [interfaces|e|]; [|by destruct e|done].
  fold (all_owners interfaces). pose proof (create_all_spec (all_owners interfaces) Hnp f) as Hc.
  destruct (create_all (all_owners interfaces) f) as [[prepared|e|] f1]; [|destruct Hc as (o & m & f0 & f2 & -> & Hc); by exists f0, f2|done].
  pose proof (start_all_roles prepared f1) as Hst. destruct (start_all prepared f1) as [started f2]. simpl in Hst. rewrite Hc in Hst.
  assert (started.*1 = (all_owners interfaces).*1) as Hk.
  { rewrite <- Hst. unfold roles. rewrite <- list_fmap_compose. done. }
  destruct (register_all_spec started (mkIoRegistry ∅)) as (r & Hrun & Hr); [rewrite Hk; apply NoDup_owners|done|].
  rewrite Hrun. simpl. destruct Hm as [Hs Hi].
  assert (∀ key cl, (∃ p, owners r !! key = Some p ∧ pr_classifiers p = cl)
    ↔ ∃ n, interfaces !! ifindex key = Some (n, cl) ∧ 0 ≤ queue_id key < n) as Hown.
  { intros key cl. rewrite <- elem_of_owners, <- Hst. unfold roles. rewrite list_elem_of_fmap. setoid_rewrite Hr. simpl.
    setoid_rewrite lookup_empty. split.
    - intros (p & [Hp|?] & <-); [|done]. by exists (key, p).
    - intros ([k p] & [= -> ->] & Hp). exists p. auto. }
  split.
  - intros key. split.
    + intros [p Hp]. destruct (proj1 (Hown key (pr_classifiers p)) ltac:(by exists p)) as (n & Hn & Hq).
      destruct (Hi _ _ _ Hn) as ((s & Hs1 & Hs2) & _). exists s. split; [done|]. split; [done|]. destruct (Hs s Hs1) as (cl & Hl & _).
      rewrite Hs2 in Hl. simplify_eq. done.
    + intros (s & Hs1 & Hs2 & Hq). destruct (Hs s Hs1) as (cl & Hl & _). rewrite Hs2 in Hl.
      destruct (proj2 (Hown key cl) ltac:(by eexists)) as (p & Hp & _). by exists p.
  - intros key p Hp. destruct (proj1 (Hown key (pr_classifiers p)) ltac:(by exists p)) as (n & Hn & _). by apply (Hi _ n).
Qed.
End build.

(** ** The workers of an accepted configuration *)

(** The address the workers answer DNS queries from; any address when there is no DNS. *)
Definition dns_listen_of {IpNet : Type} (c : ApplianceConfig IpNet) : SocketAddr :=
  match ap_dns c with Some dns => dc_listen dns | None => mkSocketAddr (V4 1) 53 end.

Definition range_of {IpNet : Type} (c : ApplianceConfig IpNet) (i : nat) : Z * Z :=
  match worker_port_range (E := unit) (nat_ports (ap_nat c)) (Z.of_nat i) (ap_flow_worker_count c) with Ok (Some ports) => ports | _ => (1, 1) end.

Definition loop_config_of {IpNet : Type} (c : ApplianceConfig IpNet) (tunnel_link : InterfaceInfo) (default_io : IoOwnerKey) (port : Z)
    (i : nat) : LoopConfig :=
  mkLoopConfig (loop_role (ap_role c)) i (ap_flow_worker_count c) (info_queue_count tunnel_link) (info_ifindex tunnel_link) default_io port
    (dns_local_response_classifier c).

Section start.
Context {IpNet : Type} `{!EqDecision IpNet} `{!IpNetOps IpNet} `{!FileSystem} `{!WalkOrder} {E : Type} `{!EngineOps E}.

Lemma accepted_flow_worker (c : ApplianceConfig IpNet) tunnel_link i : appliance_valid c → 0 < info_queue_count tunnel_link →
  Z.of_nat i < ap_flow_worker_count c →
  ∃ w qf, flow_worker c tunnel_link i = Ok (w, qf)
    ∧ snat_config_ok (address_v4 (ap_nat c)) (address_v6 (ap_nat c)) (range_of c i).1 (range_of c i).2
    ∧ worker_new_dual i (address_v4 (ap_nat c)) (address_v6 (ap_nat c)) (range_of c i).1 (range_of c i).2 = Ok w.
Proof.
  intros Hv Hq Hi. pose proof (av_nat _ Hv) as [_ Hv4 Hv6 [Hp1 Hp2]]. pose proof (av_workers _ Hv) as Hw.
  unfold flow_worker, range_of. destruct (nat_ports (ap_nat c)) as [lo hi]. simpl in Hp1, Hp2, Hw.
  destruct (worker_port_range_run (E := unit) lo hi (ap_flow_worker_count c) (Z.of_nat i)) as (Hr & Ho1 & Ho2); [lia..|].
  destruct (worker_port_range_run (E := RuntimeError) lo hi (ap_flow_worker_count c) (Z.of_nat i)) as (Hr2 & _); [lia..|].
  rewrite Hr, Hr2. cbn [ok_or obind default fst snd]. set (a := lo + _) in *. set (b := lo + _ - 1) in *.
  assert (snat_config_ok (address_v4 (ap_nat c)) (address_v6 (ap_nat c)) a b) as Hs.
  { split_and!; [intros x Hx; by apply Hv4|intros x Hx; by apply Hv6|unfold a; lia|unfold b; lia]. }
  assert (∃ w, worker_new_dual i (address_v4 (ap_nat c)) (address_v6 (ap_nat c)) a b = Ok w) as [w Hnew].
  { unfold worker_new_dual, session_new_dual, nat_new_dual. rewrite decide_False; [by eexists|]. unfold a, b. lia. }
  rewrite Hnew. cbn [map_err obind]. unfold quic_flow_new. rewrite decide_False; [|by vm_compute]. rewrite decide_False by lia.
  cbn [map_err obind]. by do 2 eexists.
Qed.

End start.

(** ** Concrete set-ups *)

#[global] Instance sample_factory : XskFactory (list IoOwnerKey) IoOwnerKey := {|
  xsk_create := λ owner f, (Ok owner, f ++ [owner]);
  xsk_start := λ x f, (x, f);
|}.

Lemma runtime_queues_exact_witness :
  match (build_runtime (F := list IoOwnerKey) (Xsk := IoOwnerKey) (spec_tunnel 9 2) [spec_intercept 9 2; spec_intercept 4 1] []).1 with
  | Ok r => is_Some (owners r !! mkIoOwnerKey 9 1)
      ↔ ∃ s, s ∈ [spec_tunnel 9 2; spec_intercept 9 2; spec_intercept 4 1] ∧ sp_ifindex s = 9 ∧ 0 ≤ 1 < sp_queue_count s
  | _ => False
  end.
Proof.
  assert (∀ owner (f : list IoOwnerKey), no_panic (xsk_create (Xsk := IoOwnerKey) owner f).1) as Hnp by (intros owner f; discriminate).
  assert (∀ s, s ∈ [spec_tunnel 9 2; spec_intercept 9 2; spec_intercept 4 1] → 0 ≤ sp_queue_count s) as Hpos
    by (apply Forall_forall; repeat constructor; simpl; lia).
  pose proof (runtime_queues_exact (F := list IoOwnerKey) (Xsk := IoOwnerKey) (spec_tunnel 9 2) [spec_intercept 9 2; spec_intercept 4 1] [] Hnp Hpos) as H.
  destruct (build_runtime _ _ _) as [[r|e|] f] eqn:Hb; [exact (proj1 H (mkIoOwnerKey 9 1))| |]; vm_compute in Hb; discriminate Hb.
Defined.

Definition sample_tunnel_link : InterfaceInfo := mkInterface (txt "eth0") 9 2 [2; 0; 0; 0; 0; 9] [V4 0xc6336401] (Some 0xc6336401) None.

