(* ===== verification/Xsk.v ===== *)
(** The AF_XDP socket of one queue ([src/src/xdp_datapath/xsk.rs]): four rings shared
    with the kernel and the frame memory (UMEM) they point into.

    A ring has free-running 32-bit indices; the slot of an index is its low ten bits.
    The memory is a function from addresses to bytes.  An access outside the memory or a
    ring, undefined behaviour in the source, is [Panic] here.  Each operation reads the
    kernel's index once, works on slots and chunks the kernel has given up, and publishes
    its own index last, so that the kernel's steps during an operation commute to after
    it; operations are therefore steps of their own in the runs of [XskProps.v].  The
    system calls that set the socket up, the descriptor and the barriers are left out. *)
From S2P Require Import Prelude.

(** ** Constants *)

Definition RING_SIZE : Z := 1024.
Definition CHUNK_SIZE : Z := 4096.
Definition CHUNK_COUNT : Z := 2048.
Definition RX_CHUNKS : Z := 1024.
Definition XDP_RING_NEED_WAKEUP : Z := 1.

(** The length of the mapping that [Umem::allocate] makes. *)
Definition umem_length : Z := CHUNK_SIZE * CHUNK_COUNT.

(** ** Rings *)

Record XdpDesc : Type := mkDesc { d_addr : Z; d_len : Z; d_options : Z }.

Record Ring (A : Type) : Type := mkRing { ring_producer : Z; ring_consumer : Z; ring_slots : list A; ring_flags : Z }.
Arguments mkRing {A} _ _ _ _.
Arguments ring_producer {A} _.
Arguments ring_consumer {A} _.
Arguments ring_slots {A} _.
Arguments ring_flags {A} _.

(** [RING_SIZE - 1]. *)
Definition ring_mask : Z := RING_SIZE - 1.
Definition slot_of (index : Z) : nat := Z.to_nat (Z.land index ring_mask).

Definition ring_needs_wakeup (flags : Z) : bool := negb (bool_decide (Z.land flags XDP_RING_NEED_WAKEUP = 0)).

Definition set_producer {A : Type} (p : Z) (r : Ring A) : Ring A := mkRing p (ring_consumer r) (ring_slots r) (ring_flags r).
Definition set_consumer {A : Type} (c : Z) (r : Ring A) : Ring A := mkRing (ring_producer r) c (ring_slots r) (ring_flags r).

(** [ptr::read] and [ptr::write] of a descriptor. *)
Definition read_slot {A E : Type} (index : Z) (r : Ring A) : outcome E A := expect (ring_slots r !! slot_of index).
Definition write_slot {A E : Type} (index : Z) (x : A) (r : Ring A) : outcome E (Ring A) :=
  if decide (slot_of index < length (ring_slots r))%nat
  then Ok (mkRing (ring_producer r) (ring_consumer r) (<[slot_of index := x]> (ring_slots r)) (ring_flags r))
  else Panic.

Definition tx_batch_capacity (requested free_buffers producer consumer : Z) : Z :=
  let available_descriptors := Z.max 0 (RING_SIZE - wrap 32 (producer - consumer)) in
  Z.min (Z.min requested free_buffers) available_descriptors.

(** ** The memory *)

Definition umem_read {E : Type} (umem : Z → Z) (addr len : Z) : outcome E bytes :=
  if decide (0 ≤ addr ∧ addr + len ≤ umem_length) then Ok ((λ i : nat, umem (addr + Z.of_nat i)) <$> seq 0 (Z.to_nat len)) else Panic.

Definition umem_put (addr : Z) (data : bytes) (umem : Z → Z) : Z → Z := λ a,
  if decide (addr ≤ a < addr + Z.of_nat (length data)) then byte_at data (Z.to_nat (a - addr)) else umem a.

(** [ptr::copy_nonoverlapping] into the memory. *)
Definition umem_write {E : Type} (addr : Z) (data : bytes) (umem : Z → Z) : outcome E (Z → Z) :=
  if decide (0 ≤ addr ∧ addr + Z.of_nat (length data) ≤ umem_length) then Ok (umem_put addr data umem) else Panic.

(** ** The socket *)

Record Xsk : Type := mkXsk {
  x_umem : Z → Z;
  x_rx : Ring XdpDesc;
  x_tx : Ring XdpDesc;
  x_fill : Ring Z;
  x_completion : Ring Z;
  x_rx_consumer : Z;
  x_fill_producer : Z;
  x_tx_producer : Z;
  x_completion_consumer : Z;
  x_free_tx : list Z;
}.

Definition with_umem (m : Z → Z) (x : Xsk) : Xsk :=
  mkXsk m (x_rx x) (x_tx x) (x_fill x) (x_completion x) (x_rx_consumer x) (x_fill_producer x) (x_tx_producer x) (x_completion_consumer x) (x_free_tx x).
Definition with_rx (r : Ring XdpDesc) (c : Z) (x : Xsk) : Xsk :=
  mkXsk (x_umem x) r (x_tx x) (x_fill x) (x_completion x) c (x_fill_producer x) (x_tx_producer x) (x_completion_consumer x) (x_free_tx x).
Definition with_tx (r : Ring XdpDesc) (p : Z) (x : Xsk) : Xsk :=
  mkXsk (x_umem x) (x_rx x) r (x_fill x) (x_completion x) (x_rx_consumer x) (x_fill_producer x) p (x_completion_consumer x) (x_free_tx x).
Definition with_fill (r : Ring Z) (p : Z) (x : Xsk) : Xsk :=
  mkXsk (x_umem x) (x_rx x) (x_tx x) r (x_completion x) (x_rx_consumer x) p (x_tx_producer x) (x_completion_consumer x) (x_free_tx x).
Definition with_completion (r : Ring Z) (c : Z) (x : Xsk) : Xsk :=
  mkXsk (x_umem x) (x_rx x) (x_tx x) (x_fill x) r (x_rx_consumer x) (x_fill_producer x) (x_tx_producer x) c (x_free_tx x).
Definition with_free_tx (l : list Z) (x : Xsk) : Xsk :=
  mkXsk (x_umem x) (x_rx x) (x_tx x) (x_fill x) (x_completion x) (x_rx_consumer x) (x_fill_producer x) (x_tx_producer x) (x_completion_consumer x) l.

Definition push_fill {E : Type} (address : Z) (x : Xsk) : outcome E Xsk :=
  let? fill := write_slot (x_fill_producer x) address (x_fill x) in
  Ok (with_fill fill (wrap 32 (x_fill_producer x + 1)) x).

(** The loop of [seed_fill_ring] over the chunks from [chunk] on. *)
Fixpoint seed_chunks {E : Type} (todo : nat) (chunk : Z) (x : Xsk) : outcome E Xsk :=
  match todo with
  | O => Ok x
  | S todo => let? x := push_fill (chunk * CHUNK_SIZE) x in seed_chunks todo (chunk + 1) x
  end.

Definition seed_fill_ring {E : Type} (x : Xsk) : outcome E Xsk :=
  let? x := seed_chunks (Z.to_nat RX_CHUNKS) 0 x in
  Ok (with_fill (set_producer (x_fill_producer x) (x_fill x)) (x_fill_producer x) x).

(** The end of [configure], once the rings are mapped. *)
Definition xsk_configured {E : Type} (umem : Z → Z) (rx tx : Ring XdpDesc) (fill completion : Ring Z) : outcome E Xsk :=
  seed_fill_ring (mkXsk umem rx tx fill completion 0 0 0 0
    ((λ chunk, chunk * CHUNK_SIZE) <$> seqZ RX_CHUNKS (CHUNK_COUNT - RX_CHUNKS))).

(** ** Reception *)

(** The body of the loop in [receive_with]: [handle_frame] is the caller's closure on
    the state [S] it captures. *)
Fixpoint receive_loop {S E : Type} (handle_frame : bytes → S → outcome E S) (todo : nat) (offset : Z) (x : Xsk) (s : S) : outcome E (Xsk * S) :=
  match todo with
  | O => Ok (x, s)
  | S todo =>
      let? descriptor := read_slot (wrap 32 (x_rx_consumer x + offset)) (x_rx x) in
      let? s :=
        (if decide (wrap 64 (d_addr descriptor + d_len descriptor) ≤ umem_length) then
           let? frame := umem_read (x_umem x) (d_addr descriptor) (d_len descriptor) in
           handle_frame frame s
         else Ok s) in
      let? x := push_fill (d_addr descriptor) x in
      receive_loop handle_frame todo (offset + 1) x s
  end.

Definition receive_with {S E : Type} (budget : Z) (handle_frame : bytes → S → outcome E S) (x : Xsk) (s : S) : outcome E (Z * Xsk * S) :=
  let count := Z.min (wrap 32 (ring_producer (x_rx x) - x_rx_consumer x)) budget in
  if decide (count = 0) then Ok (0, x, s) else
  let? '(x, s) := receive_loop handle_frame (Z.to_nat count) 0 x s in
  let rx_consumer := wrap 32 (x_rx_consumer x + count) in
  let x := with_rx (set_consumer rx_consumer (x_rx x)) rx_consumer x in
  Ok (count, with_fill (set_producer (x_fill_producer x) (x_fill x)) (x_fill_producer x) x, s).

(** ** Transmission *)

Fixpoint reclaim_loop {E : Type} (todo : nat) (offset : Z) (x : Xsk) : outcome E Xsk :=
  match todo with
  | O => Ok x
  | S todo =>
      let? address := read_slot (wrap 32 (x_completion_consumer x + offset)) (x_completion x) in
      reclaim_loop todo (offset + 1) (with_free_tx (x_free_tx x ++ [address]) x)
  end.

Definition reclaim_completions {E : Type} (x : Xsk) : outcome E Xsk :=
  let count := wrap 32 (ring_producer (x_completion x) - x_completion_consumer x) in
  if decide (count = 0) then Ok x else
  let? x := reclaim_loop (Z.to_nat count) 0 x in
  let consumer := wrap 32 (x_completion_consumer x + count) in
  Ok (with_completion (set_consumer consumer (x_completion x)) consumer x).

(** The kinds of [io::Error] the socket tells apart. *)
Inductive IoErrorKind : Type := WouldBlock | Interrupted | InvalidInput | OtherKind.
#[global] Instance IoErrorKind_eq_dec : EqDecision IoErrorKind.
Proof. solve_decision. Defined.

(** The loop of [transmit_batch] that copies the frames and fills the descriptors. *)
Fixpoint enqueue_frames {E : Type} (frames : list bytes) (x : Xsk) : outcome E Xsk :=
  match frames with
  | [] => Ok x
  | frame :: frames =>
      match x_free_tx x with
      | [] => Panic
      | address :: free_tx =>
          let? umem := umem_write address frame (x_umem x) in
          let? tx := write_slot (x_tx_producer x) (mkDesc address (Z.of_nat (length frame)) 0) (x_tx x) in
          enqueue_frames frames (with_tx tx (wrap 32 (x_tx_producer x + 1)) (with_umem umem (with_free_tx free_tx x)))
      end
  end.

(** [transmit_batch] after it has reclaimed completions; [kick] is the failure of the
    [sendto] that wakes the kernel, [None] when it succeeds. *)
Definition transmit_reclaimed (kick : option IoErrorKind) (frames : list bytes) : ST Xsk IoErrorKind Z := λ x,
  let count := tx_batch_capacity (Z.of_nat (length frames)) (Z.of_nat (length (x_free_tx x))) (ring_producer (x_tx x)) (ring_consumer (x_tx x)) in
  if decide (count = 0) then (Ok 0, x) else
  let batch := take (Z.to_nat count) frames in
  if decide (Exists (λ frame, CHUNK_SIZE < Z.of_nat (length frame)) batch) then (Err InvalidInput, x) else
  match enqueue_frames (E := IoErrorKind) batch x with
  | Ok x =>
      let x := with_tx (set_producer (x_tx_producer x) (x_tx x)) (x_tx_producer x) x in
      match kick with
      | Some error =>
          if ring_needs_wakeup (ring_flags (x_tx x)) && bool_decide (error ≠ WouldBlock ∧ error ≠ Interrupted)
          then (Err error, x) else (Ok count, x)
      | None => (Ok count, x)
      end
  | Err e => (Err e, x)
  | Panic => (Panic, x)
  end.

Definition transmit_batch (kick : option IoErrorKind) (frames : list bytes) : ST Xsk IoErrorKind Z := λ x,
  match frames with
  | [] => (Ok 0, x)
  | _ =>
      match reclaim_completions (E := IoErrorKind) x with
      | Ok x => transmit_reclaimed kick frames x
      | Err e => (Err e, x)
      | Panic => (Panic, x)
      end
  end.
