(* ===== verification/XskProps.v ===== *)
(** The rings of the socket as lists, and its memory by chunks. *)
From S2P Require Import Prelude Xsk.

(** ** Indices and slots *)

Lemma slot_of_mod x : slot_of x = Z.to_nat (x mod RING_SIZE).
Proof. unfold slot_of. change ring_mask with (Z.ones 10). rewrite Z.land_ones by lia. done. Qed.

Lemma slot_of_wrap x : slot_of (wrap 32 x) = slot_of x.
Proof.
  rewrite !slot_of_mod. unfold wrap. f_equal. apply Z.mod_mod_divide. by exists (2 ^ 22).
Qed.

Lemma slot_of_lt x : (slot_of x < Z.to_nat RING_SIZE)%nat.
Proof. rewrite slot_of_mod. pose proof (Z.mod_pos_bound x RING_SIZE). unfold RING_SIZE in *. lia. Qed.

Lemma slot_of_inj c i j : 0 ≤ i < j → j - i < RING_SIZE → slot_of (c + i) ≠ slot_of (c + j).
Proof.
  rewrite !slot_of_mod. unfold RING_SIZE. intros Hij Hlt He.
  pose proof (Z.div_mod (c + i) 1024). pose proof (Z.div_mod (c + j) 1024).
  pose proof (Z.mod_pos_bound (c + i) 1024). pose proof (Z.mod_pos_bound (c + j) 1024). lia.
Qed.

Lemma wrap_range x : fits 32 (wrap 32 x).
Proof. apply Z.mod_pos_bound. lia. Qed.

Lemma wrap_add_l x y : wrap 32 (wrap 32 x + y) = wrap 32 (x + y).
Proof. unfold wrap. rewrite Zplus_mod_idemp_l. done. Qed.

(** ** A ring that holds a list *)

Record ring_holds {A : Type} (r : Ring A) (l : list A) : Prop := {
  rh_slots : length (ring_slots r) = Z.to_nat RING_SIZE;
  rh_consumer : fits 32 (ring_consumer r);
  rh_producer : ring_producer r = wrap 32 (ring_consumer r + Z.of_nat (length l));
  rh_bound : Z.of_nat (length l) ≤ RING_SIZE;
  rh_entry : ∀ i x, l !! i = Some x → ring_slots r !! slot_of (ring_consumer r + Z.of_nat i) = Some x;
}.

Section ring.
Context {A : Type}.
Implicit Types (r : Ring A) (l : list A).

Lemma ring_count r l : ring_holds r l → wrap 32 (ring_producer r - ring_consumer r) = Z.of_nat (length l).
Proof.
  intros [_ Hc Hp Hb _]. rewrite Hp. unfold wrap, fits, RING_SIZE in *. rewrite Zminus_mod_idemp_l.
  replace (ring_consumer r + Z.of_nat (length l) - ring_consumer r) with (Z.of_nat (length l)) by lia. apply Z.mod_small. lia.
Qed.

Lemma ring_read {E} r l i x : ring_holds r l → l !! i = Some x → read_slot (E := E) (wrap 32 (ring_consumer r + Z.of_nat i)) r = Ok x.
Proof. intros Hr Hi. unfold read_slot. rewrite slot_of_wrap, (rh_entry _ _ Hr i x Hi). done. Qed.

(** Appending at a private producer index [p], which is published later. *)
Lemma ring_push {E} r l p x : ring_holds (set_producer p r) l → Z.of_nat (length l) < RING_SIZE →
  ∃ slots, write_slot (E := E) p x r = Ok (mkRing (ring_producer r) (ring_consumer r) slots (ring_flags r))
    ∧ ∀ p', ring_holds (mkRing (wrap 32 (p + 1)) (ring_consumer r) slots p') (l ++ [x]).
Proof.
  intros [Hs Hc Hp Hb He] Hlt. simpl in *. unfold write_slot. pose proof (slot_of_lt p). rewrite decide_True by lia.
  eexists. split; [done|]. intros fl. split; simpl.
  - by rewrite length_insert.
  - done.
  - rewrite Hp, wrap_add_l, length_app. simpl. f_equal. lia.
  - rewrite length_app. simpl. lia.
  - intros i y Hy. assert (slot_of p = slot_of (ring_consumer r + Z.of_nat (length l))) as Hslot by (by rewrite Hp, slot_of_wrap).
    apply lookup_app_Some in Hy as [Hy|[Hle Hy]].
    + rewrite list_lookup_insert_ne; [by apply He|]. rewrite Hslot. pose proof (lookup_lt_Some _ _ _ Hy).
      apply not_eq_sym, slot_of_inj; lia.
    + apply list_lookup_singleton_Some in Hy as [Hi ->]. replace i with (length l) by lia. rewrite <- Hslot.
      apply list_lookup_insert_eq. lia.
Qed.

Lemma ring_pop r l (n : nat) : ring_holds r l → (n ≤ length l)%nat →
  ring_holds (set_consumer (wrap 32 (ring_consumer r + Z.of_nat n)) r) (drop n l).
Proof.
  intros [Hs Hc Hp Hb He] Hn. split; simpl.
  - done.
  - apply wrap_range.
  - rewrite Hp, wrap_add_l, length_drop. f_equal. lia.
  - rewrite length_drop. lia.
  - intros i x. rewrite lookup_drop. intros Hx%He.
    rewrite <- slot_of_wrap, wrap_add_l, slot_of_wrap. rewrite <- Hx. do 2 f_equal. lia.
Qed.

(** A holding ring stays so when its flags change. *)
Lemma ring_flags_free r l f : ring_holds r l → ring_holds (mkRing (ring_producer r) (ring_consumer r) (ring_slots r) f) l.
Proof. intros [? ? ? ? ?]. by split. Qed.

Lemma ring_nil r : length (ring_slots r) = Z.to_nat RING_SIZE → ring_producer r = 0 → ring_consumer r = 0 → ring_holds r [].
Proof. intros ? Hp Hc. split; [done|rewrite Hc; unfold fits; lia|by rewrite Hp, Hc|simpl; unfold RING_SIZE; lia|done]. Qed.

Lemma ring_same r l l' : ring_holds r l → ring_holds r l' → l = l'.
Proof.
  intros H H'. assert (length l = length l') as Hlen.
  { pose proof (ring_count _ _ H). pose proof (ring_count _ _ H'). lia. }
  apply list_eq. intros i. destruct (l !! i) as [x|] eqn:Hi; destruct (l' !! i) as [y|] eqn:Hi'.
  - pose proof (rh_entry _ _ H _ _ Hi). pose proof (rh_entry _ _ H' _ _ Hi'). congruence.
  - apply lookup_lt_Some in Hi. apply lookup_ge_None in Hi'. lia.
  - apply lookup_ge_None in Hi. apply lookup_lt_Some in Hi'. lia.
  - done.
Qed.
End ring.

(** ** Chunks *)

Definition chunk_of (addr : Z) : Z := addr / CHUNK_SIZE.
Definition desc_chunk (d : XdpDesc) : Z := chunk_of (d_addr d).

(** A descriptor stays inside the chunk it points into. *)
Definition desc_ok (d : XdpDesc) : Prop := 0 ≤ d_len d ∧ d_addr d mod CHUNK_SIZE + d_len d ≤ CHUNK_SIZE.

(** The frame a descriptor stands for. *)
Definition frame_at (umem : Z → Z) (d : XdpDesc) : bytes := (λ i : nat, umem (d_addr d + Z.of_nat i)) <$> seq 0 (Z.to_nat (d_len d)).

Lemma desc_in_chunk d : desc_ok d → desc_chunk d * CHUNK_SIZE ≤ d_addr d ∧ d_addr d + d_len d ≤ desc_chunk d * CHUNK_SIZE + CHUNK_SIZE.
Proof.
  unfold desc_ok, desc_chunk, chunk_of, CHUNK_SIZE. intros [? ?]. pose proof (Z.div_mod (d_addr d) 4096). pose proof (Z.mod_pos_bound (d_addr d) 4096). lia.
Qed.

(** A write into another chunk leaves the frame alone. *)
Lemma frame_at_put addr data umem d : desc_ok d → addr mod CHUNK_SIZE + Z.of_nat (length data) ≤ CHUNK_SIZE → chunk_of addr ≠ desc_chunk d →
  frame_at (umem_put addr data umem) d = frame_at umem d.
Proof.
  intros Hd Hin Hne. apply list_fmap_ext. intros i j [Hj Hlt]%lookup_seq. simpl in Hj. subst j. unfold umem_put. rewrite decide_False; [done|].
  pose proof (desc_in_chunk d Hd). revert Hne. unfold chunk_of, CHUNK_SIZE in *. intros Hne.
  pose proof (Z.div_mod addr 4096). pose proof (Z.mod_pos_bound addr 4096). lia.
Qed.

(** The frame just written is the one the new descriptor stands for. *)
Lemma frame_at_written addr data umem o : frame_at (umem_put addr data umem) (mkDesc addr (Z.of_nat (length data)) o) = data.
Proof.
  unfold frame_at. simpl. rewrite Nat2Z.id. apply list_eq. intros i. rewrite list_lookup_fmap. destruct (decide (i < length data)%nat) as [Hi|Hi].
  - rewrite lookup_seq_lt by done. simpl. unfold umem_put. rewrite decide_True by lia. rewrite lookup_byte_at by done.
    repeat f_equal. lia.
  - rewrite lookup_seq_ge by lia. simpl. symmetry. apply lookup_ge_None. lia.
Qed.

Lemma umem_read_frame {E} umem d : desc_ok d → 0 ≤ desc_chunk d < CHUNK_COUNT → umem_read (E := E) umem (d_addr d) (d_len d) = Ok (frame_at umem d).
Proof.
  intros Hd Hc. pose proof (desc_in_chunk d Hd). unfold umem_read. rewrite decide_True; [done|].
  unfold umem_length, CHUNK_SIZE, CHUNK_COUNT in *. lia.
Qed.
