(* ===== verification/XskClaims.v ===== *)
(** The socket and the kernel together: every chunk of the memory is in one place, and the
    rings carry two queues of frames. *)
From stdpp Require Import relations.
From S2P Require Import Prelude Xsk XskProps.

#[local] Arguments seqZ : simpl never.

(** ** The kernel's side *)

(** The socket, the chunks the kernel holds to receive into and the addresses it sends
    from. *)
Record Socket : Type := mkSocket { so_xsk : Xsk; so_receiving : list Z; so_sending : list Z }.

(** What an outside observer sees of a step. *)
Inductive label : Type :=
| LReceived (budget : Z) (frames : list bytes)
| LTransmitted (frames : list bytes) (result : outcome IoErrorKind Z)
| LReclaimed
| LDelivered (frame : bytes)
| LSent (frame : bytes)
| LKernel.

(** The steps of the kernel, as the interface is documented: it takes addresses from the
    fill ring in order (and uses their chunk), writes a frame inside a chunk it holds,
    sends from the transmit ring in order, completes in any order, never overfills a
    ring, and may ask to be woken. *)
Inductive kernel_step : Socket → label → Socket → Prop :=
| k_take_fill x rs ts a : wrap 32 (ring_producer (x_fill x) - ring_consumer (x_fill x)) ≠ 0 →
    read_slot (E := unit) (ring_consumer (x_fill x)) (x_fill x) = Ok a →
    kernel_step (mkSocket x rs ts) LKernel
      (mkSocket (with_fill (set_consumer (wrap 32 (ring_consumer (x_fill x) + 1)) (x_fill x)) (x_fill_producer x) x) (rs ++ [chunk_of a]) ts)
| k_deliver x rs1 rs2 ts chunk headroom data rx : 0 ≤ headroom → headroom + Z.of_nat (length data) ≤ CHUNK_SIZE →
    headroom < CHUNK_SIZE → wrap 32 (ring_producer (x_rx x) - ring_consumer (x_rx x)) < RING_SIZE →
    let addr := chunk * CHUNK_SIZE + headroom in
    write_slot (E := unit) (ring_producer (x_rx x)) (mkDesc addr (Z.of_nat (length data)) 0) (x_rx x) = Ok rx →
    kernel_step (mkSocket x (rs1 ++ chunk :: rs2) ts) (LDelivered data)
      (mkSocket (with_rx (set_producer (wrap 32 (ring_producer (x_rx x) + 1)) rx) (x_rx_consumer x) (with_umem (umem_put addr data (x_umem x)) x))
         (rs1 ++ rs2) ts)
| k_take_tx x rs ts d : wrap 32 (ring_producer (x_tx x) - ring_consumer (x_tx x)) ≠ 0 →
    read_slot (E := unit) (ring_consumer (x_tx x)) (x_tx x) = Ok d →
    kernel_step (mkSocket x rs ts) (LSent (frame_at (x_umem x) d))
      (mkSocket (with_tx (set_consumer (wrap 32 (ring_consumer (x_tx x) + 1)) (x_tx x)) (x_tx_producer x) x) rs (ts ++ [d_addr d]))
| k_complete x rs ts1 ts2 a completion : wrap 32 (ring_producer (x_completion x) - ring_consumer (x_completion x)) < RING_SIZE →
    write_slot (E := unit) (ring_producer (x_completion x)) a (x_completion x) = Ok completion →
    kernel_step (mkSocket x rs (ts1 ++ a :: ts2)) LKernel
      (mkSocket (with_completion (set_producer (wrap 32 (ring_producer (x_completion x) + 1)) completion) (x_completion_consumer x) x) rs (ts1 ++ ts2))
| k_flags x rs ts f :
    kernel_step (mkSocket x rs ts) LKernel
      (mkSocket (with_tx (mkRing (ring_producer (x_tx x)) (ring_consumer (x_tx x)) (ring_slots (x_tx x)) f) (x_tx_producer x) x) rs ts).

(** The closure that keeps what it is given. *)
Definition collect (frame : bytes) (frames : list bytes) : outcome unit (list bytes) := Ok (frames ++ [frame]).

(** The steps of the I/O thread; [transmit_batch] is the last two in a row. *)
Inductive socket_step : Socket → label → Socket → Prop :=
| s_receive x rs ts budget n x' frames : 0 ≤ budget → receive_with budget collect x [] = Ok (n, x', frames) →
    socket_step (mkSocket x rs ts) (LReceived budget frames) (mkSocket x' rs ts)
| s_reclaim x rs ts x' : reclaim_completions (E := unit) x = Ok x' → socket_step (mkSocket x rs ts) LReclaimed (mkSocket x' rs ts)
| s_transmit x rs ts kick frames :
    socket_step (mkSocket x rs ts) (LTransmitted frames (transmit_reclaimed kick frames x).1) (mkSocket (transmit_reclaimed kick frames x).2 rs ts)
| s_kernel s l s' : kernel_step s l s' → socket_step s l s'.

Inductive socket_run : Socket → list label → Socket → Prop :=
| run_nil s : socket_run s [] s
| run_snoc s ls s' l s'' : socket_run s ls s' → socket_step s' l s'' → socket_run s (ls ++ [l]) s''.

(** ** The specification: two queues *)

Record Queues : Type := mkQueues { q_rx : list bytes; q_tx : list bytes }.

(** A batch is accepted up to some frame; an error does not tell which, since the kernel may
    refuse to be woken after the frames are queued. *)
Definition transmitted_as (frames : list bytes) (result : outcome IoErrorKind Z) (accepted : list bytes) : Prop :=
  ∃ n : nat, accepted = take n frames ∧
    match result with
    | Ok count => count = Z.of_nat (length accepted)
    | Err _ => True
    | Panic => False
    end.

Inductive queue_step : Queues → label → Queues → Prop :=
| q_received q budget : 0 ≤ budget →
    queue_step q (LReceived budget (take (Z.to_nat budget) (q_rx q))) (mkQueues (drop (Z.to_nat budget) (q_rx q)) (q_tx q))
| q_transmitted q frames result accepted : transmitted_as frames result accepted →
    queue_step q (LTransmitted frames result) (mkQueues (q_rx q) (q_tx q ++ accepted))
| q_delivered q frame : queue_step q (LDelivered frame) (mkQueues (q_rx q ++ [frame]) (q_tx q))
| q_sent rx frame tx : queue_step (mkQueues rx (frame :: tx)) (LSent frame) (mkQueues rx tx)
| q_reclaimed q : queue_step q LReclaimed q
| q_kernel q : queue_step q LKernel q.

Inductive queue_run : Queues → list label → Queues → Prop :=
| qrun_nil q : queue_run q [] q
| qrun_snoc q ls q' l q'' : queue_run q ls q' → queue_step q' l q'' → queue_run q (ls ++ [l]) q''.

(** ** The invariant *)

(** What the four rings hold. *)
Record Held : Type := mkHeld { h_fill : list Z; h_rx : list XdpDesc; h_tx : list XdpDesc; h_done : list Z }.

Definition rx_chunks (s : Socket) (h : Held) : list Z :=
  (chunk_of <$> h_fill h) ++ so_receiving s ++ (desc_chunk <$> h_rx h).
Definition tx_chunks (s : Socket) (h : Held) : list Z :=
  (chunk_of <$> x_free_tx (so_xsk s)) ++ (desc_chunk <$> h_tx h) ++ (chunk_of <$> so_sending s) ++ (chunk_of <$> h_done h).

Definition chunk_base (a : Z) : Prop := a = chunk_of a * CHUNK_SIZE.

Record holds (s : Socket) (h : Held) : Prop := {
  ho_fill : ring_holds (x_fill (so_xsk s)) (h_fill h);
  ho_rx : ring_holds (x_rx (so_xsk s)) (h_rx h);
  ho_tx : ring_holds (x_tx (so_xsk s)) (h_tx h);
  ho_done : ring_holds (x_completion (so_xsk s)) (h_done h);
  ho_rx_index : x_rx_consumer (so_xsk s) = ring_consumer (x_rx (so_xsk s));
  ho_fill_index : x_fill_producer (so_xsk s) = ring_producer (x_fill (so_xsk s));
  ho_tx_index : x_tx_producer (so_xsk s) = ring_producer (x_tx (so_xsk s));
  ho_done_index : x_completion_consumer (so_xsk s) = ring_consumer (x_completion (so_xsk s));
  ho_rx_chunks : rx_chunks s h ≡ₚ seqZ 0 RX_CHUNKS;
  ho_tx_chunks : tx_chunks s h ≡ₚ seqZ RX_CHUNKS (CHUNK_COUNT - RX_CHUNKS);
  ho_rx_ok : Forall desc_ok (h_rx h);
  ho_tx_ok : Forall (λ d, desc_ok d ∧ chunk_base (d_addr d)) (h_tx h);
  ho_base : Forall chunk_base (x_free_tx (so_xsk s) ++ so_sending s ++ h_done h);
}.

(** The queues a socket stands for. *)
Definition represents (s : Socket) (q : Queues) : Prop := ∃ h, holds s h
  ∧ q_rx q = frame_at (x_umem (so_xsk s)) <$> h_rx h ∧ q_tx q = frame_at (x_umem (so_xsk s)) <$> h_tx h.

(** ** Chunk arithmetic *)

Lemma holds_rx_chunk s h c : holds s h → c ∈ rx_chunks s h → 0 ≤ c < RX_CHUNKS.
Proof. intros Hh Hc. rewrite (ho_rx_chunks _ _ Hh) in Hc. apply elem_of_seqZ in Hc. lia. Qed.

Lemma holds_tx_chunk s h c : holds s h → c ∈ tx_chunks s h → RX_CHUNKS ≤ c < CHUNK_COUNT.
Proof. intros Hh Hc. rewrite (ho_tx_chunks _ _ Hh) in Hc. apply elem_of_seqZ in Hc. unfold CHUNK_COUNT in *. lia. Qed.

Lemma holds_rx_length s h : holds s h → Z.of_nat (length (h_fill h) + length (so_receiving s) + length (h_rx h)) = RX_CHUNKS.
Proof.
  intros Hh. pose proof (Permutation_length (ho_rx_chunks _ _ Hh)) as Hl. unfold rx_chunks in Hl.
  rewrite !length_app, !length_fmap, length_seqZ in Hl. unfold RX_CHUNKS in *. lia.
Qed.

Lemma holds_tx_length s h : holds s h →
  Z.of_nat (length (x_free_tx (so_xsk s)) + length (h_tx h) + length (so_sending s) + length (h_done h)) = CHUNK_COUNT - RX_CHUNKS.
Proof.
  intros Hh. pose proof (Permutation_length (ho_tx_chunks _ _ Hh)) as Hl. unfold tx_chunks in Hl.
  rewrite !length_app, !length_fmap, length_seqZ in Hl. unfold CHUNK_COUNT, RX_CHUNKS in *. lia.
Qed.

Lemma holds_rx_desc s h d : holds s h → d ∈ h_rx h → desc_ok d ∧ 0 ≤ desc_chunk d < RX_CHUNKS.
Proof.
  intros Hh Hd. split; [by apply (proj1 (Forall_forall _ _) (ho_rx_ok _ _ Hh))|]. apply (holds_rx_chunk s h); [done|].
  unfold rx_chunks. rewrite !elem_of_app. right. right. by apply list_elem_of_fmap_2.
Qed.

(** ** Reception *)

(** The closure on a list of frames. *)
Fixpoint handle_all {S E : Type} (handle_frame : bytes → S → outcome E S) (frames : list bytes) (s : S) : outcome E S :=
  match frames with
  | [] => Ok s
  | frame :: frames => let? s := handle_frame frame s in handle_all handle_frame frames s
  end.

Lemma collect_all frames s : handle_all collect frames s = Ok (s ++ frames).
Proof. revert s. induction frames as [|f fs IH]; intros s; simpl; [by rewrite app_nil_r|]. by rewrite IH, <- app_assoc. Qed.

Lemma receive_loop_run {S E} (hf : bytes → S → outcome E S) n : ∀ k x lf lr,
  ring_holds (set_producer (x_fill_producer x) (x_fill x)) lf → ring_holds (x_rx x) lr → x_rx_consumer x = ring_consumer (x_rx x) →
  (k + n ≤ length lr)%nat → Z.of_nat (length lf + n) ≤ RING_SIZE → (∀ d, d ∈ lr → desc_ok d ∧ 0 ≤ desc_chunk d < RX_CHUNKS) →
  ∃ fill p, ring_holds (set_producer p fill) (lf ++ (d_addr <$> take n (drop k lr)))
    ∧ ∀ s, receive_loop hf n (Z.of_nat k) x s
      = (let? s := handle_all hf (frame_at (x_umem x) <$> take n (drop k lr)) s in Ok (with_fill fill p x, s)).
Proof.
  induction n as [|n IH]; intros k x lf lr Hf Hr Hi Hk Hlen Hok.
  - exists (x_fill x), (x_fill_producer x). rewrite take_0. simpl. rewrite app_nil_r. split; [done|]. by destruct x.
  - destruct (lookup_lt_is_Some_2 lr k) as [d Hd]; [lia|]. pose proof (Hok d (list_elem_of_lookup_2 _ _ _ Hd)) as [Hdok Hdc].
    destruct (ring_push (E := E) (x_fill x) lf (x_fill_producer x) (d_addr d) Hf) as (slots & Hw & Hpush); [lia|].
    set (x1 := with_fill (mkRing (ring_producer (x_fill x)) (ring_consumer (x_fill x)) slots (ring_flags (x_fill x))) (wrap 32 (x_fill_producer x + 1)) x).
    destruct (IH (Datatypes.S k) x1 (lf ++ [d_addr d]) lr) as (fill & p & Hfill & Hrun); [apply Hpush|done|done|lia| |done|].
    { rewrite length_app. simpl. lia. }
    exists fill, p. rewrite <- app_assoc in Hfill. rewrite (drop_S _ _ _ Hd). split; [done|]. intros s.
    cbn [take fmap list_fmap handle_all receive_loop]. rewrite Hi, (ring_read _ _ _ _ Hr Hd). cbn [obind].
    pose proof (desc_in_chunk d Hdok) as Hin. rewrite decide_True.
    2: { unfold wrap, umem_length, CHUNK_SIZE, CHUNK_COUNT, RX_CHUNKS in *. destruct Hdok. rewrite Z.mod_small; lia. }
    rewrite umem_read_frame; [|done|unfold RX_CHUNKS, CHUNK_COUNT in *; lia]. cbn [obind].
    destruct (hf (frame_at (x_umem x) d) s) as [s1|e|]; cbn [obind]; [|done..]. unfold push_fill. rewrite Hw. cbn [obind].
    replace (Z.of_nat k + 1) with (Z.of_nat (Datatypes.S k)) by lia. apply Hrun.
Qed.

Lemma receive_run {S E} (hf : bytes → S → outcome E S) budget x rs ts h : holds (mkSocket x rs ts) h → 0 ≤ budget →
  let got := take (Z.to_nat budget) (h_rx h) in
  ∃ x', holds (mkSocket x' rs ts) (mkHeld (h_fill h ++ (d_addr <$> got)) (drop (Z.to_nat budget) (h_rx h)) (h_tx h) (h_done h))
    ∧ x_umem x' = x_umem x
    ∧ ∀ s, receive_with budget hf x s = (let? s := handle_all hf (frame_at (x_umem x) <$> got) s in Ok (Z.of_nat (length got), x', s)).
Proof.
  intros Hh Hb got. pose proof (ho_rx _ _ Hh) as Hrx. pose proof (ring_count _ _ Hrx) as Hcount. simpl in Hrx, Hcount.
  pose proof (ho_rx_index _ _ Hh) as Hi. simpl in Hi. pose proof (holds_rx_length _ _ Hh) as Hlen. simpl in Hlen.
  set (n := length got). assert (Z.min (Z.of_nat (length (h_rx h))) budget = Z.of_nat n) as Hn.
  { unfold n, got. rewrite length_take. lia. }
  assert (got = take n (h_rx h)) as Hgot.
  { unfold n, got. rewrite length_take. destruct (decide (Z.to_nat budget ≤ length (h_rx h))%nat); [by rewrite Nat.min_l by done|].
    rewrite Nat.min_r by lia. by rewrite !take_ge by lia. }
  assert (drop (Z.to_nat budget) (h_rx h) = drop n (h_rx h)) as Hdrop.
  { unfold n, got. rewrite length_take. destruct (decide (Z.to_nat budget ≤ length (h_rx h))%nat); [by rewrite Nat.min_l by done|].
    rewrite Nat.min_r by lia. by rewrite !drop_ge by lia. }
  unfold receive_with. rewrite Hi, Hcount, Hn, Hdrop. destruct (decide (Z.of_nat n = 0)) as [H0|H0].
  { assert (got = []) as -> by (apply length_zero_iff_nil; unfold n in *; lia). exists x. replace n with 0%nat by lia.
    rewrite drop_0. simpl. rewrite app_nil_r. split_and!; [by destruct h|done|done]. }
  destruct (receive_loop_run (E := E) hf n 0 x (h_fill h) (h_rx h)) as (fill & p & Hfill & Hrun).
  - pose proof (ho_fill_index _ _ Hh) as Hfi. simpl in Hfi. rewrite Hfi. pose proof (ho_fill _ _ Hh) as [? ? ? ? ?]. by split.
  - done.
  - done.
  - unfold n, got. rewrite length_take. lia.
  - unfold n, got. rewrite length_take. unfold RING_SIZE, RX_CHUNKS in *. lia.
  - intros d Hd. by apply (holds_rx_desc _ _ d Hh).
  - rewrite drop_0, <- Hgot in Hfill, Hrun. set (c := wrap 32 (ring_consumer (x_rx x) + Z.of_nat n)).
    exists (with_fill (set_producer p fill) p (with_rx (set_consumer c (x_rx x)) c x)). split_and!; [|done|].
    + pose proof Hh as [? ? ? ? ? ? ? ? Hc ? Hok ? ?]. split; simpl in *; try done.
      * apply ring_pop; [done|]. unfold n, got. rewrite length_take. lia.
      * etransitivity; [|exact Hc]. unfold rx_chunks. simpl. rewrite fmap_app, <- !app_assoc.
        rewrite <- (take_drop n (h_rx h)) at 2. rewrite fmap_app, <- Hgot.
        rewrite <- list_fmap_compose. change (chunk_of ∘ d_addr) with desc_chunk. solve_Permutation.
      * by apply Forall_drop.
    + intros s. rewrite Nat2Z.id. change 0 with (Z.of_nat 0). rewrite Hrun. destruct (handle_all hf _ s) as [s1| |]; [|done..].
      cbn [obind]. simpl. by rewrite Hi.
Qed.

(** ** Transmission *)

Lemma reclaim_loop_run {E} n : ∀ k x lc, ring_holds (x_completion x) lc → x_completion_consumer x = ring_consumer (x_completion x) →
  (k + n ≤ length lc)%nat → reclaim_loop (E := E) n (Z.of_nat k) x = Ok (with_free_tx (x_free_tx x ++ take n (drop k lc)) x).
Proof.
  induction n as [|n IH]; intros k x lc Hc Hi Hk; simpl.
  - rewrite take_0, app_nil_r. by destruct x.
  - destruct (lookup_lt_is_Some_2 lc k) as [a Ha]; [lia|]. rewrite Hi, (ring_read _ _ _ _ Hc Ha). cbn [obind].
    replace (Z.of_nat k + 1) with (Z.of_nat (S k)) by lia. rewrite (IH (S k) _ lc); [|done|done|lia]. simpl.
    rewrite (drop_S _ _ _ Ha). cbn [take]. by rewrite <- app_assoc.
Qed.

Lemma reclaim_run {E} x rs ts h : holds (mkSocket x rs ts) h →
  ∃ x', reclaim_completions (E := E) x = Ok x' ∧ holds (mkSocket x' rs ts) (mkHeld (h_fill h) (h_rx h) (h_tx h) [])
    ∧ x_umem x' = x_umem x ∧ x_free_tx x' = x_free_tx x ++ h_done h.
Proof.
  intros Hh. pose proof (ho_done _ _ Hh) as Hd. pose proof (ho_done_index _ _ Hh) as Hi. simpl in Hd, Hi.
  unfold reclaim_completions. rewrite Hi, (ring_count _ _ Hd). case_decide as H0.
  - exists x. assert (h_done h = []) as Hnil by (apply length_zero_iff_nil; lia). rewrite Hnil, app_nil_r. split_and!; [done| |done|done].
    destruct h; simpl in *. by subst.
  - rewrite Nat2Z.id. change 0 with (Z.of_nat 0). rewrite (reclaim_loop_run _ _ _ _ Hd Hi) by lia. cbn [obind].
    rewrite drop_0, firstn_all. eexists. split_and!; [done| |done|done].
    pose proof Hh as [? ? ? ? ? ? ? ? ? Ht ? ? Hb]. split; simpl in *; try done.
    + rewrite Hi. replace (@nil Z) with (drop (length (h_done h)) (h_done h)) by apply drop_all. by apply ring_pop.
    + etransitivity; [|exact Ht]. unfold tx_chunks. simpl. rewrite fmap_app. solve_Permutation.
    + rewrite app_nil_r. revert Hb. rewrite !Forall_app. tauto.
Qed.

(** Copying a batch into free chunks. *)
Lemma enqueue_run {E} frames : ∀ x lt, ring_holds (set_producer (x_tx_producer x) (x_tx x)) lt →
  (length frames ≤ length (x_free_tx x))%nat → Z.of_nat (length lt + length frames) ≤ RING_SIZE →
  Forall (λ frame, Z.of_nat (length frame) ≤ CHUNK_SIZE) frames →
  Forall (λ a, chunk_base a ∧ 0 ≤ chunk_of a < CHUNK_COUNT) (x_free_tx x) → Forall desc_ok lt →
  NoDup ((chunk_of <$> x_free_tx x) ++ (desc_chunk <$> lt)) →
  ∃ tx p umem ds, enqueue_frames (E := E) frames x
      = Ok (with_tx tx p (with_umem umem (with_free_tx (drop (length frames) (x_free_tx x)) x)))
    ∧ ring_holds (set_producer p tx) (lt ++ ds) ∧ ring_flags tx = ring_flags (x_tx x)
    ∧ d_addr <$> ds = take (length frames) (x_free_tx x) ∧ Forall desc_ok ds
    ∧ frame_at umem <$> (lt ++ ds) = (frame_at (x_umem x) <$> lt) ++ frames
    ∧ ∀ d, desc_ok d → desc_chunk d ∉ chunk_of <$> x_free_tx x → frame_at umem d = frame_at (x_umem x) d.
Proof.
  induction frames as [|frame frames IH]; intros x lt Ht Hfree Hlen Hsize Hbase Hok Hnd.
  - exists (x_tx x), (x_tx_producer x), (x_umem x), []. simpl. rewrite drop_0, take_0, !app_nil_r. split_and!; try done. by destruct x.
  - destruct (x_free_tx x) as [|a free] eqn:Hx; [simpl in Hfree; lia|]. apply Forall_cons in Hsize as [Hsz Hsize].
    apply Forall_cons in Hbase as [[Hab Hac] Hbase]. simpl in Hfree, Hlen.
    assert (a mod CHUNK_SIZE = 0) as Hmod by (rewrite Hab; apply Z.mod_mul; done).
    set (d := mkDesc a (Z.of_nat (length frame)) 0). assert (desc_ok d) as Hd by (split; simpl; lia).
    destruct (ring_push (E := E) (x_tx x) lt (x_tx_producer x) d Ht) as (slots & Hw & Hpush); [lia|].
    set (m := umem_put a frame (x_umem x)).
    assert (∀ d', desc_ok d' → chunk_of a ≠ desc_chunk d' → frame_at m d' = frame_at (x_umem x) d') as Hkeep
      by (intros d' Hd' Hne; apply frame_at_put; [done|lia|done]).
    set (tx1 := mkRing (ring_producer (x_tx x)) (ring_consumer (x_tx x)) slots (ring_flags (x_tx x))).
    simpl in Hnd. apply NoDup_cons in Hnd as [Hna Hnd]. rewrite elem_of_app in Hna.
    destruct (IH (with_tx tx1 (wrap 32 (x_tx_producer x + 1)) (with_umem m (with_free_tx free x))) (lt ++ [d]))
      as (tx & p & umem & ds & Hrun & Hring & Hfl & Haddr & Hds & Hframes & Hothers).
    + apply Hpush.
    + simpl. lia.
    + rewrite length_app. simpl. lia.
    + done.
    + done.
    + rewrite Forall_app. by split; [|constructor].
    + simpl. rewrite fmap_app, app_assoc. rewrite Permutation_app_comm. simpl. constructor; [|done].
      change (desc_chunk d) with (chunk_of a). rewrite elem_of_app. tauto.
    + exists tx, p, umem, (d :: ds). rewrite <- (app_assoc lt) in Hring. split_and!.
      * cbn [enqueue_frames]. rewrite Hx. unfold umem_write. rewrite decide_True; [|unfold chunk_base, umem_length, CHUNK_SIZE, CHUNK_COUNT in *; lia].
        cbn [obind]. fold d. rewrite Hw. cbn [obind]. exact Hrun.
      * done.
      * done.
      * simpl. by f_equal.
      * by constructor.
      * rewrite (app_assoc lt [d] ds : lt ++ d :: ds = (lt ++ [d]) ++ ds), Hframes. simpl.
        rewrite fmap_app. simpl. rewrite <- app_assoc. f_equal; [|simpl; unfold m, d; by rewrite frame_at_written].
        apply list_fmap_ext. intros i d' Hi. apply Hkeep.
        { apply (proj1 (Forall_forall _ _) Hok). by eapply list_elem_of_lookup_2. }
        intros He. apply Hna. right. rewrite He. apply list_elem_of_fmap_2. by eapply list_elem_of_lookup_2.
      * intros d' Hd' Hni. simpl in Hni. apply not_elem_of_cons in Hni as [Hne Hni]. rewrite Hothers; [|done|done]. apply Hkeep; [done|congruence].
Qed.

Lemma holds_free s h : holds s h →
  Forall (λ a, chunk_base a ∧ 0 ≤ chunk_of a < CHUNK_COUNT) (x_free_tx (so_xsk s))
  ∧ NoDup ((chunk_of <$> x_free_tx (so_xsk s)) ++ (desc_chunk <$> h_tx h)).
Proof.
  intros Hh. split.
  - apply Forall_forall. intros a Ha. pose proof (ho_base _ _ Hh) as Hb. apply Forall_app in Hb as [Hb _]. rewrite Forall_forall in Hb.
    split; [by apply Hb|]. assert (RX_CHUNKS ≤ chunk_of a < CHUNK_COUNT); [|unfold RX_CHUNKS in *; lia].
    apply (holds_tx_chunk s h); [done|]. unfold tx_chunks. rewrite elem_of_app. left. by apply list_elem_of_fmap_2.
  - assert (NoDup (tx_chunks s h)) as Hnd by (rewrite (ho_tx_chunks _ _ Hh); apply NoDup_seqZ).
    unfold tx_chunks in Hnd. rewrite app_assoc in Hnd. by apply NoDup_app in Hnd as [? _].
Qed.

Lemma holds_rx_frames s h umem : holds s h →
  (∀ d, desc_ok d → desc_chunk d ∉ chunk_of <$> x_free_tx (so_xsk s) → frame_at umem d = frame_at (x_umem (so_xsk s)) d) →
  frame_at umem <$> h_rx h = frame_at (x_umem (so_xsk s)) <$> h_rx h.
Proof.
  intros Hh Hsame. apply list_fmap_ext. intros i d Hi. apply list_elem_of_lookup_2 in Hi. destruct (holds_rx_desc s h d Hh Hi) as [Hd Hc].
  apply Hsame; [done|]. intros (a & Ha & Hin)%list_elem_of_fmap.
  assert (RX_CHUNKS ≤ chunk_of a < CHUNK_COUNT); [|lia]. apply (holds_tx_chunk s h); [done|]. unfold tx_chunks. rewrite elem_of_app. left.
  by apply list_elem_of_fmap_2.
Qed.

(** The batch that fits: as many frames as there are free chunks. *)
Lemma capacity_bound x rs ts h (frames : list bytes) : holds (mkSocket x rs ts) h →
  let count := tx_batch_capacity (Z.of_nat (length frames)) (Z.of_nat (length (x_free_tx x))) (ring_producer (x_tx x)) (ring_consumer (x_tx x)) in
  count = Z.of_nat (Nat.min (length frames) (length (x_free_tx x))) ∧ Z.of_nat (length (h_tx h)) + count ≤ RING_SIZE.
Proof.
  intros Hh count. pose proof (ring_count _ _ (ho_tx _ _ Hh)) as Hc. simpl in Hc. pose proof (holds_tx_length _ _ Hh) as Hl. simpl in Hl.
  unfold count, tx_batch_capacity. rewrite Hc. unfold RING_SIZE, CHUNK_COUNT, RX_CHUNKS in *. lia.
Qed.

Lemma transmit_run kick frames x rs ts h : holds (mkSocket x rs ts) h →
  ∃ n ds, transmitted_as frames (transmit_reclaimed kick frames x).1 (take n frames)
    ∧ let x' := (transmit_reclaimed kick frames x).2 in
      holds (mkSocket x' rs ts) (mkHeld (h_fill h) (h_rx h) (h_tx h ++ ds) (h_done h))
      ∧ frame_at (x_umem x') <$> h_rx h = frame_at (x_umem x) <$> h_rx h
      ∧ frame_at (x_umem x') <$> (h_tx h ++ ds) = (frame_at (x_umem x) <$> h_tx h) ++ take n frames.
Proof.
  intros Hh. pose proof (capacity_bound x rs ts h frames Hh) as [Hcount Hroom]. unfold transmit_reclaimed.
  set (count := tx_batch_capacity _ _ _ _) in *.
  assert (holds (mkSocket x rs ts) (mkHeld (h_fill h) (h_rx h) (h_tx h ++ []) (h_done h))) as Hsame by (rewrite app_nil_r; by destruct h).
  case_decide as H0; [|case_decide as Hbig].
  - exists 0%nat, []. rewrite take_0. split; [by exists 0%nat|]. simpl. by rewrite !app_nil_r in *.
  - exists 0%nat, []. rewrite take_0. split; [by exists 0%nat|]. simpl. by rewrite !app_nil_r in *.
  - set (n := Z.to_nat count). destruct (holds_free _ _ Hh) as [Hfree Hnd]. simpl in Hfree, Hnd.
    assert (length (take n frames) = n) as Hn by (rewrite length_take; lia).
    destruct (enqueue_run (E := IoErrorKind) (take n frames) x (h_tx h)) as (tx & p & umem & ds & Hrun & Hring & Hfl & Haddr & Hds & Hframes & Hothers).
    + pose proof (ho_tx_index _ _ Hh) as Hi. simpl in Hi. rewrite Hi. pose proof (ho_tx _ _ Hh) as [? ? ? ? ?]. by split.
    + lia.
    + lia.
    + apply not_Exists_Forall in Hbig; [|apply _]. eapply Forall_impl; [exact Hbig|]. simpl. intros frame ?. lia.
    + done.
    + eapply Forall_impl; [apply (ho_tx_ok _ _ Hh)|]. by intros ? [? _].
    + done.
    + rewrite Hn in *. exists n, ds. fold n. rewrite Hrun. set (x' := with_tx (set_producer p tx) p (with_umem umem (with_free_tx (drop n (x_free_tx x)) x))).
      assert (∃ r, match kick with
                   | Some error => if ring_needs_wakeup (ring_flags (x_tx x')) && bool_decide (error ≠ WouldBlock ∧ error ≠ Interrupted)
                                   then (Err error, x') else (Ok count, x')
                   | None => (Ok count, x')
                   end = (r, x') ∧ (r = Ok count ∨ ∃ e, r = Err e)) as (r & Hr & Hkind).
      { destruct kick as [e|]; [destruct (_ && _)|]; eexists; split; eauto. }
      cbv zeta. change (with_tx (set_producer _ _) _ _) with x'. rewrite Hr. simpl. split_and!.
      * exists n. split; [done|]. destruct Hkind as [->|[e ->]]; [rewrite Hn; unfold n; lia|done].
      * pose proof Hh as [? ? ? ? ? ? ? ? ? Ht ? Htx Hb]. split; simpl in *; try done.
        -- etransitivity; [|exact Ht]. unfold tx_chunks. simpl. rewrite fmap_app.
           rewrite <- (take_drop n (x_free_tx x)) at 2. rewrite fmap_app, <- Haddr, <- list_fmap_compose.
           change (chunk_of ∘ d_addr) with desc_chunk. solve_Permutation.
        -- apply Forall_app. split; [done|]. apply Forall_forall. intros d Hd. split; [by apply (proj1 (Forall_forall _ _) Hds)|].
           assert (d_addr d ∈ x_free_tx x) as Hin 
             by (rewrite <- (take_drop n (x_free_tx x)), elem_of_app; left; rewrite <- Haddr; by apply list_elem_of_fmap_2).
           by apply (proj1 (Forall_forall _ _) Hfree) in Hin as [? _].
        -- apply Forall_app in Hb as [Hb1 Hb2]. apply Forall_app. split; [by apply Forall_drop|done].
      * apply (holds_rx_frames (mkSocket x rs ts) h umem Hh). exact Hothers.
      * exact Hframes.
Qed.

(** ** The kernel's steps *)

(** A non-empty ring has a first entry, which reading at the consumer gives. *)
Lemma ring_first {A} (r : Ring A) l x : ring_holds r l → wrap 32 (ring_producer r - ring_consumer r) ≠ 0 →
  read_slot (E := unit) (ring_consumer r) r = Ok x →
  ∃ rest, l = x :: rest ∧ ring_holds (set_consumer (wrap 32 (ring_consumer r + 1)) r) rest.
Proof.
  intros Hr Hne Hread. rewrite (ring_count _ _ Hr) in Hne. destruct l as [|y rest]; [done|].
  pose proof (rh_entry _ _ Hr 0%nat y eq_refl) as He. rewrite Z.add_0_r in He.
  unfold read_slot in Hread. rewrite He in Hread. injection Hread as ->. exists rest. split; [done|].
  apply (ring_pop r (x :: rest) 1 Hr). simpl. lia.
Qed.

(** The kernel's append. *)
Lemma ring_append {A} (r r' : Ring A) l x : ring_holds r l → wrap 32 (ring_producer r - ring_consumer r) < RING_SIZE →
  write_slot (E := unit) (ring_producer r) x r = Ok r' →
  ring_holds (set_producer (wrap 32 (ring_producer r + 1)) r') (l ++ [x]) ∧ ring_consumer r' = ring_consumer r.
Proof.
  intros Hr Hlt Hw. rewrite (ring_count _ _ Hr) in Hlt.
  destruct (ring_push (E := unit) r l (ring_producer r) x) as (slots & Hw' & Hpush); [destruct Hr; by split|done|].
  rewrite Hw in Hw'. injection Hw' as ->. split; [apply Hpush|done].
Qed.

(** A delivery writes only into a chunk no descriptor points into. *)
Lemma deliver_refines x rs1 rs2 ts chunk headroom data rx h : holds (mkSocket x (rs1 ++ chunk :: rs2) ts) h →
  0 ≤ headroom → headroom + Z.of_nat (length data) ≤ CHUNK_SIZE → headroom < CHUNK_SIZE →
  wrap 32 (ring_producer (x_rx x) - ring_consumer (x_rx x)) < RING_SIZE →
  let addr := chunk * CHUNK_SIZE + headroom in
  write_slot (E := unit) (ring_producer (x_rx x)) (mkDesc addr (Z.of_nat (length data)) 0) (x_rx x) = Ok rx →
  let umem := umem_put addr data (x_umem x) in
  ∃ h', holds (mkSocket (with_rx (set_producer (wrap 32 (ring_producer (x_rx x) + 1)) rx) (x_rx_consumer x) (with_umem umem x)) (rs1 ++ rs2) ts) h'
    ∧ (frame_at (x_umem x) <$> h_rx h) ++ [data] = frame_at umem <$> h_rx h'
    ∧ frame_at (x_umem x) <$> h_tx h = frame_at umem <$> h_tx h'.
Proof.
  intros Hh H0 Hin Hhr Hlt addr Hw umem. pose proof Hh as [Hf Hr Ht Hd I1 I2 I3 I4 Cr Ct Or Ot Hb]. simpl in *.
  destruct (ring_append _ _ _ _ Hr Hlt Hw) as [Hrx Hcons]. set (d := mkDesc addr (Z.of_nat (length data)) 0) in *.
  assert (chunk ∈ rx_chunks (mkSocket x (rs1 ++ chunk :: rs2) ts) h) as Hchunk.
  { unfold rx_chunks. simpl. rewrite !elem_of_app, elem_of_cons. tauto. }
  assert (chunk_of addr = chunk ∧ addr mod CHUNK_SIZE = headroom) as [Hc Hm].
  { unfold chunk_of, addr, CHUNK_SIZE in *. rewrite Z.add_comm. rewrite Z.div_add, Z.mod_add by lia. split; [|apply Z.mod_small; lia].
    rewrite Z.div_small by lia. lia. }
  assert (desc_ok d) as Hdok by (split; simpl; lia).
  assert (chunk ∉ desc_chunk <$> h_rx h) as Hfresh.
  { assert (NoDup (rx_chunks (mkSocket x (rs1 ++ chunk :: rs2) ts) h)) as Hnd by (rewrite Cr; apply NoDup_seqZ).
    assert (rx_chunks (mkSocket x (rs1 ++ chunk :: rs2) ts) h ≡ₚ chunk :: (chunk_of <$> h_fill h) ++ rs1 ++ rs2 ++ (desc_chunk <$> h_rx h)) as Hp
      by (unfold rx_chunks; simpl; solve_Permutation).
    rewrite Hp in Hnd. apply NoDup_cons in Hnd as [Hni _]. rewrite !elem_of_app in Hni. tauto. }
  assert (∀ d', desc_ok d' → desc_chunk d' ≠ chunk → frame_at (umem_put addr data (x_umem x)) d' = frame_at (x_umem x) d') as Hkeep.
  { intros d' Hd' Hne. apply frame_at_put; [done|lia|congruence]. }
  exists (mkHeld (h_fill h) (h_rx h ++ [d]) (h_tx h) (h_done h)). simpl. split_and!.
  + split; simpl; try done.
    * by rewrite Hcons.
    * etransitivity; [|exact Cr]. unfold rx_chunks. simpl. rewrite fmap_app. simpl. change (desc_chunk d) with (chunk_of addr). rewrite Hc.
      solve_Permutation.
    * apply Forall_app. by split; [|constructor].
  + rewrite fmap_app. simpl. f_equal; [|unfold d, umem; by rewrite frame_at_written]. apply list_fmap_ext. intros i d' Hi. apply list_elem_of_lookup_2 in Hi.
    symmetry. apply Hkeep; [by apply (proj1 (Forall_forall _ _) Or)|]. intros He. apply Hfresh. rewrite <- He. by apply list_elem_of_fmap_2.
  + apply list_fmap_ext. intros i d' Hi. apply list_elem_of_lookup_2 in Hi. symmetry. apply Hkeep; [by apply (proj1 (Forall_forall _ _) Ot) in Hi as [? _]|].
    intros He. apply (holds_rx_chunk _ _ _ Hh) in Hchunk. assert (RX_CHUNKS ≤ chunk < CHUNK_COUNT); [|lia].
    rewrite <- He. apply (holds_tx_chunk _ _ _ Hh). unfold tx_chunks. simpl. rewrite !elem_of_app. right. left. by apply list_elem_of_fmap_2.
Qed.

Lemma kernel_refines s l s' q : kernel_step s l s' → represents s q → ∃ q', queue_step q l q' ∧ represents s' q'.
Proof.
  intros Hstep (h & Hh & Hrx & Htx). destruct q as [rx tx]; simpl in Hrx, Htx; subst rx tx. pose proof Hh as [Hf Hr Ht Hd I1 I2 I3 I4 Cr Ct Or Ot Hb].
  destruct Hstep as [x rs ts a Hne Hread|x rs1 rs2 ts chunk headroom data rx H0 Hin Hhr Hlt addr Hw|x rs ts d Hne Hread|x rs ts1 ts2 a completion Hlt Hw|x rs ts f]; simpl in *.
  - destruct (ring_first _ _ _ Hf Hne Hread) as (rest & Hl & Hrest). eexists. split; [apply q_kernel|].
    exists (mkHeld rest (h_rx h) (h_tx h) (h_done h)). split; [|done]. split; simpl; try done.
    etransitivity; [|exact Cr]. unfold rx_chunks. rewrite Hl. simpl. solve_Permutation.
  - destruct (deliver_refines x rs1 rs2 ts chunk headroom data rx h Hh H0 Hin Hhr Hlt Hw) as (h1 & Hh1 & E1 & E2).
    eexists. split; [apply q_delivered|]. exists h1. by split_and!.
  - destruct (ring_first _ _ _ Ht Hne Hread) as (rest & Hl & Hrest). rewrite Hl in *. eexists. split; [apply q_sent|].
    apply Forall_cons in Ot as [[_ Hbase] Ot]. exists (mkHeld (h_fill h) (h_rx h) rest (h_done h)). split; [|done]. split; simpl; try done.
    + etransitivity; [|exact Ct]. unfold tx_chunks. simpl. rewrite Hl, fmap_app. simpl. change (desc_chunk d) with (chunk_of (d_addr d)). solve_Permutation.
    + revert Hb. rewrite !Forall_app. intros (? & ? & ?). split_and!; try done. by constructor.
  - destruct (ring_append _ _ _ _ Hd Hlt Hw) as [Hdone Hcons]. eexists. split; [apply q_kernel|].
    exists (mkHeld (h_fill h) (h_rx h) (h_tx h) (h_done h ++ [a])). split; [|done]. split; simpl; try done.
    + by rewrite Hcons.
    + etransitivity; [|exact Ct]. unfold tx_chunks. simpl. rewrite !fmap_app. simpl. solve_Permutation.
    + revert Hb. rewrite !Forall_app, Forall_cons. intros (? & (? & ? & ?) & ?). split_and!; try done. by constructor.
  - eexists. split; [apply q_kernel|]. exists h. split; [|done]. split; simpl; try done. by apply ring_flags_free.
Qed.

(** ** Whole runs *)

Lemma step_refines s l s' q : socket_step s l s' → represents s q → ∃ q', queue_step q l q' ∧ represents s' q'.
Proof.
  intros Hstep Hq. destruct Hstep as [x rs ts budget n x' frames Hb Hrun|x rs ts x' Hrun|x rs ts kick frames|s l s' Hk]; [..|by eapply kernel_refines].
  all: destruct Hq as (h & Hh & Hrx & Htx); destruct q as [rx tx]; simpl in Hrx, Htx; subst rx tx.
  - destruct (receive_run collect budget x rs ts h Hh Hb) as (x1 & Hh' & Hm & Hr). rewrite Hr, collect_all in Hrun. injection Hrun as <- <- <-.
    eexists. split.
    { rewrite fmap_take. by apply q_received. }
    eexists. split; [exact Hh'|]. simpl. rewrite Hm, fmap_drop. done.
  - destruct (reclaim_run (E := unit) x rs ts h Hh) as (x1 & Hr & Hh' & Hm & _). rewrite Hr in Hrun. injection Hrun as <-.
    eexists. split; [apply q_reclaimed|]. eexists. split; [exact Hh'|]. simpl. by rewrite Hm.
  - destruct (transmit_run kick frames x rs ts h Hh) as (n & ds & Hres & Hh' & Hrx & Htx).
    eexists. split; [by apply q_transmitted|]. eexists. split; [exact Hh'|]. simpl. by rewrite Hrx, Htx.
Qed.

(** The rings as the kernel hands them out. *)
Definition fresh_ring {A : Type} (r : Ring A) : Prop :=
  length (ring_slots r) = Z.to_nat RING_SIZE ∧ ring_producer r = 0 ∧ ring_consumer r = 0.

Lemma seed_run {E} n : ∀ c x l, ring_holds (set_producer (x_fill_producer x) (x_fill x)) l → Z.of_nat (length l + n) ≤ RING_SIZE →
  ∃ fill p, seed_chunks (E := E) n c x = Ok (with_fill fill p x)
    ∧ ring_holds (set_producer p fill) (l ++ ((λ chunk, chunk * CHUNK_SIZE) <$> seqZ c (Z.of_nat n))).
Proof.
  induction n as [|n IH]; intros c x l Hl Hn.
  - exists (x_fill x), (x_fill_producer x). simpl. rewrite app_nil_r. split; [by destruct x|done].
  - destruct (ring_push (E := E) (x_fill x) l (x_fill_producer x) (c * CHUNK_SIZE) Hl) as (slots & Hw & Hpush); [lia|]. simpl. unfold push_fill.
    rewrite Hw. cbn [obind]. edestruct (IH (c + 1)) as (fill & p & -> & Hfill); [apply Hpush|rewrite length_app; simpl; lia|].
    exists fill, p. split; [done|]. rewrite seqZ_cons by lia. replace (Z.pred (Z.of_nat (S n))) with (Z.of_nat n) by lia.
    rewrite <- app_assoc in Hfill. replace (Z.succ c) with (c + 1) by lia. exact Hfill.
Qed.

Lemma chunk_of_base c : chunk_of (c * CHUNK_SIZE) = c.
Proof. unfold chunk_of. apply Z.div_mul. done. Qed.

Lemma chunks_of_seq lo n : chunk_of <$> ((λ chunk, chunk * CHUNK_SIZE) <$> seqZ lo n) = seqZ lo n.
Proof. rewrite <- list_fmap_compose. etransitivity; [|apply list_fmap_id]. apply list_fmap_ext. intros i c _. apply chunk_of_base. Qed.

(** A socket nothing has happened to. *)
Lemma initial_holds x lf : ring_holds (x_fill x) lf → ring_holds (x_rx x) [] → ring_holds (x_tx x) [] → ring_holds (x_completion x) [] →
  x_rx_consumer x = ring_consumer (x_rx x) → x_fill_producer x = ring_producer (x_fill x) →
  x_tx_producer x = ring_producer (x_tx x) → x_completion_consumer x = ring_consumer (x_completion x) →
  chunk_of <$> lf = seqZ 0 RX_CHUNKS → chunk_of <$> x_free_tx x = seqZ RX_CHUNKS (CHUNK_COUNT - RX_CHUNKS) → Forall chunk_base (x_free_tx x) →
  holds (mkSocket x [] []) (mkHeld lf [] [] []).
Proof.
  intros Hf Hr Ht Hd I1 I2 I3 I4 Hc1 Hc2 Hb. split; cbn [so_xsk h_fill h_rx h_tx h_done so_sending]; try assumption; try constructor.
  - unfold rx_chunks. cbn. by rewrite app_nil_r, Hc1.
  - unfold tx_chunks. cbn. by rewrite app_nil_r, Hc2.
  - by rewrite !app_nil_r.
Qed.

Lemma configured_represents {E} umem rx tx fill completion : fresh_ring rx → fresh_ring tx → fresh_ring fill → fresh_ring completion →
  ∃ x, xsk_configured (E := E) umem rx tx fill completion = Ok x ∧ represents (mkSocket x [] []) (mkQueues [] []).
Proof.
  intros (R1 & R2 & R3) (T1 & T2 & T3) (F1 & F2 & F3) (D1 & D2 & D3). unfold xsk_configured, seed_fill_ring.
  set (free := (λ chunk, chunk * CHUNK_SIZE) <$> seqZ RX_CHUNKS _).
  edestruct (seed_run (E := E) (Z.to_nat RX_CHUNKS) 0) as (fill' & p & -> & Hfill); [by apply (ring_nil (set_producer 0 fill))|by vm_compute|].
  cbn [obind]. eexists. split; [reflexivity|]. eexists. split; [apply initial_holds|split; reflexivity];
    cbn [with_fill x_fill x_rx x_tx x_completion x_fill_producer x_rx_consumer x_tx_producer x_completion_consumer x_free_tx ring_producer set_producer].
  - exact Hfill.
  - by apply ring_nil.
  - by apply ring_nil.
  - by apply ring_nil.
  - symmetry. exact R3.
  - reflexivity.
  - symmetry. exact T2.
  - symmetry. exact D3.
  - rewrite Z2Nat.id by (unfold RX_CHUNKS; lia). apply chunks_of_seq.
  - apply chunks_of_seq.
  - apply Forall_fmap, Forall_forall. intros c _. unfold chunk_base, compose. by rewrite chunk_of_base.
Qed.

Lemma run_represents umem rx tx fill completion x trace s : fresh_ring rx → fresh_ring tx → fresh_ring fill → fresh_ring completion →
  xsk_configured (E := unit) umem rx tx fill completion = Ok x → socket_run (mkSocket x [] []) trace s →
  ∃ q, queue_run (mkQueues [] []) trace q ∧ represents s q.
Proof.
  intros Hrx Htx Hfi Hco Hx Hrun. destruct (configured_represents (E := unit) umem rx tx fill completion Hrx Htx Hfi Hco) as (x' & Hx' & Hinit).
  rewrite Hx in Hx'. injection Hx' as <-. remember (mkSocket x [] []) as s0 eqn:Hs0. induction Hrun as [|s0 ls s1 l s2 _ IH Hstep]; subst.
  - eexists. split; [constructor|exact Hinit].
  - destruct IH as (q & Hq & Hr); [done..|]. destruct (step_refines _ _ _ _ Hstep Hr) as (q' & Hq' & Hr').
    exists q'. split; [by econstructor|done].
Qed.

(** C13: The socket is two queues: in every run of the I/O thread and the kernel, whatever their
    interleaving, the thread is given exactly the frames the kernel delivered, whole, once
    and in order, at most its budget at a time, and the kernel sends exactly the frames the
    thread was told are accepted, unchanged and in order, although both sides only write
    descriptors and bytes into memory they share. *)
Theorem xsk_refines_queues (umem : Z → Z) (rx tx : Ring XdpDesc) (fill completion : Ring Z) (x : Xsk) (trace : list label) (s : Socket) :
  fresh_ring rx → fresh_ring tx → fresh_ring fill → fresh_ring completion →
  xsk_configured (E := unit) umem rx tx fill completion = Ok x → socket_run (mkSocket x [] []) trace s →
  ∃ q, queue_run (mkQueues [] []) trace q ∧ represents s q.
Proof. apply run_represents. Qed.

Lemma handle_all_no_panic {S E} (hf : bytes → S → outcome E S) frames s : (∀ frame s, no_panic (hf frame s)) → no_panic (handle_all hf frames s).
Proof. intros Hhf. revert s. induction frames as [|f fs IH]; intros s; [done|]. apply no_panic_obind; [apply Hhf|]. intros. apply IH. Qed.

Lemma transmit_no_panic kick frames x rs ts h : holds (mkSocket x rs ts) h → no_panic (transmit_batch kick frames x).1.
Proof.
  intros Hh. unfold transmit_batch. destruct frames as [|f fs]; [done|].
  destruct (reclaim_run (E := IoErrorKind) x rs ts h Hh) as (x1 & -> & Hh1 & _).
  destruct (transmit_run kick (f :: fs) x1 rs ts _ Hh1) as (n & ds & (k & _ & Hres) & _). by intros Hp; rewrite Hp in Hres.
Qed.

(** C14: The shared memory is handled safely: in every reachable state each of the 2048 chunks is
    in exactly one place (waiting to be filled, with the kernel, holding a received frame,
    free, queued to be sent, being sent, or completed), no ring holds more than its 1024
    slots, and neither receiving nor transmitting, with any budget, frames and closure that
    does not itself panic, reads or writes outside the memory or a ring or runs out of
    buffers. *)
Theorem xsk_memory_safe (umem : Z → Z) (rx tx : Ring XdpDesc) (fill completion : Ring Z) (x : Xsk) (trace : list label) (s : Socket) :
  fresh_ring rx → fresh_ring tx → fresh_ring fill → fresh_ring completion →
  xsk_configured (E := unit) umem rx tx fill completion = Ok x → socket_run (mkSocket x [] []) trace s →
  (∃ h, rx_chunks s h ++ tx_chunks s h ≡ₚ seqZ 0 CHUNK_COUNT
     ∧ ring_holds (x_fill (so_xsk s)) (h_fill h) ∧ ring_holds (x_rx (so_xsk s)) (h_rx h)
     ∧ ring_holds (x_tx (so_xsk s)) (h_tx h) ∧ ring_holds (x_completion (so_xsk s)) (h_done h))
  ∧ (∀ (S E : Type) budget (hf : bytes → S → outcome E S) a, 0 ≤ budget → (∀ frame a, no_panic (hf frame a)) →
       no_panic (receive_with budget hf (so_xsk s) a))
  ∧ ∀ kick frames, no_panic (transmit_batch kick frames (so_xsk s)).1.
Proof.
  intros Hrx Htx Hfi Hco Hx Hrun. destruct (run_represents _ _ _ _ _ _ _ _ Hrx Htx Hfi Hco Hx Hrun) as (q & _ & h & Hh & _ & _).
  split_and!.
  - exists h. split_and!; [|apply Hh..]. rewrite (ho_rx_chunks _ _ Hh), (ho_tx_chunks _ _ Hh). by rewrite <- seqZ_app.
  - intros S E budget hf a Hb Hhf. destruct s as [xs rs ts]. destruct (receive_run hf budget xs rs ts h Hh Hb) as (x' & _ & _ & Hr).
    simpl. rewrite Hr. apply no_panic_obind; [by apply handle_all_no_panic|done].
  - intros kick frames. destruct s as [xs rs ts]. by eapply transmit_no_panic.
Qed.

(** ** A concrete run *)

Definition or_default {E A : Type} (a : A) (c : outcome E A) : A := match c with Ok a => a | _ => a end.
Definition sample_ring {A : Type} (x : A) : Ring A := mkRing 0 0 (replicate (Z.to_nat RING_SIZE) x) 0.
Definition sample_xsk : Xsk :=
  or_default (mkXsk (λ _, 0) (sample_ring (mkDesc 0 0 0)) (sample_ring (mkDesc 0 0 0)) (sample_ring 0) (sample_ring 0) 0 0 0 0 [])
    (xsk_configured (E := unit) (λ _, 0) (sample_ring (mkDesc 0 0 0)) (sample_ring (mkDesc 0 0 0)) (sample_ring 0) (sample_ring 0)).

Lemma sample_fresh {A} (x : A) : fresh_ring (sample_ring x).
Proof. split; [apply length_replicate|done]. Qed.

(** The kernel takes the first chunk; the thread sends a frame, which the kernel takes. *)
Definition sample_taken : Socket :=
  mkSocket (with_fill (set_consumer (wrap 32 (ring_consumer (x_fill sample_xsk) + 1)) (x_fill sample_xsk)) (x_fill_producer sample_xsk) sample_xsk)
    ([] ++ [chunk_of 0]) [].
Definition sample_queued : Socket :=
  mkSocket (transmit_reclaimed None [[7; 8; 9]] (so_xsk sample_taken)).2 ([] ++ [chunk_of 0]) [].

Lemma sample_run : socket_run (mkSocket sample_xsk [] []) [LKernel; LTransmitted [[7; 8; 9]] (Ok 1)] sample_queued.
Proof.
  apply (run_snoc _ [LKernel] sample_taken).
  - apply (run_snoc _ [] (mkSocket sample_xsk [] [])); [constructor|]. apply s_kernel.
    apply (k_take_fill sample_xsk [] [] 0); [by vm_compute|vm_compute; reflexivity].
  - replace (Ok 1) with (transmit_reclaimed None [[7; 8; 9]] (so_xsk sample_taken)).1 by (vm_compute; reflexivity).
    apply (s_transmit (so_xsk sample_taken) ([] ++ [chunk_of 0]) [] None).
Qed.

Lemma xsk_refines_queues_witness : ∃ q,
  queue_run (mkQueues [] []) [LKernel; LTransmitted [[7; 8; 9]] (Ok 1)] q ∧ represents sample_queued q.
Proof.
  apply (xsk_refines_queues (λ _, 0) (sample_ring (mkDesc 0 0 0)) (sample_ring (mkDesc 0 0 0)) (sample_ring 0) (sample_ring 0) sample_xsk).
  - apply sample_fresh.
  - apply sample_fresh.
  - apply sample_fresh.
  - apply sample_fresh.
  - vm_compute. reflexivity.
  - exact sample_run.
Defined.

Lemma xsk_memory_safe_witness : no_panic (receive_with 64 collect (so_xsk sample_queued) [])
  ∧ no_panic (transmit_batch None [[1]; [2]] (so_xsk sample_queued)).1.
Proof.
  destruct (xsk_memory_safe (λ _, 0) (sample_ring (mkDesc 0 0 0)) (sample_ring (mkDesc 0 0 0)) (sample_ring 0) (sample_ring 0) sample_xsk
    [LKernel; LTransmitted [[7; 8; 9]] (Ok 1)] sample_queued) as (_ & Hr & Ht).
  - apply sample_fresh.
  - apply sample_fresh.
  - apply sample_fresh.
  - apply sample_fresh.
  - vm_compute. reflexivity.
  - exact sample_run.
  - split; [apply Hr; [lia|done]|apply Ht].
Defined.
