(* ===== verification/Stats.v ===== *)
(** The statistics of the data path ([src/src/xdp_datapath/stats.rs]): the counters of an
    I/O owner, the published state of a flow worker, and the snapshot file.

    An [AtomicU64] is a number below [2^64] that [fetch_add] wraps.  The JSON rendering of
    a snapshot is a parameter; it also turns addresses into text, which are kept as values
    here.  The disk is a map from paths to contents; the failures of its operations are
    given by [Faults], and every state it goes through is kept, since a reader may open the
    file at any moment. *)
From S2P Require Import Prelude Net NatTable Session QuicFlow Dispatch Text Worker Frame FlowLoop.

(** ** Identity *)

Record SnapshotIdentity : Type := mkIdentity { instance_id : Z; pid : Z; started_at_unix_ms : Z }.
Record SnapshotMetadata : Type := mkMetadata { identity : SnapshotIdentity; sequence : Z; role : text }.

(** [SnapshotMetadata::new], with the identity the process drew. *)
Definition metadata_new (i : SnapshotIdentity) (r : text) : SnapshotMetadata := mkMetadata i 1 r.
Definition metadata_advance (m : SnapshotMetadata) : SnapshotMetadata :=
  mkMetadata (identity m) (Z.max (wrap 64 (sequence m + 1)) 1) (role m).

(** ** The counters of an I/O owner *)

Inductive IoStat : Type :=
| rx_frames | tx_frames | tx_drops | passed_frames | dispatched_frames | dropped_frames | io_unknown_dcid_drops
| invalid_quic_drops | malformed_drops | dispatch_drops | unknown_nat_tuple_drops | dns_unknown_transaction_drops
| dns_fragmented_drops.
#[global] Instance IoStat_eq_dec : EqDecision IoStat.
Proof. solve_decision. Defined.

Definition IoStatsSlot : Type := IoStat → Z.
Definition io_stats_default : IoStatsSlot := λ _, 0.

(** [fetch_add] of [n] on one counter. *)
Definition io_fetch_add (c : IoStat) (n : Z) (s : IoStatsSlot) : IoStatsSlot := λ x, if decide (x = c) then wrap 64 (s x + n) else s x.

Definition record_rx (count : Z) : IoStatsSlot → IoStatsSlot := io_fetch_add rx_frames count.
Definition record_tx : IoStatsSlot → IoStatsSlot := io_fetch_add tx_frames 1.
Definition record_tx_drop : IoStatsSlot → IoStatsSlot := io_fetch_add tx_drops 1.

(** The [matches!] of [record_ingress]. *)
Definition reason_is_malformed (r : DropReason) : bool :=
  match r with MalformedEthernet | MalformedIp | MalformedUdp | InvalidFlow => true | _ => false end.
Definition reason_is_dispatch (r : DropReason) : bool := match r with DispatchRejected _ => true | _ => false end.

Definition record_ingress (o : IngressOutcome) (s : IoStatsSlot) : IoStatsSlot :=
  match o with
  | Passed => io_fetch_add passed_frames 1 s
  | Dispatched _ => io_fetch_add dispatched_frames 1 s
  | Dropped reason =>
      let s := io_fetch_add dropped_frames 1 s in
      if decide (reason = UnknownDcid) then io_fetch_add io_unknown_dcid_drops 1 s
      else if decide (reason = InvalidQuic) then io_fetch_add invalid_quic_drops 1 s
      else if reason_is_malformed reason then io_fetch_add malformed_drops 1 s
      else if reason_is_dispatch reason then io_fetch_add dispatch_drops 1 s
      else if decide (reason = UnknownNatTuple) then io_fetch_add unknown_nat_tuple_drops 1 s
      else if decide (reason = UnknownDnsTransaction) then io_fetch_add dns_unknown_transaction_drops 1 s
      else if decide (reason = FragmentedDns) then io_fetch_add dns_fragmented_drops 1 s
      else s
  end.

Record IoCounters : Type := mkIoCounters {
  ic_rx_frames : Z; ic_tx_frames : Z; ic_tx_drops : Z; ic_passed_frames : Z; ic_dispatched_frames : Z; ic_dropped_frames : Z;
  ic_unknown_dcid_drops : Z; ic_invalid_quic_drops : Z; ic_malformed_drops : Z; ic_dispatch_drops : Z;
  ic_unknown_nat_tuple_drops : Z; ic_dns_unknown_transaction_drops : Z; ic_dns_fragmented_drops : Z;
}.

(** [IoStatsSlot::snapshot]: the loads, with the slot as it is at each of them. *)
Definition io_snapshot (load : IoStat → Z) : IoCounters :=
  mkIoCounters (load rx_frames) (load tx_frames) (load tx_drops) (load passed_frames) (load dispatched_frames) (load dropped_frames)
    (load io_unknown_dcid_drops) (load invalid_quic_drops) (load malformed_drops) (load dispatch_drops)
    (load unknown_nat_tuple_drops) (load dns_unknown_transaction_drops) (load dns_fragmented_drops).

Record IoStatsEntry : Type := mkIoEntry { ie_owner : IoOwnerKey; ie_tunnel : bool; ie_intercept : bool; ie_slot : IoStatsSlot }.

(** ** The published state of a flow worker *)

Record FlowSnapshot : Type := mkFlowSnapshot {
  fs_source : IpAddr; fs_destination : IpAddr; fs_source_port : Z; fs_destination_port : Z; fs_protocol : TransportProtocol;
}.

Definition flow_snapshot_from (flow : FlowKey) : FlowSnapshot :=
  mkFlowSnapshot (fk_source flow) (fk_destination flow) (fk_source_port flow) (fk_destination_port flow) (fk_protocol flow).

Record SessionSnapshot : Type := mkSessionSnapshot {
  ss_session_id : SessionId; ss_quic_flow_id : QuicFlowId; ss_flow_worker_id : nat; ss_intercept_ifindex : Z; ss_intercept_queue_id : Z;
  ss_original : FlowSnapshot; ss_translated : FlowSnapshot;
}.

Definition session_snapshot (session : Session) : SessionSnapshot :=
  mkSessionSnapshot (s_id session) (s_quic_flow_id session) (s_flow_worker_id session)
    (ifindex (s_intercept_io session)) (queue_id (s_intercept_io session))
    (flow_snapshot_from (s_original session)) (flow_snapshot_from (nb_translated (s_nat session))).

Record FlowWorkerSnapshot : Type := mkWorkerSnapshot {
  fw_worker_id : nat; fw_quic_flow_id : QuicFlowId; fw_tunnel_queue_id : Z; fw_authenticated : bool;
  fw_session_count : nat; fw_nat_count : nat; fw_reverse_nat_count : nat;
  fw_queue_mismatch_drops : Z; fw_session_nat_exhausted : Z; fw_pending_inner_drops : Z; fw_quic_send_drops : Z;
  fw_io_missing_owner_drops : Z; fw_io_channel_full_drops : Z; fw_io_channel_disconnected_drops : Z;
  fw_reverse_nat_publish_drops : Z; fw_dcid_publish_drops : Z; fw_reconnect_failures : Z;
  fw_dns_query_local : Z; fw_dns_query_remote : Z; fw_dns_response_local : Z; fw_dns_response_remote : Z; fw_dns_servfail : Z;
  fw_dns_capacity_exhausted : Z; fw_dns_nat_exhausted : Z; fw_dns_malformed_local_fallback : Z; fw_dns_spoofed_response_drop : Z;
  fw_dns_late_response_drop : Z; fw_dns_edns_clamped : Z; fw_dns_timeout : Z; fw_dns_transactions_active : Z;
  fw_sessions : list SessionSnapshot;
}.

(** [FlowStatsSlot] with the counters of the loop. *)
Record FlowStatsSlot : Type := mkFlowSlot { fl_snapshot : FlowWorkerSnapshot; fl_counters : LoopStat → Z }.

Definition flow_record (c : LoopStat) (s : FlowStatsSlot) : FlowStatsSlot :=
  mkFlowSlot (fl_snapshot s) (λ x, if decide (x = c) then wrap 64 (fl_counters s x + 1) else fl_counters s x).

Definition flow_publish (state : FlowWorkerState) (flow : QuicFlow) (authenticated : bool) (slot : FlowStatsSlot) : FlowStatsSlot :=
  let published := session_snapshot <$> (snd <$> map_to_list (sessions (w_sessions state))) in
  let stats := w_stats state in
  let own := fl_counters slot in
  mkFlowSlot
    (mkWorkerSnapshot (qf_flow_worker_id flow) (qf_id flow) (qf_tunnel_queue_id flow) authenticated
       (length published) (nat_len (nat_table (w_sessions state))) (nat_reverse_len (nat_table (w_sessions state)))
       (stats queue_mismatch_drops) (stats session_nat_exhausted) (own pending_inner_drop) (own quic_send_drop)
       (own io_missing_owner_drop) (own io_channel_full_drop) (own io_channel_disconnected_drop)
       (own reverse_nat_publish_drop) (own dcid_publish_drop) (own reconnect_failure)
       (stats dns_query_local) (stats dns_query_remote) (stats dns_response_local) (stats dns_response_remote) (stats dns_servfail)
       (stats dns_capacity_exhausted) (stats dns_nat_exhausted) (stats dns_malformed_local_fallback) (stats dns_spoofed_response_drop)
       (stats dns_late_response_drop) (stats dns_edns_clamped) (stats dns_timeout) (stats dns_transactions_active)
       published)
    own.

(** ** The snapshot file *)

Record RuntimeGauges : Type := mkGauges {
  active_dcid_count : Z; reverse_nat_count : Z; xdp_parser_drops : Z; xdp_dns_fragment_drops : Z;
  stats_read_failures : Z; stats_write_failures : Z;
}.

Record IoOwnerSnapshot : Type := mkOwnerSnapshot { os_ifindex : Z; os_queue_id : Z; os_tunnel : bool; os_intercept : bool; os_counters : IoCounters }.

Record RuntimeSnapshot : Type := mkRuntimeSnapshot {
  rs_identity : SnapshotIdentity; rs_generated_at_unix_ms : Z; rs_sequence : Z; rs_role : text;
  rs_io_owners : list IoOwnerSnapshot; rs_flow_workers : list FlowWorkerSnapshot; rs_gauges : RuntimeGauges; rs_dispatch : DispatchStats;
}.

Definition owner_snapshot (e : IoStatsEntry) : IoOwnerSnapshot :=
  mkOwnerSnapshot (ifindex (ie_owner e)) (queue_id (ie_owner e)) (ie_tunnel e) (ie_intercept e) (io_snapshot (ie_slot e)).

Definition runtime_snapshot (now : Z) (metadata : SnapshotMetadata) (io_entries : list IoStatsEntry) (flow_slots : list FlowStatsSlot)
    (dispatcher : FlowDispatcher) (gauges : RuntimeGauges) : RuntimeSnapshot :=
  mkRuntimeSnapshot (identity metadata) now (sequence metadata) (role metadata) (owner_snapshot <$> io_entries)
    (fl_snapshot <$> flow_slots) gauges (stats dispatcher).

(** What the operations of the disk do that it cannot foresee: the error of each that
    fails, and how much of the contents a failing write leaves. *)
Record Faults (E : Type) : Type := mkFaults {
  f_create_dir : option E;
  f_open : nat → option E;
  f_write : option (nat * E);
  f_sync : option E;
  f_rename : option E;
  f_remove : option E;
}.
Arguments mkFaults {E} _ _ _ _ _ _.
Arguments f_create_dir {E} _.
Arguments f_open {E} _ _.
Arguments f_write {E} _.
Arguments f_sync {E} _.
Arguments f_rename {E} _.
Arguments f_remove {E} _.

Abbreviation files := (gmap text bytes).

(** The files and the states they went through. *)
Record Disk : Type := mkDisk { d_files : files; d_past : list files }.
Definition change (f : files → files) (d : Disk) : Disk := mkDisk (f (d_files d)) (d_past d ++ [d_files d]).
Definition states_of (d : Disk) : list files := d_past d ++ [d_files d].

Inductive StatsError (E : Type) : Type := Fault (e : E) | AlreadyExists.
Arguments Fault {E} _.
Arguments AlreadyExists {E}.

Section file.
Context {E : Type}.

(** A system call that fails or changes the files. *)
Definition disk_op (fault : option E) (f : files → files) : ST Disk (StatsError E) unit := λ d,
  match fault with Some e => (Err (Fault e), d) | None => (Ok tt, change f d) end.

(** The loop of [secure_stats_file] over the names it draws; [create_new] refuses a name
    that is taken. *)
Fixpoint secure_stats_file (faults : Faults E) (names : list text) (attempt : nat) : ST Disk (StatsError E) text := λ d,
  match names with
  | [] => (Err AlreadyExists, d)
  | temporary :: names =>
      if decide (is_Some (d_files d !! temporary)) then secure_stats_file faults names (S attempt) d else
      (let! _ := disk_op (f_open faults attempt) (insert temporary []) in sret temporary) d
  end.

(** [write_all] then [sync_all]: the contents reach the file in pieces, the first [n] bytes
    of them before the pieces after. *)
Fixpoint write_pieces (temporary : text) (contents : bytes) (cuts : list nat) : ST Disk (StatsError E) unit :=
  match cuts with
  | [] => sret tt
  | n :: cuts => disk_op None (insert temporary (take n contents)) ;;; write_pieces temporary contents cuts
  end.

Definition write_contents (faults : Faults E) (cuts : list nat) (temporary : text) (contents : bytes) : ST Disk (StatsError E) unit :=
  let! _ := write_pieces temporary contents cuts in
  match f_write faults with
  | Some (n, e) => disk_op None (insert temporary (take n contents)) ;;; serr (Fault e)
  | None => disk_op None (insert temporary contents) ;;; disk_op (f_sync faults) id
  end.

(** [let _ = remove_file(..)]. *)
Definition discard (faults : Faults E) (temporary : text) : ST Disk (StatsError E) unit := λ d,
  (Ok tt, (disk_op (f_remove faults) (delete temporary) d).2).

(** [write_snapshot] from the serialised snapshot on; [names] are the names it draws. *)
Definition write_file (faults : Faults E) (cuts : list nat) (names : list text) (path : text) (contents : bytes) : ST Disk (StatsError E) unit :=
  let! temporary := secure_stats_file faults (take 8 names) 0 in
  λ d, match write_contents faults cuts temporary contents d with
  | (Ok _, d) =>
      match disk_op (f_rename faults) (λ fs, <[path := default [] (fs !! temporary)]> (delete temporary fs)) d with
      | (Ok _, d) => (Ok tt, d)
      | (Err e, d) => (discard faults temporary ;;; serr e) d
      | (Panic, d) => (Panic, d)
      end
  | (Err e, d) => (discard faults temporary ;;; serr e) d
  | (Panic, d) => (Panic, d)
  end.

(** [to_json] is [serde_json::to_vec_pretty]; [create_dir_all] changes no file. *)
Definition write_snapshot (to_json : RuntimeSnapshot → outcome E bytes) (faults : Faults E) (cuts : list nat) (names : list text) (path : text)
    (now : Z) (metadata : SnapshotMetadata) (io_entries : list IoStatsEntry) (flow_slots : list FlowStatsSlot)
    (dispatcher : FlowDispatcher) (gauges : RuntimeGauges) : ST Disk (StatsError E) unit :=
  let! _ := disk_op (f_create_dir faults) id in
  let! contents := slift (map_err Fault (to_json (runtime_snapshot now metadata io_entries flow_slots dispatcher gauges))) in
  write_file faults cuts names path contents.

Definition preflight_snapshot_path (faults : Faults E) (names : list text) : ST Disk (StatsError E) unit :=
  let! _ := disk_op (f_create_dir faults) id in
  let! temporary := secure_stats_file faults (take 8 names) 0 in
  let! _ := disk_op (f_sync faults) id in
  disk_op (f_remove faults) (delete temporary).
End file.
