(* ===== verification/StatsClaims.v ===== *)
(** The counters add up, and the snapshot file is replaced whole or not at all. *)
From S2P Require Import Prelude Net NatTable Session QuicFlow Dispatch Text Worker Frame FlowLoop Stats.

(** ** Counters *)

Lemma io_fetch_add_same c n s : io_fetch_add c n s c = wrap 64 (s c + n).
Proof. unfold io_fetch_add. by rewrite decide_True. Qed.
Lemma io_fetch_add_other c c' n s : c' ≠ c → io_fetch_add c n s c' = s c'.
Proof. intros. unfold io_fetch_add. by rewrite decide_False. Qed.

(** The counters of the outcomes of a frame. *)
Definition ingress_total (s : IoStatsSlot) : Z := s passed_frames + s dispatched_frames + s dropped_frames.

(** The counters of the reasons of a drop. *)
Definition reason_total (s : IoStatsSlot) : Z :=
  s io_unknown_dcid_drops + s invalid_quic_drops + s malformed_drops + s dispatch_drops + s unknown_nat_tuple_drops
  + s dns_unknown_transaction_drops + s dns_fragmented_drops.

Definition congruent (x y : Z) : Prop := wrap 64 x = wrap 64 y.

Lemma congruent_wrap x : congruent (wrap 64 x) x.
Proof. unfold congruent, wrap. apply Z.mod_mod. lia. Qed.

#[global] Instance congruent_equivalence : Equivalence congruent.
Proof. split; unfold congruent; [by intros ?|by intros ???|by intros ??? -> ->]. Qed.
#[global] Instance congruent_add : Proper (congruent ==> congruent ==> congruent) Z.add.
Proof. intros x x' Hx y y' Hy. unfold congruent, wrap in *. rewrite (Zplus_mod x), Hx, Hy, <- Zplus_mod. done. Qed.

(** Every frame is counted under one outcome, and every dropped one under one reason. *)
Lemma record_ingress_adds o s : let s' := record_ingress o s in
  congruent (ingress_total s') (ingress_total s + 1) ∧ congruent (reason_total s' + s dropped_frames) (reason_total s + s' dropped_frames)
  ∧ s' rx_frames = s rx_frames ∧ s' tx_frames = s tx_frames ∧ s' tx_drops = s tx_drops.
Proof.
  cbv zeta. destruct o as [|w|r]; [| |destruct r]; unfold ingress_total, reason_total, record_ingress, io_fetch_add; simpl;
    rewrite ?congruent_wrap; (split_and!; [..|done|done|done]); unfold congruent; f_equal; lia.
Qed.

(** ** The file *)

Section file.
Context {E : Type} (faults : Faults E).

(** From [d] to [d'] only the temporary file moved, and it ends up as [last] says. *)
Record beside (t : text) (d d' : Disk) (last : option bytes) : Prop := {
  be_states : ∃ news, states_of d' = states_of d ++ news ∧ Forall (λ fs, delete t fs = d_files d) news;
  be_last : d_files d' = partial_alter (λ _, last) t (d_files d);
}.

Lemma beside_delete t d d' last : d_files d !! t = None → beside t d d' last → delete t (d_files d') = d_files d.
Proof.
  intros Ht [_ ->]. apply map_eq. intros k. destruct (decide (k = t)) as [->|Hk].
  - by rewrite lookup_delete_eq.
  - by rewrite lookup_delete_ne, lookup_partial_alter_ne by done.
Qed.

Lemma beside_refl t d : d_files d !! t = None → beside t d d None.
Proof.
  intros Ht. split; [exists []; by rewrite app_nil_r|]. apply map_eq. intros k. destruct (decide (k = t)) as [->|Hk].
  - by rewrite lookup_partial_alter_eq.
  - by rewrite lookup_partial_alter_ne.
Qed.

Lemma beside_change t d d' last last' f : d_files d !! t = None → beside t d d' last →
  f (d_files d') = partial_alter (λ _, last') t (d_files d') → beside t d (change f d') last'.
Proof.
  intros Ht Hb Hf. assert (d_files (change f d') = partial_alter (λ _, last') t (d_files d)) as Hlast.
  { simpl. rewrite Hf, (be_last _ _ _ _ Hb). apply map_eq. intros k. destruct (decide (k = t)) as [->|Hk].
    - by rewrite !lookup_partial_alter_eq.
    - by rewrite !lookup_partial_alter_ne by done. }
  split; [|done]. destruct (be_states _ _ _ _ Hb) as (news & Hn & Hall). exists (news ++ [f (d_files d')]). split.
  - unfold states_of in *. simpl. by rewrite Hn, <- app_assoc.
  - apply Forall_app. split; [done|]. apply Forall_singleton. apply map_eq. intros k. simpl in Hlast. rewrite Hlast.
    destruct (decide (k = t)) as [->|Hk]; [by rewrite lookup_delete_eq|]. by rewrite lookup_delete_ne, lookup_partial_alter_ne by done.
Qed.

Lemma beside_op t d d' last last' fault f : d_files d !! t = None → beside t d d' last →
  f (d_files d') = partial_alter (λ _, last') t (d_files d') →
  match disk_op (E := E) fault f d' with
  | (Ok _, d'') => fault = None ∧ beside t d d'' last'
  | (Err e, d'') => (∃ c, fault = Some c) ∧ d'' = d'
  | (Panic, _) => False
  end.
Proof. intros. unfold disk_op. destruct fault; [eauto|]. split; [done|]. by eapply beside_change. Qed.

Lemma secure_spec names : ∀ attempt d,
  match secure_stats_file faults names attempt d with
  | (Ok t, d') => t ∈ names ∧ d_files d !! t = None ∧ beside t d d' (Some [])
  | (Err _, d') => d' = d
  | (Panic, _) => False
  end.
Proof.
  induction names as [|t names IH]; intros attempt d; simpl; [done|]. case_decide as Ht.
  - specialize (IH (S attempt) d). destruct (secure_stats_file faults names (S attempt) d) as [[t'| |] d']; [|done..].
    destruct IH as (Hin & ?). split; [by right|done].
  - apply eq_None_not_Some in Ht. unfold sbind, disk_op, sret. destruct (f_open faults attempt); [done|].
    split_and!; [by left|done|]. by apply (beside_change t d d None _ _ Ht (beside_refl t d Ht)).
Qed.

Lemma pieces_spec t contents cuts d : d_files d !! t = None → ∀ d1 c, beside t d d1 (Some c) →
  ∃ d2 c', write_pieces (E := E) t contents cuts d1 = (Ok tt, d2) ∧ beside t d d2 (Some c').
Proof.
  intros Ht. induction cuts as [|n cuts IH]; intros d1 c Hb; simpl; [by eexists _, _|].
  unfold sbind, disk_op. eapply IH. by eapply beside_change.
Qed.

Lemma contents_spec cuts t contents d d1 c : d_files d !! t = None → beside t d d1 (Some c) →
  match write_contents faults cuts t contents d1 with
  | (Ok _, d2) => beside t d d2 (Some contents)
  | (Err _, d2) => ∃ c', beside t d d2 (Some c')
  | (Panic, _) => False
  end.
Proof.
  intros Ht Hb. unfold write_contents, sbind. destruct (pieces_spec t contents cuts d Ht d1 c Hb) as (d2 & c' & -> & Hb2).
  destruct (f_write faults) as [[n e]|]; unfold disk_op, serr.
  - eexists. by eapply beside_change.
  - assert (beside t d (change (insert t contents) d2) (Some contents)) as Hw by (by eapply beside_change).
    destruct (f_sync faults); [by eexists|]. eapply beside_change; [done|exact Hw|]. simpl.
    apply map_eq. intros k. destruct (decide (k = t)) as [->|Hk]; [by rewrite lookup_partial_alter_eq, lookup_insert_eq|by rewrite lookup_partial_alter_ne].
Qed.

(** The files are as before, but for a temporary one that could not be removed. *)
Definition undone (names : list text) (before after : files) : Prop :=
  after = before ∨ is_Some (f_remove faults) ∧ ∃ t, t ∈ names ∧ before !! t = None ∧ delete t after = before.

(** What a reader of [path] may find. *)
Definition old_or_new (path : text) (contents : bytes) (before : files) (fs : files) : Prop :=
  fs !! path = before !! path ∨ fs !! path = Some contents.

Lemma beside_path t d d' last path contents : t ≠ path → beside t d d' last →
  ∃ news, states_of d' = states_of d ++ news ∧ Forall (old_or_new path contents (d_files d)) news.
Proof.
  intros Ht [(news & Hn & Hall) _]. exists news. split; [done|]. eapply Forall_impl; [exact Hall|]. intros fs <-. left. by rewrite lookup_delete_ne.
Qed.

Lemma discard_spec names t d d1 c path contents e : t ≠ path → t ∈ names → d_files d !! t = None → beside t d d1 (Some c) →
  ∃ d2, (discard faults t ;;; serr (A := unit) e) d1 = (Err e, d2) ∧ undone names (d_files d) (d_files d2)
    ∧ ∃ news, states_of d2 = states_of d ++ news ∧ Forall (old_or_new path contents (d_files d)) news.
Proof.
  intros Hne Hin Ht Hb. unfold sbind, discard, disk_op, serr. destruct (f_remove faults) eqn:Hr.
  - eexists. split_and!; [done| |by eapply beside_path]. right. split; [by rewrite Hr|]. exists t. split_and!; [done|done|by eapply beside_delete].
  - assert (beside t d (change (delete t) d1) None) as Hb' by (by eapply beside_change).
    eexists. split_and!; [done| |by eapply beside_path]. left. simpl. by apply (beside_delete t d d1 (Some c)).
Qed.

Lemma write_file_spec cuts names path contents d : path ∉ names →
  match write_file faults cuts names path contents d with
  | (Ok _, d') => d_files d' = <[path := contents]> (d_files d)
      ∧ ∃ news, states_of d' = states_of d ++ news ∧ Forall (old_or_new path contents (d_files d)) news
  | (Err _, d') => undone names (d_files d) (d_files d')
      ∧ ∃ news, states_of d' = states_of d ++ news ∧ Forall (old_or_new path contents (d_files d)) news
  | (Panic, _) => False
  end.
Proof.
  intros Hpath. unfold write_file, sbind at 1. pose proof (secure_spec (take 8 names) 0 d) as Hs.
  destruct (secure_stats_file faults (take 8 names) 0 d) as [[t|e|] d1]; [|subst d1; split; [by left|exists []; by rewrite app_nil_r]|done].
  destruct Hs as (Hin & Ht & Hb). apply (subseteq_take _ names) in Hin. assert (t ≠ path) as Hne by congruence.
  pose proof (contents_spec cuts t contents d d1 [] Ht Hb) as Hc.
  destruct (write_contents faults cuts t contents d1) as [[[]|e|] d2]; [|destruct Hc as (c' & Hc)|done].
  2: { destruct (discard_spec names t d d2 c' path contents e Hne Hin Ht Hc) as (d3 & -> & Hu & Hst). by split. }
  unfold disk_op at 1. destruct (f_rename faults) as [e|] eqn:Hre.
  { destruct (discard_spec names t d d2 contents path contents (Fault e) Hne Hin Ht Hc) as (d3 & -> & Hu & Hst). by split. }
  assert (<[path := default [] (d_files d2 !! t)]> (delete t (d_files d2)) = <[path := contents]> (d_files d)) as Hfin.
  { rewrite (beside_delete t d d2 _ Ht Hc), (be_last _ _ _ _ Hc), lookup_partial_alter_eq. done. }
  split; [done|]. destruct (beside_path t d d2 _ path contents Hne Hc) as (news & Hn & Hall).
  exists (news ++ [<[path := default [] (d_files d2 !! t)]> (delete t (d_files d2))]). split.
  - unfold states_of in *. simpl. by rewrite Hn, <- app_assoc.
  - apply Forall_app. split; [done|]. apply Forall_singleton. right. by rewrite Hfin, lookup_insert_eq.
Qed.
End file.


Definition sample_json (s : RuntimeSnapshot) : outcome unit bytes := Ok [rs_sequence s; 10].

(** A write that stops after a byte, with the first name drawn taken. *)
Definition sample_faults : Faults unit := mkFaults None (λ _, None) (Some (1%nat, tt)) None None None.
Definition sample_names : list text := [txt "s.tmp-1"; txt "s.tmp-2"].
Definition sample_disk : Disk := mkDisk {[txt "s.tmp-1" := [1]; txt "s" := [2]]} [].
Definition sample_metadata : SnapshotMetadata := metadata_new (mkIdentity 7 8 9) (txt "client").

