(* ===== verification/IoLoop.v ===== *)
(** The I/O thread ([io_loop] of [src/src/xdp_datapath/runtime.rs]) and the wake-up of it
    ([src/src/xdp_datapath/io_wakeup.rs]), among the threads that send to it.

    The thread is a function of its state, which has the point of the program it is at,
    and of what the system calls and the other threads give it at that point.  A sender is
    between its [try_send] and the end of [notify]; each of its atomic operations is a step.
    The eventfd is a counter that behaves as its manual page says. *)
From stdpp Require Import relations.
From S2P Require Import Prelude Net NatTable QuicFlow Dns Dispatch Worker Frame Encap FlowLoop Xsk XskProps XskClaims Stats.

(** ** The wake-up *)

(** The flag and the counter of the eventfd. *)
Record IoWakeup : Type := mkWakeup { wk_pending : bool; wk_count : Z }.

Definition wakeup_new : IoWakeup := mkWakeup false 0.

(** How a [read] or [write] of eight bytes may end. *)
Inductive IoResult : Type := AllBytes | Failed (e : IoErrorKind) | ShortCount.

(** The kernel's side: adding one to the counter, up to [u64::MAX - 1]; taking it. *)
Definition eventfd_write (count : Z) : IoResult * Z :=
  if decide (count + 1 < 2 ^ 64 - 1) then (AllBytes, count + 1) else (Failed WouldBlock, count).
Definition eventfd_read (count : Z) : IoResult * Z :=
  if decide (0 < count) then (AllBytes, 0) else (Failed WouldBlock, count).

(** [pending.swap(true)]: whether to write. *)
Definition notify_swap (w : IoWakeup) : bool * IoWakeup := (negb (wk_pending w), mkWakeup true (wk_count w)).

(** What [notify] does with the result of the write. *)
Definition notify_written (r : IoResult) (w : IoWakeup) : outcome IoErrorKind bool * IoWakeup :=
  match r with
  | AllBytes => (Ok true, w)
  | Failed e => if decide (e = WouldBlock) then (Ok false, w) else (Err e, mkWakeup false (wk_count w))
  | ShortCount => (Err OtherKind, mkWakeup false (wk_count w))
  end.

Definition notify_write (w : IoWakeup) : outcome IoErrorKind bool * IoWakeup :=
  let '(r, count) := eventfd_write (wk_count w) in notify_written r (mkWakeup (wk_pending w) count).

(** [notify] when no other thread runs in between. *)
Definition notify (w : IoWakeup) : outcome IoErrorKind bool * IoWakeup :=
  match notify_swap w with (true, w) => notify_write w | (false, w) => (Ok false, w) end.

Definition clear_pending (w : IoWakeup) : IoWakeup := mkWakeup false (wk_count w).

Definition wakeup_drain (w : IoWakeup) : outcome IoErrorKind unit * IoWakeup :=
  let '(r, count) := eventfd_read (wk_count w) in
  (match r with
   | AllBytes => Ok tt
   | Failed e => if decide (e = WouldBlock) then Ok tt else Err e
   | ShortCount => Err OtherKind
   end, mkWakeup (wk_pending w) count).

(** ** The thread *)

Definition IO_BATCH_SIZE : nat := 64.

(** The points of [io_loop]: the test of the outer loop; a [try_recv]; [transmit_batch];
    [poll]; [drain]; [clear_pending]; after the return. *)
Inductive IoPoint : Type :=
| AtHead
| AtRecv (received : Z) (transmitted : bool) (tx_count : nat)
| AtTransmit (received : Z) (transmitted : bool) (tx_count : nat)
| AtPoll
| AtDrain
| AtClear
| Returned.

Inductive NotifyPoint : Type := ToSwap | ToWrite.

(** Everything the thread and its senders share. *)
Record IoState : Type := mkIo {
  i_socket : Socket;
  i_channel : IoTxChannel;
  i_senders_alive : bool;
  i_wakeup : IoWakeup;
  i_notifying : gmap nat NotifyPoint;
  i_dispatcher : FlowDispatcher;
  i_stats : IoStatsSlot;
  i_frames : list bytes;
  i_point : IoPoint;
}.

Definition at_point (p : IoPoint) (s : IoState) : IoState :=
  mkIo (i_socket s) (i_channel s) (i_senders_alive s) (i_wakeup s) (i_notifying s) (i_dispatcher s) (i_stats s) (i_frames s) p.
Definition with_xsk (x : Xsk) (s : IoState) : IoState :=
  mkIo (mkSocket x (so_receiving (i_socket s)) (so_sending (i_socket s))) (i_channel s) (i_senders_alive s) (i_wakeup s) (i_notifying s)
    (i_dispatcher s) (i_stats s) (i_frames s) (i_point s).
Definition with_channel (q : list IoTransmit) (s : IoState) : IoState :=
  mkIo (i_socket s) (mkIoTx (tx_capacity (i_channel s)) q (tx_connected (i_channel s))) (i_senders_alive s) (i_wakeup s) (i_notifying s)
    (i_dispatcher s) (i_stats s) (i_frames s) (i_point s).
Definition with_wakeup (w : IoWakeup) (s : IoState) : IoState :=
  mkIo (i_socket s) (i_channel s) (i_senders_alive s) w (i_notifying s) (i_dispatcher s) (i_stats s) (i_frames s) (i_point s).
Definition with_notifying (n : gmap nat NotifyPoint) (s : IoState) : IoState :=
  mkIo (i_socket s) (i_channel s) (i_senders_alive s) (i_wakeup s) n (i_dispatcher s) (i_stats s) (i_frames s) (i_point s).
Definition with_dispatcher (d : FlowDispatcher) (s : IoState) : IoState :=
  mkIo (i_socket s) (i_channel s) (i_senders_alive s) (i_wakeup s) (i_notifying s) d (i_stats s) (i_frames s) (i_point s).
Definition with_io_stats (f : IoStatsSlot → IoStatsSlot) (s : IoState) : IoState :=
  mkIo (i_socket s) (i_channel s) (i_senders_alive s) (i_wakeup s) (i_notifying s) (i_dispatcher s) (f (i_stats s)) (i_frames s) (i_point s).
Definition with_frames (f : list bytes) (s : IoState) : IoState :=
  mkIo (i_socket s) (i_channel s) (i_senders_alive s) (i_wakeup s) (i_notifying s) (i_dispatcher s) (i_stats s) f (i_point s).

(** The shared tables as they are when a frame is handled, and what other threads did to
    the dispatcher before. *)
Record View : Type := mkView { v_dcids : ActiveDcidIndex; v_nat : ReverseNatDirectory; v_others : FlowDispatcher → FlowDispatcher }.

Inductive PollResult : Type := PollError (e : IoErrorKind) | PollTimeout | PollReady (wakeup_readable : bool).

(** What the thread is given from outside in one step. *)
Record IoInput : Type := mkInput { in_exit : bool; in_views : nat → View; in_kick : option IoErrorKind; in_poll : PollResult }.

Section io_loop.
Context {IpNet : Type} (contains : IpNet → IpAddr → bool) (dns_hash : IoOwnerKey → DnsTransactionKey → Z).
Context (classifier : IoClassifierConfig IpNet) (link : IoLinkConfig).

(** The closure given to [receive_with]. *)
Definition on_frame (views : nat → View) (frame : bytes) (st : nat * IoStatsSlot * FlowDispatcher)
    : outcome unit (nat * IoStatsSlot * FlowDispatcher) :=
  let '(n, slot, d) := st in
  match handle_frame contains dns_hash classifier frame (v_dcids (views n)) (v_nat (views n)) (v_others (views n) d) with
  | (Ok o, d) => Ok (S n, record_ingress o slot, d)
  | (Err e, _) => Err e
  | (Panic, _) => Panic
  end.

Definition io_receive (views : nat → View) (s : IoState) : outcome unit IoState :=
  let? '(received, x, (_, slot, d)) :=
    receive_with (Z.of_nat IO_BATCH_SIZE) (on_frame views) (so_xsk (i_socket s)) (0%nat, i_stats s, i_dispatcher s) in
  Ok (at_point (AtRecv received false 0) (with_xsk x (with_io_stats (λ _, record_rx received slot) (with_dispatcher d s)))).

(** After the inner [while]: transmit, or leave the loop. *)
Definition io_collected (received : Z) (transmitted : bool) (tx_count : nat) (s : IoState) : IoState :=
  if decide (tx_count = 0)%nat then
    (if decide (received = 0 ∧ transmitted = false) then at_point AtPoll s else at_point AtHead s)
  else at_point (AtTransmit received transmitted tx_count) s.

Definition io_try_recv (received : Z) (transmitted : bool) (tx_count : nat) (s : IoState) : outcome unit IoState :=
  if decide (IO_BATCH_SIZE ≤ tx_count)%nat then Ok (io_collected received transmitted tx_count s) else
  match tx_queue (i_channel s) with
  | transmit :: queue =>
      let s := with_channel queue s in
      let? frame := expect (i_frames s !! tx_count) in
      match fill_ethernet_frame link transmit frame with
      | (Ok true, frame) => Ok (at_point (AtRecv received transmitted (S tx_count)) (with_frames (<[tx_count := frame]> (i_frames s)) s))
      | (Ok false, frame) =>
          Ok (at_point (AtRecv received transmitted tx_count) (with_io_stats record_tx_drop (with_frames (<[tx_count := frame]> (i_frames s)) s)))
      | (Err e, _) => Err e
      | (Panic, _) => Panic
      end
  | [] => if i_senders_alive s then Ok (io_collected received transmitted tx_count s) else Ok (at_point Returned s)
  end.

Definition io_transmit (kick : option IoErrorKind) (received : Z) (transmitted : bool) (tx_count : nat) (s : IoState) : outcome unit IoState :=
  let counted sent x :=
    Ok (at_point (AtRecv received (transmitted || bool_decide (0 < sent)) 0)
          (with_io_stats (λ slot, Nat.iter (tx_count - Z.to_nat sent) record_tx_drop (Nat.iter (Z.to_nat sent) record_tx slot)) (with_xsk x s))) in
  match transmit_batch kick (take tx_count (i_frames s)) (so_xsk (i_socket s)) with
  | (Ok sent, x) => counted sent x
  | (Err _, x) => counted 0 x
  | (Panic, _) => Panic
  end.

Definition io_polled (r : PollResult) (s : IoState) : IoState :=
  match r with
  | PollError e => if decide (e = Interrupted) then at_point AtHead s else at_point Returned s
  | PollTimeout => at_point AtHead s
  | PollReady true => at_point AtDrain s
  | PollReady false => at_point AtHead s
  end.

(** One step of [io_loop]. *)
Definition io_thread (i : IoInput) (s : IoState) : outcome unit IoState :=
  match i_point s with
  | AtHead => if in_exit i then Ok (at_point Returned s) else io_receive (in_views i) s
  | AtRecv received transmitted tx_count => io_try_recv received transmitted tx_count s
  | AtTransmit received transmitted tx_count => io_transmit (in_kick i) received transmitted tx_count s
  | AtPoll => Ok (io_polled (in_poll i) s)
  | AtDrain =>
      match wakeup_drain (i_wakeup s) with
      | (Ok _, w) => Ok (at_point AtClear (with_wakeup w s))
      | (Err _, w) => Ok (at_point Returned (with_wakeup w s))
      | (Panic, _) => Panic
      end
  | AtClear => Ok (at_point AtHead (with_wakeup (clear_pending (i_wakeup s)) s))
  | Returned => Ok s
  end.

(** ** All threads *)

(** The message that a step of the thread takes from the channel. *)
Definition took (s : IoState) : list IoTransmit :=
  match i_point s with
  | AtRecv _ _ tx_count => if decide (IO_BATCH_SIZE ≤ tx_count)%nat then [] else take 1 (tx_queue (i_channel s))
  | _ => []
  end.

(** [poll] is level triggered: it tells whether the eventfd is readable, and does not time
    out when it is. *)
Definition poll_tells (r : PollResult) (s : IoState) : Prop :=
  match r with
  | PollError _ => True
  | PollTimeout => wk_count (i_wakeup s) = 0
  | PollReady wakeup_readable => wakeup_readable = bool_decide (0 < wk_count (i_wakeup s))
  end.

(** A step, with the messages the thread takes and the frames the kernel sends. *)
Inductive io_step : IoState → list IoTransmit → list bytes → IoState → Prop :=
| io_thread_step i s s' : (i_point s = AtPoll → poll_tells (in_poll i) s) → io_thread i s = Ok s' → io_step s (took s) [] s'
| io_send_step s t m : i_notifying s !! t = None → i_senders_alive s = true → tx_connected (i_channel s) = true →
    (length (tx_queue (i_channel s)) < tx_capacity (i_channel s))%nat →
    io_step s [] [] (with_notifying (<[t := ToSwap]> (i_notifying s)) (with_channel (tx_queue (i_channel s) ++ [m]) s))
| io_swap_step s t write w : i_notifying s !! t = Some ToSwap → notify_swap (i_wakeup s) = (write, w) →
    io_step s [] [] (with_wakeup w (with_notifying (if (write : bool) then <[t := ToWrite]> (i_notifying s) else delete t (i_notifying s)) s))
| io_write_step s t r w : i_notifying s !! t = Some ToWrite → notify_write (i_wakeup s) = (r, w) →
    io_step s [] [] (with_wakeup w (with_notifying (delete t (i_notifying s)) s))
| io_hangup_step s : i_notifying s = ∅ →
    io_step s [] [] (mkIo (i_socket s) (i_channel s) false (i_wakeup s) (i_notifying s) (i_dispatcher s) (i_stats s) (i_frames s) (i_point s))
| io_kernel_step s l sock' : kernel_step (i_socket s) l sock' → (∀ frame, l = LDelivered frame → bytes_ok frame) →
    io_step s [] (match l with LSent frame => [frame] | _ => [] end)
      (mkIo sock' (i_channel s) (i_senders_alive s) (i_wakeup s) (i_notifying s) (i_dispatcher s) (i_stats s) (i_frames s) (i_point s)).

Inductive io_run : IoState → list IoTransmit → list bytes → IoState → Prop :=
| io_run_nil s : io_run s [] [] s
| io_run_snoc s taken sent s' m f s'' : io_run s taken sent s' → io_step s' m f s'' → io_run s (taken ++ m) (sent ++ f) s''.

(** The thread when it starts, on a configured socket. *)
Definition io_start (x : Xsk) (capacity : nat) (d : FlowDispatcher) : IoState :=
  mkIo (mkSocket x [] []) (mkIoTx capacity [] true) true wakeup_new ∅ d io_stats_default (replicate IO_BATCH_SIZE []) AtHead.
End io_loop.
