(* ===== verification/IoLoopProps.v ===== *)
(** The steps of the I/O thread: none panics, frames keep their order, counters add up. *)
From stdpp Require Import relations.
From S2P Require Import Prelude Net NatTable QuicFlow Dns Dispatch Worker Frame FrameProps Encap EncapProps EncapClaims FlowLoop Xsk XskProps XskClaims Stats StatsClaims IoLoop.

(** ** Writing a frame never fails on a buffer of the right size *)

(** Computations on a buffer that keep its length and do not panic. *)
Definition sized {A : Type} (n : nat) (c : ST bytes unit A) : Prop := ∀ l, length l = n → no_panic (c l).1 ∧ length (c l).2 = n.

Lemma sized_bind {A B} n (c : ST bytes unit A) (k : A → ST bytes unit B) : sized n c → (∀ a, sized n (k a)) → sized n (sbind c k).
Proof.
  intros Hc Hk l Hl. destruct (Hc l Hl) as [Hp Hn]. unfold sbind. destruct (c l) as [[a|e|] l']; simpl in *; [by apply Hk|done|done].
Qed.
Lemma sized_get {A} n (k : bytes → ST bytes unit A) : (∀ l, length l = n → sized n (k l)) → sized n (sbind sget k).
Proof. intros Hk l Hl. by apply (Hk l Hl). Qed.
Lemma sized_write n lo bs : (lo + length bs ≤ n)%nat → sized n (write_at lo bs).
Proof.
  intros Hb l Hl. unfold write_at. rewrite decide_True by lia. split; [done|]. simpl. unfold patch.
  rewrite !length_app, length_take, length_drop. lia.
Qed.
Lemma sized_read {A} n (f : bytes → outcome unit A) : (∀ l, length l = n → no_panic (f l)) → sized n (sreads f).
Proof. intros Hf l Hl. split; [by apply Hf|done]. Qed.
Lemma sized_ret {A} n (a : A) : sized n (sret a).
Proof. by intros l Hl. Qed.
Lemma sized_lift {A} n (c : outcome unit A) : no_panic c → sized n (slift c).
Proof. by intros Hc l Hl. Qed.
Lemma sized_slice n lo hi : (lo ≤ hi ≤ n)%nat → sized n (sreads (λ l, slice l lo hi)).
Proof. intros H. apply sized_read. intros l Hl. unfold slice. by rewrite get_range_ok by lia. Qed.
Lemma sized_slice_end n lo : (lo ≤ n)%nat → sized n (sreads (λ l, slice l lo (length l))).
Proof. intros H. apply sized_read. intros l Hl. unfold slice. by rewrite get_range_ok by lia. Qed.

Ltac sized_steps :=
  repeat (first [apply sized_bind; [|intros ?] | apply sized_slice | apply sized_slice_end | apply sized_write];
          rewrite ?length_be_bytes; cbn [length]; try lia).

Lemma fill_ipv4_sized source destination sp dp payload : sized (28 + length payload) (fill_ipv4_udp source destination sp dp payload).
Proof.
  apply sized_get. intros l Hl. rewrite decide_False by lia. sized_steps.
Qed.

Lemma fill_ipv6_sized source destination sp dp payload : sized (48 + length payload) (fill_ipv6_udp source destination sp dp payload).
Proof.
  apply sized_get. intros l Hl. rewrite decide_False by lia. sized_steps.
Qed.

Lemma fill_outer_sized interface route payload :
  sized (outer_header_len (sa_ip (or_destination route)) + length payload) (fill_outer_packet interface route payload).
Proof.
  unfold fill_outer_packet. destruct (sa_ip (or_destination route)); simpl; apply sized_bind.
  - destruct (or_source_ip route) as [[]|]; [by apply sized_ret|by intros l|by apply sized_lift, no_panic_ok_or].
  - intros ?. apply fill_ipv4_sized.
  - destruct (or_source_ip route) as [[]|]; [by intros l|by apply sized_ret|by apply sized_lift, no_panic_ok_or].
  - intros ?. apply fill_ipv6_sized.
Qed.

(** The result does not depend on what the buffer held, and the buffer is left alone
    when there is no plan. *)
Lemma fill_frame_total link m : link_ok link → ∃ b f, ∀ frame, ∃ f', fill_ethernet_frame link m frame = (Ok b, f') ∧ (b = true → f' = f).
Proof.
  intros Hlk. unfold fill_ethernet_frame. destruct (frame_plan link m) as [[[hop ty] n]|] eqn:Hplan.
  2: { exists false, []. intros frame. by eexists. }
  assert (length hop = 6%nat ∧ ∀ route, io_outer m = Some route → n = (outer_header_len (sa_ip (or_destination route)) + length (io_packet m))%nat) as [Hhop Hn].
  { unfold frame_plan in Hplan. destruct (io_outer m) as [route|].
    - destruct (sa_ip (or_destination route)) eqn:Hd; (destruct (tunnel_next_hop link) as [hop'|] eqn:Hh; [|done]); simpl in Hplan; simplify_eq;
        (split; [by apply (lk_hops link Hlk); left|]); intros r [= <-]; by rewrite Hd.
    - destruct (head (io_packet m)); [|done]. simpl in Hplan. repeat case_decide; simpl in Hplan; [| |done];
        (destruct (intercept_next_hop link) as [hop'|] eqn:Hh; [|done]); simpl in Hplan; simplify_eq;
        (split; [by apply (lk_hops link Hlk); right|done]). }
  assert (io_outer m = None → n = length (io_packet m)) as Hn0.
  { intros Hout. unfold frame_plan in Hplan. rewrite Hout in Hplan. destruct (head (io_packet m)); [|done]. simpl in Hplan.
    repeat case_decide; simpl in Hplan; [| |done]; by (destruct (intercept_next_hop link); [|done]; simpl in Hplan; simplify_eq). }
  destruct (lk_mac link Hlk) as [Hmac _].
  assert (∀ k frame, (let! _ := sput (replicate (14 + n) 0) in let! _ := write_at 0 hop in let! _ := write_at 6 (mac (link_interface link)) in
      let! _ := write_at 12 (be_bytes 2 ty) in k) frame = (k : ST bytes unit bool) ((hop ++ mac (link_interface link) ++ be_bytes 2 ty) ++ replicate n 0)) as Hw.
  { intros k frame. apply write_ethernet; [done|done|apply length_be_bytes]. }
  set (buffer := (hop ++ mac (link_interface link) ++ be_bytes 2 ty) ++ replicate n 0) in *.
  assert (length buffer = (14 + n)%nat) as Hlen.
  { unfold buffer. rewrite !length_app, length_be_bytes, length_replicate. lia. }
  destruct (io_outer m) as [route|] eqn:Hout.
  - rewrite (Hn route eq_refl) in *. clear Hn. pose proof (fill_outer_sized (link_interface link) route (io_packet m)) as Hs.
    set (h := (outer_header_len _ + _)%nat) in *.
    destruct (on_slice 14 (14 + h) (fill_outer_packet (link_interface link) route (io_packet m)) buffer) as [[[]|[]|] f] eqn:Hf.
    + exists true, f. intros frame. eexists. rewrite Hw. by rewrite Hf.
    + exists false, f. intros frame. eexists. rewrite Hw. by rewrite Hf.
    + exfalso. unfold on_slice in Hf. rewrite get_range_ok in Hf by lia.
      destruct (Hs (sub buffer 14 (14 + h))) as [Hp _]; [unfold sub; rewrite length_take, length_drop; lia|].
      destruct (fill_outer_packet _ _ _ _) as [[]]; simpl in *; congruence.
  - exists true, (patch 14 (io_packet m) buffer). intros frame. eexists. rewrite Hw. unfold sbind, write_at, sret.
    rewrite decide_True by (rewrite (Hn0 eq_refl) in Hlen; lia). done.
Qed.

(** The frame of a message, if it has one. *)
Definition wire_frame (link : IoLinkConfig) (m : IoTransmit) : option bytes :=
  match fill_ethernet_frame link m [] with (Ok true, f) => Some f | _ => None end.

Lemma fill_wire link m frame : link_ok link →
  ∃ b f, fill_ethernet_frame link m frame = (Ok b, f) ∧ wire_frame link m = if b then Some f else None.
Proof.
  intros Hlk. destruct (fill_frame_total link m Hlk) as (b & f & Hf). destruct (Hf frame) as (f1 & Hf1 & H1). destruct (Hf []) as (f2 & Hf2 & H2).
  exists b, f1. split; [done|]. unfold wire_frame. rewrite Hf2. destruct b; [|done]. by rewrite H1, H2.
Qed.

(** ** Counting *)

Lemma iter_fetch_add c k s : congruent (Nat.iter k (io_fetch_add c 1) s c) (s c + Z.of_nat k)
  ∧ ∀ c', c' ≠ c → Nat.iter k (io_fetch_add c 1) s c' = s c'.
Proof.
  induction k as [|k [IH1 IH2]]; simpl; [by rewrite Z.add_0_r|]. split.
  - rewrite io_fetch_add_same, congruent_wrap, IH1. unfold congruent. f_equal. lia.
  - intros c' Hc. by rewrite io_fetch_add_other, IH2.
Qed.

(** Each frame received is counted under one outcome. *)
Definition counted (s s' : IoStatsSlot) (n : nat) : Prop :=
  congruent (ingress_total s') (ingress_total s + Z.of_nat n) ∧ congruent (reason_total s' + s dropped_frames) (reason_total s + s' dropped_frames)
  ∧ s' rx_frames = s rx_frames ∧ s' tx_frames = s tx_frames ∧ s' tx_drops = s tx_drops.

Lemma congruent_cancel a b c : congruent (a + c) (b + c) → congruent a b.
Proof.
  unfold congruent, wrap. intros H. replace a with (a + c - c) by lia. replace b with (b + c - c) by lia.
  rewrite (Zminus_mod (a + c)), H, <- Zminus_mod. done.
Qed.

Lemma counted_refl s : counted s s 0.
Proof. unfold counted. rewrite Z.add_0_r. done. Qed.
Lemma counted_step s s1 s2 n : counted s1 s2 n → counted s s1 1 → counted s s2 (S n).
Proof.
  intros (A1 & B1 & C1 & D1 & E1) (A2 & B2 & C2 & D2 & E2). split_and!; [| |congruence..].
  - rewrite A1, A2. unfold congruent. f_equal. lia.
  - apply (congruent_cancel _ _ (reason_total s1 + s1 dropped_frames)).
    transitivity (reason_total s2 + s1 dropped_frames + (reason_total s1 + s dropped_frames)); [unfold congruent; f_equal; lia|].
    rewrite B1, B2. unfold congruent. f_equal. lia.
Qed.

Section handling.
Context {IpNet : Type} (contains : IpNet → IpAddr → bool) (dns_hash : IoOwnerKey → DnsTransactionKey → Z).
Context (classifier : IoClassifierConfig IpNet).

Lemma on_frame_run views frame n s d : bytes_ok frame →
  ∃ s' d', on_frame contains dns_hash classifier views frame (n, s, d) = Ok (S n, s', d') ∧ counted s s' 1.
Proof.
  intros Hok. unfold on_frame, handle_frame.
  pose proof (classify_no_panic contains dns_hash classifier frame (v_dcids (views n)) (v_nat (views n)) Hok) as Hnp.
  destruct (classify _ _ _ _ _ _) as [[|w m]|r|]; [| | |done].
  - eexists _, _. split; [done|]. apply record_ingress_adds.
  - destruct (dispatch_to w m _) as [o d']. eexists _, _. split; [done|]. apply record_ingress_adds.
  - eexists _, _. split; [done|]. apply record_ingress_adds.
Qed.

Lemma on_frames_run views frames : Forall bytes_ok frames → ∀ n s d,
  ∃ s' d', handle_all (on_frame contains dns_hash classifier views) frames (n, s, d) = Ok ((length frames + n)%nat, s', d') ∧ counted s s' (length frames).
Proof.
  induction 1 as [|f fs Hf _ IH]; intros n s d; cbn [handle_all]; [eexists _, _; split; [done|apply counted_refl]|].
  destruct (on_frame_run views f n s d Hf) as (s1 & d1 & -> & H1). cbn [obind]. destruct (IH (S n) s1 d1) as (s2 & d2 & -> & H2).
  exists s2, d2. split; [|by eapply counted_step]. simpl. do 3 f_equal. lia.
Qed.
End handling.

(** ** The socket *)

Lemma transmit_batch_run kick frames sock q : represents sock q →
  ∃ n, transmitted_as frames (transmit_batch kick frames (so_xsk sock)).1 (take n frames)
    ∧ represents (mkSocket (transmit_batch kick frames (so_xsk sock)).2 (so_receiving sock) (so_sending sock))
        (mkQueues (q_rx q) (q_tx q ++ take n frames)).
Proof.
  destruct sock as [x rs ts]. intros (h & Hh & Hrx & Htx). simpl in *. unfold transmit_batch. destruct frames as [|f fs].
  { exists 0%nat. split; [by exists 0%nat|]. exists h. simpl. rewrite app_nil_r. done. }
  destruct (reclaim_run (E := IoErrorKind) x rs ts h Hh) as (x1 & -> & Hh1 & Hm & _).
  destruct (transmit_run kick (f :: fs) x1 rs ts _ Hh1) as (n & ds & Hres & Hh2 & Hr2 & Ht2). exists n. split; [done|].
  eexists. split; [exact Hh2|]. cbn [h_rx h_tx q_rx q_tx so_xsk] in *. rewrite Hr2, Ht2, Hm, Hrx, Htx. done.
Qed.

Lemma receive_batch_run {S E} (hf : bytes → S → outcome E S) budget sock q : represents sock q → 0 ≤ budget →
  let got := take (Z.to_nat budget) (q_rx q) in
  ∃ x', represents (mkSocket x' (so_receiving sock) (so_sending sock)) (mkQueues (drop (Z.to_nat budget) (q_rx q)) (q_tx q))
    ∧ ∀ s, receive_with budget hf (so_xsk sock) s = (let? s := handle_all hf got s in Ok (Z.of_nat (length got), x', s)).
Proof.
  destruct sock as [x rs ts]. intros (h & Hh & Hrx & Htx) Hb. simpl in *. destruct (receive_run hf budget x rs ts h Hh Hb) as (x' & Hh' & Hm & Hr).
  exists x'. split.
  - eexists. split; [exact Hh'|]. cbn [h_rx h_tx q_rx q_tx so_xsk]. rewrite Hm, Hrx, fmap_drop. done.
  - intros s. rewrite Hr, Hrx, <- fmap_take, length_fmap. done.
Qed.
