(* ===== verification/IoLoopClaims.v ===== *)
(** The I/O thread among its senders: no wake-up is lost, frames leave in order, and the
    counters account for every frame and message. *)
From stdpp Require Import relations.
From S2P Require Import Prelude Net NatTable QuicFlow Dns Dispatch Worker Frame FrameProps FrameClaims Encap EncapClaims FlowLoop Xsk XskProps XskClaims Stats StatsClaims IoLoop IoLoopProps.

(** ** The invariant *)

(** The frames written and not yet given to the socket. *)
Definition staged_count (s : IoState) : nat :=
  match i_point s with AtRecv _ _ n | AtTransmit _ _ n => n | _ => 0%nat end.
Definition staged (s : IoState) : list bytes := take (staged_count s) (i_frames s).

Definition resting (p : IoPoint) : Prop := p = AtPoll ∨ p = AtDrain ∨ p = AtClear.
#[global] Instance IoPoint_eq_dec : EqDecision IoPoint.
Proof. solve_decision. Defined.
Definition notifier (s : IoState) (p : NotifyPoint) : Prop := ∃ t, i_notifying s !! t = Some p.

(** The flag says that the eventfd is or will be readable; a message that the thread has
    not seen is announced or will be. *)
Record wake_inv (s : IoState) : Prop := {
  wi_count : 0 ≤ wk_count (i_wakeup s);
  wi_pending : wk_pending (i_wakeup s) = true → 0 < wk_count (i_wakeup s) ∨ notifier s ToWrite ∨ i_point s = AtClear;
  wi_queue : resting (i_point s) → tx_queue (i_channel s) ≠ [] → wk_pending (i_wakeup s) = true ∨ notifier s ToSwap;
}.

Record io_inv (link : IoLinkConfig) (taken : list IoTransmit) (sent : list bytes) (s : IoState) : Prop := {
  iv_socket : ∃ q, represents (i_socket s) q ∧ Forall bytes_ok (q_rx q)
    ∧ sent ++ q_tx q ++ staged s `sublist_of` omap (wire_frame link) taken;
  iv_frames : length (i_frames s) = IO_BATCH_SIZE;
  iv_staged : (staged_count s ≤ IO_BATCH_SIZE)%nat;
  iv_rx : congruent (i_stats s rx_frames) (ingress_total (i_stats s));
  iv_reasons : congruent (i_stats s dropped_frames) (reason_total (i_stats s));
  iv_tx : i_point s ≠ Returned → congruent (i_stats s tx_frames + i_stats s tx_drops + Z.of_nat (staged_count s)) (Z.of_nat (length taken));
  iv_wake : wake_inv s;
}.

(** ** Wake-ups *)

Lemma wake_send s t m : wake_inv s → i_notifying s !! t = None →
  wake_inv (with_notifying (<[t := ToSwap]> (i_notifying s)) (with_channel (tx_queue (i_channel s) ++ [m]) s)).
Proof.
  intros [Hc Hp Hq] Ht. split; simpl; [done| |].
  - intros Hpend. destruct (Hp Hpend) as [?|[(t' & Ht')|?]]; [by left| |by right; right].
    right. left. exists t'. simpl. rewrite lookup_insert_ne; [done|]. congruence.
  - intros _ _. right. exists t. simpl. by rewrite lookup_insert_eq.
Qed.

Lemma wake_swap s t write w : wake_inv s → i_notifying s !! t = Some ToSwap → notify_swap (i_wakeup s) = (write, w) →
  wake_inv (with_wakeup w (with_notifying (if (write : bool) then <[t := ToWrite]> (i_notifying s) else delete t (i_notifying s)) s)).
Proof.
  intros [Hc Hp Hq] Ht [= <- <-]. split; simpl; [done| |by left].
  intros _. destruct (wk_pending (i_wakeup s)) eqn:Hpend; simpl.
  - destruct (Hp eq_refl) as [?|[(t' & Ht')|?]]; [by left| |by right; right].
    right. left. exists t'. simpl. rewrite lookup_delete_ne; [done|]. congruence.
  - right. left. exists t. simpl. by rewrite lookup_insert_eq.
Qed.

Lemma notify_write_readable w r w' : 0 ≤ wk_count w → notify_write w = (r, w') → 0 < wk_count w' ∧ wk_pending w' = wk_pending w.
Proof.
  intros Hc. unfold notify_write, eventfd_write. case_decide; simpl; intros [= <- <-]; simpl; (split; [lia|done]).
Qed.

Lemma wake_write s t r w : wake_inv s → i_notifying s !! t = Some ToWrite → notify_write (i_wakeup s) = (r, w) →
  wake_inv (with_wakeup w (with_notifying (delete t (i_notifying s)) s)).
Proof.
  intros [Hc Hp Hq] Ht [Hpos Hsame]%notify_write_readable; [|done]. split; simpl; [lia|by left|].
  rewrite Hsame. intros Hrest Hne. destruct (Hq Hrest Hne) as [?|(t' & Ht')]; [by left|].
  right. exists t'. simpl. rewrite lookup_delete_ne; [done|]. congruence.
Qed.

(** A step of the thread that leaves the wake-up and the senders alone. *)
Lemma wake_moves s s' : wake_inv s → i_wakeup s' = i_wakeup s → i_notifying s' = i_notifying s → i_point s ≠ AtClear →
  (resting (i_point s') → tx_queue (i_channel s') = [] ∨ resting (i_point s) ∧ tx_queue (i_channel s') = tx_queue (i_channel s)) → wake_inv s'.
Proof.
  intros [Hc Hp Hq] Hw Hn Hne Hr. unfold notifier in *. split; unfold notifier; rewrite ?Hw, ?Hn; [done| |].
  - intros Hpend. destruct (Hp Hpend) as [?|[?|?]]; [by left|by right; left|done].
  - intros Hrest Hqu. destruct (Hr Hrest) as [?|[Hr' Hq']]; [done|]. apply Hq; [done|by rewrite <- Hq'].
Qed.

Section thread.
Context {IpNet : Type} (contains : IpNet → IpAddr → bool) (dns_hash : IoOwnerKey → DnsTransactionKey → Z).
Context (classifier : IoClassifierConfig IpNet) (link : IoLinkConfig) (Hlink : link_ok link).
Abbreviation thread := (io_thread contains dns_hash classifier link).

(** What a step of the thread promises: no panic, and the invariant with what it took. *)
Definition steps_to (taken : list IoTransmit) (sent : list bytes) (r : outcome unit IoState) : Prop :=
  ∃ s', r = Ok s' ∧ io_inv link taken sent s'.

Lemma receive_inv views s taken sent : io_inv link taken sent s → i_point s = AtHead →
  steps_to taken sent (io_receive contains dns_hash classifier views s).
Proof using Type.
  intros [(q & Hq & Hok & Hsub) Hf Hst Hrx Hre Htx Hw] Hpt. unfold io_receive, staged, staged_count in *. rewrite Hpt in *.
  destruct (receive_batch_run (on_frame contains dns_hash classifier views) (Z.of_nat IO_BATCH_SIZE) (i_socket s) q Hq) as (x' & Hx' & Hrun); [lia|].
  rewrite Hrun. rewrite <- (take_drop (Z.to_nat (Z.of_nat IO_BATCH_SIZE)) (q_rx q)) in Hok. apply Forall_app in Hok as [Hok1 Hok2].
  destruct (on_frames_run contains dns_hash classifier views _ Hok1 0 (i_stats s) (i_dispatcher s)) as (slot & d & -> & (C1 & C2 & C3 & C4 & C5)).
  set (n := length (take _ _)) in *. cbn [obind]. eexists. split; [done|].
  assert (∀ c, c ≠ rx_frames → record_rx (Z.of_nat n) slot c = slot c) as Hother by (intros; by apply io_fetch_add_other).
  assert (record_rx (Z.of_nat n) slot rx_frames = wrap 64 (i_stats s rx_frames + Z.of_nat n)) as Hrxc.
  { unfold record_rx. by rewrite io_fetch_add_same, C3. }
  split; simpl in *.
  - eexists. split_and!; [exact Hx'|done|done].
  - done.
  - unfold staged_count. simpl. unfold IO_BATCH_SIZE. lia.
  - rewrite Hrxc, congruent_wrap, Hrx, <- C1. unfold ingress_total. by rewrite !Hother.
  - unfold reason_total. rewrite !Hother by done. fold (reason_total slot). apply (congruent_cancel _ _ (reason_total (i_stats s))).
    by rewrite (Z.add_comm (slot dropped_frames)), <- C2, Hre.
  - intros _. rewrite !Hother, C4, C5 by done. by apply Htx.
  - apply (wake_moves s); [done|done|done|by rewrite Hpt|]. intros [?|[?|?]]; done.
Qed.

Lemma collected_inv s taken sent received transmitted n : io_inv link taken sent s → i_point s = AtRecv received transmitted n →
  n ≠ 0%nat ∨ tx_queue (i_channel s) = [] → io_inv link taken sent (io_collected received transmitted n s).
Proof using Type.
  intros [(q & Hq & Hok & Hsub) Hf Hst Hrx Hre Htx Hw] Hpt Hn. unfold io_collected, staged, staged_count in *. rewrite Hpt in *.
  assert (i_point s ≠ AtClear) as Hne by (by rewrite Hpt). specialize (Htx ltac:(done)).
  case_decide as H0; [subst n; destruct Hn as [?|Hn]; [done|]; case_decide|]; split; simpl; try done;
    try (by exists q); try (by intros _; exact Htx);
    (apply (wake_moves s); [done|done|done|done|]; simpl; intros Hr; first [by left | by destruct Hr as [?|[?|?]]]).
Qed.

Lemma try_recv_inv s taken sent received transmitted n : io_inv link taken sent s → i_point s = AtRecv received transmitted n →
  steps_to (taken ++ took s) sent (io_try_recv link received transmitted n s).
Proof using Hlink.
  intros Hinv Hpt. unfold io_try_recv, took. rewrite Hpt. case_decide as Hfull.
  { rewrite app_nil_r. eexists. split; [done|]. apply (collected_inv s); [done|done|]. left. unfold IO_BATCH_SIZE in *. lia. }
  destruct (tx_queue (i_channel s)) as [|m rest] eqn:Hqueue.
  { rewrite app_nil_r. destruct (i_senders_alive s).
    - eexists. split; [done|]. apply (collected_inv s); [done|done|by right].
    - eexists. split; [done|]. destruct Hinv as [(q & Hq & Hok & Hsub) Hf Hst Hrx Hre Htx Hw]. split; simpl; try done; try lia.
      + exists q. split_and!; [done|done|]. etransitivity; [|exact Hsub]. unfold staged. simpl. apply sublist_app; [done|].
        apply sublist_app; [done|]. apply sublist_nil_l.
      + unfold staged_count. simpl. lia.
      + apply (wake_moves s); [done|done|done|by rewrite Hpt|]. by intros [?|[?|?]]. }
  destruct Hinv as [(q & Hq & Hok & Hsub) Hf Hst Hrx Hre Htx Hw]. unfold staged, staged_count in *. rewrite Hpt in *. specialize (Htx ltac:(done)).
  destruct (lookup_lt_is_Some_2 (i_frames s) n) as [frame Hframe]; [rewrite Hf; lia|]. cbn [with_channel i_frames].
  rewrite Hframe. cbn [expect obind]. destruct (fill_wire link m frame Hlink) as (b & f & -> & Hwire).
  assert (∀ s', i_wakeup s' = i_wakeup s → i_notifying s' = i_notifying s → ¬ resting (i_point s') → wake_inv s') as Hwake.
  { intros s' ? ? ?. apply (wake_moves s); [done|done|done|by rewrite Hpt|]. done. }
  change (take 1 (m :: rest)) with [m]. destruct b; (eexists; split; [done|]); split; simpl; try done; rewrite ?length_insert; try done.
  - exists q. split_and!; [done|done|]. unfold staged, staged_count. simpl. erewrite take_S_r; [|apply list_lookup_insert_eq; by eapply lookup_lt_Some].
    rewrite take_insert_ge by lia. rewrite omap_app. simpl. rewrite Hwire. rewrite !(assoc_L (++)). apply sublist_app; [|done].
    by rewrite <- !(assoc_L (++)).
  - unfold staged_count. simpl. lia.
  - intros _. rewrite length_app. simpl. unfold staged_count. simpl. rewrite Nat2Z.inj_succ, Nat2Z.inj_add, <- Htx. unfold congruent. f_equal. lia.
  - apply Hwake; [done|done|]. by intros [?|[?|?]].
  - exists q. split_and!; [done|done|]. unfold staged, staged_count. simpl. rewrite take_insert_ge by lia. rewrite omap_app. simpl. rewrite Hwire, app_nil_r. done.
  - intros _. unfold staged_count. simpl. unfold record_tx_drop. rewrite io_fetch_add_other, io_fetch_add_same by done. rewrite congruent_wrap, length_app. simpl.
    rewrite Nat2Z.inj_add, <- Htx. unfold congruent. f_equal. lia.
  - apply Hwake; [done|done|]. by intros [?|[?|?]].
Qed.

Lemma transmit_inv kick s taken sent received transmitted n : io_inv link taken sent s → i_point s = AtTransmit received transmitted n →
  steps_to taken sent (io_transmit kick received transmitted n s).
Proof using Type.
  intros [(q & Hq & Hok & Hsub) Hf Hst Hrx Hre Htx Hw] Hpt. unfold staged, staged_count in *. rewrite Hpt in *. specialize (Htx ltac:(done)).
  destruct (transmit_batch_run kick (take n (i_frames s)) (i_socket s) q Hq) as (k & (k' & Hk & Hres) & Hx). unfold io_transmit.
  assert (∀ count x, represents (mkSocket x (so_receiving (i_socket s)) (so_sending (i_socket s))) (mkQueues (q_rx q) (q_tx q ++ take k (take n (i_frames s)))) →
    0 ≤ count ≤ Z.of_nat n → steps_to taken sent (Ok (at_point (AtRecv received (transmitted || bool_decide (0 < count)) 0)
      (with_io_stats (λ slot, Nat.iter (n - Z.to_nat count) record_tx_drop (Nat.iter (Z.to_nat count) record_tx slot)) (with_xsk x s))))) as Hdone.
  { intros count x Hx' Hcount. eexists. split; [done|].
    destruct (iter_fetch_add tx_frames (Z.to_nat count) (i_stats s)) as [T1 T2].
    destruct (iter_fetch_add tx_drops (n - Z.to_nat count) (Nat.iter (Z.to_nat count) record_tx (i_stats s))) as [D1 D2].
    assert (∀ c, c ≠ tx_frames → c ≠ tx_drops → Nat.iter (n - Z.to_nat count) record_tx_drop (Nat.iter (Z.to_nat count) record_tx (i_stats s)) c = i_stats s c)
      as Hother by (intros c ? ?; unfold record_tx_drop; rewrite D2 by done; by apply T2).
    split; simpl.
    - eexists. split_and!; [exact Hx'|done|]. simpl. unfold staged. simpl. rewrite app_nil_r. etransitivity; [|exact Hsub].
      apply sublist_app; [done|]. apply sublist_app; [done|]. apply sublist_take.
    - done.
    - unfold staged_count. simpl. lia.
    - unfold ingress_total. by rewrite !Hother.
    - unfold reason_total. by rewrite !Hother.
    - intros _. unfold staged_count. simpl. unfold record_tx_drop at 1 2. rewrite D1, D2 by done. unfold record_tx. rewrite T1, T2 by done.
      rewrite <- Htx. unfold congruent. f_equal. lia.
    - apply (wake_moves s); [done|done|done|by rewrite Hpt|]. by intros [?|[?|?]]. }
  destruct (transmit_batch kick (take n (i_frames s)) (so_xsk (i_socket s))) as [[count|e|] x]; simpl in Hres, Hx; [| |done].
  - apply Hdone; [done|]. rewrite !length_take in Hres. lia.
  - apply Hdone; [done|]. lia.
Qed.

(** At a point where nothing is staged, a move that only touches the wake-up. *)
Lemma quiet_move s s' taken sent : io_inv link taken sent s → staged_count s = 0%nat → staged_count s' = 0%nat →
  i_socket s' = i_socket s → i_frames s' = i_frames s → i_stats s' = i_stats s → i_point s ≠ Returned → wake_inv s' → io_inv link taken sent s'.
Proof using Type.
  intros [(q & Hq & Hok & Hsub) Hf Hst Hrx Hre Htx Hw] H0 H0' Hs Hfr Hstats Hp Hw'. unfold staged in *. rewrite H0 in *. specialize (Htx Hp).
  split; rewrite ?Hs, ?Hfr, ?Hstats, ?H0'; try done. exists q. split_and!; [done..|]. unfold staged. by rewrite H0'.
Qed.

Lemma thread_inv i s taken sent : io_inv link taken sent s → (i_point s = AtPoll → poll_tells (in_poll i) s) →
  steps_to (taken ++ took s) sent (thread i s).
Proof using Hlink.
  intros Hinv Hpoll. pose proof (iv_wake _ _ _ _ Hinv) as Hw. unfold io_thread.
  destruct (i_point s) as [|received transmitted n|received transmitted n| | | |] eqn:Hpt.
  all: try (assert (took s = []) as Htook by (unfold took; by rewrite Hpt); rewrite Htook, app_nil_r).
  - destruct (in_exit i); [|by apply receive_inv]. eexists. split; [done|].
    apply (quiet_move s); try done; [unfold staged_count; by rewrite Hpt|by rewrite Hpt|].
    apply (wake_moves s); [done|done|done|by rewrite Hpt|]. by intros [?|[?|?]].
  - by apply try_recv_inv.
  - by apply transmit_inv.
  - eexists. split; [done|]. apply (quiet_move s); try done; [unfold staged_count; by rewrite Hpt|by destruct (in_poll i) as [e| |[]]; simpl; try case_decide..|by rewrite Hpt|].
    apply (wake_moves s); [done|by destruct (in_poll i) as [e| |[]]; simpl; try case_decide..|by rewrite Hpt|].
    intros _. right. split; [by left|]. by destruct (in_poll i) as [e| |[]]; simpl; try case_decide.
  - assert (∃ w, wakeup_drain (i_wakeup s) = (Ok tt, w) ∧ wk_pending w = wk_pending (i_wakeup s) ∧ 0 ≤ wk_count w) as (w & -> & Hp & Hc).
    { destruct Hw as [Hc _ _]. unfold wakeup_drain, eventfd_read. case_decide; eexists; (split; [done|]); simpl; split; (done || lia). }
    eexists. split; [done|]. apply (quiet_move s); try done; [unfold staged_count; by rewrite Hpt|by rewrite Hpt|].
    destruct Hw as [_ H2 H3]. rewrite Hpt in *. split; simpl; [done|by right; right|]. rewrite Hp. intros _. apply H3. right. by left.
  - eexists. split; [done|]. apply (quiet_move s); try done; [unfold staged_count; by rewrite Hpt|by rewrite Hpt|].
    destruct Hw as [H1 _ _]. split; simpl; [done|done|]. by intros [?|[?|?]].
  - by exists s.
Qed.

Lemma step_inv s taken sent m f s' : io_inv link taken sent s → io_step contains dns_hash classifier link s m f s' →
  io_inv link (taken ++ m) (sent ++ f) s'.
Proof using Hlink.
  intros Hinv Hstep. destruct Hstep as [i s s' Hpoll Hrun|s t m Hn Hal Hco Hlen|s t write w Hn Hswap|s t r w Hn Hwr|s Hn|s l sock' Hk Hbytes];
    rewrite ?app_nil_r.
  - destruct (thread_inv i s taken sent Hinv Hpoll) as (s1 & Hs1 & Hinv'). rewrite Hrun in Hs1. by injection Hs1 as <-.
  - pose proof (iv_wake _ _ _ _ Hinv) as Hw. destruct Hinv. split; try done. by apply wake_send.
  - pose proof (iv_wake _ _ _ _ Hinv) as Hw. destruct Hinv. split; try done. by eapply wake_swap.
  - pose proof (iv_wake _ _ _ _ Hinv) as Hw. destruct Hinv. split; try done. by eapply wake_write.
  - destruct Hinv as [? ? ? ? ? ? [? ? ?]]. split; try done.
  - destruct Hinv as [(q & Hq & Hok & Hsub) Hf Hst Hrx Hre Htx [? ? ?]]. destruct (kernel_refines _ _ _ _ Hk Hq) as (q' & Hstep & Hq').
    split; try done. simpl. exists q'. split; [done|]. change (staged _) with (staged s).
    destruct Hstep as [q budget Hb|q frames result accepted Ha|q frame|rx frame tx|q|q]; simpl in *; rewrite ?app_nil_r; try done.
    + by inversion Hk.
    + by inversion Hk.
    + split; [|done]. apply Forall_app. split; [done|]. apply Forall_singleton. by apply Hbytes.
    + split; [done|]. by rewrite <- app_assoc.
Qed.

Lemma run_inv s0 taken sent s : io_run contains dns_hash classifier link s0 taken sent s → io_inv link [] [] s0 → io_inv link taken sent s.
Proof using Hlink. induction 1 as [|s0 taken sent s1 m f s2 _ IH Hstep]; intros H0; [done|]. by eapply step_inv; [apply IH|]. Qed.
End thread.

(** A configured socket makes a thread that satisfies the invariant. *)
Lemma start_inv link umem rx tx fill completion x capacity d : fresh_ring rx → fresh_ring tx → fresh_ring fill → fresh_ring completion →
  xsk_configured (E := unit) umem rx tx fill completion = Ok x → io_inv link [] [] (io_start x capacity d).
Proof.
  intros H1 H2 H3 H4 Hx. destruct (configured_represents (E := unit) umem rx tx fill completion H1 H2 H3 H4) as (x' & Hx' & Hq).
  rewrite Hx in Hx'. injection Hx' as <-. split; simpl.
  - eexists. split_and!; [exact Hq|done|]. unfold staged. simpl. done.
  - done.
  - unfold staged_count. simpl. lia.
  - done.
  - done.
  - done.
  - split; simpl; [lia|done|done].
Qed.

(** C15: No wake-up is lost.  Whatever the interleaving of the senders' [try_send] and [notify]
    with the I/O thread and the kernel, when the thread is in [poll] and its channel holds
    a message, the eventfd is readable, so [poll] returns at once, or some sender is still
    inside [notify] and will make it so or has announced the message already. *)
Theorem io_wakeup_never_lost {IpNet : Type} (contains : IpNet → IpAddr → bool) (dns_hash : IoOwnerKey → DnsTransactionKey → Z)
    (classifier : IoClassifierConfig IpNet) (link : IoLinkConfig) umem rx tx fill completion (x : Xsk) (capacity : nat) (d : FlowDispatcher)
    (taken : list IoTransmit) (sent : list bytes) (s : IoState) :
  link_ok link → fresh_ring rx → fresh_ring tx → fresh_ring fill → fresh_ring completion →
  xsk_configured (E := unit) umem rx tx fill completion = Ok x →
  io_run contains dns_hash classifier link (io_start x capacity d) taken sent s →
  i_point s = AtPoll → tx_queue (i_channel s) ≠ [] →
  (0 < wk_count (i_wakeup s) ∨ ∃ t p, i_notifying s !! t = Some p)
  ∧ (i_notifying s = ∅ → ¬ poll_tells PollTimeout s ∧ ∀ b, poll_tells (PollReady b) s → b = true).
Proof.
  intros Hlink H1 H2 H3 H4 Hx Hrun Hpt Hne.
  pose proof (run_inv contains dns_hash classifier link Hlink _ _ _ _ Hrun (start_inv link _ _ _ _ _ _ capacity d H1 H2 H3 H4 Hx)) as Hinv.
  destruct (iv_wake _ _ _ _ Hinv) as [Hc Hp Hq]. assert (0 < wk_count (i_wakeup s) ∨ ∃ t p, i_notifying s !! t = Some p) as Hmain.
  { destruct Hq as [Hpend|(t & Ht)]; [by left|done| |by right; eauto]. destruct (Hp Hpend) as [?|[(t & Ht)|?]]; [by left|by right; eauto|congruence]. }
  split; [done|]. intros Hnone. destruct Hmain as [Hpos|(t & p & Ht)]; [|by rewrite Hnone, lookup_empty in Ht].
  unfold poll_tells. split; [lia|]. intros b ->. by apply bool_decide_eq_true.
Qed.


(** C17: What leaves on the wire is what the flow workers sent, in order.  The frames the kernel
    has taken from the socket, followed by those still queued in its rings, are the
    Ethernet frames of messages taken from the channel, each at most once and in the order
    they were taken; a full ring, an oversized batch and a failing wake of the kernel only
    leave frames out. *)
Theorem io_loop_sends_in_order {IpNet : Type} (contains : IpNet → IpAddr → bool) (dns_hash : IoOwnerKey → DnsTransactionKey → Z)
    (classifier : IoClassifierConfig IpNet) (link : IoLinkConfig) umem rx tx fill completion (x : Xsk) (capacity : nat) (d : FlowDispatcher)
    (taken : list IoTransmit) (sent : list bytes) (s : IoState) :
  link_ok link → fresh_ring rx → fresh_ring tx → fresh_ring fill → fresh_ring completion →
  xsk_configured (E := unit) umem rx tx fill completion = Ok x →
  io_run contains dns_hash classifier link (io_start x capacity d) taken sent s →
  ∃ q, represents (i_socket s) q ∧ sent ++ q_tx q ++ staged s `sublist_of` omap (wire_frame link) taken.
Proof.
  intros Hlink H1 H2 H3 H4 Hx Hrun.
  pose proof (run_inv contains dns_hash classifier link Hlink _ _ _ _ Hrun (start_inv link _ _ _ _ _ _ capacity d H1 H2 H3 H4 Hx)) as Hinv.
  destruct (iv_socket _ _ _ _ Hinv) as (q & Hq & _ & Hsub). by exists q.
Qed.

(** ** A sample run *)

Definition sample_message : IoTransmit := mkIoTransmit (mkIoOwnerKey 9 0) sample_datagram (Some sample_route).
Definition sample_view : View := mkView (mkDcidIndex ∅ ∅ ∅) (mkDirectory ∅) id.
Definition sample_input : IoInput := mkInput false (λ _, sample_view) None (PollReady true).
Definition sample_dispatcher : FlowDispatcher := mkDispatcher [] (mkDispatchStats 0 0 0).

Abbreviation sample_step := (io_step sample_contains sample_hash sample_classifier sample_link).
Abbreviation sample_io_run := (io_run sample_contains sample_hash sample_classifier sample_link).

Definition sample_thread (s : IoState) : IoState :=
  or_default s (io_thread sample_contains sample_hash sample_classifier sample_link sample_input s).

Lemma sample_thread_step s : is_ok (io_thread sample_contains sample_hash sample_classifier sample_link sample_input s) = true →
  (i_point s = AtPoll → 0 < wk_count (i_wakeup s)) → sample_step s (took s) [] (sample_thread s).
Proof.
  intros Hok Hp. apply (io_thread_step _ _ _ _ sample_input).
  - intros Hat. simpl. symmetry. apply bool_decide_eq_true. by apply Hp.
  - unfold sample_thread. by destruct (io_thread _ _ _ _ _ s).
Qed.

Lemma run_more s0 taken sent s m f s' taken' sent' : sample_io_run s0 taken sent s → sample_step s m f s' → taken' = taken ++ m → sent' = sent ++ f →
  sample_io_run s0 taken' sent' s'.
Proof. intros Hrun Hstep -> ->. by econstructor. Qed.

(** The thread finds nothing to do and polls; then a sender sends and notifies. *)
Definition sample_begin : IoState := io_start sample_xsk 4 sample_dispatcher.
Definition sample_polling : IoState := sample_thread (sample_thread sample_begin).
Definition sample_pushed : IoState :=
  with_notifying (<[7%nat := ToSwap]> (i_notifying sample_polling))
    (with_channel (tx_queue (i_channel sample_polling) ++ [sample_message]) sample_polling).
Definition sample_swapped : IoState :=
  with_wakeup (mkWakeup true 0) (with_notifying (<[7%nat := ToWrite]> (i_notifying sample_pushed)) sample_pushed).
Definition sample_written : IoState :=
  with_wakeup (mkWakeup true 1) (with_notifying (delete 7%nat (i_notifying sample_swapped)) sample_swapped).

Lemma run_thread s0 taken s m : sample_io_run s0 taken [] s →
  is_ok (io_thread sample_contains sample_hash sample_classifier sample_link sample_input s) = true →
  bool_decide (0 < wk_count (i_wakeup s)) = true ∨ bool_decide (i_point s = AtPoll) = false → took s = m →
  sample_io_run s0 (taken ++ m) [] (sample_thread s).
Proof.
  intros Hrun Hok Hp <-. eapply run_more; [exact Hrun|apply sample_thread_step; [done|]|done|done]. intros Hat.
  destruct Hp as [Hp%bool_decide_eq_true|Hp%bool_decide_eq_false]; done.
Qed.

Lemma sample_run_written : sample_io_run sample_begin [] [] sample_written.
Proof.
  apply (run_more _ [] [] sample_swapped [] []); [|apply (io_write_step _ _ _ _ _ 7 (Ok true)); vm_compute; reflexivity|done..].
  apply (run_more _ [] [] sample_pushed [] []); [|apply (io_swap_step _ _ _ _ _ 7 true); vm_compute; reflexivity|done..].
  apply (run_more _ [] [] sample_polling [] []); [|apply io_send_step; vm_compute; [reflexivity..|lia]|done..].
  apply (run_thread _ [] _ []); [|vm_compute; reflexivity|right; vm_compute; reflexivity|vm_compute; reflexivity].
  apply (run_thread _ [] _ []); [constructor|vm_compute; reflexivity|right; vm_compute; reflexivity|vm_compute; reflexivity].
Qed.

(** It polls, drains, clears, receives, takes the message, finds the channel empty and
    transmits. *)
Definition sample_after (n : nat) : IoState := Nat.iter n sample_thread sample_written.

Lemma sample_after_run n taken m : sample_io_run sample_begin taken [] (sample_after n) →
  is_ok (io_thread sample_contains sample_hash sample_classifier sample_link sample_input (sample_after n)) = true →
  bool_decide (0 < wk_count (i_wakeup (sample_after n))) = true ∨ bool_decide (i_point (sample_after n) = AtPoll) = false →
  took (sample_after n) = m → sample_io_run sample_begin (taken ++ m) [] (sample_after (S n)).
Proof. intros. change (sample_after (S n)) with (sample_thread (sample_after n)). by apply run_thread. Qed.

Lemma sample_run_transmitted : sample_io_run sample_begin [sample_message] [] (sample_after 7).
Proof.
  apply (sample_after_run 6 [sample_message] []); [|vm_compute; reflexivity|right; vm_compute; reflexivity|vm_compute; reflexivity].
  apply (sample_after_run 5 [sample_message] []); [|vm_compute; reflexivity|right; vm_compute; reflexivity|vm_compute; reflexivity].
  apply (sample_after_run 4 [] [sample_message]); [|vm_compute; reflexivity|right; vm_compute; reflexivity|vm_compute; reflexivity].
  apply (sample_after_run 3 [] []); [|vm_compute; reflexivity|right; vm_compute; reflexivity|vm_compute; reflexivity].
  apply (sample_after_run 2 [] []); [|vm_compute; reflexivity|right; vm_compute; reflexivity|vm_compute; reflexivity].
  apply (sample_after_run 1 [] []); [|vm_compute; reflexivity|right; vm_compute; reflexivity|vm_compute; reflexivity].
  apply (sample_after_run 0 [] []); [apply sample_run_written|vm_compute; reflexivity|left; vm_compute; reflexivity|vm_compute; reflexivity].
Qed.

Lemma sample_link_valid : link_ok sample_link.
Proof. split; [vmdec|]. intros hop [[= <-]|[=]]. vmdec. Qed.

Lemma io_wakeup_never_lost_witness : 0 < wk_count (i_wakeup sample_written) ∨ ∃ t p, i_notifying sample_written !! t = Some p.
Proof.
  apply (io_wakeup_never_lost sample_contains sample_hash sample_classifier sample_link (λ _, 0)
    (sample_ring (mkDesc 0 0 0)) (sample_ring (mkDesc 0 0 0)) (sample_ring 0) (sample_ring 0) sample_xsk 4 sample_dispatcher [] [] sample_written).
  - apply sample_link_valid.
  - apply sample_fresh.
  - apply sample_fresh.
  - apply sample_fresh.
  - apply sample_fresh.
  - vm_compute. reflexivity.
  - apply sample_run_written.
  - vm_compute. reflexivity.
  - vm_compute. discriminate.
Defined.


Lemma io_loop_sends_in_order_witness : ∃ q, represents (i_socket (sample_after 7)) q
  ∧ [] ++ q_tx q ++ staged (sample_after 7) `sublist_of` omap (wire_frame sample_link) [sample_message].
Proof.
  apply (io_loop_sends_in_order sample_contains sample_hash sample_classifier sample_link (λ _, 0)
    (sample_ring (mkDesc 0 0 0)) (sample_ring (mkDesc 0 0 0)) (sample_ring 0) (sample_ring 0) sample_xsk 4 sample_dispatcher
    [sample_message] [] (sample_after 7)).
  - apply sample_link_valid.
  - apply sample_fresh.
  - apply sample_fresh.
  - apply sample_fresh.
  - apply sample_fresh.
  - vm_compute. reflexivity.
  - apply sample_run_transmitted.
Defined.

(** The run has sent: one frame transmitted and counted. *)
Example sample_counts : i_stats (sample_after 7) tx_frames = 1 ∧ i_stats (sample_after 7) tx_drops = 0
  ∧ length (take 1 (ring_slots (x_tx (so_xsk (i_socket (sample_after 7)))))) = 1%nat.
Proof. vm_compute. done. Qed.
