(* ===== verification/PortReservation.v ===== *)
(** The check that the NAT ports are reserved ([src/src/xdp_datapath/port_reservation.rs]):
    the kernel's list of reserved ports is parsed, its ranges are sorted and merged, and
    one of them must contain the NAT range. *)
From stdpp Require Import sorting.
From S2P Require Import Prelude Net Text Config.

Definition SYSCTL_RESERVED_PORTS : text := txt "/proc/sys/net/ipv4/ip_local_reserved_ports".

(** [InvalidReservedPorts] holds a term of the input or the bounds of a range. *)
Inductive PortReservationError : Type :=
| ReservedIo (message : text)
| InvalidReservedTerm (term : text)
| InvalidReservedRange (start last : Z)
| MissingReservation (start last : Z).

Record PortRange : Type := mkPortRange { pr_start : Z; pr_end : Z }.

Definition port_range_new (start last : Z) : outcome PortReservationError PortRange :=
  if decide (start = 0 ∨ last < start) then Err (InvalidReservedRange start last) else Ok (mkPortRange start last).

Definition parse_port (value term : text) : outcome PortReservationError Z :=
  ok_or (from_str_radix 10 (2 ^ 16) value) (InvalidReservedTerm term).

(** One iteration of the loop over the terms. *)
Definition parse_reserved_term (term : text) : outcome PortReservationError PortRange :=
  let? '(start, last) :=
    match split_once 45 term with
    | Some (start, last) =>
        let? start := parse_port start term in
        let? last := parse_port last term in
        Ok (start, last)
    | None => let? port := parse_port term term in Ok (port, port)
    end in
  port_range_new start last.

Fixpoint parse_terms (terms : list text) : outcome PortReservationError (list PortRange) :=
  match terms with
  | [] => Ok []
  | term :: terms =>
      if decide (term = []) then parse_terms terms else
      let? range := parse_reserved_term term in
      let? ranges := parse_terms terms in
      Ok (range :: ranges)
  end.

(** The terms of the list. *)
Definition reserved_terms (input : text) : list text := trim <$> split (is_char 44) (trim input).

(** [sort_by_key], which keeps the order of equal keys. *)
Fixpoint insert_range (range : PortRange) (sorted : list PortRange) : list PortRange :=
  match sorted with
  | [] => [range]
  | r :: rest => if decide (pr_start range ≤ pr_start r) then range :: r :: rest else r :: insert_range range rest
  end.
Definition sort_ranges (ranges : list PortRange) : list PortRange := foldr insert_range [] ranges.

(** The body of the merging loop; [merged] is kept with its last element first. *)
Definition merge_range (merged : list PortRange) (range : PortRange) : list PortRange :=
  match merged with
  | last :: rest => if decide (pr_start range ≤ pr_end last + 1) then mkPortRange (pr_start last) (Z.max (pr_end last) (pr_end range)) :: rest else range :: merged
  | [] => [range]
  end.

Definition normalize_ranges (ranges : list PortRange) : list PortRange := rev (foldl merge_range [] (sort_ranges ranges)).

Definition parse_reserved_ranges (input : text) : outcome PortReservationError (list PortRange) :=
  let? ranges := parse_terms (reserved_terms input) in Ok (normalize_ranges ranges).

Definition range_contains (ranges : list PortRange) (required : PortRange) : bool :=
  existsb (λ range, bool_decide (pr_start range ≤ pr_start required) && bool_decide (pr_end required ≤ pr_end range)) ranges.

Section system.
Context `{!FileSystem}.

Definition read_reserved_ranges (path : text) : outcome PortReservationError (list PortRange) :=
  let? input := map_err ReservedIo (read_to_string path) in parse_reserved_ranges input.

Definition ensure_nat_ports_reserved_at (start last : Z) (path : text) : outcome PortReservationError unit :=
  let? required := port_range_new start last in
  let? current := read_reserved_ranges path in
  if range_contains current required then Ok tt else Err (MissingReservation (pr_start required) (pr_end required)).

Definition ensure_nat_ports_reserved (start last : Z) : outcome PortReservationError unit :=
  ensure_nat_ports_reserved_at start last SYSCTL_RESERVED_PORTS.
End system.

(** ** Sorting and merging *)

(** The ports of a list of ranges. *)
Definition covers (ranges : list PortRange) (port : Z) : Prop := ∃ r, r ∈ ranges ∧ pr_start r ≤ port ≤ pr_end r.

Lemma insert_range_Permutation r rs : insert_range r rs ≡ₚ r :: rs.
Proof. induction rs as [|r' rs IH]; simpl; [done|]. case_decide; [done|]. rewrite IH. constructor. Qed.

Lemma sort_ranges_Permutation rs : sort_ranges rs ≡ₚ rs.
Proof. induction rs as [|r rs IH]; simpl; [done|]. by rewrite insert_range_Permutation, IH. Qed.

Definition start_le (r r' : PortRange) : Prop := pr_start r ≤ pr_start r'.

Lemma insert_range_sorted r rs : StronglySorted start_le rs → StronglySorted start_le (insert_range r rs).
Proof.
  induction 1 as [|r' rs Hs IH Hall]; simpl; [by repeat constructor|]. case_decide as Hle.
  - constructor; [by constructor|]. constructor; [done|]. eapply Forall_impl; [exact Hall|]. unfold start_le. intros; lia.
  - constructor; [done|]. rewrite insert_range_Permutation. constructor; [unfold start_le; lia|done].
Qed.

Lemma sort_ranges_sorted rs : StronglySorted start_le (sort_ranges rs).
Proof. induction rs; simpl; [constructor|]. by apply insert_range_sorted. Qed.

(** A merged list, last range first: every range is a range, and there is a free port
    between two neighbours. *)
Definition apart (r r' : PortRange) : Prop := pr_end r' + 1 < pr_start r.
Definition merged_ok (rs : list PortRange) : Prop := StronglySorted apart rs ∧ Forall (λ r, pr_start r ≤ pr_end r) rs.

Lemma covers_cons r rs p : covers (r :: rs) p ↔ pr_start r ≤ p ≤ pr_end r ∨ covers rs p.
Proof. unfold covers. setoid_rewrite elem_of_cons. naive_solver. Qed.

Lemma covers_Permutation rs rs' p : rs ≡ₚ rs' → covers rs p ↔ covers rs' p.
Proof. intros H. unfold covers. by setoid_rewrite H. Qed.

Lemma merge_range_spec merged r : merged_ok merged → pr_start r ≤ pr_end r → Forall (λ m, pr_start m ≤ pr_start r) merged →
  merged_ok (merge_range merged r) ∧ ∀ p, covers (merge_range merged r) p ↔ covers merged p ∨ pr_start r ≤ p ≤ pr_end r.
Proof.
  intros [Hs Hr] Hle Hbefore. destruct merged as [|last rest]; simpl.
  { split; [split; repeat constructor; done|]. intros p. rewrite covers_cons. naive_solver. }
  apply StronglySorted_inv in Hs as [Hs Hall]. apply Forall_cons in Hr as [Hlast Hr]. apply Forall_cons in Hbefore as [Hb Hbefore]. case_decide as Hm.
  - split.
    + split; constructor; simpl; [done| |lia|done]. eapply Forall_impl; [exact Hall|]. done.
    + intros p. rewrite !covers_cons. simpl. split; [|intros [[?|?]|?]; [left; lia|by right|left; lia]].
      intros [H|H]; [|tauto]. destruct (decide (p ≤ pr_end last)); [left; left; lia|right; lia].
  - split.
    + split; constructor; [by constructor| |done|by constructor]. constructor; [unfold apart; lia|].
      eapply Forall_impl; [exact Hall|]. unfold apart. intros x H1. lia.
    + intros p. rewrite !covers_cons. tauto.
Qed.

Lemma merge_all_spec rs : ∀ merged, merged_ok merged → StronglySorted start_le rs → Forall (λ r, pr_start r ≤ pr_end r) rs →
  Forall (λ m, Forall (λ r, pr_start m ≤ pr_start r) rs) merged →
  merged_ok (foldl merge_range merged rs) ∧ ∀ p, covers (foldl merge_range merged rs) p ↔ covers merged p ∨ covers rs p.
Proof.
  induction rs as [|r rs IH]; intros merged Hm Hs Hr Hb; simpl.
  { split; [done|]. intros p. unfold covers at 3. set_solver. }
  apply StronglySorted_inv in Hs as [Hs Hall]. apply Forall_cons in Hr as [Hr1 Hr].
  assert (Forall (λ m, pr_start m ≤ pr_start r) merged) as Hb1 by (eapply Forall_impl; [exact Hb|]; by intros m [? ?]%Forall_cons).
  destruct (merge_range_spec merged r Hm Hr1 Hb1) as [Hm' Hc].
  destruct (IH (merge_range merged r) Hm' Hs Hr) as [H1 H2].
  { unfold merge_range. assert (Forall (λ m, Forall (λ r, pr_start m ≤ pr_start r) rs) merged) as Hb2
      by (eapply Forall_impl; [exact Hb|]; by intros m [? ?]%Forall_cons).
    destruct merged as [|last rest]; [by repeat constructor|]. case_decide; [|by constructor].
    apply Forall_cons in Hb2 as [? ?]. by constructor. }
  split; [done|]. intros p. rewrite H2, Hc, covers_cons. tauto.
Qed.

Lemma normalize_spec rs : Forall (λ r, pr_start r ≤ pr_end r) rs →
  merged_ok (rev (normalize_ranges rs)) ∧ ∀ p, covers (normalize_ranges rs) p ↔ covers rs p.
Proof.
  intros Hr. unfold normalize_ranges. rewrite rev_involutive. destruct (merge_all_spec (sort_ranges rs) []) as [H1 H2].
  - split; constructor.
  - apply sort_ranges_sorted.
  - by rewrite sort_ranges_Permutation.
  - constructor.
  - split; [done|]. intros p. rewrite (covers_Permutation _ _ p (symmetry (Permutation_rev _))), H2, (covers_Permutation _ _ p (sort_ranges_Permutation rs)).
    unfold covers at 1. set_solver.
Qed.

Lemma sorted_ordered rs r r' : StronglySorted apart rs → r ∈ rs → r' ∈ rs → r = r' ∨ apart r r' ∨ apart r' r.
Proof.
  induction 1 as [|x rs Hs IH Hall]; [by intros ?%elem_of_nil|]. rewrite Forall_forall in Hall. rewrite !elem_of_cons.
  intros [->|Hin] [->|Hin']; auto.
Qed.

(** In a merged list an interval is covered by one range or not at all. *)
Lemma merged_interval rs lo hi : merged_ok rs → lo ≤ hi →
  (∀ p, lo ≤ p ≤ hi → covers rs p) ↔ ∃ r, r ∈ rs ∧ pr_start r ≤ lo ∧ hi ≤ pr_end r.
Proof.
  intros [Hs Hr] Hle. split; [|intros (r & Hin & ? & ?) p Hp; exists r; split; [done|lia]].
  intros Hall. destruct (Hall lo) as (r & Hin & Hlo); [lia|]. exists r. split_and!; [done|lia|].
  destruct (decide (hi ≤ pr_end r)) as [?|Hgt]; [done|]. exfalso.
  destruct (Hall (pr_end r + 1)) as (r' & Hin' & Hr'); [lia|].
  rewrite Forall_forall in Hr. pose proof (Hr r Hin). pose proof (Hr r' Hin').
  destruct (sorted_ordered rs r r' Hs Hin Hin') as [->|[Hap|Hap]]; unfold apart in *; lia.
Qed.

Lemma range_contains_iff rs r : range_contains rs r = true ↔ ∃ x, x ∈ rs ∧ pr_start x ≤ pr_start r ∧ pr_end r ≤ pr_end x.
Proof.
  unfold range_contains. rewrite existsb_exists. setoid_rewrite andb_true_iff. setoid_rewrite bool_decide_eq_true.
  split; intros (x & Hx & ?); exists x; (split; [by apply list_elem_of_In|done]).
Qed.

Lemma parse_terms_ranges terms rs : parse_terms terms = Ok rs → Forall (λ r, pr_start r ≤ pr_end r) rs.
Proof.
  revert rs. induction terms as [|t terms IH]; intros rs; simpl; [by intros [= <-]|]. case_decide; [by apply IH|].
  intros (r & Hr & (rest & Hrest & [= <-])%obind_Ok)%obind_Ok. constructor; [|by apply IH].
  unfold parse_reserved_term in Hr. apply obind_Ok in Hr as ([a b] & _ & Hr). unfold port_range_new in Hr.
  case_decide as Hd; [done|]. injection Hr as <-. simpl. lia.
Qed.

(** C23: The NAT range is accepted exactly when every port of it is reserved.  For a list of
    terms that parses, in any order and with ranges that overlap or touch, the check
    succeeds if and only if each port from [lo] to [hi] lies in one of the listed ranges;
    otherwise it reports the missing range, and never anything else. *)
Theorem ensure_nat_ports_reserved_exact `{!FileSystem} (lo hi : Z) (path input : text) (listed : list PortRange) :
  1 ≤ lo ≤ hi → read_to_string path = Ok input → parse_terms (reserved_terms input) = Ok listed →
  (ensure_nat_ports_reserved_at lo hi path = Ok tt ↔ ∀ p, lo ≤ p ≤ hi → ∃ r, r ∈ listed ∧ pr_start r ≤ p ≤ pr_end r)
  ∧ (ensure_nat_ports_reserved_at lo hi path = Ok tt ∨ ensure_nat_ports_reserved_at lo hi path = Err (MissingReservation lo hi)).
Proof.
  intros Hlo Hfile Hparse. unfold ensure_nat_ports_reserved_at, port_range_new, read_reserved_ranges, parse_reserved_ranges.
  rewrite decide_False by lia. rewrite Hfile. cbn [map_err obind]. rewrite Hparse. cbn [obind].
  destruct (normalize_spec listed (parse_terms_ranges _ _ Hparse)) as [Hm Hc].
  pose proof (merged_interval (rev (normalize_ranges listed)) lo hi Hm ltac:(lia)) as Hi.
  assert (range_contains (normalize_ranges listed) (mkPortRange lo hi) = true ↔ ∀ p, lo ≤ p ≤ hi → covers listed p) as Hiff.
  { rewrite range_contains_iff. simpl. setoid_rewrite <- Hc.
    setoid_rewrite (covers_Permutation _ _ _ (Permutation_rev (normalize_ranges listed))). rewrite Hi. by setoid_rewrite <- (Permutation_rev (normalize_ranges listed)). }
  unfold covers in Hiff. destruct (range_contains _ _); simpl; (split; [|tauto]); [tauto|]. split; [done|]. intros Hall. by apply Hiff in Hall.
Qed.

Definition sample_sysctl : FileSystem := {| read_to_string := λ _, Ok (txt "40010,40000-40005,40006-40009, 50000"); file_len := λ _, Ok 0 |}.

Lemma ensure_nat_ports_reserved_exact_witness : @ensure_nat_ports_reserved_at sample_sysctl 40000 40010 SYSCTL_RESERVED_PORTS = Ok tt.
Proof.
  apply (@ensure_nat_ports_reserved_exact sample_sysctl 40000 40010 SYSCTL_RESERVED_PORTS (txt "40010,40000-40005,40006-40009, 50000")
    [mkPortRange 40010 40010; mkPortRange 40000 40005; mkPortRange 40006 40009; mkPortRange 50000 50000]).
  - lia.
  - reflexivity.
  - vm_compute. reflexivity.
  - intros p Hp. destruct (decide (p ≤ 40005)); [|destruct (decide (p ≤ 40009))].
    + exists (mkPortRange 40000 40005). split; [set_solver|simpl; lia].
    + exists (mkPortRange 40006 40009). split; [set_solver|simpl; lia].
    + exists (mkPortRange 40010 40010). split; [set_solver|simpl; lia].
Defined.
