(* ===== verification/BpfMaps.v ===== *)
(** The tables of the kernel's filter and what it does with them: [configure_bpf_maps] and
    its companions of [src/src/xdp_datapath/runtime.rs], and the policy part of
    [src/src/xdp_datapath/xdp_filter.c].

    An array map has one element, zero when the program is loaded.  Addresses and ports are
    numbers: both sides store them in network order, the NAT ports in the host's.  A prefix
    trie is a map from prefix length and network address to an action; a look-up gives the
    action of the longest prefix that matches, as the kernel documents it.  An update can
    fail; [fails n] is the error of the [n]-th one. *)
From stdpp Require Import sorting.
From S2P Require Import Prelude Net Frame Encap Text Config Setup.

(** ** The maps *)

Inductive ArrayMap : Type :=
| m_tunnel_port | m_role_flags | m_tunnel_ip_flags | m_tunnel_v4 | m_tunnel_v6 | m_dns_ip_flags | m_dns_v4 | m_dns_v6
| m_dns_local_flags | m_dns_local_resolver_v4 | m_dns_nat_v4 | m_dns_local_resolver_v6 | m_dns_nat_v6
| m_dns_local_resolver_port | m_dns_nat_port_start | m_dns_nat_port_end | m_intercept_policy_mode | m_parser_drops | m_dns_fragment_drops.
#[global] Instance ArrayMap_eq_dec : EqDecision ArrayMap.
Proof. solve_decision. Defined.

(** [LpmV4Key] and [LpmV6Key]: the prefix length and the address. *)
Abbreviation LpmKey := (Z * Z)%type.
Abbreviation LpmTrie := (gmap LpmKey Z).

Record BpfMaps : Type := mkMaps { arrays : ArrayMap → Z; allowed_v4 : LpmTrie; allowed_v6 : LpmTrie }.

Definition maps_loaded : BpfMaps := mkMaps (λ _, 0) ∅ ∅.

Inductive MapUpdate : Type :=
| SetArray (m : ArrayMap) (v : Z)
| SetAllowedV4 (key : LpmKey) (action : Z)
| SetAllowedV6 (key : LpmKey) (action : Z).

Definition update_bpf_map (u : MapUpdate) (b : BpfMaps) : BpfMaps :=
  match u with
  | SetArray m v => mkMaps (λ x, if decide (x = m) then v else arrays b x) (allowed_v4 b) (allowed_v6 b)
  | SetAllowedV4 key action => mkMaps (arrays b) (<[key := action]> (allowed_v4 b)) (allowed_v6 b)
  | SetAllowedV6 key action => mkMaps (arrays b) (allowed_v4 b) (<[key := action]> (allowed_v6 b))
  end.

Definition POLICY_TUNNEL_PREFIXES : Z := 0.
Definition POLICY_DIRECT_PREFIXES : Z := 1.
Definition POLICY_ACTION_PASS : Z := 0.
Definition POLICY_ACTION_REDIRECT : Z := 1.

(** The maps of a link with the number of updates tried. *)
Record Bpf : Type := mkBpf { b_maps : BpfMaps; b_count : nat }.

Definition option_or {A : Type} (a b : option A) : option A := match a with Some _ => a | None => b end.
Definition flag (b : bool) (v : Z) : Z := if b then v else 0.
Definition is_some {A : Type} (o : option A) : bool := match o with Some _ => true | None => false end.

Definition find_v4 (addresses : list IpAddr) : option Z := head (omap (λ a, match a with V4 x => Some x | V6 _ => None end) addresses).
Definition find_v6 (addresses : list IpAddr) : option Z := head (omap (λ a, match a with V6 x => Some x | V4 _ => None end) addresses).

(** The order of [IpAddr]: IPv4 first, then by value. *)
Definition ip_le (a b : IpAddr) : Prop :=
  match a, b with V4 x, V4 y => x ≤ y | V6 x, V6 y => x ≤ y | V4 _, V6 _ => True | V6 _, V4 _ => False end.
#[global] Instance ip_le_dec a b : Decision (ip_le a b).
Proof. destruct a, b; simpl; apply _. Defined.

(** [dedup]: equal neighbours become one. *)
Fixpoint dedup (l : list IpAddr) : list IpAddr :=
  match l with
  | [] => []
  | a :: l => match dedup l with
              | b :: rest => if decide (a = b) then b :: rest else a :: b :: rest
              | [] => [a]
              end
  end.

Section configure.
Context {IpNet : Type} `{!IpNetOps IpNet} (fails : nat → option text).

Definition update_pinned_map (u : MapUpdate) : ST Bpf text unit := λ b,
  match fails (b_count b) with
  | Some e => (Err e, mkBpf (b_maps b) (S (b_count b)))
  | None => (Ok tt, mkBpf (update_bpf_map u (b_maps b)) (S (b_count b)))
  end.

Fixpoint update_all (us : list MapUpdate) : ST Bpf text unit :=
  match us with
  | [] => sret tt
  | u :: us => update_pinned_map u ;;; update_all us
  end.

(** [if let Some(address) = ..]. *)
Definition when_some {A : Type} (o : option A) (us : A → list MapUpdate) : list MapUpdate := match o with Some a => us a | None => [] end.

Definition xdp_forced_local_ips (c : ApplianceConfig IpNet) (tunnel_local_ips : list IpAddr) : list IpAddr :=
  dedup (merge_sort ip_le (tunnel_local_ips ++ option_list (sa_ip <$> option_or (ap_endpoint c) (ap_listen c))
    ++ option_list ((λ dns, sa_ip (dc_listen dns)) <$> ap_dns c))).

(** The updates up to the DNS listen address. *)
Definition address_updates (tunnel_local_ips : list IpAddr) (port : Z) (dns_listen : option IpAddr) : list MapUpdate :=
  let tunnel_ipv4 := find_v4 tunnel_local_ips in
  let tunnel_ipv6 := find_v6 tunnel_local_ips in
  let dns_ipv4 := match dns_listen with Some (V4 a) => Some a | _ => None end in
  let dns_ipv6 := match dns_listen with Some (V6 a) => Some a | _ => None end in
  [SetArray m_tunnel_port port; SetArray m_role_flags 0;
   SetArray m_tunnel_ip_flags (Z.lor (flag (is_some tunnel_ipv4) 1) (flag (is_some tunnel_ipv6) 2))]
  ++ when_some tunnel_ipv4 (λ a, [SetArray m_tunnel_v4 a])
  ++ when_some tunnel_ipv6 (λ a, [SetArray m_tunnel_v6 a])
  ++ [SetArray m_dns_ip_flags (Z.lor (flag (is_some dns_ipv4) 1) (flag (is_some dns_ipv6) 2))]
  ++ when_some dns_ipv4 (λ a, [SetArray m_dns_v4 a])
  ++ when_some dns_ipv6 (λ a, [SetArray m_dns_v6 a]).

(** The updates for the responses of the local resolver. *)
Definition resolver_updates (c : ApplianceConfig IpNet) (resolver : option SocketAddr) : list MapUpdate :=
  let local_ipv4 := r ← resolver; match sa_ip r with V4 a => (λ nat, (a, nat, sa_port r)) <$> address_v4 (ap_nat c) | V6 _ => None end in
  let local_ipv6 := r ← resolver; match sa_ip r with V6 a => (λ nat, (a, nat, sa_port r)) <$> address_v6 (ap_nat c) | V4 _ => None end in
  let ports := [SetArray m_dns_nat_port_start (nat_ports (ap_nat c)).1; SetArray m_dns_nat_port_end (nat_ports (ap_nat c)).2] in
  [SetArray m_dns_local_flags (Z.lor (flag (is_some local_ipv4) 1) (flag (is_some local_ipv6) 2))]
  ++ when_some local_ipv4 (λ '(resolver, nat, port),
       [SetArray m_dns_local_resolver_v4 resolver; SetArray m_dns_nat_v4 nat; SetArray m_dns_local_resolver_port port] ++ ports)
  ++ when_some local_ipv6 (λ '(resolver, nat, port),
       [SetArray m_dns_local_resolver_v6 resolver; SetArray m_dns_nat_v6 nat; SetArray m_dns_local_resolver_port port] ++ ports).

(** The mode, the prefixes and the action of the policy. *)
Definition policy_choice (c : ApplianceConfig IpNet) : outcome text (Z * list IpNet * Z) :=
  match ap_role c with
  | RoleClient =>
      match ap_ip_policy c with
      | PolicyTunnel prefixes => Ok (POLICY_TUNNEL_PREFIXES, prefixes, POLICY_ACTION_REDIRECT)
      | PolicyDirect prefixes => Ok (POLICY_DIRECT_PREFIXES, prefixes, POLICY_ACTION_PASS)
      end
  | RoleServer =>
      let? prefixes := map_err (λ _, []) (nat_host_prefixes c) in Ok (POLICY_TUNNEL_PREFIXES, prefixes, POLICY_ACTION_REDIRECT)
  end.

Definition prefix_update (action : Z) (prefix : IpNet) : MapUpdate :=
  match ipnet_network prefix with
  | V4 a => SetAllowedV4 (ipnet_prefix_len prefix, a) action
  | V6 a => SetAllowedV6 (ipnet_prefix_len prefix, a) action
  end.
Definition host_update (action : Z) (address : IpAddr) : MapUpdate :=
  match address with V4 a => SetAllowedV4 (32, a) action | V6 a => SetAllowedV6 (128, a) action end.

Definition policy_updates (c : ApplianceConfig IpNet) (tunnel_local_ips : list IpAddr) (mode : Z) (prefixes : list IpNet) (action : Z) : list MapUpdate :=
  [SetArray m_intercept_policy_mode mode]
  ++ (prefix_update action <$> prefixes)
  ++ (host_update POLICY_ACTION_PASS <$> xdp_forced_local_ips c tunnel_local_ips)
  ++ (host_update POLICY_ACTION_REDIRECT <$> config_nat_return_ips c).

Definition configure_bpf_maps (ifindex : Z) (tunnel_local_ips : list IpAddr) (roles : IoClassifiers) (port : Z) (c : ApplianceConfig IpNet)
    (dns_intercept_ifindex : option Z) : ST Bpf text unit :=
  let dns_owner := cl_intercept roles && bool_decide (dns_intercept_ifindex = Some ifindex) in
  let dns := if dns_owner then ap_dns c else None in
  let! _ := update_all (address_updates tunnel_local_ips port ((λ d, sa_ip (dc_listen d)) <$> dns)) in
  let! _ := update_all (resolver_updates c (dc_local_resolver <$> dns)) in
  if cl_intercept roles then
    let! '(mode, prefixes, action) := slift (policy_choice c) in
    update_all (policy_updates c tunnel_local_ips mode prefixes action)
  else sret tt.

(** ** The links *)

Record BpfLink : Type := mkBpfLink { ln_ifindex : Z; ln_maps : BpfMaps; ln_roles : IoClassifiers }.

Definition role_bits (roles : IoClassifiers) : Z := Z.lor (flag (cl_tunnel roles) 1) (flag (cl_intercept roles) 2).
Definition set_roles (v : Z) (l : BpfLink) : BpfLink := mkBpfLink (ln_ifindex l) (update_bpf_map (SetArray m_role_flags v) (ln_maps l)) (ln_roles l).

(** The roll-back: the first link with the index of each link enabled so far, errors
    ignored. *)
Fixpoint reset_enabled (n : nat) (enabled : list Z) (links : list BpfLink) : list BpfLink :=
  match enabled with
  | [] => links
  | i :: enabled =>
      reset_enabled (S n) enabled
        (match list_find (λ l, ln_ifindex l = i) links with
         | Some (k, l) => match fails n with Some _ => links | None => <[k := set_roles 0 l]> links end
         | None => links
         end)
  end.

(** The loop of [enable_bpf_classifiers] from link [k] on, at update [n]. *)
Fixpoint enable_from (todo k n : nat) (enabled : list Z) (links : list BpfLink) : outcome text unit * list BpfLink :=
  match todo with
  | O => (Ok tt, links)
  | S todo =>
      match links !! k with
      | None => (Ok tt, links)
      | Some l =>
          match fails n with
          | Some e => (Err e, reset_enabled (S n) enabled links)
          | None => enable_from todo (S k) (S n) (enabled ++ [ln_ifindex l]) (<[k := set_roles (role_bits (ln_roles l)) l]> links)
          end
      end
  end.
Definition enable_bpf_classifiers (links : list BpfLink) : outcome text unit * list BpfLink := enable_from (length links) 0 0 [] links.

Fixpoint disable_from (n : nat) (first_error : option text) (links : list BpfLink) : outcome text unit * list BpfLink :=
  match links with
  | [] => (match first_error with Some e => Err e | None => Ok tt end, [])
  | l :: links =>
      let '(r, links) := disable_from (S n) (match fails n with Some e => option_or first_error (Some e) | None => first_error end) links in
      (r, match fails n with Some _ => l | None => set_roles 0 l end :: links)
  end.
Definition disable_bpf_classifiers (links : list BpfLink) : outcome text unit * list BpfLink := disable_from 0 None links.

(** [read_xdp_counter]: a sum that saturates. *)
Fixpoint read_xdp_counter (m : ArrayMap) (n : nat) (total : Z) (links : list BpfLink) : outcome text Z :=
  match links with
  | [] => Ok total
  | l :: links => match fails n with Some e => Err e | None => read_xdp_counter m (S n) (saturating_add 64 total (arrays (ln_maps l) m)) links end
  end.

(** The loop over the links when policies are reloaded: an error is logged. *)
Fixpoint reload_links (n : nat) (tunnel_local_ips : list IpAddr) (port : Z) (c : ApplianceConfig IpNet) (dns_ifindex : option Z)
    (links : list BpfLink) : outcome text (list BpfLink) :=
  match links with
  | [] => Ok []
  | l :: links =>
      match configure_bpf_maps (ln_ifindex l) tunnel_local_ips (ln_roles l) port c dns_ifindex (mkBpf (ln_maps l) n) with
      | (Panic, _) => Panic
      | (_, b) =>
          let? links := reload_links (b_count b) tunnel_local_ips port c dns_ifindex links in
          Ok (mkBpfLink (ln_ifindex l) (b_maps b) (ln_roles l) :: links)
      end
  end.
End configure.

(** ** The filter *)

Inductive XdpAction : Type := XDP_PASS | XDP_DROP | XDP_REDIRECT.
#[global] Instance XdpAction_eq_dec : EqDecision XdpAction.
Proof. solve_decision. Defined.

(** [bpf_map_lookup_elem] on a trie of addresses of [bits] bits. *)
Definition lpm_matches (bits addr : Z) (key : LpmKey) : Prop := addr / 2 ^ (bits - key.1) = key.2 / 2 ^ (bits - key.1).
#[global] Instance lpm_matches_dec bits addr key : Decision (lpm_matches bits addr key).
Proof. unfold lpm_matches. apply _. Defined.

Definition longer (best : option (LpmKey * Z)) (entry : LpmKey * Z) : option (LpmKey * Z) :=
  match best with
  | Some b => if decide (entry.1.1 ≤ b.1.1) then Some b else Some entry
  | None => Some entry
  end.
Definition lpm_lookup (bits addr : Z) (t : LpmTrie) : option Z :=
  snd <$> foldl longer None (filter (λ e, lpm_matches bits addr e.1) (map_to_list t)).

(** The [i]-th byte of an IPv6 address. *)
Definition byte6 (i a : Z) : Z := a / 2 ^ (8 * (15 - i)) mod 256.

Definition is_public_v4 (host : Z) : bool :=
  let a := octet 0 host in let b := octet 1 host in let c := octet 2 host in
  if decide (a = 0 ∨ a = 10 ∨ a = 127 ∨ 224 ≤ a) then false
  else if decide (a = 100 ∧ 64 ≤ b ≤ 127) then false
  else if decide (a = 169 ∧ b = 254) then false
  else if decide (a = 172 ∧ 16 ≤ b ≤ 31) then false
  else if decide (a = 192 ∧ b = 168) then false
  else if decide (a = 192 ∧ b = 0 ∧ (c = 0 ∨ c = 2)) then false
  else if decide (a = 192 ∧ b = 31 ∧ c = 196) then false
  else if decide (a = 192 ∧ b = 52 ∧ c = 193) then false
  else if decide (a = 192 ∧ b = 88 ∧ c = 99) then false
  else if decide (a = 192 ∧ b = 175 ∧ c = 48) then false
  else if decide (a = 198 ∧ (b = 18 ∨ b = 19)) then false
  else if decide (a = 198 ∧ b = 51 ∧ c = 100) then false
  else if decide (a = 203 ∧ b = 0 ∧ c = 113) then false
  else if decide (host = 0xffffffff) then false
  else true.

(** A loop that returns 0 at the first byte of the range that is not zero. *)
Definition zero_bytes (lo n : Z) (a : Z) : bool := forallb (λ i, bool_decide (byte6 i a = 0)) (seqZ lo n).
Definition is_unspecified_v6 (a : Z) : bool := zero_bytes 0 16 a.
Definition is_loopback_v6 (a : Z) : bool := zero_bytes 0 15 a && bool_decide (byte6 15 a = 1).

Definition is_public_v6 (a : Z) : bool :=
  let first := byte6 0 a in let second := byte6 1 a in
  if is_unspecified_v6 a || is_loopback_v6 a then false
  else if decide (first = 0xff) then false
  else if decide (first = 0xfe ∧ Z.land second 0xc0 = 0x80) then false
  else if decide (first = 0xfe ∧ Z.land second 0xc0 = 0xc0) then false
  else if decide (Z.land first 0xfe = 0xfc) then false
  else if zero_bytes 0 10 a && bool_decide (byte6 10 a = 0xff ∧ byte6 11 a = 0xff) then false
  else if bool_decide (first = 0x01 ∧ second = 0x00) && zero_bytes 2 6 a then false
  else if decide (first = 0x20 ∧ second = 0x01 ∧ byte6 2 a = 0x0d ∧ byte6 3 a = 0xb8) then false
  else if decide (first = 0x20 ∧ second = 0x01 ∧ byte6 2 a = 0x00 ∧ byte6 3 a = 0x02 ∧ byte6 4 a = 0 ∧ byte6 5 a = 0) then false
  else true.

(** [intercept_action_v4] and [intercept_action_v6]. *)
Definition redirect_whole (fragmented : bool) : XdpAction := if fragmented then XDP_DROP else XDP_REDIRECT.
Definition intercept_action (b : BpfMaps) (destination : IpAddr) (fragmented : bool) : XdpAction :=
  let '(found, public) :=
    match destination with
    | V4 a => (lpm_lookup 32 a (allowed_v4 b), is_public_v4 a)
    | V6 a => (lpm_lookup 128 a (allowed_v6 b), is_public_v6 a)
    end in
  match found with
  | Some action => if decide (action = POLICY_ACTION_REDIRECT) then redirect_whole fragmented else XDP_PASS
  | None =>
      if decide (arrays b m_intercept_policy_mode = POLICY_DIRECT_PREFIXES) then
        (if public then redirect_whole fragmented else XDP_PASS)
      else XDP_PASS
  end.

(** The gate of [xdp_filter_prog]: nothing is looked at while no role is set; [filter] is
    the rest of the program. *)
Definition xdp_filter_prog (rest : BpfMaps → bytes → XdpAction) (b : BpfMaps) (frame : bytes) : XdpAction :=
  if decide (arrays b m_role_flags = 0) then XDP_PASS else rest b frame.
