(* ===== verification/BpfProps.v ===== *)
(** The filter's idea of a public address is the classifier's, and its tries hold what
    the configuration wrote. *)
From stdpp Require Import sorting.
From S2P Require Import Prelude Net Frame Encap Text Config Setup BpfMaps.

(** ** Public addresses *)

Lemma byte6_range i a : 0 ≤ byte6 i a < 256.
Proof. unfold byte6. apply Z.mod_pos_bound. lia. Qed.

Lemma is_public_v4_agrees a : is_public_v4 a = is_public_destination (V4 a).
Proof.
  apply Bool.eq_iff_eq_true. unfold is_public_destination, v4_is_loopback, v4_is_private, v4_is_link_local, v4_is_multicast, v4_is_broadcast.
  rewrite !andb_true_iff, !negb_true_iff, !bool_decide_eq_true, !bool_decide_eq_false.
  assert (a = 0xffffffff → 224 ≤ octet 0 a) as Hb by (by intros ->).
  unfold is_public_v4. cbv zeta. generalize dependent (octet 0 a). intros x Hb. generalize (octet 1 a), (octet 2 a). intros y z.
  assert (224 ≤ x → ¬ (¬ 224 ≤ x ≤ 239 ∧ x < 240)) as F1 by lia. assert (¬ 224 ≤ x → ¬ 224 ≤ x ≤ 239 ∧ x < 240) as F2 by lia.
  assert (false = true ↔ False) as Hf by done. assert (true = true ↔ True) as Ht by done.
  repeat case_decide; rewrite ?Hf, ?Ht; tauto.
Qed.

(** Both halves of a segment. *)
Lemma segment_bytes i a : 0 ≤ i ≤ 7 → segment i a = byte6 (2 * i) a * 256 + byte6 (2 * i + 1) a.
Proof.
  intros Hi. unfold segment, byte6. replace (8 * (15 - 2 * i)) with (16 * (7 - i) + 8) by lia. replace (8 * (15 - (2 * i + 1))) with (16 * (7 - i)) by lia.
  rewrite Z.pow_add_r, <- Z.div_div by lia. set (x := a / 2 ^ (16 * (7 - i))). change (2 ^ 8) with 256.
  pose proof (Z.div_mod x 256). pose proof (Z.div_mod x 65536). pose proof (Z.div_mod (x / 256) 256).
  pose proof (Z.mod_pos_bound x 256). pose proof (Z.mod_pos_bound x 65536). pose proof (Z.mod_pos_bound (x / 256) 256). lia.
Qed.

(** The masks of the first segment, by its bytes. *)
Definition masks_agree (f s : Z) : bool :=
  let x := f * 256 + s in
  bool_decide (Z.land x 0xff00 = 0xff00 ↔ f = 0xff)
  && bool_decide (Z.land x 0xffc0 = 0xfe80 ↔ f = 0xfe ∧ Z.land s 0xc0 = 0x80)
  && bool_decide (Z.land x 0xffc0 = 0xfec0 ↔ f = 0xfe ∧ Z.land s 0xc0 = 0xc0)
  && bool_decide (Z.land x 0xfe00 = 0xfc00 ↔ Z.land f 0xfe = 0xfc).

Lemma masks_table : forallb (λ f, forallb (masks_agree f) (seqZ 0 256)) (seqZ 0 256) = true.
Proof. vm_compute. reflexivity. Qed.

Lemma masks_ok f s : 0 ≤ f < 256 → 0 ≤ s < 256 →
  (Z.land (f * 256 + s) 0xff00 = 0xff00 ↔ f = 0xff)
  ∧ (Z.land (f * 256 + s) 0xffc0 = 0xfe80 ↔ f = 0xfe ∧ Z.land s 0xc0 = 0x80)
  ∧ (Z.land (f * 256 + s) 0xffc0 = 0xfec0 ↔ f = 0xfe ∧ Z.land s 0xc0 = 0xc0)
  ∧ (Z.land (f * 256 + s) 0xfe00 = 0xfc00 ↔ Z.land f 0xfe = 0xfc).
Proof.
  intros Hf Hs. pose proof masks_table as H. rewrite forallb_forall in H. specialize (H f). rewrite forallb_forall in H.
  specialize (H ltac:(apply list_elem_of_In, elem_of_seqZ; lia) s ltac:(apply list_elem_of_In, elem_of_seqZ; lia)).
  unfold masks_agree in H. rewrite !andb_true_iff, !bool_decide_eq_true in H. tauto.
Qed.

Lemma zero_bytes_iff lo n a : zero_bytes lo n a = true ↔ ∀ i, lo ≤ i < lo + n → byte6 i a = 0.
Proof.
  unfold zero_bytes. rewrite forallb_forall. split; intros H i Hi.
  - specialize (H i). rewrite bool_decide_eq_true in H. apply H, list_elem_of_In, elem_of_seqZ. lia.
  - apply bool_decide_eq_true, H. by apply list_elem_of_In, elem_of_seqZ in Hi.
Qed.

Lemma zero_prefix a (n : nat) : fits 128 a → (n ≤ 16)%nat → (∀ i, 0 ≤ i < Z.of_nat n → byte6 i a = 0) → a < 2 ^ (8 * (16 - Z.of_nat n)).
Proof.
  intros [H0 Ha]. induction n as [|n IH]; intros Hn Hz; [done|].
  specialize (IH ltac:(lia) ltac:(intros i Hi; apply Hz; lia)). specialize (Hz (Z.of_nat n) ltac:(lia)). unfold byte6 in Hz.
  replace (8 * (16 - Z.of_nat n)) with (8 * (15 - Z.of_nat n) + 8) in IH by lia. rewrite Z.pow_add_r in IH by lia.
  replace (8 * (16 - Z.of_nat (S n))) with (8 * (15 - Z.of_nat n)) by lia. set (p := 2 ^ (8 * (15 - Z.of_nat n))) in *.
  assert (0 < p) by (apply Z.pow_pos_nonneg; lia). assert (a / p < 256) by (apply Z.div_lt_upper_bound; [done|]; change (2 ^ 8) with 256 in IH; lia).
  pose proof (Z.div_pos a p H0 ltac:(done)). rewrite Z.mod_small in Hz by lia. apply Z.div_small_iff in Hz; lia.
Qed.

Lemma unspecified_iff a : fits 128 a → is_unspecified_v6 a = true ↔ a = 0.
Proof.
  intros Ha. unfold is_unspecified_v6. rewrite zero_bytes_iff. split.
  - intros Hz. pose proof (zero_prefix a 16 Ha ltac:(lia) Hz). destruct Ha. lia.
  - intros -> i Hi. unfold byte6. by rewrite Z.div_0_l, Z.mod_0_l by (try apply Z.pow_nonzero; lia).
Qed.

Lemma loopback_iff a : fits 128 a → is_loopback_v6 a = true ↔ a = 1.
Proof.
  intros Ha. unfold is_loopback_v6. rewrite andb_true_iff, zero_bytes_iff, bool_decide_eq_true. split.
  - intros [Hz H1]. pose proof (zero_prefix a 15 Ha ltac:(lia) Hz) as Hlt. destruct Ha. unfold byte6 in H1.
    change (8 * (15 - 15)) with 0 in H1. rewrite Z.pow_0_r, Z.div_1_r, Z.mod_small in H1; lia.
  - intros ->. split; [|done]. intros i Hi. unfold byte6. rewrite Z.div_small; [done|].
    assert (2 ^ 8 ≤ 2 ^ (8 * (15 - i))) by (apply Z.pow_le_mono_r; lia). lia.
Qed.

Lemma pair_iff i j a c hi lo : c = hi * 256 + lo → 0 ≤ lo < 256 → byte6 i a * 256 + byte6 j a = c ↔ byte6 i a = hi ∧ byte6 j a = lo.
Proof. intros -> Hlo. pose proof (byte6_range j a). lia. Qed.

Lemma is_public_v6_agrees a : fits 128 a → is_public_v6 a = is_public_destination (V6 a).
Proof.
  intros Ha. apply Bool.eq_iff_eq_true. unfold is_public_destination, v6_is_unspecified, v6_is_loopback, v6_is_multicast. cbv zeta.
  rewrite !andb_true_iff, !negb_true_iff, !bool_decide_eq_true, !bool_decide_eq_false.
  rewrite !segment_bytes by lia. change (2 * 0) with 0. change (2 * 1) with 2. change (2 * 2) with 4. change (2 * 3) with 6. change (2 * 4) with 8.
  change (2 * 5) with 10. change (0 + 1) with 1. change (2 + 1) with 3. change (4 + 1) with 5. change (6 + 1) with 7. change (8 + 1) with 9. change (10 + 1) with 11.
  destruct (masks_ok (byte6 0 a) (byte6 1 a) (byte6_range 0 a) (byte6_range 1 a)) as (M1 & M2 & M3 & M4). rewrite M1, M2, M3, M4.
  pose proof (zero_bytes_iff 0 10 a) as Z10. pose proof (zero_bytes_iff 2 6 a) as Z6.
  pose proof (unspecified_iff a Ha) as Hu. pose proof (loopback_iff a Ha) as Hl.
  assert (zero_bytes 0 10 a = true ↔ byte6 0 a = 0 ∧ byte6 1 a = 0 ∧ byte6 2 a = 0 ∧ byte6 3 a = 0 ∧ byte6 4 a = 0 ∧ byte6 5 a = 0
    ∧ byte6 6 a = 0 ∧ byte6 7 a = 0 ∧ byte6 8 a = 0 ∧ byte6 9 a = 0) as Z10'.
  { rewrite Z10. split; [intros H; split_and!; apply H; lia|]. intros H i Hi.
    assert (i = 0 ∨ i = 1 ∨ i = 2 ∨ i = 3 ∨ i = 4 ∨ i = 5 ∨ i = 6 ∨ i = 7 ∨ i = 8 ∨ i = 9) as Hc by lia. naive_solver. }
  assert (zero_bytes 2 6 a = true ↔ byte6 2 a = 0 ∧ byte6 3 a = 0 ∧ byte6 4 a = 0 ∧ byte6 5 a = 0 ∧ byte6 6 a = 0 ∧ byte6 7 a = 0) as Z6'.
  { rewrite Z6. split; [intros H; split_and!; apply H; lia|]. intros H i Hi.
    assert (i = 2 ∨ i = 3 ∨ i = 4 ∨ i = 5 ∨ i = 6 ∨ i = 7) as Hc by lia. naive_solver. }
  rewrite !(pair_iff _ _ a 0 0 0), !(pair_iff _ _ a 0xffff 0xff 0xff), !(pair_iff _ _ a 0x0100 0x01 0x00), !(pair_iff _ _ a 0x2001 0x20 0x01),
    !(pair_iff _ _ a 0x0db8 0x0d 0xb8), !(pair_iff _ _ a 0x0002 0x00 0x02) by lia.
  clear Z10 Z6 M1 M2 M3 M4 Ha. unfold is_public_v6. cbv zeta.
  assert (false = true ↔ False) as Hf by done. assert (true = true ↔ True) as Ht by done.
  destruct (is_unspecified_v6 a); cbn [orb]; [rewrite ?Hf, ?Ht in *; tauto|]. destruct (is_loopback_v6 a); [rewrite ?Hf, ?Ht in *; tauto|].
  do 4 (case_decide; [rewrite Hf; tauto|]).
  destruct (zero_bytes 0 10 a); cbn [andb]; [case_bool_decide; [rewrite ?Hf, ?Ht in *; tauto|]|];
    (destruct (zero_bytes 2 6 a); rewrite ?andb_true_r, ?andb_false_r; [case_bool_decide; [rewrite ?Hf, ?Ht in *; tauto|]|]);
    repeat case_decide; rewrite ?Hf, ?Ht in *; tauto.
Qed.
