(* ===== verification/BpfClaims.v ===== *)
(** The filter in the kernel and the classifier in the process follow one policy. *)
From stdpp Require Import sorting.
From S2P Require Import Prelude Net Packet Frame Encap Text Config ConfigSample Setup BpfMaps BpfProps.

(** ** Longest prefixes *)

Lemma longer_spec l : ∀ best, match foldl longer best l with
  | Some e => (e ∈ l ∨ best = Some e) ∧ (∀ e', e' ∈ l ∨ best = Some e' → e'.1.1 ≤ e.1.1)
  | None => l = [] ∧ best = None
  end.
Proof.
  induction l as [|x l IH]; intros best; simpl; [destruct best; [|done]; split; [by right|]; intros e' [?%elem_of_nil|[= ->]]; [done|lia]|].
  specialize (IH (longer best x)). destruct (foldl longer (longer best x) l) as [e|]; [|destruct IH as [_ IH]; unfold longer in IH; destruct best; [by case_decide|done]].
  destruct IH as [H1 H2]. unfold longer in *. split.
  - destruct H1 as [H1|H1]; [left; by right|]. destruct best as [b|]; [case_decide|]; injection H1 as <-; [by right|left; by left..].
  - intros e' [[->|Hin]%elem_of_cons|Hb].
    + destruct best as [b|]; [|apply H2; by right]. case_decide; [|apply H2; by right]. specialize (H2 b (or_intror eq_refl)). lia.
    + apply H2. by left.
    + subst best. case_decide; [apply H2; by right|]. specialize (H2 x (or_intror eq_refl)). lia.
Qed.

Lemma lpm_lookup_spec bits a t : match lpm_lookup bits a t with
  | Some v => ∃ k, t !! k = Some v ∧ lpm_matches bits a k ∧ ∀ k' v', t !! k' = Some v' → lpm_matches bits a k' → k'.1 ≤ k.1
  | None => ∀ k v, t !! k = Some v → ¬ lpm_matches bits a k
  end.
Proof.
  unfold lpm_lookup. pose proof (longer_spec (filter (λ e, lpm_matches bits a e.1) (map_to_list t)) None) as H.
  destruct (foldl longer None _) as [[k v]|]; simpl.
  - destruct H as [[Hin|?] Hmax]; [|done]. apply list_elem_of_filter in Hin as [Hm Hin%elem_of_map_to_list]. exists k. split_and!; [done|done|].
    intros k' v' Hk' Hm'. apply (Hmax (k', v')). left. apply list_elem_of_filter. split; [done|by apply elem_of_map_to_list].
  - destruct H as [H _]. intros k v Hk Hm. assert ((k, v) ∈ filter (λ e, lpm_matches bits a e.1) (map_to_list t)) as Hin.
    { apply list_elem_of_filter. split; [done|by apply elem_of_map_to_list]. }
    rewrite H in Hin. by apply elem_of_nil in Hin.
Qed.

(** ** The families of addresses *)

Definition family (a : IpAddr) : bool := match a with V4 _ => true | V6 _ => false end.
Definition bits_of (a : IpAddr) : Z := match a with V4 _ => 32 | V6 _ => 128 end.
Definition value_of (a : IpAddr) : Z := match a with V4 x => x | V6 x => x end.
Definition trie (v4 : bool) (b : BpfMaps) : LpmTrie := if v4 then allowed_v4 b else allowed_v6 b.
Definition allow (k : bool * LpmKey) (v : Z) : MapUpdate := if k.1 then SetAllowedV4 k.2 v else SetAllowedV6 k.2 v.
Definition host_key (a : IpAddr) : bool * LpmKey := (family a, (bits_of a, value_of a)).

Lemma host_update_allow v a : host_update v a = allow (host_key a) v.
Proof. by destruct a. Qed.

Definition run_updates (us : list MapUpdate) (b : BpfMaps) : BpfMaps := foldl (λ m u, update_bpf_map u m) b us.

Lemma run_updates_app us us' b : run_updates (us ++ us') b = run_updates us' (run_updates us b).
Proof. apply foldl_app. Qed.

Lemma run_updates_cons u us b : run_updates (u :: us) b = run_updates us (update_bpf_map u b).
Proof. done. Qed.

(** Writing the same action under a list of keys. *)
Lemma allow_run {A} (key : A → bool * LpmKey) v l : ∀ b, arrays (run_updates ((λ x, allow (key x) v) <$> l) b) = arrays b
  ∧ ∀ fam k, trie fam (run_updates ((λ x, allow (key x) v) <$> l) b) !! k = if decide ((fam, k) ∈ key <$> l) then Some v else trie fam b !! k.
Proof.
  induction l as [|x l IH]; intros b; [split; [done|]; intros fam k; by rewrite decide_False by (by intros ?%elem_of_nil)|].
  destruct (IH (update_bpf_map (allow (key x) v) b)) as [H1 H2]. split.
  - rewrite fmap_cons, run_updates_cons, H1. destruct (key x) as [[] k]; done.
  - intros fam k. rewrite !fmap_cons, run_updates_cons, H2. destruct (decide ((fam, k) ∈ key <$> l)) as [Hin|Hin].
    { by rewrite decide_True by (by right). }
    destruct (decide ((fam, k) = key x)) as [He|He].
    + rewrite decide_True by (rewrite He; by left). rewrite <- He. by destruct fam; simpl; rewrite lookup_insert_eq.
    + rewrite decide_False by (by intros [?|?]%elem_of_cons). destruct (key x) as [fam' k'] eqn:Hk, fam', fam; simpl; try done;
        (rewrite lookup_insert_ne; [done|]; congruence).
Qed.

(** Updates of arrays leave the tries alone. *)
Definition only_array (u : MapUpdate) : Prop := match u with SetArray _ _ => True | _ => False end.
Lemma array_run us : Forall only_array us → ∀ b, allowed_v4 (run_updates us b) = allowed_v4 b ∧ allowed_v6 (run_updates us b) = allowed_v6 b.
Proof. induction 1 as [|u us Hu _ IH]; intros b; [done|]. destruct u; [|done..]. apply (IH (update_bpf_map (SetArray m v) b)). Qed.

Lemma address_only_array ips port dns : Forall only_array (address_updates ips port dns).
Proof.
  unfold address_updates. rewrite !Forall_app. split_and!; try (by repeat constructor);
    match goal with |- Forall _ (when_some ?o _) => destruct o end; repeat constructor.
Qed.

Section configure.
Context {IpNet : Type} `{!IpNetOps IpNet}.
Implicit Types (c : ApplianceConfig IpNet).

Lemma resolver_only_array c r : Forall only_array (resolver_updates c r).
Proof using Type.
  unfold resolver_updates. rewrite !Forall_app. split_and!; try (by repeat constructor);
    match goal with |- Forall _ (when_some ?o _) => destruct o as [[[? ?] ?]|] end; repeat constructor.
Qed.

Lemma update_all_ok fails us : ∀ b b', update_all fails us b = (Ok tt, b') → b_maps b' = run_updates us (b_maps b).
Proof using Type.
  induction us as [|u us IH]; intros b b'; simpl; [by intros [= <-]|]. unfold sbind, update_pinned_map. destruct (fails (b_count b)); [done|].
  intros H%IH. done.
Qed.

Lemma update_all_no_panic fails us b : no_panic (update_all fails us b).1.
Proof using Type.
  revert b. induction us as [|u us IH]; intros b; simpl; [done|]. unfold sbind, update_pinned_map. destruct (fails (b_count b)); [done|]. apply IH.
Qed.

(** What the library promises of a prefix: its length fits its family, and it contains the
    addresses of its family that share its leading bits. *)
Record prefix_laws (contains : IpNet → IpAddr → bool) : Prop := {
  pl_len : ∀ p, 0 ≤ ipnet_prefix_len p ≤ bits_of (ipnet_network p);
  pl_contains : ∀ p a, contains p a = true ↔ family (ipnet_network p) = family a
    ∧ lpm_matches (bits_of a) (value_of a) (ipnet_prefix_len p, value_of (ipnet_network p));
}.

Definition prefix_key (p : IpNet) : bool * LpmKey := (family (ipnet_network p), (ipnet_prefix_len p, value_of (ipnet_network p))).
Lemma prefix_update_allow v p : prefix_update v p = allow (prefix_key p) v.
Proof using Type. unfold prefix_update, prefix_key. by destruct (ipnet_network p). Qed.

(** The tries after the policy is written. *)
Lemma policy_tries c local_ips mode prefixes action b fam k :
  let b' := run_updates (policy_updates c local_ips mode prefixes action) b in
  arrays b' m_intercept_policy_mode = mode
  ∧ trie fam b' !! k =
      if decide ((fam, k) ∈ host_key <$> config_nat_return_ips c) then Some POLICY_ACTION_REDIRECT
      else if decide ((fam, k) ∈ host_key <$> xdp_forced_local_ips c local_ips) then Some POLICY_ACTION_PASS
      else if decide ((fam, k) ∈ prefix_key <$> prefixes) then Some action else trie fam b !! k.
Proof using Type.
  cbv zeta. unfold policy_updates.
  assert (∀ v l, host_update v <$> l = (λ a, allow (host_key a) v) <$> l) as Hh by (intros v l; apply list_fmap_ext; intros; apply host_update_allow).
  assert (prefix_update action <$> prefixes = (λ p, allow (prefix_key p) action) <$> prefixes) as -> by (apply list_fmap_ext; intros; apply prefix_update_allow).
  rewrite !Hh, !run_updates_app.
  repeat match goal with |- context [run_updates ((λ x, allow (?key x) ?v) <$> ?l) ?b] =>
    lazymatch b with context [run_updates (_ <$> _)] => fail | _ => idtac end;
    let B := fresh "b" in let H1 := fresh "A" in let H2 := fresh "T" in
    destruct (allow_run key v l b) as [H1 H2]; set (B := run_updates ((λ x, allow (key x) v) <$> l) b) in * end.
  split; [by rewrite A1, A0, A|]. rewrite T1, T0, T. by repeat case_decide.
Qed.

(** A host entry matches its own address only. *)
Lemma host_key_matches (l : list IpAddr) a k : (family a, k) ∈ host_key <$> l → lpm_matches (bits_of a) (value_of a) k → a ∈ l.
Proof using Type.
  intros (x & Hk & Hx)%list_elem_of_fmap Hm. unfold host_key in Hk. injection Hk as Hf ->.
  assert (x = a) as ->; [|done]. unfold lpm_matches in Hm. simpl in Hm.
  destruct a as [a|a], x as [x|x]; try done; simpl in Hm; rewrite Z.sub_diag, Z.pow_0_r, !Z.div_1_r in Hm; congruence.
Qed.

Lemma host_key_self a : lpm_matches (bits_of a) (value_of a) (bits_of a, value_of a).
Proof using Type. done. Qed.

(** The action found for an address after the policy is written on empty tries. *)
Lemma policy_lookup contains c local_ips mode prefixes action b a : prefix_laws contains → allowed_v4 b = ∅ → allowed_v6 b = ∅ →
  lpm_lookup (bits_of a) (value_of a) (trie (family a) (run_updates (policy_updates c local_ips mode prefixes action) b)) =
    if decide (a ∈ config_nat_return_ips c) then Some POLICY_ACTION_REDIRECT
    else if decide (a ∈ xdp_forced_local_ips c local_ips) then Some POLICY_ACTION_PASS
    else if existsb (λ p, contains p a) prefixes then Some action else None.
Proof using Type.
  intros [Hlen Hcon] H4 H6. set (b' := run_updates _ b).
  assert (∀ k, trie (family a) b' !! k = if decide ((family a, k) ∈ host_key <$> config_nat_return_ips c) then Some POLICY_ACTION_REDIRECT
      else if decide ((family a, k) ∈ host_key <$> xdp_forced_local_ips c local_ips) then Some POLICY_ACTION_PASS
      else if decide ((family a, k) ∈ prefix_key <$> prefixes) then Some action else None) as HT.
  { intros k. destruct (policy_tries c local_ips mode prefixes action b (family a) k) as [_ Hk]. unfold b'. rewrite Hk. repeat case_decide; try done.
    unfold trie. by destruct (family a); rewrite ?H4, ?H6, lookup_empty. }
  assert (∀ k v, trie (family a) b' !! k = Some v → lpm_matches (bits_of a) (value_of a) k → k.1 ≤ bits_of a) as Hbound.
  { intros k v Hk _. rewrite HT in Hk. repeat case_decide; try done.
    - apply list_elem_of_fmap in H as (x & [= Hf ->] & _). simpl. by destruct a, x.
    - apply list_elem_of_fmap in H0 as (x & [= Hf ->] & _). simpl. by destruct a, x.
    - apply list_elem_of_fmap in H1 as (p & Hp & _). injection Hp as Hf ->. simpl. specialize (Hlen p). destruct a, (ipnet_network p); simpl in *; (done || lia). }
  assert (∀ l, a ∈ l → (family a, (bits_of a, value_of a)) ∈ host_key <$> l) as Hself by (intros l Hl; by apply (list_elem_of_fmap_2 host_key _ a)).
  assert (∀ k, k.1 = bits_of a → lpm_matches (bits_of a) (value_of a) k → k = (bits_of a, value_of a)) as Hhost.
  { intros [n x] Hn Hm. unfold lpm_matches in Hm. simpl in *. subst n. rewrite Z.sub_diag, Z.pow_0_r, !Z.div_1_r in Hm. congruence. }
  pose proof (lpm_lookup_spec (bits_of a) (value_of a) (trie (family a) b')) as Hl.
  assert (∀ v, trie (family a) b' !! (bits_of a, value_of a) = Some v →
    lpm_lookup (bits_of a) (value_of a) (trie (family a) b') = Some v) as Hfull.
  { intros v Hv. destruct (lpm_lookup _ _ _) as [v'|]; [|by destruct (Hl _ _ Hv)]. destruct Hl as (k & Hk & Hm & Hmax).
    specialize (Hmax _ _ Hv (host_key_self a)). simpl in Hmax. specialize (Hbound _ _ Hk Hm).
    rewrite (Hhost k ltac:(lia) Hm) in Hk. congruence. }
  case_decide as Hnat; [apply Hfull; by rewrite HT, decide_True by by apply Hself|].
  assert (∀ k, lpm_matches (bits_of a) (value_of a) k → (family a, k) ∉ host_key <$> config_nat_return_ips c) as Hn1.
  { intros k Hm Hin. by apply Hnat, (host_key_matches _ _ k). }
  case_decide as Hfor; [apply Hfull; rewrite HT, decide_False, decide_True by (first [by apply Hself | by apply Hn1]); done|].
  assert (∀ k, lpm_matches (bits_of a) (value_of a) k → (family a, k) ∉ host_key <$> xdp_forced_local_ips c local_ips) as Hn2.
  { intros k Hm Hin. by apply Hfor, (host_key_matches _ _ k). }
  destruct (existsb _ prefixes) eqn:He.
  - apply existsb_exists in He as (p & Hp%list_elem_of_In & Hc). apply Hcon in Hc as [Hf Hm].
    destruct (lpm_lookup _ _ _) as [v|].
    + destruct Hl as (k & Hk & Hmk & _). rewrite HT, !decide_False in Hk by auto. by case_decide.
    + exfalso. apply (Hl (prefix_key p).2 action); [|done]. rewrite HT, !decide_False by auto. rewrite decide_True; [done|].
      apply list_elem_of_fmap. exists p. split; [|done]. unfold prefix_key. by rewrite Hf.
  - destruct (lpm_lookup _ _ _) as [v|]; [|done]. destruct Hl as (k & Hk & Hmk & _). rewrite HT, !decide_False in Hk by auto.
    case_decide as Hin; [|done]. apply list_elem_of_fmap in Hin as (p & Hpk & Hp). injection Hpk as Hf ->.
    assert (existsb (λ p, contains p a) prefixes = true) as Ht; [|congruence].
    apply existsb_exists. exists p. split; [by apply list_elem_of_In|]. by apply Hcon.
Qed.

(** A configuration that succeeds has written the policy last. *)
Lemma configure_ok fails ifindex local_ips roles port c dns_if b b' : cl_intercept roles = true →
  configure_bpf_maps fails ifindex local_ips roles port c dns_if b = (Ok tt, b') →
  ∃ us mode prefixes action, Forall only_array us ∧ policy_choice c = Ok (mode, prefixes, action)
    ∧ b_maps b' = run_updates (policy_updates c local_ips mode prefixes action) (run_updates us (b_maps b)).
Proof using Type.
  intros Hi. unfold configure_bpf_maps. rewrite Hi. cbv zeta. set (dns := if true && _ then ap_dns c else None).
  unfold sbind. destruct (update_all fails (address_updates _ _ _) b) as [[[]| |] b1] eqn:H1; [|done..].
  destruct (update_all fails (resolver_updates _ _) b1) as [[[]| |] b2] eqn:H2; [|done..]. unfold slift.
  destruct (policy_choice c) as [[[mode prefixes] action]| |]; [|done..]. intros H3.
  apply update_all_ok in H1, H2, H3. do 4 eexists. split_and!; [|done|].
  - apply Forall_app. split; [apply address_only_array|apply resolver_only_array].
  - by rewrite H3, H2, H1, run_updates_app.
Qed.

(** ** Links *)

Lemma set_roles_flags v l : arrays (ln_maps (set_roles v l)) m_role_flags = v.
Proof using Type. done. Qed.

Definition indices (links : list BpfLink) : list Z := ln_ifindex <$> links.

Lemma indices_insert links k l v : links !! k = Some l → indices (<[k := set_roles v l]> links) = indices links.
Proof using Type.
  intros Hk. unfold indices. rewrite list_fmap_insert. apply list_insert_id. rewrite list_lookup_fmap, Hk. done.
Qed.

(** The roll-back clears every link that was enabled. *)
Lemma reset_enabled_clears fails enabled : ∀ n links, (∀ m, (n ≤ m)%nat → fails m = None) →
  NoDup (indices links) → (∀ i, i ∈ enabled → i ∈ indices links) →
  let links' := reset_enabled fails n enabled links in
  indices links' = indices links
  ∧ ∀ k l', links' !! k = Some l' → ∃ l, links !! k = Some l ∧ ln_roles l' = ln_roles l
      ∧ arrays (ln_maps l') m_role_flags = if decide (ln_ifindex l ∈ enabled) then 0 else arrays (ln_maps l) m_role_flags.
Proof using Type.
  induction enabled as [|i enabled IH]; intros n links Hf Hnd Hin; cbv zeta; simpl.
  { split; [done|]. intros k l' Hk. exists l'. done. }
  destruct (list_find (λ l, ln_ifindex l = i) links) as [[j l0]|] eqn:Hfind.
  2: { exfalso. apply list_find_None in Hfind. specialize (Hin i ltac:(by left)). apply list_elem_of_fmap in Hin as (l & -> & Hl).
       by apply (proj1 (Forall_forall _ _) Hfind l Hl). }
  apply list_find_Some in Hfind as (Hj & Hi & _). rewrite (Hf n) by lia. pose proof (indices_insert links j l0 0 Hj) as Hidx.
  destruct (IH (S n) (<[j := set_roles 0 l0]> links)) as [H1 H2].
  - intros m Hm. apply Hf. lia.
  - by rewrite Hidx.
  - rewrite Hidx. intros x Hx. apply Hin. by right.
  - split; [congruence|]. intros k l' Hk. destruct (H2 k l' Hk) as (l1 & Hl1 & Hr & Ha). destruct (decide (k = j)) as [->|Hne].
    + rewrite list_lookup_insert_eq in Hl1 by (by eapply lookup_lt_Some). injection Hl1 as <-. exists l0. split_and!; [done|done|].
      rewrite (decide_True (P := ln_ifindex l0 ∈ i :: enabled)) by (rewrite Hi; by left). rewrite Ha. case_decide; [done|]. apply set_roles_flags.
    + rewrite list_lookup_insert_ne in Hl1 by done. exists l1. split_and!; [done|done|]. rewrite Ha.
      assert (ln_ifindex l1 ≠ i) as Hni.
      { intros He. apply Hne. eapply (NoDup_lookup (indices links)); [done| |]; unfold indices; rewrite list_lookup_fmap; [by rewrite Hl1|by rewrite Hj; simpl; congruence]. }
      destruct (decide (ln_ifindex l1 ∈ enabled)); [rewrite decide_True by (by right); done|]. rewrite decide_False; [done|]. by intros [?|?]%elem_of_cons.
Qed.

Lemma enable_from_spec fails todo : ∀ k n links, (k + todo = length links)%nat → NoDup (indices links) →
  (∀ j l, links !! j = Some l → arrays (ln_maps l) m_role_flags = if decide (j < k)%nat then role_bits (ln_roles l) else 0) →
  match enable_from fails todo k n (take k (indices links)) links with
  | (Ok _, links') => Forall (λ l, arrays (ln_maps l) m_role_flags = role_bits (ln_roles l)) links' ∧ indices links' = indices links
  | (Err e, links') => ∃ m, (n ≤ m)%nat ∧ fails m = Some e
      ∧ ((∀ m', (m < m')%nat → fails m' = None) → Forall (λ l, arrays (ln_maps l) m_role_flags = 0) links')
  | (Panic, _) => False
  end.
Proof using Type.
  induction todo as [|todo IH]; intros k n links Hlen Hnd Hfl; simpl.
  { split; [|done]. apply Forall_lookup. intros j l Hj. rewrite (Hfl j l Hj). rewrite decide_True; [done|]. apply lookup_lt_Some in Hj. lia. }
  destruct (lookup_lt_is_Some_2 links k ltac:(lia)) as [l Hl]. rewrite Hl. destruct (fails n) as [e|] eqn:Hf.
  - exists n. split_and!; [lia|done|]. intros Hrest. apply Forall_lookup. intros j l' Hj.
    destruct (reset_enabled_clears fails (take k (indices links)) (S n) links) as [_ H2]; [intros m Hm; apply Hrest; lia|done|by intros i ?%subseteq_take|].
    destruct (H2 j l' Hj) as (l0 & Hl0 & _ & ->). case_decide as Hin; [done|]. rewrite (Hfl j l0 Hl0). case_decide as Hjk; [|done].
    destruct Hin. apply (list_elem_of_lookup_2 _ j). rewrite lookup_take_lt by done. unfold indices. by rewrite list_lookup_fmap, Hl0.
  - pose proof (indices_insert links k l (role_bits (ln_roles l)) Hl) as Hidx.
    specialize (IH (S k) (S n) (<[k := set_roles (role_bits (ln_roles l)) l]> links)). rewrite Hidx in IH.
    rewrite (take_S_r _ _ (ln_ifindex l)) in IH by (unfold indices; by rewrite list_lookup_fmap, Hl).
    specialize (IH ltac:(rewrite length_insert; lia) Hnd).
    assert (∀ j l', <[k := set_roles (role_bits (ln_roles l)) l]> links !! j = Some l' →
      arrays (ln_maps l') m_role_flags = if decide (j < S k)%nat then role_bits (ln_roles l') else 0) as Hfl'.
    { intros j l' Hj. destruct (decide (j = k)) as [->|Hne].
      - rewrite list_lookup_insert_eq in Hj by (by eapply lookup_lt_Some). injection Hj as <-. rewrite decide_True by lia. apply set_roles_flags.
      - rewrite list_lookup_insert_ne in Hj by done. rewrite (Hfl j l' Hj). repeat case_decide; (done || lia). }
    specialize (IH Hfl'). destruct (enable_from _ _ _ _ _ _) as [[[]|e|] links']; [done| |done].
    destruct IH as (m & Hm & He & Hz). exists m. split_and!; [lia|done|done].
Qed.

(** The filters are switched on together.  Starting with all of them off, success turns on
    exactly the roles of every link; if a link cannot be switched on, every filter is off
    again (as long as switching off itself does not fail), so that no interface redirects
    packets into a data path that did not start. *)
Theorem enable_classifiers_atomic (fails : nat → option text) (links : list BpfLink) : NoDup (indices links) →
  Forall (λ l, arrays (ln_maps l) m_role_flags = 0) links →
  match enable_bpf_classifiers fails links with
  | (Ok _, links') => Forall (λ l, arrays (ln_maps l) m_role_flags = role_bits (ln_roles l)) links' ∧ indices links' = indices links
  | (Err e, links') => ∃ m, fails m = Some e
      ∧ ((∀ m', (m < m')%nat → fails m' = None) → Forall (λ l, arrays (ln_maps l) m_role_flags = 0) links')
  | (Panic, _) => False
  end.
Proof using Type.
  intros Hnd Hz. unfold enable_bpf_classifiers. pose proof (enable_from_spec fails (length links) 0 0 links eq_refl Hnd) as H. simpl in H.
  specialize (H ltac:(intros j l Hj; by apply (proj1 (Forall_lookup _ _) Hz j l))).
  destruct (enable_from _ _ _ _ _ _) as [[[]|e|] links']; [done| |done]. destruct H as (m & _ & H). by exists m.
Qed.

(** ** Reloading *)

Lemma run_updates_array m us b : (∀ v, SetArray m v ∉ us) → arrays (run_updates us b) m = arrays b m.
Proof using Type.
  revert b. induction us as [|u us IH]; intros b Hn; [done|]. rewrite run_updates_cons, IH by (intros v Hv; apply (Hn v); by right).
  destruct u as [m' v|k v|k v]; simpl; [|done..]. rewrite decide_False; [done|]. intros <-. apply (Hn v). by left.
Qed.

Lemma update_all_none us b : update_all (λ _, None) us b = (Ok tt, mkBpf (run_updates us (b_maps b)) (b_count b + length us)).
Proof using Type.
  revert b. induction us as [|u us IH]; intros b; simpl; [by rewrite Nat.add_0_r; destruct b|]. unfold sbind, update_pinned_map. rewrite IH. simpl.
  do 2 f_equal. lia.
Qed.

Lemma configure_clears_roles ifindex local_ips roles port c dns_if b r b' :
  configure_bpf_maps (λ _, None) ifindex local_ips roles port c dns_if b = (r, b') → arrays (b_maps b') m_role_flags = 0.
Proof using Type.
  unfold configure_bpf_maps. cbv zeta. set (dns := if _ && _ then ap_dns c else None). unfold sbind. rewrite !update_all_none. simpl b_maps.
  set (us := address_updates _ _ _). set (vs := resolver_updates _ _).
  assert (arrays (run_updates us (b_maps b)) m_role_flags = 0) as H0.
  { unfold us, address_updates. cbn [app]. rewrite !run_updates_cons, run_updates_array; [done|].
    intros v Hv. repeat (apply elem_of_app in Hv as [Hv|Hv] || apply elem_of_cons in Hv as [Hv|Hv]); try done; try (by apply elem_of_nil in Hv);
      unfold when_some in Hv; repeat case_match; set_solver. }
  assert (arrays (run_updates vs (run_updates us (b_maps b))) m_role_flags = 0) as H1.
  { rewrite run_updates_array; [done|]. intros v Hv. unfold vs, resolver_updates in Hv. cbn [app] in Hv.
    repeat (apply elem_of_app in Hv as [Hv|Hv] || apply elem_of_cons in Hv as [Hv|Hv]); try done; try (by apply elem_of_nil in Hv);
      unfold when_some in Hv; repeat case_match; set_solver. }
  destruct (cl_intercept roles); [|by intros [= <- <-]]. unfold slift. destruct (policy_choice c) as [[[mode prefixes] action]| |]; [|by intros [= <- <-]..].
  rewrite update_all_none. intros [= <- <-]. simpl. rewrite run_updates_array; [done|]. intros v Hv. unfold policy_updates in Hv. cbn [app] in Hv.
  rewrite !elem_of_app, !list_elem_of_fmap in Hv.
  destruct Hv as [(p & Hp & _)|[(p & Hp & _)|(p & Hp & _)]]; [unfold prefix_update in Hp; by destruct (ipnet_network p)|by destruct p..].
Qed.

End configure.

(** ** A sample policy *)

Definition sample_prefix_contains (p : IpAddr * Z) (a : IpAddr) : bool :=
  bool_decide (family (ipnet_network p) = family a ∧ lpm_matches (bits_of a) (value_of a) (ipnet_prefix_len p, value_of (ipnet_network p))).

Lemma sample_prefix_laws : prefix_laws sample_prefix_contains.
Proof. split; [intros [[a|a] n]; simpl; unfold net_len; simpl; lia|]. intros p a. unfold sample_prefix_contains. by rewrite bool_decide_eq_true. Qed.

Definition sample_roles : IoClassifiers := mkClassifiers true true.
Definition sample_packet_to : bytes := [0x45; 0; 0; 20; 0; 0; 0; 0; 64; 17; 0; 0; 192; 0; 2; 1; 10; 1; 2; 3].
Definition sample_configure (c : ApplianceConfig (IpAddr * Z)) : outcome text unit * Bpf :=
  configure_bpf_maps (λ _, None) 9 [V4 0xc6336401] sample_roles 443 c None (mkBpf maps_loaded 0).


Definition sample_links : list BpfLink := [mkBpfLink 4 maps_loaded (mkClassifiers false true); mkBpfLink 9 maps_loaded (mkClassifiers true false)].

Lemma enable_classifiers_atomic_witness :
  match enable_bpf_classifiers (λ n, if decide (n = 1%nat) then Some (txt "EPERM") else None) sample_links with
  | (Ok _, _) => False
  | (Err e, links') => Forall (λ l, arrays (ln_maps l) m_role_flags = 0) links'
  | (Panic, _) => False
  end.
Proof.
  assert (NoDup (indices sample_links)) as Hnd by (apply (bool_decide_unpack _); vm_compute; exact I).
  assert (Forall (λ l, arrays (ln_maps l) m_role_flags = 0) sample_links) as Hz by (repeat constructor).
  pose proof (enable_classifiers_atomic (λ n, if decide (n = 1%nat) then Some (txt "EPERM") else None) sample_links Hnd Hz) as H.
  destruct (enable_bpf_classifiers _ sample_links) as [[[]|e|] links'] eqn:He; [vm_compute in He; discriminate He| |done].
  destruct H as (m & Hm & Hzero). apply Hzero. intros m' Hlt. destruct (decide (m = 1%nat)) as [->|]; [|discriminate Hm]. rewrite decide_False by lia. reflexivity.
Defined.


(** A prefix that a reload drops stays in the kernel's table: writing the policy again only
    adds entries. *)
Example reload_keeps_dropped_prefix :
  allowed_v4 (run_updates [prefix_update (IpNet := IpAddr * Z) POLICY_ACTION_REDIRECT (V4 0x0b000000, 8)]
    (run_updates [prefix_update (IpNet := IpAddr * Z) POLICY_ACTION_REDIRECT (V4 0x0a000000, 8)] maps_loaded)) !! (8, 0x0a000000)
  = Some POLICY_ACTION_REDIRECT.
Proof. vm_compute. reflexivity. Qed.
