(* ===== verification/Loader.v ===== *)
(** The owner of the filter on an interface ([src/src/xdp_datapath/loader.rs]): attaching
    the program, the record that lets a later process take over after a crash, and the
    clean-up when the owner goes away.

    [Host] is what the process shares with the system: the program attached to the
    interface, the pin directory with the program in it, the owner record and the temporary
    object file.  The
    [bpftool] commands act on it as they are documented: [net attach] does not replace a
    program.  The JSON of [net show] is a parameter.  Every operation of the system may
    fail; [fails n] is the error of the [n]-th one.  The lock that keeps a second process
    of this program away is left out. *)
From S2P Require Import Prelude Net Text Config.

(** ** JSON *)

(** [serde_json::Value]; an object lists its fields in the order of their names. *)
Inductive Json : Type :=
| JNull
| JBool (b : bool)
| JNumber (n : Z)
| JString (s : text)
| JArray (values : list Json)
| JObject (fields : list (text * Json)).

Definition as_u64 (value : Json) : option Z :=
  match value with JNumber n => if decide (0 ≤ n < 2 ^ 64) then Some n else None | _ => None end.

(** [fields.get(name)]. *)
Fixpoint get_field (name : text) (fields : list (text * Json)) : option Json :=
  match fields with
  | [] => None
  | (k, v) :: fields => if decide (k = name) then Some v else get_field name fields
  end.

Definition or_else {A : Type} (a b : option A) : option A := match a with Some _ => a | None => b end.

Fixpoint find_program_id (value : Json) : option Z :=
  match value with
  | JObject fields =>
      or_else (get_field (txt "id") fields ≫= as_u64)
        ((fix find_map (fields : list (text * Json)) : option Z :=
            match fields with [] => None | f :: fields => or_else (find_program_id f.2) (find_map fields) end) fields)
  | JArray values =>
      (fix find_map (values : list Json) : option Z :=
         match values with [] => None | v :: values => or_else (find_program_id v) (find_map values) end) values
  | _ => None
  end.

Fixpoint find_xdp_program_id (value : Json) : option Z :=
  match value with
  | JObject fields =>
      or_else (get_field (txt "xdp") fields ≫= find_program_id)
        ((fix find_map (fields : list (text * Json)) : option Z :=
            match fields with [] => None | f :: fields => or_else (find_xdp_program_id f.2) (find_map fields) end) fields)
  | JArray values =>
      (fix find_map (values : list Json) : option Z :=
         match values with [] => None | v :: values => or_else (find_xdp_program_id v) (find_map values) end) values
  | _ => None
  end.

(** ** The owner record *)

Record OwnerRecord : Type := mkOwner { program_id : Z; owner_mode : XdpAttachMode }.

(** [Display] of an unsigned integer. *)
Fixpoint decimal_from (fuel : nat) (n : Z) (rest : text) : text :=
  match fuel with
  | O => rest
  | S fuel => if decide (n < 10) then (48 + n) :: rest else decimal_from fuel (n / 10) ((48 + n mod 10) :: rest)
  end.
Definition decimal (n : Z) : text := decimal_from 20 n [].

Definition mode_name (mode : XdpAttachMode) : text := match mode with Native => txt "native" | Skb => txt "skb" end.

(** What [writeln!] writes. *)
Definition owner_text (owner : OwnerRecord) : text := decimal (program_id owner) ++ [32] ++ mode_name (owner_mode owner) ++ [10].

Inductive LoaderError : Type :=
| LoaderIo (message : text)
| MissingProgramId | InvalidProgramId | InvalidMode | ExtraFields
| Unowned (attached : Z) | NoLongerOwned (owned : Z) | AttachmentMismatch (owned : Z) | NoNumericId.

Definition split_whitespace (s : text) : list text := filter (λ w, w ≠ []) (split is_whitespace s).

(** [read_owner_record] on the text of the file. *)
Definition parse_owner_record (contents : text) : outcome LoaderError OwnerRecord :=
  match split_whitespace contents with
  | [] => Err MissingProgramId
  | id :: fields =>
      let? program_id := ok_or (from_str_radix 10 (2 ^ 64) id) InvalidProgramId in
      let? mode := match fields with
                   | mode :: _ => if decide (mode = txt "native") then Ok Native else if decide (mode = txt "skb") then Ok Skb else Err InvalidMode
                   | [] => Err InvalidMode
                   end in
      match fields with
      | _ :: _ :: _ => Err ExtraFields
      | _ => Ok (mkOwner program_id mode)
      end
  end.

(** ** The host *)

Record Host : Type := mkHost {
  h_attached : option Z;
  h_pinned : option (option Z);
  h_owner : option text;
  h_object : bool;
  h_calls : nat;
}.

Record BpfLinkManager : Type := mkManager { mg_mode : XdpAttachMode; mg_owned : option Z }.

Definition with_attached (a : option Z) (h : Host) : Host := mkHost a (h_pinned h) (h_owner h) (h_object h) (h_calls h).
Definition with_pinned (p : option (option Z)) (h : Host) : Host := mkHost (h_attached h) p (h_owner h) (h_object h) (h_calls h).
Definition with_owner (o : option text) (h : Host) : Host := mkHost (h_attached h) (h_pinned h) o (h_object h) (h_calls h).
Definition with_object (o : bool) (h : Host) : Host := mkHost (h_attached h) (h_pinned h) (h_owner h) o (h_calls h).
Definition called (h : Host) : Host := mkHost (h_attached h) (h_pinned h) (h_owner h) (h_object h) (S (h_calls h)).

Section loader.
Context (fails : nat → option text) (net_show : option Z → Json).

Abbreviation HostM := (ST Host LoaderError).

(** One system operation. *)
Definition system (f : Host → Host) : HostM unit := λ h,
  match fails (h_calls h) with Some e => (Err (LoaderIo e), called h) | None => (Ok tt, called (f h)) end.
(** [let _ = ..]. *)
Definition ignore (c : HostM unit) : HostM unit := λ h, (Ok tt, (c h).2).
(** Cleaning up before an error is returned. *)
Definition on_error {A : Type} (cleanup : HostM unit) (c : HostM A) : HostM A := λ h,
  match c h with (Err e, h) => (Err e, (cleanup h).2) | r => r end.

Definition attached_program_id : HostM (option Z) := λ h,
  match fails (h_calls h) with Some e => (Err (LoaderIo e), called h) | None => (Ok (find_xdp_program_id (net_show (h_attached h))), called h) end.

(** [bpftool net attach]: refused while another program is attached. *)
Definition net_attach (id : Z) : HostM unit := λ h,
  match h_attached h with
  | Some _ => (Err (LoaderIo (txt "Device or resource busy")), called h)
  | None => system (with_attached (Some id)) h
  end.

Definition write_embedded_xdp_object : HostM unit := system (with_object true).
Definition remove_object : HostM unit := system (with_object false).
Definition remove_pins : HostM unit := system (with_pinned None).

Definition read_owner_record : HostM (option OwnerRecord) := λ h,
  match fails (h_calls h) with
  | Some e => (Err (LoaderIo e), called h)
  | None =>
      (match h_owner h with
       | None => Ok None
       | Some contents => let? owner := parse_owner_record contents in Ok (Some owner)
       end, called h)
  end.

(** The temporary file and its rename are one operation: the record is replaced whole. *)
Definition write_owner_record (owner : OwnerRecord) : HostM unit := system (with_owner (Some (owner_text owner))).
Definition remove_owner_record : HostM unit := system (with_owner None).

Definition detach_owned_stale_attachment : HostM unit :=
  let! record := read_owner_record in
  match record with
  | None => sret tt
  | Some owner =>
      let! attached_id := attached_program_id in
      match attached_id with
      | Some attached =>
          if decide (attached ≠ program_id owner) then ignore remove_owner_record ;;; serr (NoLongerOwned (program_id owner))
          else system (with_attached None) ;;; remove_owner_record
      | None => remove_owner_record
      end
  end.

(** [bpftool prog loadall], then the object file is removed whatever came of it. *)
Definition load_and_remove (new_id : Z) : HostM unit := λ h,
  let '(load_result, h) := system (with_pinned (Some (Some new_id))) h in
  let '(remove_result, h) := remove_object h in
  ((let? _ := load_result in remove_result), h).

(** [attach] from the object file on; [new_id] is the identifier the kernel gives the
    program that is loaded. *)
Definition attach_program (mode : XdpAttachMode) (new_id : Z) : ST (Host * BpfLinkManager) LoaderError unit :=
  let host {A : Type} (c : HostM A) : ST (Host * BpfLinkManager) LoaderError A := szoom fst (λ h s, (h, s.2)) c in
  let! _ := host write_embedded_xdp_object in
  let! _ := host (on_error remove_object detach_owned_stale_attachment) in
  let! attached := host (on_error remove_object attached_program_id) in
  let! _ := match attached with
            | Some attached => host (ignore remove_object) ;;; serr (Unowned attached)
            | None => sret tt
            end in
  let! exists_ := host (λ h, (Ok (match h_pinned h with Some _ => true | None => false end), h)) in
  let! _ := if (exists_ : bool) then host remove_pins else sret tt in
  let! _ := host (on_error (ignore remove_object) (system (with_pinned (Some None)))) in
  let! _ := host (on_error (ignore remove_object ;;; ignore remove_pins) (system id)) in
  let! _ := host (on_error (ignore remove_pins) (load_and_remove new_id)) in
  let! id := host (λ h, match fails (h_calls h) with
                        | Some e => (Err (LoaderIo e), called h)
                        | None => (ok_or (mjoin (h_pinned h)) NoNumericId, called h)
                        end) in
  let! again := host (λ h, match attached_program_id h with (Ok a, h) => (Ok a, h) | (_, h) => (Ok None, h) end) in
  let! _ := match again with
            | Some attached => host (ignore remove_pins) ;;; serr (Unowned attached)
            | None => sret tt
            end in
  let! _ := host (on_error (ignore remove_pins) (net_attach id)) in
  let! _ := λ s, (Ok tt, (s.1, mkManager (mg_mode s.2) (Some id))) in
  let! now := host attached_program_id in
  if decide (now ≠ Some id) then serr (AttachmentMismatch id) else
  host (write_owner_record (mkOwner id mode)).

(** [Drop]. *)
Definition drop_artifacts : HostM unit := ignore remove_owner_record ;;; ignore remove_pins.

Definition drop_manager (m : BpfLinkManager) : HostM unit := λ h,
  match mg_owned m with
  | None => drop_artifacts h
  | Some owned =>
      match attached_program_id h with
      | (Ok (Some attached), h) =>
          if decide (attached = owned) then
            match system (with_attached None) h with
            | (Ok _, h) =>
                match attached_program_id h with
                | (Ok (Some attached), h) => if decide (attached = owned) then (Ok tt, h) else drop_artifacts h
                | (Ok None, h) => drop_artifacts h
                | (_, h) => (Ok tt, h)
                end
            | (_, h) => (Ok tt, h)
            end
          else drop_artifacts h
      | (Ok None, h) => drop_artifacts h
      | (_, h) => (Ok tt, h)
      end
  end.

(** [BpfLinkManager::attach]: on every error the manager that was built goes out of scope. *)
Definition attach (mode : XdpAttachMode) (new_id : Z) : ST Host LoaderError BpfLinkManager := λ h,
  match attach_program mode new_id (h, mkManager mode None) with
  | (Ok _, (h, m)) => (Ok m, h)
  | (Err e, (h, m)) => (Err e, (drop_manager m h).2)
  | (Panic, (h, _)) => (Panic, h)
  end.
End loader.
