(* ===== verification/LoaderClaims.v ===== *)
(** A filter of another program is never touched, and a crashed owner is recovered. *)
From S2P Require Import Prelude Net PacketFacts Text Config Loader.

(** ** The record survives being written and read *)

Lemma digits_decimal fuel : ∀ n rest acc limit, 0 ≤ n < 10 ^ Z.of_nat fuel → (fuel ≠ 0)%nat → 0 ≤ acc → acc * 10 ^ Z.of_nat fuel + n < limit → acc = 0 →
  digits 10 limit acc (decimal_from fuel n rest) = digits 10 limit n rest.
Proof.
  induction fuel as [|fuel IH]; intros n rest acc limit Hn Hf Hacc Hlt ->; [done|]. cbn [decimal_from]. rewrite Nat2Z.inj_succ, Z.pow_succ_r in Hn by lia.
  assert (∀ d, 0 ≤ d < 10 → to_digit 10 (48 + d) = Some d) as Hd.
  { intros d Hd. unfold to_digit. destruct (decide (48 ≤ 48 + d ≤ 57)); [|lia]. cbv zeta. rewrite decide_True by lia. f_equal. lia. }
  case_decide as H10.
  - cbn [digits]. rewrite Hd by lia. replace (0 * 10 + n) with n by lia. by rewrite decide_True by lia.
  - assert (fuel ≠ 0%nat) by (intros ->; simpl in Hn; lia). pose proof (Z.div_pos n 10). pose proof (Z.mod_pos_bound n 10). pose proof (Z.div_mod n 10).
    assert (n / 10 < 10 ^ Z.of_nat fuel) by (apply Z.div_lt_upper_bound; lia).
    rewrite IH; [|lia|done|lia|lia|done]. cbn [digits]. rewrite Hd by lia. replace (n / 10 * 10 + n mod 10) with n by lia. by rewrite decide_True by lia.
Qed.

Lemma decimal_head fuel : ∀ n rest, 0 ≤ n → (fuel ≠ 0)%nat → ∃ c s, decimal_from fuel n rest = c :: s ++ rest ∧ 48 ≤ c ≤ 57 ∧ Forall (λ c, 48 ≤ c ≤ 57) s.
Proof.
  induction fuel as [|fuel IH]; intros n rest Hn Hf; [done|]. cbn [decimal_from]. pose proof (Z.mod_pos_bound n 10). pose proof (Z.div_pos n 10). case_decide.
  - exists (48 + n), []. split_and!; [done|lia|lia|done].
  - destruct fuel as [|fuel]; [exists (48 + n mod 10), []; split_and!; [done|lia|lia|done]|].
    destruct (IH (n / 10) ((48 + n mod 10) :: rest)) as (c & s & -> & Hc & Hs); [lia|done|]. exists c, (s ++ [48 + n mod 10]).
    split_and!; [by rewrite <- app_assoc|lia|lia|]. apply Forall_app. split; [done|]. apply Forall_singleton. lia.
Qed.

Lemma parse_decimal n : fits 64 n → from_str_radix 10 (2 ^ 64) (decimal n) = Some n.
Proof.
  intros [H0 Hn]. unfold decimal. pose proof (digits_decimal 20 n [] 0 (2 ^ 64)) as Hd. specialize (Hd ltac:(simpl; lia) ltac:(done) ltac:(lia) ltac:(lia) eq_refl).
  destruct (decimal_head 20 n [] H0 ltac:(done)) as (c & s & Heq & Hc & _). rewrite Heq in Hd |- *. unfold from_str_radix. rewrite decide_False by lia. done.
Qed.

Lemma split_cons p s : ∃ w ws, split p s = w :: ws.
Proof. destruct s as [|c s]; simpl; [by eexists _, _|]. destruct (p c); [by eexists _, _|]. by destruct (split p s); eexists _, _. Qed.

Lemma split_no p s rest : Forall (λ c, p c = false) s → split p (s ++ rest) = match split p rest with w :: ws => (s ++ w) :: ws | [] => [] end.
Proof.
  destruct (split_cons p rest) as (w & ws & Hr). rewrite Hr. induction 1 as [|c s Hc _ IH]; simpl; [done|]. by rewrite Hc, IH.
Qed.

Lemma owner_record_roundtrip owner : fits 64 (program_id owner) → parse_owner_record (owner_text owner) = Ok owner.
Proof.
  intros Hid. destruct owner as [n mode]. simpl in Hid. unfold parse_owner_record, split_whitespace, owner_text. simpl program_id. simpl owner_mode.
  destruct (decimal_head 20 n [] (proj1 Hid) ltac:(done)) as (c & s & Heq & Hc & Hs). rewrite app_nil_r in Heq. fold (decimal n) in Heq.
  assert (Forall (λ c, is_whitespace c = false) (decimal n)) as Hw.
  { assert (∀ c, 48 ≤ c ≤ 57 → is_whitespace c = false) as Hd by (intros x Hx; apply bool_decide_eq_false; lia).
    rewrite Heq. constructor; [by apply Hd|]. eapply Forall_impl; [exact Hs|]. exact Hd. }
  assert (decimal n ≠ []) as Hne by (by rewrite Heq).
  assert (split is_whitespace ([32] ++ mode_name mode ++ [10]) = [[]; mode_name mode; []]) as Hm by (by destruct mode; vm_compute).
  rewrite (split_no _ _ _ Hw), Hm, app_nil_r. rewrite filter_cons_True by done. rewrite parse_decimal by done. by destruct mode.
Qed.

(** ** What stays untouched *)

(** What [bpftool net show] prints names the attached program and no other. *)
Definition shows_attached (net_show : option Z → Json) : Prop := ∀ a, (∀ id, a = Some id → fits 64 id) → find_xdp_program_id (net_show a) = a.

Section safety.
Context (net_show : option Z → Json) (Hshow : shows_attached net_show).

(** The state of the host as far as the programs [ours], loaded by this software, matter;
    a foreign program [keep] stays attached. *)
Record good (ours : gset Z) (keep : option Z) (h : Host) : Prop := {
  gd_owner : ∀ t, h_owner h = Some t → ∃ r, t = owner_text r ∧ program_id r ∈ ours;
  gd_pinned : ∀ id, h_pinned h = Some (Some id) → id ∈ ours;
  gd_attached : ∀ id, h_attached h = Some id → fits 64 id;
  gd_ours : ∀ id, id ∈ ours → fits 64 id;
  gd_keep : ∀ p, keep = Some p → h_attached h = Some p ∧ p ∉ ours;
}.

(** The same with a manager. *)
Definition good_pair (ours : gset Z) (keep : option Z) (s : Host * BpfLinkManager) : Prop :=
  good ours keep s.1 ∧ ∀ id, mg_owned s.2 = Some id → id ∈ ours.

(** Computations that preserve a property of the state and return values with another. *)
Definition upholds {S E A : Type} (P : S → Prop) (c : ST S E A) (R : A → Prop) : Prop :=
  ∀ s, P s → P (c s).2 ∧ (∀ a, (c s).1 = Ok a → R a) ∧ no_panic (c s).1.

Lemma upholds_bind {S E A B} (P : S → Prop) (c : ST S E A) (k : A → ST S E B) R Q :
  upholds P c R → (∀ a, R a → upholds P (k a) Q) → upholds P (sbind c k) Q.
Proof using Type.
  intros Hc Hk s Hs. destruct (Hc s Hs) as (H1 & H2 & H3). unfold sbind. destruct (c s) as [[a|e|] s']; simpl in *; [by apply Hk; [apply H2|]| |done].
  split_and!; [done|by intros|done].
Qed.
Lemma upholds_ret {S E A} (P : S → Prop) (a : A) (R : A → Prop) : R a → upholds (E := E) P (sret a) R.
Proof using Type. intros Ha s Hs. split_and!; [done|by intros ? [= <-]|done]. Qed.
Lemma upholds_err {S E A} (P : S → Prop) (e : E) (R : A → Prop) : upholds P (serr e) R.
Proof using Type. intros s Hs. by split_and!. Qed.

Context (fails : nat → option text) (ours : gset Z) (keep : option Z).
Abbreviation ok := (good ours keep).

Lemma good_called h : ok h → ok (called h).
Proof using Type. intros [? ? ? ? ?]. by split. Qed.

Lemma upholds_system f : (∀ h, ok h → ok (f h)) → upholds ok (system fails f) (λ _, True).
Proof using Type.
  intros Hf h Hh. unfold system. destruct (fails (h_calls h)); simpl; (split_and!; [|done|done]); apply good_called; auto.
Qed.
Lemma upholds_ignore c : upholds ok c (λ _, True) → upholds ok (ignore c) (λ _, True).
Proof using Type. intros Hc h Hh. destruct (Hc h Hh) as (H1 & _). by split_and!. Qed.
Lemma upholds_on_error {A} cleanup (c : ST Host LoaderError A) R : upholds ok cleanup (λ _, True) → upholds ok c R → upholds ok (on_error cleanup c) R.
Proof using Type.
  intros Hcl Hc h Hh. destruct (Hc h Hh) as (H1 & H2 & H3). unfold on_error. destruct (c h) as [[a|e|] h']; simpl in *; [by split_and!| |done].
  split_and!; [by apply Hcl|done|done].
Qed.

Lemma good_object o h : ok h → ok (with_object o h).
Proof using Type. intros [? ? ? ? ?]. by split. Qed.
Lemma good_pinned p h : (∀ id, p = Some (Some id) → id ∈ ours) → ok h → ok (with_pinned p h).
Proof using Type. intros ? [? ? ? ? ?]. by split. Qed.
Lemma good_no_owner h : ok h → ok (with_owner None h).
Proof using Type. intros [? ? ? ? ?]. by split. Qed.
Lemma good_owner r h : program_id r ∈ ours → ok h → ok (with_owner (Some (owner_text r)) h).
Proof using Type. intros ? [? ? ? ? ?]. split; try done. intros t [= <-]. by exists r. Qed.

Lemma upholds_remove_object : upholds ok (remove_object fails) (λ _, True).
Proof using Type. apply upholds_system, good_object. Qed.
Lemma upholds_remove_pins : upholds ok (remove_pins fails) (λ _, True).
Proof using Type. apply upholds_system. intros. by apply good_pinned. Qed.
Lemma upholds_remove_owner : upholds ok (remove_owner_record fails) (λ _, True).
Proof using Type. apply upholds_system, good_no_owner. Qed.

Lemma attached_reads h : ok h → ∃ r, attached_program_id fails net_show h = (r, called h) ∧ no_panic r ∧ (r = Ok (h_attached h) ∨ ∃ e, r = Err e).
Proof using Hshow.
  intros Hh. unfold attached_program_id. destruct (fails (h_calls h)); [eexists; split_and!; [done|done|right; by eexists]|].
  rewrite (Hshow (h_attached h) (gd_attached _ _ _ Hh)). eexists. split_and!; [done|done|by left].
Qed.
Lemma upholds_attached : upholds ok (attached_program_id fails net_show) (λ _, True).
Proof using Hshow. intros h Hh. destruct (attached_reads h Hh) as (r & -> & Hr & _). split_and!; [by apply good_called|done|done]. Qed.

(** A program that is kept is not one of ours. *)
Lemma keep_foreign h id : ok h → h_attached h = Some id → id ∈ ours → keep = None.
Proof using Type. intros Hh Ha Hin. destruct keep as [p|] eqn:Hk; [|done]. destruct (gd_keep _ _ _ Hh p eq_refl) as [Hp Hn]. congruence. Qed.
Lemma good_detached h : keep = None → ok h → ok (with_attached None h).
Proof using Type. intros -> [? ? ? ? ?]. by split. Qed.

Lemma upholds_read_owner : upholds ok (read_owner_record fails) (λ record, ∀ owner, record = Some owner → program_id owner ∈ ours).
Proof using Type.
  intros h Hh. unfold read_owner_record. destruct (fails (h_calls h)); [split_and!; [by apply good_called|done|done]|].
  destruct (h_owner h) as [t|] eqn:Ho; [|split_and!; [by apply good_called|by intros ? [= <-]|done]].
  destruct (gd_owner _ _ _ Hh t Ho) as (owner & -> & Hin). rewrite owner_record_roundtrip by (by apply (gd_ours _ _ _ Hh)). cbn [obind].
  split_and!; [by apply good_called| |done]. by intros ? [= <-] ? [= <-].
Qed.

Lemma upholds_attached_ours : upholds ok (attached_program_id fails net_show) (λ a, ∀ id, a = Some id → id ∈ ours → keep = None).
Proof using Hshow.
  intros h Hh. destruct (attached_reads h Hh) as (r & -> & Hnp & Hr). split_and!; [by apply good_called| |done]. simpl.
  destruct Hr as [->|(e & ->)]; [|done]. intros a [= <-] id Ha. by apply (keep_foreign h).
Qed.

Lemma upholds_detach_stale : upholds ok (detach_owned_stale_attachment fails net_show) (λ _, True).
Proof using Hshow.
  eapply upholds_bind; [apply upholds_read_owner|]. intros [owner|] Hin; [|by apply upholds_ret]. specialize (Hin owner eq_refl).
  eapply upholds_bind; [apply upholds_attached_ours|]. intros [attached|] Hkeep; [|apply upholds_remove_owner]. case_decide as Hne.
  - apply (upholds_bind _ _ _ (λ _, True)); [apply upholds_ignore, upholds_remove_owner|intros; apply upholds_err].
  - apply (upholds_bind _ _ _ (λ _, True)); [|intros; apply upholds_remove_owner]. apply upholds_system. intros h Hh. apply good_detached; [|done].
    apply (Hkeep attached eq_refl). destruct (decide (attached = program_id owner)) as [->|]; [done|tauto].
Qed.

Lemma upholds_load new_id : new_id ∈ ours → upholds ok (load_and_remove fails new_id) (λ _, True).
Proof using Type.
  intros Hin h Hh. unfold load_and_remove.
  destruct (upholds_system (with_pinned (Some (Some new_id))) ltac:(intros; apply good_pinned; [by intros ? [= <-]|done]) h Hh) as (H1 & _ & H3).
  destruct (system fails _ h) as [r h1]. destruct (upholds_remove_object h1 H1) as (H4 & _ & H6). destruct (remove_object fails h1) as [r' h2]. simpl in *.
  split_and!; [done|done|]. by destruct r.
Qed.

Lemma upholds_attach_net id : id ∈ ours → upholds ok (net_attach fails id) (λ _, True).
Proof using Type.
  intros Hin h Hh. unfold net_attach. destruct (h_attached h) as [a|] eqn:Ha; [split_and!; [by apply good_called|done|done]|].
  unfold system. destruct (fails (h_calls h)); (split_and!; [|done|done]); apply good_called; [done|].
  destruct Hh as [? ? Hat Hfit Hkeep]. split; try done; simpl; [intros x [= <-]; by apply Hfit|].
  intros p Hp. destruct (Hkeep p Hp) as [? ?]. congruence.
Qed.

Lemma upholds_artifacts : upholds ok (drop_artifacts fails) (λ _, True).
Proof using Type. apply (upholds_bind _ _ _ (λ _, True)); [apply upholds_ignore, upholds_remove_owner|intros; apply upholds_ignore, upholds_remove_pins]. Qed.

Lemma drop_good m h : (∀ id, mg_owned m = Some id → id ∈ ours) → ok h → ok (drop_manager fails net_show m h).2.
Proof using Hshow.
  intros Hm Hh. unfold drop_manager. destruct (mg_owned m) as [owned|]; [|by apply upholds_artifacts].
  destruct (attached_reads h Hh) as (r & -> & Hnp & Hr). assert (ok (called h)) as Hc by (by apply good_called).
  destruct Hr as [->|(e & ->)]; [|done]. destruct (h_attached h) as [attached|] eqn:Ha; [|by apply upholds_artifacts].
  case_decide as He; [|by apply upholds_artifacts]. subst attached.
  assert (keep = None) as Hk by (apply (keep_foreign h owned Hh Ha); by apply Hm).
  destruct (upholds_system (with_attached None) ltac:(intros; by apply good_detached) (called h) Hc) as (H1 & _ & _).
  destruct (system fails (with_attached None) (called h)) as [[[]| |] h1]; [|done..]. simpl in H1.
  destruct (attached_reads h1 H1) as (r & -> & Hnp1 & Hr). assert (ok (called h1)) as Hc1 by (by apply good_called).
  destruct Hr as [->|(e & ->)]; [|done]. destruct (h_attached h1); [case_decide; [done|]|]; by apply upholds_artifacts.
Qed.

(** Lifting to the pair. *)
Lemma upholds_host {A} (c : ST Host LoaderError A) R : upholds ok c R → upholds (good_pair ours keep) (szoom fst (λ h s, (h, s.2)) c) R.
Proof using Type.
  intros Hc s [Hs Hm]. destruct (Hc s.1 Hs) as (H1 & H2 & H3). unfold szoom. destruct (c s.1) as [r h]. by split_and!.
Qed.

Lemma upholds_attach_program mode new_id : new_id ∈ ours → upholds (good_pair ours keep) (attach_program fails net_show mode new_id) (λ _, True).
Proof using Hshow.
  intros Hin. unfold attach_program. cbv zeta.
  apply (upholds_bind _ _ _ (λ _, True)); [apply upholds_host, upholds_system, good_object|intros _ _].
  apply (upholds_bind _ _ _ (λ _, True)); [apply upholds_host, upholds_on_error; [apply upholds_remove_object|apply upholds_detach_stale]|intros _ _].
  apply (upholds_bind _ _ _ (λ _, True)); [apply upholds_host, upholds_on_error; [apply upholds_remove_object|apply upholds_attached]|intros attached _].
  apply (upholds_bind _ _ _ (λ _, True)).
  { destruct attached; [|by apply upholds_ret]. apply (upholds_bind _ _ _ (λ _, True)); [apply upholds_host, upholds_ignore, upholds_remove_object|intros; apply upholds_err]. }
  intros _ _. apply (upholds_bind _ _ _ (λ _, True)); [apply upholds_host; by intros h Hh; split_and!|intros exists_ _].
  apply (upholds_bind _ _ _ (λ _, True)); [destruct exists_; [apply upholds_host, upholds_remove_pins|by apply upholds_ret]|intros _ _].
  apply (upholds_bind _ _ _ (λ _, True)).
  { apply upholds_host, upholds_on_error; [apply upholds_ignore, upholds_remove_object|]. apply upholds_system. intros. by apply good_pinned. }
  intros _ _. apply (upholds_bind _ _ _ (λ _, True)).
  { apply upholds_host, upholds_on_error; [|by apply upholds_system].
    apply (upholds_bind _ _ _ (λ _, True)); [apply upholds_ignore, upholds_remove_object|intros; apply upholds_ignore, upholds_remove_pins]. }
  intros _ _. apply (upholds_bind _ _ _ (λ _, True)); [apply upholds_host, upholds_on_error; [apply upholds_ignore, upholds_remove_pins|by apply upholds_load]|intros _ _].
  apply (upholds_bind _ _ _ (λ id, id ∈ ours)).
  { apply upholds_host. intros h Hh. destruct (fails (h_calls h)); [split_and!; [by apply good_called|done|done]|].
    split_and!; [by apply good_called| |apply no_panic_ok_or]. simpl. intros id Hid%ok_or_Ok. apply (gd_pinned _ _ _ Hh).
    destruct (h_pinned h) as [[x|]|]; simpl in Hid; congruence. }
  intros id Hid. apply (upholds_bind _ _ _ (λ _, True)).
  { apply upholds_host. intros h Hh. destruct (attached_reads h Hh) as (r & -> & Hnp & Hr). assert (ok (called h)) by (by apply good_called).
    destruct Hr as [->|(e & ->)]; by split_and!. }
  intros again _. apply (upholds_bind _ _ _ (λ _, True)).
  { destruct again; [|by apply upholds_ret]. apply (upholds_bind _ _ _ (λ _, True)); [apply upholds_host, upholds_ignore, upholds_remove_pins|intros; apply upholds_err]. }
  intros _ _. apply (upholds_bind _ _ _ (λ _, True)); [apply upholds_host, upholds_on_error; [apply upholds_ignore, upholds_remove_pins|by apply upholds_attach_net]|intros _ _].
  apply (upholds_bind _ _ _ (λ _, True)).
  { intros s [Hs Hm]. split_and!; [split; [done|]; by intros ? [= <-]|done|done]. }
  intros _ _. apply (upholds_bind _ _ _ (λ _, True)); [apply upholds_host, upholds_attached|intros now _].
  case_decide; [apply upholds_err|]. apply upholds_host, upholds_system. intros h Hh. by apply good_owner.
Qed.

Lemma attach_good mode new_id h : new_id ∈ ours → ok h → ok (attach fails net_show mode new_id h).2 ∧ no_panic (attach fails net_show mode new_id h).1
  ∧ ∀ m id, (attach fails net_show mode new_id h).1 = Ok m → mg_owned m = Some id → id ∈ ours.
Proof using Hshow.
  intros Hin Hh. destruct (upholds_attach_program mode new_id Hin (h, mkManager mode None)) as (H1 & _ & H3); [by split|].
  unfold attach. destruct (attach_program _ _ _ _ _) as [[[]|e|] [h' m]]; destruct H1 as [H1 H2]; simpl in *; [| |done].
  - split_and!; [done|done|]. intros m' id [= <-]. apply H2.
  - split_and!; [by apply drop_good|done|done].
Qed.
End safety.

(** ** The life of an interface *)

(** The host, the manager of the process if one runs, and the programs it loaded so far. *)
Record Life : Type := mkLife { lf_host : Host; lf_manager : option BpfLinkManager; lf_ours : gset Z }.

(** What this software does; [fails] is chosen anew for every step, and the kernel never
    gives the identifier of a program twice. *)
Inductive own_step (net_show : option Z → Json) : Life → Life → Prop :=
| own_attach fails mode new_id h ours r h' : fits 64 new_id → new_id ∉ ours → h_attached h ≠ Some new_id →
    attach fails net_show mode new_id h = (r, h') →
    own_step net_show (mkLife h None ours) (mkLife h' (match r with Ok m => Some m | _ => None end) ({[new_id]} ∪ ours))
| own_drop fails m h ours : own_step net_show (mkLife h (Some m) ours) (mkLife (drop_manager fails net_show m h).2 None ours)
| own_crash m h ours : own_step net_show (mkLife h (Some m) ours) (mkLife h None ours).

(** What others do to the attachment. *)
Inductive other_step : Life → Life → Prop :=
| other_attach h m ours id : fits 64 id → id ∉ ours → other_step (mkLife h m ours) (mkLife (with_attached (Some id) h) m ours)
| other_detach h m ours : other_step (mkLife h m ours) (mkLife (with_attached None h) m ours).

Inductive life_run (net_show : option Z → Json) : Life → Life → Prop :=
| life_nil s : life_run net_show s s
| life_own s s' s'' : life_run net_show s s' → own_step net_show s' s'' → life_run net_show s s''
| life_other s s' s'' : life_run net_show s s' → other_step s' s'' → life_run net_show s s''.

(** An interface this software was never on. *)
Definition pristine (attached : option Z) : Life := mkLife (mkHost attached None None false 0) None ∅.

Definition life_ok (keep : option Z) (s : Life) : Prop :=
  good (lf_ours s) keep (lf_host s) ∧ ∀ m id, lf_manager s = Some m → mg_owned m = Some id → id ∈ lf_ours s.

Lemma good_more ours keep h id : good ours keep h → fits 64 id → (∀ p, keep = Some p → p ≠ id) → good ({[id]} ∪ ours) keep h.
Proof.
  intros [G1 G2 G3 G4 G5] Hid Hk. split; [intros t Ht; destruct (G1 t Ht) as (r & ? & ?); exists r; set_solver|set_solver|done|set_solver|].
  intros p Hp. destruct (G5 p Hp). split; [done|]. specialize (Hk p Hp). set_solver.
Qed.

Lemma own_step_ok net_show keep s s' : shows_attached net_show → life_ok keep s → own_step net_show s s' → life_ok keep s'.
Proof.
  intros Hshow [Hg Hm] Hstep. destruct Hstep as [fails mode new_id h ours r h' Hid Hnew Hne Hat|fails m h ours|m h ours]; simpl in *.
  - assert (good ({[new_id]} ∪ ours) keep h) as Hg'.
    { apply good_more; [done|done|]. intros p Hp. destruct (gd_keep _ _ _ Hg p Hp). congruence. }
    destruct (attach_good net_show Hshow fails ({[new_id]} ∪ ours) keep mode new_id h ltac:(set_solver) Hg') as (H1 & _ & H3). rewrite Hat in H1, H3. simpl in *.
    split; [done|]. simpl. intros m id Hm' Ho. destruct r; [|done..]. injection Hm' as ->. by eapply H3.
  - split; [|done]. simpl. apply drop_good; [done| |done]. intros id. by apply Hm.
  - by split.
Qed.

Lemma life_run_ok net_show attached s : shows_attached net_show → (∀ id, attached = Some id → fits 64 id) →
  life_run net_show (pristine attached) s → life_ok None s.
Proof.
  intros Hshow Ha Hrun. remember (pristine attached) as s0 eqn:Hs0. induction Hrun as [s|s s' s'' _ IH Hstep|s s' s'' _ IH Hstep].
  - subst s. split; [|done]. split; simpl; (done || set_solver).
  - eapply own_step_ok; [done|by apply IH|done].
  - specialize (IH Hs0). destruct IH as [[G1 G2 G3 G4 G5] Hm]. destruct Hstep as [h m ours id Hid Hn|h m ours]; simpl in *; (split; [split|]); simpl; try done.
    by intros x [= <-].
Qed.

(** C19: A program that others attached is never disturbed.  In any history of attach attempts,
    shutdowns, crashes and meddling by other tools, with any of the system's operations
    failing, if the interface carries a program that this software did not load, then
    after its next attach or shutdown that program is still attached; and no step panics. *)
Theorem foreign_program_untouched (net_show : option Z → Json) (attached : option Z) (s s' : Life) (p : Z) :
  shows_attached net_show → (∀ id, attached = Some id → fits 64 id) → life_run net_show (pristine attached) s →
  own_step net_show s s' → h_attached (lf_host s) = Some p → p ∉ lf_ours s → h_attached (lf_host s') = Some p.
Proof.
  intros Hshow Ha Hrun Hstep Hp Hn. destruct (life_run_ok _ _ _ Hshow Ha Hrun) as [[G1 G2 G3 G4 _] Hm].
  assert (life_ok (Some p) s) as Hok by (split; [split; try done; by intros ? [= <-]|done]).
  destruct (own_step_ok _ _ _ _ Hshow Hok Hstep) as [Hg _]. by destruct (gd_keep _ _ _ Hg p eq_refl).
Qed.

Section recovery.
Context (net_show : option Z → Json) (E0 : find_xdp_program_id (net_show None) = None).
Abbreviation none := (λ _ : nat, @None text).

Lemma ex_run {S E A B} (c : ST S E A) (k : A → ST S E B) s a s' (f : nat → outcome E B * S) : c s = (Ok a, s') →
  (∃ n, k a s' = f n) → ∃ n, sbind c k s = f n.
Proof using Type. intros Hc (n & Hn). exists n. by rewrite (sbind_run _ _ _ _ _ Hc). Qed.

Lemma detach_stale_run a pinned stale obj n : fits 64 (program_id stale) → find_xdp_program_id (net_show a) = a → a = Some (program_id stale) ∨ a = None →
  ∃ n', detach_owned_stale_attachment none net_show (mkHost a pinned (Some (owner_text stale)) obj n) = (Ok tt, mkHost None pinned None obj n').
Proof using Type.
  intros Hs E2 Ha. unfold detach_owned_stale_attachment. eapply ex_run; [unfold read_owner_record; cbn [h_owner h_calls]; rewrite owner_record_roundtrip by done; reflexivity|cbv beta].
  eapply ex_run; [unfold attached_program_id; cbv [called h_attached h_calls]; rewrite E2; reflexivity|cbv beta].
  destruct Ha as [-> | ->]; [rewrite decide_False by tauto|]; by eexists.
Qed.

(** Running one operation of [attach_program]. *)
Ltac attach_step := eapply ex_run; [unfold szoom, on_error, attached_program_id, load_and_remove, net_attach;
  cbv [fst snd h_attached h_pinned h_owner h_object h_calls called with_object with_pinned with_attached system write_embedded_xdp_object remove_object remove_pins ok_or mjoin option_join on_error szoom sret mg_mode id];
  rewrite ?E0; reflexivity|cbv beta].

Lemma attach_program_run a pinned stale obj n mode new_id : fits 64 (program_id stale) → find_xdp_program_id (net_show a) = a →
  find_xdp_program_id (net_show (Some new_id)) = Some new_id → a = Some (program_id stale) ∨ a = None →
  ∃ n', attach_program none net_show mode new_id (mkHost a pinned (Some (owner_text stale)) obj n, mkManager mode None)
    = (Ok tt, (mkHost (Some new_id) (Some (Some new_id)) (Some (owner_text (mkOwner new_id mode))) false n', mkManager mode (Some new_id))).
Proof using E0.
  intros Hs E2 E1 Ha. unfold attach_program. cbv zeta. attach_step.
  destruct (detach_stale_run a pinned stale true (S n) Hs E2 Ha) as (n1 & Hd).
  eapply ex_run; [unfold szoom, on_error; cbv [fst snd called with_object h_attached h_pinned h_owner h_object h_calls]; rewrite Hd; reflexivity|cbv beta].
  attach_step. attach_step. attach_step. cbn [fst snd h_pinned].
  assert (∃ n2, ((if match pinned with Some _ => true | None => false end then szoom fst (λ h s, (h, s.2)) (remove_pins none) else sret tt)
      : ST (Host * BpfLinkManager) LoaderError unit) (called (mkHost None pinned None true n1), mkManager mode None)
      = (Ok tt, (mkHost None None None true n2, mkManager mode None))) as (n2 & Hp) by (destruct pinned; by eexists).
  eapply ex_run; [exact Hp|cbv beta]. do 7 attach_step. attach_step.
  eapply ex_run; [unfold szoom, attached_program_id; cbv [fst snd h_attached called with_attached h_calls]; rewrite E1; reflexivity|cbv beta].
  rewrite decide_False by tauto. by eexists.
Qed.
End recovery.


(** ** Samples *)

Definition sample_net_show (a : option Z) : Json :=
  JArray [JObject [(txt "flow_dissector", JArray []); (txt "tc", JArray []);
    (txt "xdp", JArray (match a with
                        | Some id => [JObject [(txt "devname", JString (txt "eth0")); (txt "id", JNumber id); (txt "ifindex", JNumber 9)]]
                        | None => []
                        end))]].

Lemma sample_shows : shows_attached sample_net_show.
Proof.
  intros [id|] Hid; [|vm_compute; reflexivity]. specialize (Hid id eq_refl). unfold sample_net_show. simpl. unfold fits in Hid.
  by rewrite decide_True by lia.
Qed.

(** This software attaches program 7 and crashes; another tool puts program 12 in its place. *)
Definition sample_first : outcome LoaderError BpfLinkManager * Host := attach (λ _, None) sample_net_show Native 7 (lf_host (pristine None)).
Definition sample_replaced : Life := mkLife (with_attached (Some 12) sample_first.2) None ({[7]} ∪ ∅).
Definition sample_second : outcome LoaderError BpfLinkManager * Host := attach (λ _, None) sample_net_show Skb 9 (lf_host sample_replaced).

Definition sample_refused : Life := mkLife sample_second.2 None ({[9]} ∪ ({[7]} ∪ ∅)).

Lemma foreign_program_untouched_witness : h_attached (lf_host sample_refused) = Some 12.
Proof.
  assert (life_run sample_net_show (pristine None) sample_replaced) as Hrun.
  { apply (life_other _ _ (mkLife sample_first.2 None ({[7]} ∪ ∅))); [|apply other_attach; [vm_compute; split; [discriminate|reflexivity]|]].
    - apply (life_own _ _ (mkLife sample_first.2 (Some (mkManager Native (Some 7))) ({[7]} ∪ ∅))); [|apply own_crash].
      apply (life_own _ _ (pristine None)); [apply life_nil|].
      apply (own_attach sample_net_show (λ _, None) Native 7 (lf_host (pristine None)) ∅ (Ok (mkManager Native (Some 7))) sample_first.2).
      + vm_compute. split; [discriminate|reflexivity].
      + apply not_elem_of_empty.
      + discriminate.
      + vm_compute. reflexivity.
    - intros [H%elem_of_singleton|H%elem_of_empty]%elem_of_union; [discriminate H|exact H]. }
  apply (foreign_program_untouched sample_net_show None sample_replaced sample_refused 12).
  - apply sample_shows.
  - discriminate.
  - exact Hrun.
  - apply (own_attach sample_net_show (λ _, None) Skb 9 (lf_host sample_replaced) ({[7]} ∪ ∅) (Err (NoLongerOwned 7)) sample_second.2).
    + vm_compute. split; [discriminate|reflexivity].
    + intros [H%elem_of_singleton|H%elem_of_empty]%elem_of_union; [discriminate H|exact H].
    + discriminate.
    + vm_compute. reflexivity.
  - vm_compute. reflexivity.
  - intros [H%elem_of_singleton|H%elem_of_empty]%elem_of_union; [discriminate H|exact H].
Defined.


(** When the stale program cannot be detached the attempt fails and its clean-up removes the
    owner record: the program, still attached, is from then on taken for somebody else's. *)
Example failed_takeover_forgets_owner :
  let fails n := if decide (n = S (S (S (h_calls sample_first.2)))) then Some (txt "EPERM") else None in
  let after := (attach fails sample_net_show Native 9 sample_first.2).2 in
  h_attached after = Some 7 ∧ h_owner after = None ∧ (attach (λ _, None) sample_net_show Native 9 after).1 = Err (Unowned 7).
Proof. vm_compute. split_and!; reflexivity. Qed.
